(* ===== verification/_CoqProject ===== *)
-Q . S2P
Prelude.v
GoString.v
GoPath.v
Utils.v
Coverage.v
Dialect.v
Redis.v
Consistency.v
Config.v
Locks.v
OS.v
Symlinks.v
Logger.v
Storage.v
Confine.v
Sql.v
Metadata.v
FileList.v
AuditWriter.v
Sessions.v
Cache.v
Crypto.v
Timestamp.v
Migration.v
Jwt.v
Auth.v
Access.v
Transfer.v
Commit.v
Demo.v
Upload.v
Multipart.v
Slots.v
Download.v
Expiry.v
FileManager.v
SessionFrame.v
Directory.v
Cleanup.v
Background.v
GoHttp.v
Http.v
HttpFiles.v
HttpRules.v
Routes.v
Metrics.v
ApiKeys.v
HttpSessions.v
Grpc.v
GrpcFiles.v
Etcd.v
Discovery.v
Connection.v
Servers.v
Process.v
