(* ===== verification/Prelude.v ===== *)
(** * fssvrgo: a verification development

    fssvrgo is a file server in Go: clients reach it over HTTP (internal/api/http)
    or gRPC (internal/api/grpc), whole files pass through a file manager, large ones
    through upload and download sessions, the bytes are kept by a storage backend
    (local directory or MinIO), what is known of them by five tables of a relational
    database, and several instances coordinate by locks and sessions in Redis. This
    library translates the Go code function by function into Rocq and proves what the
    parts promise to each other and to the clients.

    ** How the code is written down

    - Go's int64 and int are [Z] with [wrap64] written where an overflow can be seen;
      strings are [string], byte slices [list Byte.byte]; maps are [gmap].
    - A function that mutates a world [W] and may fail is [M W A := W → res A * W]
      (this file): what was mutated before an error stays mutated. [wrapErr],
      [catch], [ignore], [deferring] and [onError] are the ways the code handles
      errors; the text of a message is kept, its formatted arguments are not.
    - The environment of a run is [Sys] (OS.v): a file system and an oracle that
      gives, for every call in turn, the time, random bytes and a fault (none, failed
      before it took effect, or took effect and the reply was lost; a read may break
      off short). Theorems hold for every oracle, with the hypotheses they name: a
      clock that does not run backwards, an atomic write of one call.
    - Code that is not in the repository is a class of operations with its documented
      laws, and a concrete instance that satisfies them is used by the witnesses:
      Redis ([RedisServer], Redis.v), the object store ([ObjectStore], Storage.v), the
      relational engine ([SqlEngine], Sql.v), AES-GCM (Crypto.v), the JWT library
      (Jwt.v), the JSON codec of sessions (Sessions.v), the etcd server ([EtcdServer],
      Etcd.v), the drivers of database/sql ([SqlDriver], Connection.v), the collectors of
      Prometheus ([Collectors], Metrics.v), the buckets of the object store ([BucketAPI],
      Servers.v). SHA-256, the UUID generator, the YAML decoder, gin's router and what
      net/http and grpc do with a listener are plain parameters.
    - One operation is atomic unless a file says otherwise: the code serialises it by
      a mutex or a lock whose mutual exclusion is a theorem here. Interleavings are
      explicit for parallel downloads (a schedule of segments), the audit writer (a
      step relation), prepared statements (a schedule of goroutines), the background
      loops (a history of ticks, passes and signals), locks and token refreshes (sequences
      of other clients' operations in between).

    ** Files

    Language and library: Prelude (monad, errors, integers, automation), GoString and
    GoPath (package strings and path/filepath), OS (files, faults, clock), Symlinks
    (the same calls on a file system with symbolic links), Sql (select, insert under
    unique constraints, update, delete, LIKE, the order of a result), Redis.

    - Utils.v, Timestamp.v: internal/utils. Validators and path normalisation;
      RFC 3339 timestamps.
    - Coverage.v: the covered ranges of a multipart upload (transfer/multipart.go).
    - Dialect.v: internal/database/dialect.go and db.go. Placeholders; the map of
      prepared statements shared by goroutines. Logger.v: internal/logger.
    - Consistency.v, Config.v: internal/consistency, internal/config and what the
      entry point does with them.
    - Locks.v, Sessions.v: internal/distributed. [DistributedLock] and [SessionStore]
      are classes with laws; the local and the Redis implementations are instances.
    - Storage.v: internal/storage. [StorageAdapter] with [StorageLaws]; [LocalFS] and
      [MinIO] are instances, so that every client below is proved for both. The laws are
      those of a file system without symbolic links; Confine.v has the guard of the local
      backend against path traversal on one that has them.
    - Metadata.v: internal/database/metadata.go, the five services. FileList.v:
      internal/service/filelist. Migration.v, AuditWriter.v, Cleanup.v: the files of
      that name in internal/database. Background.v: the goroutines with a ticker (clean-up
      of the database and of sessions, the consistency manager, the cache, unused locks),
      as instances of one loop, and the threads of the transfer service.
    - Cache.v: internal/cache. Crypto.v: internal/crypto. Jwt.v, Auth.v: internal/auth.
      Access.v: the middleware and interceptors of both front ends.
    - Transfer.v: the definitions of internal/service/transfer, used by Upload.v,
      Multipart.v, Download.v, Slots.v and Expiry.v, which hold the theorems; Commit.v
      proves the common end of both kinds of upload, SessionFrame.v what a completion
      leaves alone, Demo.v has the concrete world of the witnesses.
    - FileManager.v, Directory.v: internal/service/filemanager and directory.
    - GoHttp.v: what the handlers use of strconv, gin and net/http. Http.v: the handlers
      and middleware of internal/api/http; HttpFiles.v: uploads and downloads from one end
      to the other; HttpRules.v: what holds for all routes; Routes.v: the table of
      routes and the way of a request through the engine; ApiKeys.v: the life of an API
      key across requests; HttpSessions.v: an upload session over HTTP; Metrics.v:
      internal/metrics and the middleware that feeds it.
    - Grpc.v: the messages, handlers and interceptors of internal/api/grpc;
      GrpcFiles.v: its theorems.
    - Etcd.v: internal/etcd. Discovery.v: internal/discovery, with the abstract registry
      it refines. Connection.v: internal/database/database.go. Servers.v: listening and
      shutting down of both front ends, and the constructors of the clients of Redis, etcd
      and MinIO. Process.v: cmd/fsserver/main.go, the order of start and shutdown and the
      first schema.

    ** What the theorems show

    - Data is not lost or altered: a file uploaded over HTTP is downloaded as it was,
      whole or in ranges, encrypted or not (HttpFiles; but for an upload whose answer has
      the size 0 because the size of what it stored could not be read), also when it was
      sent in chunks through a session (HttpSessions), and one uploaded over gRPC without
      encryption is streamed back as it was (GrpcFiles); a completed upload, chunked or multipart, stores
      exactly the accepted bytes and records their hash and size (Upload, Multipart),
      and no other file changes, also when it fails (SessionFrame);
      downloads, also parallel ones, return exact slices (Download); whole-file
      operations keep metadata and bytes in agreement, and a rename never loses the file it
      renames, whatever fails (FileManager, Storage); directory operations touch exactly
      the rows whose path is below the directory, atomically (Directory); the clean-up
      removes only what was deleted before its cutoff (Cleanup).
    - Isolation and safety: accepted paths stay below the root (Utils), also through
      symbolic links (Confine); others
      are refused by every route without effect (HttpRules);
      sessions do not disturb each other (Upload); every HTTP route and every gRPC call
      is reached only with a genuine credential whose role allows what the handler does,
      and a refusal has no effect (Access, Routes, GrpcFiles); a key created over HTTP
      works, whatever requests come in between, until it is removed, and then never again
      (ApiKeys); a refresh token works once (Jwt); locks exclude each other and renewal
      keeps them (Locks); statements are never sent through a closed or foreign handle
      (Dialect).
    - Bounds and resources: session slots balance as long as no session is restored from
      the store (Slots), also after a gRPC stream of
      any shape (GrpcFiles), expiry is exact (Expiry), at most one clean-up thread goes on
      and a stopped one ends (Background), the open connection pool is the
      record's (Connection), the parts of the process, the cache apart, stop in the
      reverse order of their start (Process), the servers are down within twenty seconds (Servers),
      every answered API request is counted once (Metrics), the rate limit is exact
      (Auth), retries are bounded (Locks), a started server has a
      well-formed configuration (Config), quorums intersect (Consistency).
    - Refinements and equivalences: the cache behaves as an abstract LRU list (Cache);
      the service discovery as an abstract registry, in which a registered instance is
      listed until its lease ends (Discovery);
      covered ranges do not depend on the order of arrival (Coverage); the pages of a
      listing are slices of the sorted matching rows (FileList); the audit log is the
      sequence of accepted entries, and a Close that succeeds has written them all
      (AuditWriter); a run of migrations is the pending ones in
      order and can be resumed (Migration); round trips of timestamps, encryption,
      sessions and storage.
    - Lemmas named in the findings of the manifest show where the code does not do what
      it means to, each on a concrete run.

    ** Fuel and bounds

    [resolveLoop] (Storage) gets the length of the path, since every round takes the
    last segment off; the batches of a directory deletion (Directory) get one more than
    the number of rows, and [directory_delete] shows that they are enough; the retry
    loop of locks recurses on the code's own retry count; the loop of a gRPC download
    gets two more than the bytes that are left, since every message carries at least one,
    and [grpc_round_trip] shows that it ends. Every other recursion is structural.

    ** Not modelled

    The generated protocol code, the helpers of the tests, the getters of the configuration
    and the functions of internal/utils that nothing calls. The construction of the services
    in main, which hands arguments on. The encoders of the log and the text of the metrics
    page, which are libraries' own. The 30-second time-outs around storage calls (their
    expiry is a fault of the call) and partial writes of one system call. Symbolic links
    have absolute targets, and are there only in Confine.v; the clients of the storage are
    proved on a file system without them. A file handle stands for its path, so that what
    an unlinked file still holds for those that have it open is not there. Rows that tie in
    the ORDER BY of a directory listing come in any order, which can change with every
    query; the other queries with an order keep the order of the table. Times that a query
    compares ([comparesTimes], Cleanup.v) are compared as instants or as text, and local
    time is UTC and an offset ([zone]). A range over a map visits it in an
    order given as a parameter where the order matters. What is left is I/O or a call handed
    on to a library: there is nothing of the program's own to state about it. *)

From stdpp Require Export base gmap strings list fin_maps numbers sorting.
From Stdlib Require Export ZArith Lia.

#[export] Set Default Goal Selector "!".

Declare Scope go_scope.
Delimit Scope go_scope with go.

(** ** Machine integers

    Go's [int64] (and [int] on the 64-bit targets) is two's complement: every
    arithmetic operation whose overflow can be observed is written with
    [wrap64]. *)

Definition int64_max : Z := 2 ^ 63 - 1.
Definition int64_min : Z := - 2 ^ 63.

Definition wrap64 (z : Z) : Z := (z + 2 ^ 63) `mod` 2 ^ 64 - 2 ^ 63.

Definition in64 (z : Z) : Prop := (int64_min ≤ z ≤ int64_max)%Z.

Notation "a +₆₄ b" := (wrap64 (a + b)) (at level 50, left associativity) : go_scope.
Notation "a -₆₄ b" := (wrap64 (a - b)) (at level 50, left associativity) : go_scope.
Notation "a *₆₄ b" := (wrap64 (a * b)) (at level 40, left associativity) : go_scope.

Section wrap64.
Local Open Scope Z_scope.

Lemma wrap64_id z : in64 z → wrap64 z = z.
Proof.
  unfold in64, int64_min, int64_max, wrap64. intros H.
  rewrite Z.mod_small; lia.
Qed.

Lemma wrap64_in64 z : in64 (wrap64 z).
Proof.
  unfold in64, int64_min, int64_max, wrap64.
  pose proof (Z.mod_pos_bound (z + 2 ^ 63) (2 ^ 64)). lia.
Qed.

Lemma wrap64_add_l a b : wrap64 (wrap64 a + b) = wrap64 (a + b).
Proof.
  unfold wrap64. f_equal.
  replace ((a + 2 ^ 63) `mod` 2 ^ 64 - 2 ^ 63 + b + 2 ^ 63)
    with ((a + 2 ^ 63) `mod` 2 ^ 64 + b) by lia.
  rewrite Zplus_mod_idemp_l. f_equal. lia.
Qed.

Lemma wrap64_cases z :
  - 2 ^ 64 - 2 ^ 63 ≤ z < 2 ^ 63 + 2 ^ 64 →
  wrap64 z = z ∨ (z < int64_min ∧ wrap64 z = z + 2 ^ 64)
  ∨ (int64_max < z ∧ wrap64 z = z - 2 ^ 64).
Proof.
  unfold wrap64, int64_min, int64_max. intros Hz.
  assert (z < - 2 ^ 63 ∨ - 2 ^ 63 ≤ z < 2 ^ 63 ∨ 2 ^ 63 ≤ z) as [?|[?|?]] by lia.
  - right; left. split; [lia|].
    rewrite <-(Z_mod_plus_full _ 1), Z.mod_small; lia.
  - left. rewrite Z.mod_small; lia.
  - right; right. split; [lia|].
    rewrite <-(Z_mod_plus_full _ (-1)), Z.mod_small; lia.
Qed.
End wrap64.

Create HintDb ranges discriminated.
Create Rewrite HintDb ranges.

(** ** Tactics

    [bool_prop] turns the boolean guards of the code into propositions;
    [go_cases] splits on every [match] and [if] of a program and does so. *)

Ltac bool_prop :=
  repeat match goal with
  | H : context [negb _ = true] |- _ => rewrite negb_true_iff in H
  | H : context [negb _ = false] |- _ => rewrite negb_false_iff in H
  | H : _ || _ = false |- _ => apply orb_false_iff in H as [? ?]
  | H : _ || _ = true |- _ => apply orb_true_iff in H
  | H : _ && _ = true |- _ => apply andb_true_iff in H as [? ?]
  | H : _ && _ = false |- _ => apply andb_false_iff in H
  | H : bool_decide _ = false |- _ => apply bool_decide_eq_false in H
  | H : bool_decide _ = true |- _ => apply bool_decide_eq_true in H
  | H : (_ <? _)%Z = true |- _ => apply Z.ltb_lt in H
  | H : (_ <? _)%Z = false |- _ => apply Z.ltb_ge in H
  | H : (_ <=? _)%Z = true |- _ => apply Z.leb_le in H
  | H : (_ <=? _)%Z = false |- _ => apply Z.leb_gt in H
  | H : (_ =? _)%Z = true |- _ => apply Z.eqb_eq in H
  | H : (_ =? _)%Z = false |- _ => apply Z.eqb_neq in H
  | H : (_ <? _) = true |- _ => apply Nat.ltb_lt in H
  | H : (_ <? _) = false |- _ => apply Nat.ltb_ge in H
  | H : (_ <=? _) = true |- _ => apply Nat.leb_le in H
  | H : (_ <=? _) = false |- _ => apply Nat.leb_gt in H
  end.

Ltac go_cases := repeat (case_match; simplify_eq/=; try done); bool_prop.

(** ** Errors

    A Go [error] is a message, a sentinel value, or a message wrapped around
    another error with [%w]. The static text of a message is kept and its
    formatted arguments are not, since no code branches on them. *)

Inductive error :=
| ErrMsg (msg : string)
| ErrWrap (msg : string) (inner : error)
| ErrLockConflict
| ErrLockNotHeld
| ErrNoRows
| ErrNotExist
| ErrMinio (code : string)
| ErrDeadline
| ErrWriteAtUnsupported.

#[export] Instance error_eq_dec : EqDecision error.
Proof. solve_decision. Defined.

(** [errors.Is]: the target occurs along the chain of wrapped errors. *)
Fixpoint errorsIs (e target : error) : bool :=
  bool_decide (e = target) ||
  match e with
  | ErrWrap _ inner => errorsIs inner target
  | _ => false
  end.

(** ** Results and the state-and-error monad

    A Go function that returns [(A, error)] and mutates a world [W] is a
    function [W → res A * W]: the mutations made before an error stay. *)

Inductive res (A : Type) :=
| Ok (a : A)
| Err (e : error).
Arguments Ok {A} a.
Arguments Err {A} e.

#[export] Instance res_eq_dec `{EqDecision A} : EqDecision (res A).
Proof. solve_decision. Defined.

Definition is_ok {A} (r : res A) : bool :=
  match r with Ok _ => true | Err _ => false end.

Definition res_map_err {A} (f : error → error) (r : res A) : res A :=
  match r with Ok a => Ok a | Err e => Err (f e) end.

#[export] Instance res_ret : MRet res := λ A a, Ok a.
#[export] Instance res_bind : MBind res := λ A B f r,
  match r with Ok a => f a | Err e => Err e end.

Definition M (W A : Type) : Type := W → res A * W.

Section monad.
Context {W : Type}.

#[export] Instance M_ret : MRet (M W) := λ A a w, (Ok a, w).
#[export] Instance M_bind : MBind (M W) := λ A B f m w,
  match m w with
  | (Ok a, w') => f a w'
  | (Err e, w') => (Err e, w')
  end.

Definition throw {A} (e : error) : M W A := λ w, (Err e, w).
Definition get : M W W := λ w, (Ok w, w).
Definition gets {A} (f : W → A) : M W A := λ w, (Ok (f w), w).
Definition modify (f : W → W) : M W unit := λ w, (Ok tt, f w).
Definition lift {A} (r : res A) : M W A := λ w, (r, w).

(** [if err := m; err != nil { return fmt.Errorf(msg: %w, err) }] *)
Definition wrapErr {A} (msg : string) (m : M W A) : M W A := λ w,
  let '(r, w') := m w in (res_map_err (ErrWrap msg) r, w').

(** The outcome as a value, for code that inspects [err] itself. *)
Definition catch {A} (m : M W A) : M W (res A) := λ w,
  let '(r, w') := m w in (Ok r, w').

(** A call whose error is ignored or only logged. *)
Definition ignore {A} (m : M W A) : M W unit := λ w,
  let '(_, w') := m w in (Ok tt, w').

(** [defer c] followed by the rest of the function: [c] runs on every exit. *)
Definition deferring {A B} (m : M W A) (c : M W B) : M W A := λ w,
  let '(r, w') := m w in let '(_, w'') := c w' in (r, w'').

(** [if err != nil { c; return err }] *)
Definition onError {A B} (m : M W A) (c : M W B) : M W A := λ w,
  match m w with
  | (Ok a, w') => (Ok a, w')
  | (Err e, w') => let '(_, w'') := c w' in (Err e, w'')
  end.

Definition guard (b : bool) (e : error) : M W unit :=
  if b then mret tt else throw e.
End monad.

Notation "m ⨟ k" := (mbind (λ _, k) m)
  (at level 100, right associativity, only parsing) : go_scope.

(** ** Reasoning about programs

    [steps R m]: every run of [m], failing ones included, relates the state
    before to the state after by the preorder [R]. *)

Create HintDb steps discriminated.

Definition steps {W A} (R : W → W → Prop) (m : M W A) : Prop := ∀ w, R w (m w).2.

Section steps.
Context {W : Type} (R : W → W → Prop) `{!PreOrder R}.

Lemma steps_ret {A} (a : A) : steps R (mret a).
Proof. intros w. simpl. reflexivity. Qed.

Lemma steps_throw {A} e : steps R (throw (A := A) e).
Proof. intros w. simpl. reflexivity. Qed.

Lemma steps_gets {A} (f : W → A) : steps R (gets f).
Proof. intros w. simpl. reflexivity. Qed.

Lemma steps_get : steps R get.
Proof. intros w. simpl. reflexivity. Qed.

Lemma steps_lift {A} (r : res A) : steps R (lift r).
Proof. intros w. simpl. reflexivity. Qed.

Lemma steps_modify f : (∀ w, R w (f w)) → steps R (modify f).
Proof. intros Hf w. apply Hf. Qed.

Lemma steps_bind {A B} (m : M W A) (f : A → M W B) :
  steps R m → (∀ a, steps R (f a)) → steps R (m ≫= f).
Proof.
  intros Hm Hf w. specialize (Hm w). unfold mbind, M_bind.
  destruct (m w) as [[a|e] w']; simpl in *; [|done]. etrans; [done|apply Hf].
Qed.

Lemma steps_wrapErr {A} msg (m : M W A) : steps R m → steps R (wrapErr msg m).
Proof. intros Hm w. specialize (Hm w). unfold wrapErr. by destruct (m w). Qed.

Lemma steps_catch {A} (m : M W A) : steps R m → steps R (catch m).
Proof. intros Hm w. specialize (Hm w). unfold catch. by destruct (m w). Qed.

Lemma steps_ignore {A} (m : M W A) : steps R m → steps R (ignore m).
Proof. intros Hm w. specialize (Hm w). unfold ignore. by destruct (m w). Qed.

Lemma steps_deferring {A B} (m : M W A) (c : M W B) :
  steps R m → steps R c → steps R (deferring m c).
Proof.
  intros Hm Hc w. specialize (Hm w). unfold deferring. destruct (m w) as [r w1].
  specialize (Hc w1). destruct (c w1). simpl in *. by etrans.
Qed.

Lemma steps_onError {A B} (m : M W A) (c : M W B) :
  steps R m → steps R c → steps R (onError m c).
Proof.
  intros Hm Hc w. specialize (Hm w). unfold onError. destruct (m w) as [[a|e] w1]; [done|].
  specialize (Hc w1). destruct (c w1). simpl in *. by etrans.
Qed.

Lemma steps_guard b e : steps R (guard b e).
Proof. unfold guard. destruct b; auto using steps_ret, steps_throw. Qed.

Lemma steps_if {A} (b : bool) (m1 m2 : M W A) :
  steps R m1 → steps R m2 → steps R (if b then m1 else m2).
Proof. by destruct b. Qed.
End steps.

#[export] Hint Resolve steps_ret steps_throw steps_gets steps_get steps_lift steps_bind
  steps_wrapErr steps_catch steps_ignore steps_deferring steps_onError steps_guard
  steps_if : steps.

(** Walk through a program; what is left are its basic calls. *)
Ltac steps_auto :=
  repeat lazymatch goal with
  | |- steps _ (mbind _ _) => apply steps_bind; [apply _| |intros ?]
  | |- steps _ (wrapErr _ _) => apply steps_wrapErr
  | |- steps _ (catch _) => apply steps_catch
  | |- steps _ (ignore _) => apply steps_ignore
  | |- steps _ (deferring _ _) => apply steps_deferring; [apply _|..]
  | |- steps _ (onError _ _) => apply steps_onError; [apply _|..]
  | |- steps _ (mret _) => apply steps_ret, _
  | |- steps _ (throw _) => apply steps_throw, _
  | |- steps _ (guard _ _) => apply steps_guard, _
  | |- steps _ (lift _) => apply steps_lift, _
  | |- steps _ (gets _) => apply steps_gets, _
  | |- steps _ (if ?b then _ else _) => first [apply steps_if | destruct b]
  | |- steps _ (match ?x with _ => _ end) => destruct x
  | |- steps _ (let _ := _ in _) => cbv zeta
  | |- steps _ _ => solve [auto with steps]
  end.

(** ** Successful runs *)

Section ok.
Context {W : Type}.

Lemma bind_ok {A B} (m : M W A) (f : A → M W B) w b w' :
  (m ≫= f) w = (Ok b, w') → ∃ a w1, m w = (Ok a, w1) ∧ f a w1 = (Ok b, w').
Proof.
  unfold mbind, M_bind. destruct (m w) as [[a|e] w1]; [eauto|done].
Qed.

Lemma bind_ext {A B} (m : M W A) (f g : A → M W B) w :
  (∀ a w', f a w' = g a w') → (m ≫= f) w = (m ≫= g) w.
Proof. intros Hfg. unfold mbind, M_bind. by destruct (m w) as [[a|e] w']. Qed.

Lemma bind_assoc {A B C} (m : M W A) (f : A → M W B) (g : B → M W C) w :
  ((m ≫= f) ≫= g) w = (m ≫= λ a, f a ≫= g) w.
Proof. unfold mbind, M_bind. by destruct (m w) as [[a|e] w']. Qed.

Lemma bind_err {A B} (m : M W A) (f : A → M W B) w e w' :
  (m ≫= f) w = (Err e, w') →
  m w = (Err e, w') ∨ ∃ a w1, m w = (Ok a, w1) ∧ f a w1 = (Err e, w').
Proof.
  unfold mbind, M_bind. destruct (m w) as [[a|e1] w1]; [eauto|]. intros [= -> ->]. by left.
Qed.

Lemma guard_err b e0 w e w' : guard (W := W) b e0 w = (Err e, w') → w' = w.
Proof. unfold guard. by destruct b; intros [= _ <-]. Qed.

Lemma wrapErr_ok {A} msg (m : M W A) w a w' : wrapErr msg m w = (Ok a, w') → m w = (Ok a, w').
Proof. unfold wrapErr. destruct (m w) as [[|] ?]; simpl; congruence. Qed.

Lemma onError_ok {A B} (m : M W A) (c : M W B) w a w' :
  onError m c w = (Ok a, w') → m w = (Ok a, w').
Proof.
  unfold onError. destruct (m w) as [[|] w1]; [done|]. destruct (c w1); congruence.
Qed.

Lemma deferring_ok {A B} (m : M W A) (c : M W B) w a w' :
  deferring m c w = (Ok a, w') → ∃ w1, m w = (Ok a, w1) ∧ w' = (c w1).2.
Proof.
  unfold deferring. destruct (m w) as [r w1]. destruct (c w1) eqn:E.
  intros [= -> ->]. exists w1. by rewrite E.
Qed.

Lemma guard_ok b e w a w' : guard (W := W) b e w = (Ok a, w') → b = true ∧ w' = w.
Proof. unfold guard. destruct b; intros [= <- <-]; done. Qed.

Lemma ret_ok {A} (a b : A) (w w' : W) : mret (M := M W) a w = (Ok b, w') → b = a ∧ w' = w.
Proof. by intros [= <- <-]. Qed.

Lemma throw_ok {A} e (b : A) (w w' : W) : throw e w = (Ok b, w') → False.
Proof. done. Qed.

Lemma gets_ok {A} (f : W → A) w b w' : gets f w = (Ok b, w') → b = f w ∧ w' = w.
Proof. by intros [= <- <-]. Qed.

Lemma modify_ok (f : W → W) w b w' : modify f w = (Ok b, w') → w' = f w.
Proof. by intros [= <- <-]. Qed.

Lemma catch_ok {A} (m : M W A) w r w' : catch m w = (Ok r, w') → m w = (r, w').
Proof. unfold catch. destruct (m w). by intros [= <- <-]. Qed.

Lemma ignore_ok {A} (m : M W A) w r w' : ignore m w = (Ok r, w') → w' = (m w).2.
Proof. unfold ignore. destruct (m w). by intros [= <- <-]. Qed.

Lemma lift_ok {A} (r : res A) w a w' : lift (W := W) r w = (Ok a, w') → r = Ok a ∧ w' = w.
Proof. by intros [= <- <-]. Qed.
End ok.

(** A run is known from its outcome. *)
Lemma outcome {W A} (x : res A * W) r : x.1 = r → x = (r, x.2).
Proof. intros <-. by destruct x. Qed.

(** Follow a successful run through the program. *)
Ltac run_ok H :=
  lazymatch type of H with
  | mbind _ _ _ = (Ok _, _) =>
      let a := fresh "x" in let w := fresh "w" in let H1 := fresh "Hr" in
      apply bind_ok in H as (a & w & H1 & H); run_ok H1; run_ok H
  | wrapErr _ _ _ = _ => apply wrapErr_ok in H; run_ok H
  | onError _ _ _ = _ => apply onError_ok in H; run_ok H
  | deferring _ _ _ = _ =>
      let w := fresh "w" in apply deferring_ok in H as (w & H & ?); run_ok H
  | guard _ _ _ = _ => apply guard_ok in H as [? ?]
  | mret _ _ = _ => apply ret_ok in H as [? ?]
  | throw _ _ = _ => by apply throw_ok in H
  | gets _ _ = _ => apply gets_ok in H as [? ?]
  | modify _ _ = _ => apply modify_ok in H
  | catch _ _ = _ => apply catch_ok in H
  | ignore _ _ = _ => apply ignore_ok in H
  | lift _ _ = _ => apply lift_ok in H as [? ?]
  | _ => idtac
  end.

(** Triples for successful runs. *)
Definition hoare {W A} (P : W → Prop) (m : M W A) (Q : A → W → Prop) : Prop :=
  ∀ w a w', P w → m w = (Ok a, w') → Q a w'.

Section hoare.
Context {W : Type}.

Lemma hoare_bind {A B} P (m : M W A) Q (f : A → M W B) R :
  hoare P m Q → (∀ a, hoare (Q a) (f a) R) → hoare P (m ≫= f) R.
Proof. intros Hm Hf w b w' HP (a & w1 & H1 & H2)%bind_ok. eapply Hf; [|done]. by eapply Hm. Qed.

Lemma hoare_seq {A B} P (m : M W A) Q (k : M W B) R :
  hoare P m (λ _, Q) → hoare Q k R → hoare P (m ≫= λ _, k) R.
Proof. intros. by eapply hoare_bind. Qed.

Lemma hoare_wrapErr {A} P msg (m : M W A) Q : hoare P m Q → hoare P (wrapErr msg m) Q.
Proof. intros Hm w a w' HP H%wrapErr_ok. by eapply Hm. Qed.

Lemma hoare_onError {A B} P (m : M W A) (c : M W B) Q : hoare P m Q → hoare P (onError m c) Q.
Proof. intros Hm w a w' HP H%onError_ok. by eapply Hm. Qed.

Lemma hoare_ret {A} (P : A → W → Prop) a : hoare (P a) (mret a) P.
Proof. by intros w b w' HP [-> ->]%ret_ok. Qed.

Lemma hoare_gets {A} (P : A → W → Prop) (f : W → A) : hoare (λ w, P (f w) w) (gets f) P.
Proof. by intros w b w' HP [-> ->]%gets_ok. Qed.

Lemma hoare_modify (P : W → Prop) (f : W → W) : hoare (λ w, P (f w)) (modify f) (λ _, P).
Proof. by intros w b w' HP ->%modify_ok. Qed.

Lemma hoare_guard (P : W → Prop) b e : hoare P (guard b e) (λ _ w, P w ∧ b = true).
Proof. by intros w a w' HP [-> ->]%guard_ok. Qed.

Lemma hoare_throw {A} (P : W → Prop) e Q : hoare P (throw (A := A) e) Q.
Proof. by intros w a w' _ H%throw_ok. Qed.

Lemma hoare_conseq {A} (P P' : W → Prop) (m : M W A) (Q Q' : A → W → Prop) :
  hoare P' m Q' → (∀ w, P w → P' w) → (∀ a w, Q' a w → Q a w) → hoare P m Q.
Proof. unfold hoare. eauto. Qed.

Lemma hoare_steps {A} (R : W → W → Prop) (P : W → Prop) (m : M W A) :
  steps R m → (∀ w w', P w → R w w' → P w') → hoare P m (λ _, P).
Proof. intros Hm HR w a w' HP H. specialize (Hm w). rewrite H in Hm. by eapply HR. Qed.
End hoare.

(** Triples for both outcomes: [Q] after success, [E] after an error. *)
Definition triple {W A} (P : W → Prop) (m : M W A) (Q : A → W → Prop) (E : W → Prop) : Prop :=
  ∀ w, P w → match m w with (Ok a, w') => Q a w' | (Err _, w') => E w' end.

Section triple.
Context {W : Type}.
Implicit Types (P E : W → Prop).

Lemma triple_bind {A B} P (m : M W A) Q (f : A → M W B) R E :
  triple P m Q E → (∀ a, triple (Q a) (f a) R E) → triple P (m ≫= f) R E.
Proof.
  intros Hm Hf w HP. specialize (Hm w HP). unfold mbind, M_bind.
  destruct (m w) as [[a|e] w']; [by apply Hf|done].
Qed.

Lemma triple_ret {A} (P : A → W → Prop) a E : triple (P a) (mret a) P E.
Proof. by intros w HP. Qed.

Lemma triple_throw {A} P e (Q : A → W → Prop) : triple P (throw e) Q P.
Proof. by intros w HP. Qed.

Lemma triple_guard P b e : triple P (guard b e) (λ _ w, P w) P.
Proof. intros w HP. by destruct b. Qed.

Lemma triple_wrapErr {A} P msg (m : M W A) Q E : triple P m Q E → triple P (wrapErr msg m) Q E.
Proof. intros Hm w HP. specialize (Hm w HP). unfold wrapErr. by destruct (m w) as [[]]. Qed.

Lemma triple_onError {A B} P (m : M W A) (c : M W B) Q E E' :
  triple P m Q E → triple E c (λ _, E') E' → triple P (onError m c) Q E'.
Proof.
  intros Hm Hc w HP. specialize (Hm w HP). unfold onError. destruct (m w) as [[a|e] w1]; [done|].
  specialize (Hc w1 Hm). by destruct (c w1) as [[]].
Qed.

Lemma triple_deferring {A B} P (m : M W A) (c : M W B) Q E Q' E' :
  triple P m Q E → (∀ a, triple (Q a) c (λ _, Q' a) (Q' a)) → triple E c (λ _, E') E' →
  triple P (deferring m c) Q' E'.
Proof.
  intros Hm HQ HE w HP. specialize (Hm w HP). unfold deferring.
  destruct (m w) as [[a|e] w1]; [specialize (HQ a w1 Hm)|specialize (HE w1 Hm)];
    by destruct (c w1) as [[]].
Qed.

Lemma triple_ignore {A} P (m : M W A) Q E :
  triple P m (λ _, Q) Q → triple P (ignore m) (λ _, Q) E.
Proof. intros Hm w HP. specialize (Hm w HP). unfold ignore. by destruct (m w) as [[]]. Qed.

Lemma triple_catch {A} P (m : M W A) Q E :
  triple P m (λ _, Q) Q → triple P (catch m) (λ _, Q) E.
Proof. intros Hm w HP. specialize (Hm w HP). unfold catch. by destruct (m w) as [[]]. Qed.

Lemma triple_modify (P : W → Prop) (Q : W → Prop) f E :
  (∀ w, P w → Q (f w)) → triple P (modify f) (λ _, Q) E.
Proof. intros Hf w HP. by apply Hf. Qed.

Lemma triple_steps {A} (R : W → W → Prop) P (m : M W A) :
  steps R m → (∀ w w', P w → R w w' → P w') → triple P m (λ _, P) P.
Proof.
  intros Hm HR w HP. specialize (Hm w). destruct (m w) as [[a|e] w']; by eapply HR.
Qed.

Lemma triple_conseq {A} (P P' : W → Prop) (m : M W A) (Q Q' : A → W → Prop) (E E' : W → Prop) :
  triple P' m Q' E' → (∀ w, P w → P' w) → (∀ a w, Q' a w → Q a w) → (∀ w, E' w → E w) →
  triple P m Q E.
Proof.
  intros Hm HP HQ HE w Hw. specialize (Hm w (HP w Hw)).
  destruct (m w) as [[a|e] w']; [by apply HQ|by apply HE].
Qed.

(** Sequencing, where the first program's failure leaves more than is needed. *)
Lemma triple_seq {A B} P (m : M W A) Q E0 (f : A → M W B) R E :
  triple P m Q E0 → (∀ w, E0 w → E w) → (∀ a, triple (Q a) (f a) R E) → triple P (m ≫= f) R E.
Proof. intros Hm HE Hf. eapply triple_bind; [|exact Hf]. by eapply triple_conseq. Qed.
End triple.

(** [stepsFrom P R m]: as [steps], for runs that start in [P]. *)
Definition stepsFrom {W A} (P : W → Prop) (R : W → W → Prop) (m : M W A) : Prop :=
  ∀ w, P w → R w (m w).2.

Lemma steps_from {W A} (P : W → Prop) (R : W → W → Prop) (m : M W A) :
  steps R m → stepsFrom P R m.
Proof. intros Hm w _. apply Hm. Qed.

Lemma stepsFrom_bind {W A B} (P : W → Prop) (Q : A → W → Prop) (R : W → W → Prop)
    `{!Transitive R} (m : M W A) (f : A → M W B) :
  stepsFrom P R m → hoare P m Q → (∀ a, stepsFrom (Q a) R (f a)) → stepsFrom P R (m ≫= f).
Proof.
  intros Hm Hh Hf w HP. specialize (Hm w HP). unfold mbind, M_bind.
  destruct (m w) as [[a|e] w'] eqn:E; simpl in *; [|done].
  etrans; [done|]. apply Hf. by eapply Hh.
Qed.

(** ** Lists with a key *)

Lemma NoDup_key {A K} (key : A → K) (l : list A) x y :
  NoDup (key <$> l) → x ∈ l → y ∈ l → key x = key y → x = y.
Proof.
  induction l as [|a l IH]; [by intros _ ?%elem_of_nil|].
  intros [Ha Hl]%NoDup_cons Hx Hy Hk.
  apply elem_of_cons in Hx as [->|Hx], Hy as [->|Hy]; [done|..|by apply IH];
    exfalso; apply Ha; [rewrite Hk|rewrite <-Hk]; by apply list_elem_of_fmap_2.
Qed.

Lemma head_filter {A} (P : A → Prop) `{∀ x, Decision (P x)} (l : list A) x :
  (∀ y z, y ∈ l → z ∈ l → P y → P z → y = z) →
  head (filter P l) = Some x ↔ x ∈ l ∧ P x.
Proof.
  intros Hu. split.
  - intros Hh. assert (x ∈ filter P l) as Hx.
    { destruct (filter P l); simplify_eq/=. by left. }
    apply list_elem_of_filter in Hx as [? ?]. done.
  - intros [Hx HP]. destruct (filter P l) as [|y l'] eqn:E.
    + assert (x ∈ filter P l) as Hin by (by apply list_elem_of_filter).
      rewrite E in Hin. by apply elem_of_nil in Hin.
    + assert (y ∈ filter P l) as Hy by (rewrite E; by left).
      apply list_elem_of_filter in Hy as [? ?]. simpl. f_equal. by apply Hu.
Qed.

Lemma elem_of_page {A} (x : A) n k (l : list A) : x ∈ take n (drop k l) → x ∈ l.
Proof.
  intros (i & Hi & _)%elem_of_take. rewrite lookup_drop in Hi.
  by apply list_elem_of_lookup_2 in Hi.
Qed.

Lemma filter_all {A} (P : A → Prop) `{∀ x, Decision (P x)} (l : list A) :
  Forall P l → filter P l = l.
Proof. induction 1; [done|]. rewrite filter_cons_True by done. by f_equal. Qed.

Lemma filter_ext_in {A} (P Q : A → Prop) `{∀ x, Decision (P x), ∀ x, Decision (Q x)} (l : list A) :
  (∀ x, x ∈ l → P x ↔ Q x) → filter P l = filter Q l.
Proof.
  induction l as [|a l IH]; intros Heq; [done|].
  specialize (IH ltac:(intros; apply Heq; by right)). specialize (Heq a ltac:(left)).
  rewrite !filter_cons, IH. by destruct (decide (P a)), (decide (Q a)); try tauto.
Qed.
