(* ===== verification/GoString.v ===== *)
(** * Go strings

    A Go string is a sequence of bytes: here Rocq's [string], whose characters
    are the 256 byte values. This file models the functions of package
    [strings] the program calls, with the lemmas on prefixes, splitting and
    joining that the path and SQL components share. *)

From S2P Require Export Prelude.
From Stdlib Require Import Ascii.

Abbreviation slash := "/"%char.

#[global] Arguments String.append : simpl never.

(** ** Length, append, take and drop *)

Fixpoint slen (s : string) : nat :=
  match s with EmptyString => 0 | String _ s => S (slen s) end.

Fixpoint sdrop (n : nat) (s : string) : string :=
  match n, s with
  | 0, _ => s
  | S n, String _ s => sdrop n s
  | S _, EmptyString => EmptyString
  end.

Fixpoint stake (n : nat) (s : string) : string :=
  match n, s with
  | S n, String c s => String c (stake n s)
  | _, _ => EmptyString
  end.

Fixpoint sIn (c : ascii) (s : string) : bool :=
  match s with
  | EmptyString => false
  | String d s => bool_decide (c = d) || sIn c s
  end.

Lemma append_nil_l s : "" +:+ s = s.
Proof. done. Qed.
Lemma append_cons c s t : String c s +:+ t = String c (s +:+ t).
Proof. done. Qed.
Lemma append_nil_r s : s +:+ "" = s.
Proof. induction s as [|c s IH]; [done|]. by rewrite append_cons, IH. Qed.
Lemma append_assoc s t u : (s +:+ t) +:+ u = s +:+ (t +:+ u).
Proof. induction s as [|c s IH]; [done|]. by rewrite !append_cons, IH. Qed.
Lemma slen_append s t : slen (s +:+ t) = slen s + slen t.
Proof. induction s as [|c s IH]; [done|]. by rewrite append_cons; simpl; rewrite IH. Qed.
Lemma append_inj_l s t u : s +:+ t = s +:+ u → t = u.
Proof. induction s as [|c s IH]; [done|]. rewrite !append_cons. intros [= ?]. auto. Qed.
Lemma append_eq_nil s t : s +:+ t = "" → s = "" ∧ t = "".
Proof. destruct s; [done|]. by rewrite append_cons. Qed.
Lemma sdrop_append s t : sdrop (slen s) (s +:+ t) = t.
Proof. by induction s as [|c s IH]. Qed.
Lemma stake_append s t : stake (slen s) (s +:+ t) = s.
Proof. induction s as [|c s IH]; [by destruct t|]. rewrite append_cons; simpl. by rewrite IH. Qed.
Lemma stake_sdrop n s : stake n s +:+ sdrop n s = s.
Proof.
  revert s. induction n as [|n IH]; intros [|c s]; try done.
  simpl. by rewrite append_cons, IH.
Qed.
Lemma sIn_append c s t : sIn c (s +:+ t) = sIn c s || sIn c t.
Proof.
  induction s as [|d s IH]; [done|]. rewrite append_cons. simpl. rewrite IH.
  by rewrite orb_assoc.
Qed.
Lemma append_inj_len s1 s2 t1 t2 :
  slen s1 = slen s2 → s1 +:+ t1 = s2 +:+ t2 → s1 = s2 ∧ t1 = t2.
Proof.
  revert s2. induction s1 as [|c s1 IH]; intros [|d s2]; try done.
  rewrite !append_cons. simpl. intros [= ?] [= -> ?].
  destruct (IH s2) as [-> ->]; auto.
Qed.

(** ** [strings.HasPrefix], [TrimPrefix], [HasSuffix], [TrimSuffix] *)

Fixpoint HasPrefix (s p : string) {struct p} : bool :=
  match p, s with
  | EmptyString, _ => true
  | String c p, String d s => bool_decide (c = d) && HasPrefix s p
  | String _ _, EmptyString => false
  end.

Definition TrimPrefix (s p : string) : string :=
  if HasPrefix s p then sdrop (slen p) s else s.

Definition HasSuffix (s x : string) : bool :=
  (slen x <=? slen s) && bool_decide (sdrop (slen s - slen x) s = x).

Definition TrimSuffix (s x : string) : string :=
  if HasSuffix s x then stake (slen s - slen x) s else s.

Lemma HasPrefix_spec s p : HasPrefix s p = true ↔ ∃ t, s = p +:+ t.
Proof.
  revert s. induction p as [|c p IH]; intros s; simpl.
  { split; [intros _; by exists s|done]. }
  destruct s as [|d s]; simpl; [split; [done|intros [? ?]; discriminate]|].
  rewrite andb_true_iff, bool_decide_eq_true, IH. split.
  - intros [-> [t ->]]. by exists t.
  - intros [t Ht]. rewrite append_cons in Ht. injection Ht as -> ->. eauto.
Qed.

Lemma HasPrefix_append s t : HasPrefix (s +:+ t) s = true.
Proof. apply HasPrefix_spec. eauto. Qed.

Lemma TrimPrefix_append p t : TrimPrefix (p +:+ t) p = t.
Proof. unfold TrimPrefix. by rewrite HasPrefix_append, sdrop_append. Qed.

Lemma HasSuffix_spec s x : HasSuffix s x = true ↔ ∃ t, s = t +:+ x.
Proof.
  unfold HasSuffix. rewrite andb_true_iff, Nat.leb_le, bool_decide_eq_true. split.
  - intros [Hl Hd]. exists (stake (slen s - slen x) s).
    rewrite <-Hd at 2. by rewrite stake_sdrop.
  - intros [t ->]. rewrite slen_append. split; [lia|].
    replace (slen t + slen x - slen x) with (slen t) by lia. apply sdrop_append.
Qed.

Lemma TrimSuffix_append t x : TrimSuffix (t +:+ x) x = t.
Proof.
  unfold TrimSuffix. replace (HasSuffix (t +:+ x) x) with true
    by (symmetry; apply HasSuffix_spec; eauto).
  rewrite slen_append, Nat.add_sub. apply stake_append.
Qed.

(** ** [strings.Contains], [ContainsAny], [ReplaceAll] of one byte *)

Fixpoint Contains (s sub : string) : bool :=
  HasPrefix s sub ||
  match s with EmptyString => false | String _ s => Contains s sub end.

Fixpoint ContainsAny (s chars : string) : bool :=
  match s with
  | EmptyString => false
  | String c s => sIn c chars || ContainsAny s chars
  end.

Fixpoint ReplaceAllByte (s : string) (old : ascii) (new : string) : string :=
  match s with
  | EmptyString => EmptyString
  | String c s =>
      if bool_decide (c = old) then new +:+ ReplaceAllByte s old new
      else String c (ReplaceAllByte s old new)
  end.

Lemma ContainsAny_false s chars c :
  ContainsAny s chars = false → sIn c chars = true → sIn c s = false.
Proof.
  induction s as [|d s IH]; [done|]. simpl. rewrite orb_false_iff.
  intros [Hd Hs] Hc. rewrite IH by done. rewrite orb_false_r.
  apply bool_decide_eq_false. intros ->. congruence.
Qed.

Lemma Contains_append_false s t u : Contains (s +:+ t) u = false → Contains s u = false.
Proof.
  induction s as [|c s IH].
  - rewrite append_nil_l. destruct u as [|d u]; [|done].
    destruct t; simpl; by rewrite ?orb_false_r.
  - rewrite append_cons. simpl. rewrite !orb_false_iff. intros [H1 H2].
    split; [|auto]. apply not_true_iff_false. intros [v Hv]%HasPrefix_spec.
    apply not_true_iff_false in H1. apply H1, HasPrefix_spec.
    exists (v +:+ t). by rewrite <-append_cons, Hv, append_assoc.
Qed.

(** ** [strings.Split] on a one-byte separator, and its inverse [Join] *)

Fixpoint Split (s : string) (sep : ascii) : list string :=
  match s with
  | EmptyString => [EmptyString]
  | String c s =>
      if bool_decide (c = sep) then EmptyString :: Split s sep
      else match Split s sep with
           | [] => [String c EmptyString]
           | p :: ps => String c p :: ps
           end
  end.

Fixpoint Join (l : list string) (sep : ascii) : string :=
  match l with
  | [] => EmptyString
  | [s] => s
  | s :: l => s +:+ String sep (Join l sep)
  end.

Lemma Split_not_nil s sep : Split s sep ≠ [].
Proof. destruct s as [|c s]; simpl; [done|]. case_bool_decide; [done|]. by case_match. Qed.

Lemma Join_cons s l sep : l ≠ [] → Join (s :: l) sep = s +:+ String sep (Join l sep).
Proof. by destruct l. Qed.

Lemma Join_Split s sep : Join (Split s sep) sep = s.
Proof.
  induction s as [|c s IH]; [done|]. simpl. case_bool_decide as Hc.
  - subst. rewrite Join_cons by apply Split_not_nil. by rewrite IH.
  - destruct (Split s sep) as [|p ps] eqn:E; [by apply Split_not_nil in E|].
    rewrite <-IH. by destruct ps.
Qed.

Lemma Split_no_sep s sep : sIn sep s = false → Split s sep = [s].
Proof.
  induction s as [|c s IH]; [done|]. simpl. rewrite orb_false_iff, bool_decide_eq_false.
  intros [Hne Hs]. rewrite bool_decide_eq_false_2 by congruence. by rewrite IH.
Qed.

Lemma Split_append s t sep :
  sIn sep s = false → Split (s +:+ String sep t) sep = s :: Split t sep.
Proof.
  induction s as [|c s IH].
  - intros _. rewrite append_nil_l. simpl. by rewrite bool_decide_eq_true_2.
  - rewrite append_cons. simpl. rewrite orb_false_iff, bool_decide_eq_false.
    intros [Hne Hs]. rewrite bool_decide_eq_false_2 by congruence.
    by rewrite IH.
Qed.

Lemma Split_Join l sep :
  l ≠ [] → Forall (λ s, sIn sep s = false) l → Split (Join l sep) sep = l.
Proof.
  induction l as [|s l IH]; [done|]. intros _ [Hs Hl]%Forall_cons.
  destruct l as [|s' l]; [by apply Split_no_sep|].
  rewrite Join_cons by done. by rewrite Split_append, IH.
Qed.

Lemma Split_segments_no_sep s sep : Forall (λ p, sIn sep p = false) (Split s sep).
Proof.
  induction s as [|c s IH]; simpl; [by repeat constructor|].
  case_bool_decide as Hc; [by constructor|].
  destruct (Split s sep) as [|p ps]; [constructor; [|constructor]|].
  - simpl. by rewrite bool_decide_eq_false_2 by congruence.
  - apply Forall_cons in IH as [Hp Hps]. constructor; [|done].
    simpl. by rewrite bool_decide_eq_false_2, Hp by congruence.
Qed.

Lemma Split_app_sep s t sep : Split (s +:+ String sep t) sep = Split s sep ++ Split t sep.
Proof.
  induction s as [|c s IH].
  - rewrite append_nil_l. simpl. by rewrite bool_decide_eq_true_2.
  - rewrite append_cons. simpl. rewrite IH. case_bool_decide; [done|].
    destruct (Split s sep) eqn:E; [by apply Split_not_nil in E|done].
Qed.

Lemma Join_eq_nil l sep : Join l sep = "" → l = [] ∨ l = [""].
Proof.
  destruct l as [|s [|s' l]]; [by left| simpl; intros ->; by right|].
  rewrite Join_cons by done. intros [-> H]%append_eq_nil. done.
Qed.

(** ** [strings.TrimSpace]

    Unicode white space, by its UTF-8 encodings, stripped from both ends. *)

Definition sbytes (l : list nat) : string :=
  foldr (λ n s, String (ascii_of_nat n) s) EmptyString l.

Definition whiteSpace : list string :=
  sbytes <$>
  ([[9]; [10]; [11]; [12]; [13]; [32]; [194; 133]; [194; 160]; [225; 154; 128];
    [226; 128; 168]; [226; 128; 169]; [226; 128; 175]; [226; 129; 159]; [227; 128; 128]]
   ++ ((λ n, [226; 128; n]) <$> seq 128 11)).

Definition trimOneLeft (s : string) : option string :=
  (λ w, sdrop (slen w) s) <$> head (filter (λ w, HasPrefix s w) whiteSpace).

Definition trimOneRight (s : string) : option string :=
  (λ w, stake (slen s - slen w) s) <$> head (filter (λ w, HasSuffix s w) whiteSpace).

(** One strip per step; a string of [n] bytes is clean after [n] of them. *)
Fixpoint trimWith (f : string → option string) (fuel : nat) (s : string) : string :=
  match fuel with
  | 0 => s
  | S fuel => match f s with Some s' => trimWith f fuel s' | None => s end
  end.

Definition TrimSpace (s : string) : string :=
  let s := trimWith trimOneLeft (slen s) s in
  trimWith trimOneRight (slen s) s.

Example TrimSpace_ex : TrimSpace (sbytes [32; 9; 226; 128; 129] +:+ "a b" +:+ sbytes [194; 160; 10]) = "a b".
Proof. vm_compute. reflexivity. Qed.

(** ** encoding/hex *)

Definition hexDigit (n : nat) : ascii :=
  ascii_of_nat (if n <? 10 then 48 + n else 87 + n).

Definition hexByte (b : Byte.byte) : string :=
  let n := Byte.to_nat b in
  String (hexDigit (n / 16)) (String (hexDigit (n mod 16)) "").

Fixpoint EncodeToString (bs : list Byte.byte) : string :=
  match bs with
  | [] => ""
  | b :: bs => hexByte b +:+ EncodeToString bs
  end.

Definition fromHexDigit (c : ascii) : option nat :=
  let n := nat_of_ascii c in
  if (48 <=? n) && (n <=? 57) then Some (n - 48)
  else if (97 <=? n) && (n <=? 102) then Some (n - 87)
  else if (65 <=? n) && (n <=? 70) then Some (n - 55)
  else None.

Fixpoint DecodeString (s : string) : option (list Byte.byte) :=
  match s with
  | EmptyString => Some []
  | String _ EmptyString => None
  | String c1 (String c2 s) =>
      h ← fromHexDigit c1;
      l ← fromHexDigit c2;
      b ← Byte.of_nat (16 * h + l);
      bs ← DecodeString s;
      Some (b :: bs)
  end.

Lemma hexByte_spec b :
  let n := Byte.to_nat b in
  fromHexDigit (hexDigit (n / 16)) = Some (n / 16) ∧
  fromHexDigit (hexDigit (n mod 16)) = Some (n mod 16) ∧
  Byte.of_nat (16 * (n / 16) + n mod 16) = Some b.
Proof. destruct b; vm_compute; done. Qed.

Lemma Decode_Encode bs : DecodeString (EncodeToString bs) = Some bs.
Proof.
  induction bs as [|b bs IH]; [done|]. destruct (hexByte_spec b) as (H1 & H2 & H3).
  cbn [EncodeToString]. unfold hexByte. cbv zeta. rewrite !append_cons, append_nil_l.
  cbn [DecodeString]. rewrite H1, H2. cbn [mbind option_bind].
  rewrite H3. cbn [mbind option_bind]. by rewrite IH.
Qed.

Lemma EncodeToString_inj bs1 bs2 : EncodeToString bs1 = EncodeToString bs2 → bs1 = bs2.
Proof.
  intros H. apply (f_equal DecodeString) in H. rewrite !Decode_Encode in H. by simplify_eq.
Qed.

(** ** The order of strings: lexicographic on bytes *)

Definition strLe (s t : string) : Prop := String.leb s t = true.

#[export] Instance strLe_dec s t : Decision (strLe s t).
Proof. unfold strLe. apply _. Defined.

Lemma strLe_cons a s b t :
  strLe (String a s) (String b t) ↔
  (Ascii.N_of_ascii a < Ascii.N_of_ascii b)%N ∨ (a = b ∧ strLe s t).
Proof.
  unfold strLe, String.leb. simpl. unfold Ascii.compare.
  destruct (N.compare_spec (Ascii.N_of_ascii a) (Ascii.N_of_ascii b)) as [Heq|Hlt|Hgt].
  - apply (f_equal Ascii.ascii_of_N) in Heq. rewrite !Ascii.ascii_N_embedding in Heq. subst.
    split; [by right|intros [?|[_ ?]]; [lia|done]].
  - split; [by left|done].
  - split; [done|]. intros [?|[-> _]]; lia.
Qed.

#[export] Instance strLe_trans : Transitive strLe.
Proof.
  intros s. induction s as [|a s IH]; intros [|b t] [|c u]; try done.
  rewrite !strLe_cons. intros [?|[-> ?]] [?|[-> ?]]; [left; lia|by left..|right]. eauto.
Qed.

#[export] Instance strLe_anti : AntiSymm (=) strLe.
Proof.
  intros s. induction s as [|a s IH]; intros [|b t]; try done.
  rewrite !strLe_cons. intros [?|[-> ?]] [?|[? ?]]; [lia|subst; lia|lia|]. f_equal. by apply IH.
Qed.

Lemma strLe_total s t : strLe s t ∨ strLe t s.
Proof.
  revert t. induction s as [|a s IH]; intros [|b t]; [by left|by left|by right|].
  rewrite !strLe_cons. destruct (IH t);
    destruct (N.lt_trichotomy (Ascii.N_of_ascii a) (Ascii.N_of_ascii b)) as [?|[Heq|?]]; auto;
    apply (f_equal Ascii.ascii_of_N) in Heq; rewrite !Ascii.ascii_N_embedding in Heq; auto.
Qed.
