(* ===== verification/GoPath.v ===== *)
(** * Go's lexical path functions

    Package [path] (and [path/filepath] on Unix): [Clean], [Join], [Base] and
    [Dir], over the segments of a path. [Clean] is the documented rewriting:
    empty and ["."] elements are dropped, a [".."] removes the element before
    it, a [".."] that starts a rooted path is dropped, and an empty result is
    ["."]. *)

From S2P Require Export GoString.

Definition cleanStep (rooted : bool) (acc : list string) (seg : string) : list string :=
  if bool_decide (seg = "" ∨ seg = ".") then acc
  else if bool_decide (seg = "..") then
    match acc with
    | [] => if rooted then [] else [".."]
    | top :: acc' => if bool_decide (top = "..") then ".." :: acc else acc'
    end
  else seg :: acc.

(** The kept segments, last one first. *)
Definition cleanSegs (rooted : bool) (segs : list string) : list string :=
  foldl (cleanStep rooted) [] segs.

Definition Clean (p : string) : string :=
  if bool_decide (p = "") then "." else
  let rooted := HasPrefix p "/" in
  let body := Join (reverse (cleanSegs rooted (Split p slash))) slash in
  if rooted then String slash body
  else if bool_decide (body = "") then "." else body.

(** [path.Join]: the elements from the first non-empty one on, cleaned. *)
Fixpoint PathJoin (elems : list string) : string :=
  match elems with
  | [] => ""
  | e :: rest => if bool_decide (e = "") then PathJoin rest else Clean (Join elems slash)
  end.

Definition Base (p : string) : string :=
  if bool_decide (p = "") then "."
  else match last (filter (λ s, s ≠ "") (Split p slash)) with
       | Some s => s
       | None => "/"
       end.

(** [path.Dir]: everything before the last slash, cleaned. *)
Definition Dir (p : string) : string :=
  Clean (match removelast (Split p slash) with
         | [] => ""
         | init => Join init slash +:+ "/"
         end).

Fixpoint stripSlashes (p : string) : string :=
  match p with
  | String c q => if bool_decide (c = slash) then stripSlashes q else p
  | EmptyString => EmptyString
  end.

(** ** Ordinary segments and the shape of a cleaned path *)

Definition ordinary (s : string) : Prop :=
  s ≠ "" ∧ s ≠ "." ∧ s ≠ ".." ∧ sIn slash s = false.

#[export] Instance ordinary_dec s : Decision (ordinary s).
Proof. apply _. Defined.

Definition noDotDot (p : string) : Prop := ".." ∉ Split p slash.

Create HintDb paths discriminated.

Section clean.
Implicit Types (p q s : string) (segs acc : list string).

Lemma cleanStep_skip b acc s : s = "" ∨ s = "." → cleanStep b acc s = acc.
Proof. intros. unfold cleanStep. by rewrite bool_decide_eq_true_2. Qed.

Lemma cleanStep_push b acc s : ordinary s → cleanStep b acc s = s :: acc.
Proof.
  intros (?&?&?&?). unfold cleanStep.
  rewrite bool_decide_eq_false_2 by (by intros [?|?]).
  by rewrite bool_decide_eq_false_2.
Qed.

Lemma cleanStep_no_dotdot b acc s :
  s ≠ ".." → sIn slash s = false →
  cleanStep b acc s = if decide (ordinary s) then s :: acc else acc.
Proof.
  intros Hdd Hsl. case_decide as Ho; [by apply cleanStep_push|].
  apply cleanStep_skip. destruct (decide (s = "")); [by left|].
  destruct (decide (s = ".")); [by right|]. by destruct Ho.
Qed.

Lemma foldl_clean_no_dotdot b segs acc :
  ".." ∉ segs → Forall (λ s, sIn slash s = false) segs →
  foldl (cleanStep b) acc segs = reverse (filter ordinary segs) ++ acc.
Proof.
  revert acc. induction segs as [|s segs IH]; intros acc Hdd Hsl; [done|].
  apply not_elem_of_cons in Hdd as [Hs Hdd]. apply Forall_cons in Hsl as [Hss Hsl].
  simpl. rewrite cleanStep_no_dotdot by done. rewrite IH by done.
  rewrite filter_cons. case_decide; [|done].
  by rewrite reverse_cons, <-app_assoc.
Qed.

Lemma cleanSegs_no_dotdot b p :
  noDotDot p →
  reverse (cleanSegs b (Split p slash)) = filter ordinary (Split p slash).
Proof.
  intros Hp. unfold cleanSegs.
  rewrite foldl_clean_no_dotdot by eauto using Split_segments_no_sep.
  by rewrite app_nil_r, reverse_involutive.
Qed.

(** What the stack of kept segments looks like: leading [".."]s (none when
    the path is rooted), then ordinary segments. *)
Definition clean_shape (b : bool) (l : list string) : Prop :=
  ∃ k os, l = replicate k ".." ++ os ∧ Forall ordinary os ∧ (b = true → k = 0).

Lemma clean_shape_step b acc s :
  sIn slash s = false →
  clean_shape b (reverse acc) → clean_shape b (reverse (cleanStep b acc s)).
Proof.
  intros Hsl (k & os & Hacc & Hos & Hb). unfold cleanStep.
  case_bool_decide; [by exists k, os|].
  case_bool_decide as Hdd; subst; last first.
  { exists k, (os ++ [s]). rewrite reverse_cons, Hacc, app_assoc. split; [done|].
    split; [|done]. apply Forall_app. split; [done|]. repeat constructor; naive_solver. }
  destruct acc as [|top acc].
  { rewrite reverse_nil in Hacc.
    destruct b; [by exists 0, []|by exists 1, []]. }
  rewrite reverse_cons in Hacc.
  destruct os as [|o os'] using rev_ind; [|clear IHos'].
  - rewrite app_nil_r in Hacc. destruct k as [|k]; [by destruct (reverse acc)|].
    rewrite replicate_S_end in Hacc. apply app_inj_tail in Hacc as [Ha ->].
    rewrite bool_decide_eq_true_2 by done. exists (S (S k)), [].
    rewrite !reverse_cons, Ha, app_nil_r. rewrite <-!replicate_S_end.
    split; [done|]. split; [done|]. intros Hr. by specialize (Hb Hr).
  - rewrite app_assoc in Hacc. apply app_inj_tail in Hacc as [Ha ->].
    apply Forall_app in Hos as [Hos [Ho _]%Forall_cons].
    rewrite bool_decide_eq_false_2 by (by destruct Ho as (?&?&?&?)).
    by exists k, os'.
Qed.

Lemma cleanSegs_shape b p : clean_shape b (reverse (cleanSegs b (Split p slash))).
Proof.
  unfold cleanSegs. assert (clean_shape b (reverse [])) as H0 by (by exists 0, []).
  revert H0. generalize (@nil string) as acc.
  pose proof (Split_segments_no_sep p slash) as Hsl.
  induction (Split p slash) as [|s segs IH]; intros acc Hacc; [done|].
  apply Forall_cons in Hsl as [Hs Hsl]. simpl. apply IH; [done|].
  by apply clean_shape_step.
Qed.

Lemma foldl_clean_dotdots k m :
  foldl (cleanStep false) (replicate m "..") (replicate k "..") = replicate (k + m) "..".
Proof.
  revert m. induction k as [|k IH]; intros m; [done|]. simpl.
  replace (cleanStep false (replicate m "..") "..") with (replicate (S m) "..")
    by (by destruct m).
  rewrite IH. change (".." :: replicate (k + m) "..") with (replicate (S (k + m)) "..").
  f_equal. lia.
Qed.

Lemma foldl_clean_push b os acc :
  Forall ordinary os → foldl (cleanStep b) acc os = reverse os ++ acc.
Proof.
  intros Hos. revert acc. induction Hos as [|o os Ho Hos IH]; intros acc; [done|].
  simpl. rewrite cleanStep_push by done. by rewrite IH, reverse_cons, <-app_assoc.
Qed.

(** Cleaning a list of that shape changes nothing. *)
Lemma cleanSegs_fixed k os :
  Forall ordinary os →
  reverse (cleanSegs false (replicate k ".." ++ os)) = replicate k ".." ++ os.
Proof.
  intros Hos. unfold cleanSegs. rewrite foldl_app.
  change (@nil string) with (replicate 0 "..") at 1.
  rewrite foldl_clean_dotdots, foldl_clean_push by done.
  rewrite Nat.add_0_r, reverse_app, reverse_involutive.
  f_equal. apply reverse_replicate.
Qed.

Lemma clean_shape_segments b l :
  clean_shape b l → Forall (λ s, sIn slash s = false ∧ s ≠ "") l.
Proof.
  intros (k & os & -> & Hos & _). apply Forall_app. split.
  - apply Forall_replicate. done.
  - eapply Forall_impl; [done|]. by intros s (?&?&?&?).
Qed.

Lemma stripSlashes_id s : HasPrefix s "/" = false → stripSlashes s = s.
Proof.
  destruct s as [|c s]; [done|]. simpl. rewrite andb_true_r.
  case_bool_decide; [done|]. intros _. by rewrite bool_decide_eq_false_2 by congruence.
Qed.

Lemma stripSlashes_no_prefix s : HasPrefix (stripSlashes s) "/" = false.
Proof.
  induction s as [|c s IH]; [done|]. simpl. case_bool_decide as Hc; [done|].
  simpl. by rewrite bool_decide_eq_false_2 by congruence.
Qed.

Lemma Join_no_slash_prefix l :
  Forall (λ s, sIn slash s = false ∧ s ≠ "") l → HasPrefix (Join l slash) "/" = false.
Proof.
  intros Hl. destruct l as [|s l]; [done|].
  apply Forall_cons in Hl as [[Hs Hne] Hl].
  destruct s as [|c s]; [done|]. simpl in Hs. apply orb_false_iff in Hs as [Hc _].
  apply bool_decide_eq_false in Hc.
  destruct l; simpl; rewrite ?append_cons; simpl; by rewrite bool_decide_eq_false_2.
Qed.

Lemma Join_not_nil l : l ≠ [] → Forall (λ s, sIn slash s = false ∧ s ≠ "") l →
  Join l slash ≠ "".
Proof.
  intros Hne Hl [->| ->]%Join_eq_nil; [done|].
  by apply Forall_cons in Hl as [[_ ?] _].
Qed.

(** Dropping the leading slashes of a path only drops empty segments. *)
Lemma Split_stripSlashes s :
  ∃ k, Split s slash = replicate k "" ++ Split (stripSlashes s) slash.
Proof.
  induction s as [|c s [k IH]]; [by exists 0|]. simpl. case_bool_decide as Hc.
  - exists (S k). simpl. by rewrite IH.
  - exists 0. simpl. by rewrite bool_decide_eq_false_2.
Qed.

(** The result of [Clean] with its leading slash removed: a joined list of
    the shape above, or ["."]. *)
Lemma stripSlashes_Clean p :
  p ≠ "" →
  stripSlashes (Clean p) =
  let body := Join (reverse (cleanSegs (HasPrefix p "/") (Split p slash))) slash in
  if HasPrefix p "/" then body else if bool_decide (body = "") then "." else body.
Proof.
  intros Hp. unfold Clean. rewrite bool_decide_eq_false_2 by done. cbv zeta.
  pose proof (Join_no_slash_prefix _ (clean_shape_segments _ _
    (cleanSegs_shape (HasPrefix p "/") p))) as Hbody.
  destruct (HasPrefix p "/").
  - cbn [stripSlashes]. rewrite bool_decide_eq_true_2 by done. by apply stripSlashes_id.
  - case_bool_decide; [done|]. by apply stripSlashes_id.
Qed.

(** A joined list of ordinary segments under leading [".."]s is a fixed
    point of [Clean]. *)
Lemma Clean_fixed k os :
  Forall ordinary os → replicate k ".." ++ os ≠ [] →
  Clean (Join (replicate k ".." ++ os) slash) = Join (replicate k ".." ++ os) slash.
Proof.
  intros Hos Hne.
  assert (clean_shape false (replicate k ".." ++ os)) as Hsh by (by exists k, os).
  pose proof (clean_shape_segments _ _ Hsh) as Hseg.
  unfold Clean. rewrite bool_decide_eq_false_2 by (by apply Join_not_nil).
  rewrite Join_no_slash_prefix by done.
  rewrite Split_Join, cleanSegs_fixed;
    [| done | done | eapply Forall_impl; [done|]; by intros ? [? ?]].
  by rewrite bool_decide_eq_false_2 by (by apply Join_not_nil).
Qed.
(** Absolute paths with ordinary segments. *)
Definition absPath segs : string := String slash (Join segs slash).

Lemma Clean_rooted p :
  HasPrefix p "/" = true → noDotDot p → Clean p = absPath (filter ordinary (Split p slash)).
Proof.
  intros Hp Hdd. unfold Clean. rewrite bool_decide_eq_false_2 by (by intros ->).
  cbv zeta. by rewrite Hp, cleanSegs_no_dotdot.
Qed.

Lemma absPath_inj l1 l2 :
  Forall ordinary l1 → Forall ordinary l2 → absPath l1 = absPath l2 → l1 = l2.
Proof.
  assert (∀ l, Forall ordinary l → Forall (λ s, sIn slash s = false) l) as Hsl.
  { intros l Hl. eapply Forall_impl; [done|]. by intros ? (?&?&?&?). }
  assert (∀ s l, ordinary s → Forall ordinary l → Join (s :: l) slash ≠ "") as Hne.
  { intros s l Hs Hl. apply Join_not_nil; [done|]. constructor; [by destruct Hs as (?&?&?&?)|].
    eapply Forall_impl; [done|]. by intros ? (?&?&?&?). }
  intros H1 H2 [= Heq]. destruct l1 as [|a l1], l2 as [|b l2]; [done|..].
  - apply Forall_cons in H2 as [? ?]. by destruct (Hne b l2).
  - apply Forall_cons in H1 as [? ?]. by destruct (Hne a l1).
  - rewrite <-(Split_Join (a :: l1) slash), <-(Split_Join (b :: l2) slash), Heq; auto.
Qed.

Lemma Split_Join_ordinary l : l ≠ [] → Forall ordinary l → Split (Join l slash) slash = l.
Proof.
  intros Hne Hl. apply Split_Join; [done|]. eapply Forall_impl; [done|]. by intros ? (?&?&?&?).
Qed.

Lemma filter_ordinary_Join l :
  Forall ordinary l →
  filter ordinary (Split (Join l slash) slash) = l ∧ ".." ∉ Split (Join l slash) slash.
Proof.
  intros Hl. destruct l as [|s l].
  { split; [done|]. simpl. intros [?|[]%elem_of_nil]%elem_of_cons; done. }
  rewrite Split_Join_ordinary by done. split.
  - induction Hl; [done|]. rewrite filter_cons_True by done. by f_equal.
  - intros Hin. rewrite Forall_forall in Hl. by destruct (Hl _ Hin) as (?&?&?&?).
Qed.

Lemma Split_absPath l : Split (absPath l) slash = "" :: Split (Join l slash) slash.
Proof. reflexivity. Qed.

Lemma Clean_absPath l : Forall ordinary l → Clean (absPath l) = absPath l.
Proof.
  intros Hl. destruct (filter_ordinary_Join l Hl) as [Hf Hdd]. rewrite Clean_rooted.
  - rewrite Split_absPath, filter_cons_False by (by intros (?&?)). by rewrite Hf.
  - done.
  - unfold noDotDot. rewrite Split_absPath. by apply not_elem_of_cons.
Qed.

(** Cleaning a rooted path gives an absolute path with ordinary segments. *)
Lemma Clean_rooted_shape p :
  HasPrefix p "/" = true → ∃ l, Forall ordinary l ∧ Clean p = absPath l.
Proof.
  intros Hp. destruct (cleanSegs_shape true p) as (k & l & Heq & Hl & Hk).
  rewrite Hk in Heq by done. exists l. split; [done|]. unfold Clean.
  rewrite bool_decide_eq_false_2 by (by intros ->). cbv zeta. by rewrite Hp, Heq.
Qed.

Lemma PathJoin_absPath l m :
  Forall ordinary l → Forall ordinary m →
  PathJoin [absPath l; Join m slash] = absPath (l ++ m).
Proof.
  intros Hl Hm.
  change (PathJoin _) with (Clean (absPath l +:+ String slash (Join m slash))).
  change (absPath l +:+ String slash (Join m slash))
    with (String slash (Join l slash +:+ String slash (Join m slash))).
  destruct (filter_ordinary_Join l Hl) as [Hfl Hdl].
  destruct (filter_ordinary_Join m Hm) as [Hfm Hdm].
  assert (Split (String slash (Join l slash +:+ String slash (Join m slash))) slash
          = "" :: Split (Join l slash) slash ++ Split (Join m slash) slash) as Hsp.
  { simpl. by rewrite Split_app_sep. }
  rewrite Clean_rooted; [|done|].
  - rewrite Hsp, filter_cons_False by (by intros (?&?)). by rewrite filter_app, Hfl, Hfm.
  - unfold noDotDot. rewrite Hsp, not_elem_of_cons, not_elem_of_app. done.
Qed.

Lemma Base_absPath l x : Forall ordinary (l ++ [x]) → Base (absPath (l ++ [x])) = x.
Proof.
  intros Hl. change (Base (absPath (l ++ [x]))) with
    (match last (filter (λ s, s ≠ "") (Split (absPath (l ++ [x])) slash)) with
     | Some s => s | None => "/" end).
  rewrite Split_absPath, Split_Join_ordinary by (done || by destruct l).
  rewrite filter_cons_False by auto. assert (filter (λ s, s ≠ "") (l ++ [x]) = l ++ [x]) as ->.
  { clear -Hl. induction Hl as [|s m (?&_) Hm IH]; [done|]. by rewrite filter_cons_True, IH. }
  by rewrite last_snoc.
Qed.

Lemma removelast_snoc {A} (l : list A) x : removelast (l ++ [x]) = l.
Proof. induction l as [|a l IH]; [done|]. simpl. destruct (l ++ [x]) eqn:E; [by destruct l|]. by rewrite IH. Qed.

Lemma Dir_absPath l x : Forall ordinary (l ++ [x]) → Dir (absPath (l ++ [x])) = absPath l.
Proof.
  intros Hl. unfold Dir. rewrite Split_absPath, Split_Join_ordinary by (done || by destruct l).
  change ("" :: l ++ [x]) with (("" :: l) ++ [x]). rewrite removelast_snoc.
  assert (Join ("" :: l) slash +:+ "/" = match l with [] => "/" | _ => absPath l +:+ "/" end)
    as ->.
  { destruct l; [done|]. by rewrite Join_cons by done. }
  apply Forall_app in Hl as [Hl _]. destruct l as [|a l]; [done|].
  pose proof (PathJoin_absPath (a :: l) [] Hl ltac:(constructor)) as HJ.
  by rewrite app_nil_r in HJ.
Qed.

Lemma PathJoin_ordinary x m :
  ordinary x → Forall ordinary m → PathJoin [x; Join m slash] = Join (x :: m) slash.
Proof.
  intros Hx Hm. simpl. rewrite bool_decide_eq_false_2 by (by destruct Hx).
  destruct m as [|y m].
  - assert (noDotDot (x +:+ String slash "") ∧
            filter ordinary (Split (x +:+ String slash "") slash) = [x]) as [Hdd Hf].
    { unfold noDotDot. rewrite Split_app_sep.
      destruct (filter_ordinary_Join [x] ltac:(by constructor)) as [Hf Hd]. simpl in Hf, Hd.
      rewrite filter_app, Hf, not_elem_of_app. split; [split; [done|]|done]. simpl.
      intros [?|[]%elem_of_nil]%elem_of_cons; done. }
    unfold Clean. rewrite bool_decide_eq_false_2 by (intros [? _]%append_eq_nil; by destruct Hx).
    cbv zeta. rewrite cleanSegs_no_dotdot by done. change (Join [] slash) with "".
    rewrite Hf.
    assert (HasPrefix (x +:+ String slash "") "/" = false) as ->.
    { destruct Hx as (Hne & _ & _ & Hs). destruct x as [|c x]; [done|].
      rewrite append_cons. simpl in *. apply orb_false_iff in Hs as [Hc _].
      apply bool_decide_eq_false in Hc. rewrite andb_true_r. apply bool_decide_eq_false. congruence. }
    by rewrite bool_decide_eq_false_2 by (by destruct Hx).
  - change (Join (x :: y :: m) slash) with (x +:+ String slash (Join (y :: m) slash)).
    rewrite <-(Join_cons x (y :: m)) by done.
    by apply (Clean_fixed 0 (x :: y :: m)); [constructor|].
Qed.

End clean.
