(* ===== verification/Utils.v ===== *)
(** * internal/utils: path normalisation and the name and path validators

    Every service and every handler passes its paths through
    [NormalizePath], and the two API servers reject what [IsValidFileName] and
    [IsValidFilePath] reject. *)

From S2P Require Export GoPath.
From Stdlib Require Import Ascii.

Definition JoinPath (parts : list string) : string := PathJoin parts.

Definition NormalizePath (pathStr : string) : string := stripSlashes (Clean pathStr).

Definition GetFileName (pathStr : string) : string := Base pathStr.

Definition GetDirectory (pathStr : string) : string := Dir pathStr.

Definition Trim (str : string) : string := TrimSpace str.

(** A byte below 0x20 is always a rune of its own, so the loop over runes is
    a loop over bytes. *)
Fixpoint hasControl (name : string) : bool :=
  match name with
  | EmptyString => false
  | String c name => (nat_of_ascii c <? 32) || hasControl name
  end.

Definition IsValidFileName (name : string) : bool :=
  if bool_decide (name = "") then false
  else if 255 <? slen name then false
  else if bool_decide (name = "..") || bool_decide (name = ".") then false
  else if Contains name ".." then false
  else if ContainsAny name "/\" then false
  else negb (hasControl name).

Definition IsValidFilePath (p : string) : bool :=
  if bool_decide (p = "") || bool_decide (p = "/") then false else
  let p := stripSlashes p in
  if bool_decide (p = "") then false else
  let cleaned := Clean p in
  if bool_decide (cleaned = ".") || bool_decide (cleaned = "..")
     || bool_decide (cleaned = "/") then false else
  forallb (λ part, negb (bool_decide (part = "..") || bool_decide (part = "")))
    (Split p slash).

(** ** What the validators guarantee *)

(** The storage keys of accepted paths: non-empty lists of ordinary segments. *)
Definition safeKey (k : string) (segs : list string) : Prop :=
  segs ≠ [] ∧ Forall ordinary segs ∧ k = Join segs slash.

Section utils.
Implicit Types (p q s n : string).

Lemma Normalize_no_dotdot p :
  noDotDot p → filter ordinary (Split p slash) ≠ [] →
  NormalizePath p = Join (filter ordinary (Split p slash)) slash.
Proof.
  intros Hdd Hne. assert (p ≠ "") as Hp by (by intros ->).
  unfold NormalizePath. rewrite stripSlashes_Clean by done. cbv zeta.
  rewrite cleanSegs_no_dotdot by done.
  destruct (HasPrefix p "/"); [done|].
  rewrite bool_decide_eq_false_2; [done|]. apply Join_not_nil; [done|].
  apply (clean_shape_segments false). exists 0, (filter ordinary (Split p slash)).
  split; [done|]. split; [|done]. apply Forall_forall. intros s.
  by rewrite list_elem_of_filter; intros [? ?].
Qed.

Lemma ordinary_filter_id l : Forall ordinary l → filter ordinary l = l.
Proof. induction 1; [done|]. rewrite filter_cons_True by done. by f_equal. Qed.

Lemma ordinary_not_dotdot l : Forall ordinary l → ".." ∉ l.
Proof. intros Hl Hin. rewrite Forall_forall in Hl. by destruct (Hl _ Hin) as (?&?&?&?). Qed.

Lemma ordinary_no_slash l : Forall ordinary l → Forall (λ s, sIn slash s = false) l.
Proof. intros. eapply Forall_impl; [done|]. by intros ? (?&?&?&?). Qed.

Lemma Split_safe segs : segs ≠ [] → Forall ordinary segs → Split (Join segs slash) slash = segs.
Proof. intros. apply Split_Join; auto using ordinary_no_slash. Qed.

Lemma Normalize_Join segs :
  segs ≠ [] → Forall ordinary segs → NormalizePath (Join segs slash) = Join segs slash.
Proof.
  intros Hne Ho. rewrite Normalize_no_dotdot; unfold noDotDot;
    rewrite ?Split_safe, ?ordinary_filter_id by done;
    eauto using ordinary_not_dotdot.
Qed.

Lemma filter_ordinary_strip p :
  filter ordinary (Split p slash) = filter ordinary (Split (stripSlashes p) slash).
Proof.
  destruct (Split_stripSlashes p) as [k ->]. rewrite filter_app.
  replace (filter ordinary (replicate k "")) with (@nil string); [done|].
  induction k as [|k IH]; [done|]. simpl. rewrite filter_cons_False; [done|].
  by intros [? _].
Qed.

Lemma noDotDot_strip p : noDotDot (stripSlashes p) → noDotDot p.
Proof.
  unfold noDotDot. destruct (Split_stripSlashes p) as [k ->].
  intros H [Hin|]%elem_of_app; [|done]. by apply elem_of_replicate in Hin as [? _].
Qed.

Lemma IsValidFilePath_segments p :
  IsValidFilePath p = true →
  noDotDot p ∧ filter ordinary (Split p slash) ≠ [].
Proof.
  unfold IsValidFilePath. cbv zeta. repeat case_match; try done. bool_prop.
  intros Hall. rewrite forallb_forall in Hall.
  assert (noDotDot (stripSlashes p)) as Hdd.
  { intros Hin. apply list_elem_of_In in Hin. apply Hall in Hin. done. }
  split; [by apply noDotDot_strip|].
  rewrite filter_ordinary_strip. intros Hnil.
  assert (Clean (stripSlashes p) = ".") as Hdot; [|done].
  unfold Clean. rewrite bool_decide_eq_false_2 by done.
  rewrite stripSlashes_no_prefix, cleanSegs_no_dotdot, Hnil by done. done.
Qed.

(** The one fact the clients use: an accepted path normalises to a safe key. *)
Lemma valid_path_safeKey p :
  IsValidFilePath p = true →
  safeKey (NormalizePath p) (filter ordinary (Split p slash)).
Proof.
  intros [Hdd Hne]%IsValidFilePath_segments. split; [done|]. split.
  - apply Forall_forall. intros s. by rewrite list_elem_of_filter; intros [? ?].
  - by apply Normalize_no_dotdot.
Qed.

Lemma valid_name_ordinary n : IsValidFileName n = true → ordinary n.
Proof.
  unfold IsValidFileName. repeat case_match; try done. intros _. bool_prop.
  repeat split; try done. by eapply ContainsAny_false.
Qed.
End utils.

Section utils_rename.
Implicit Types (ds : list string) (n m : string).

Lemma Dir_Join ds n :
  Forall ordinary ds → sIn slash n = false →
  Dir (Join (ds ++ [n]) slash) = if decide (ds = []) then "." else Join ds slash.
Proof.
  intros Hds Hn. unfold Dir.
  assert (Split (Join (ds ++ [n]) slash) slash = ds ++ [n]) as ->.
  { apply Split_Join; [by destruct ds|]. apply Forall_app.
    split; [by apply ordinary_no_slash|by repeat constructor]. }
  rewrite removelast_last. case_decide as Hd; [by subst|].
  destruct ds as [|d ds']; [done|]. set (ds := d :: ds') in *.
  assert (Split (Join ds slash +:+ "/") slash = ds ++ [""]) as Hsp.
  { change "/" with (String slash ""). rewrite Split_app_sep. by rewrite Split_safe. }
  assert (Forall (λ s, sIn slash s = false ∧ s ≠ "") ds) as Hseg.
  { eapply Forall_impl; [done|]. by intros s (?&?&?&?). }
  assert (filter ordinary (ds ++ [""]) = ds) as Hf.
  { rewrite filter_app, ordinary_filter_id, app_nil_r by done. done. }
  assert (HasPrefix (Join ds slash +:+ "/") "/" = false) as Hp.
  { pose proof (Join_no_slash_prefix ds Hseg) as Hpre.
    pose proof (Join_not_nil ds Hd Hseg) as Hnn.
    destruct (Join ds slash) as [|c w]; [done|]. rewrite append_cons.
    simpl in Hpre |- *. done. }
  unfold Clean. rewrite bool_decide_eq_false_2 by
    (intros [? _]%append_eq_nil; by apply (Join_not_nil ds)).
  rewrite Hp, Hsp, <-Hsp, cleanSegs_no_dotdot; [|].
  - rewrite Hsp, Hf, bool_decide_eq_false_2; [done|by apply Join_not_nil].
  - unfold noDotDot. rewrite Hsp. intros [Hin|Hin]%elem_of_app.
    + by apply (ordinary_not_dotdot ds).
    + by apply list_elem_of_singleton in Hin.
Qed.

Lemma ordinary_Split_app s t :
  filter ordinary (Split (s +:+ String slash t) slash) =
  filter ordinary (Split s slash) ++ filter ordinary (Split t slash).
Proof. by rewrite Split_app_sep, filter_app. Qed.

(** The target path the two rename operations compute. *)
Lemma rename_target ds n m :
  Forall ordinary ds → sIn slash n = false → ordinary m →
  NormalizePath (GetDirectory (Join (ds ++ [n]) slash) +:+ "/" +:+ m) =
  Join (ds ++ [m]) slash.
Proof.
  intros Hds Hn Hm. unfold GetDirectory. rewrite Dir_Join by done.
  assert (Split m slash = [m]) as Hsm by (apply Split_no_sep; by destruct Hm as (?&?&?&?)).
  change ("/" +:+ m) with (String slash m).
  set (d := if decide (ds = []) then "." else Join ds slash).
  assert (filter ordinary (Split d slash) = ds ∧ noDotDot d) as [Hfd Hdd].
  { unfold d, noDotDot. case_decide as Hd; [subst; split; [done|by intros ?%list_elem_of_singleton]|].
    rewrite Split_safe, ordinary_filter_id by done.
    eauto using ordinary_not_dotdot. }
  assert (filter ordinary (Split (d +:+ String slash m) slash) = ds ++ [m]) as Hf.
  { rewrite ordinary_Split_app, Hfd, Hsm. by rewrite filter_cons_True. }
  rewrite Normalize_no_dotdot; rewrite ?Hf; [done| |by destruct ds].
  unfold noDotDot. rewrite Split_app_sep, Hsm. intros [?|Hin]%elem_of_app; [done|].
  apply list_elem_of_singleton in Hin. by destruct Hm as (?&?&?&?).
Qed.
End utils_rename.

(** Normalising a path twice gives what normalising it once gives, for every
    path but the root (whose normal form is empty): the service, the metadata
    layer and the handlers all normalise the same path again. *)
Lemma normalize_idempotent (p : string) :
  NormalizePath p ≠ "" → NormalizePath (NormalizePath p) = NormalizePath p.
Proof.
  intros Hne. destruct (decide (p = "")) as [->|Hp]; [done|].
  unfold NormalizePath in *. rewrite (stripSlashes_Clean p Hp) in *. cbv zeta in *.
  destruct (cleanSegs_shape (HasPrefix p "/") p) as (k & os & Hl & Hos & _).
  rewrite Hl in *.
  assert (replicate k ".." ++ os = [] ∨ replicate k ".." ++ os ≠ []) as [Hn|Hn]
    by (destruct (replicate k ".." ++ os); auto).
  - rewrite Hn in *. by destruct (HasPrefix p "/").
  - assert (clean_shape false (replicate k ".." ++ os)) as Hsh by (by exists k, os).
    pose proof (clean_shape_segments _ _ Hsh) as Hseg.
    assert (Join (replicate k ".." ++ os) slash ≠ "") as Hj by (by apply Join_not_nil).
    rewrite (bool_decide_eq_false_2 _ Hj) in *.
    destruct (HasPrefix p "/"); rewrite Clean_fixed by done;
      apply stripSlashes_id; by apply Join_no_slash_prefix.
Qed.

(** From the second time on the root makes no difference either. *)
Lemma normalize_stable (p : string) :
  NormalizePath (NormalizePath (NormalizePath p)) = NormalizePath (NormalizePath p).
Proof.
  destruct (decide (NormalizePath p = "")) as [->|Hne]; [vm_compute; reflexivity|].
  by rewrite !normalize_idempotent by (rewrite ?normalize_idempotent; done).
Qed.

(** ** Properties *)

(** A path the validator accepts normalises to a non-empty, relative key whose
    segments are all ordinary: none is empty, ["."] or [".."] and none contains
    a slash, so no accepted path can climb out of the directory it is joined to. *)
Lemma valid_path_is_safe (p : string) :
  IsValidFilePath p = true →
  ∃ segs, segs ≠ [] ∧ Forall ordinary segs ∧
    NormalizePath p = Join segs slash ∧ Split (NormalizePath p) slash = segs.
Proof.
  intros Hv. destruct (valid_path_safeKey p Hv) as (Hne & Ho & Hk).
  exists (filter ordinary (Split p slash)). rewrite Hk.
  eauto using Split_safe.
Qed.

(** Renaming an accepted path to an accepted name replaces its last segment and
    keeps every segment before it: a rename never leaves its directory. *)
Lemma rename_stays_in_directory (p newName : string) (ds : list string) (n : string) :
  IsValidFilePath p = true → Split (NormalizePath p) slash = ds ++ [n] →
  IsValidFileName newName = true →
  NormalizePath (GetDirectory (NormalizePath p) +:+ "/" +:+ newName) =
  Join (ds ++ [newName]) slash.
Proof.
  intros Hv Hs Hn. destruct (valid_path_safeKey p Hv) as (Hne & Ho & Hk).
  rewrite Hk, Split_safe in Hs by done. rewrite Hk, Hs.
  rewrite Hs in Ho. apply Forall_app in Ho as [Hds [(?&?&?&?) _]%Forall_cons].
  apply rename_target; auto using valid_name_ordinary.
Qed.

