(* ===== verification/Coverage.v ===== *)
(** * Byte-range coverage of a multipart upload

    [addCoveredRange] and [isFullyCovered] of
    internal/service/transfer/multipart.go: the sorted slice of half-open
    intervals that records which bytes of the temp file were written. *)

From S2P Require Export Prelude.

Local Open Scope Z_scope.

Record byteRange := ByteRange { Start : Z; End : Z }.

#[export] Instance byteRange_eq_dec : EqDecision byteRange.
Proof. solve_decision. Defined.

(** The variables of the merging loop. *)
Record mergeState := MergeState {
  merged : list byteRange;
  inserted : bool;
  mstart : Z;
  mend : Z
}.

(** The body of the loop over the recorded ranges. *)
Definition mergeStep (st : mergeState) (r : byteRange) : mergeState :=
  if End r <? mstart st then
    MergeState (merged st ++ [r]) (inserted st) (mstart st) (mend st)
  else if mend st <? Start r then
    MergeState
      ((if inserted st then merged st else merged st ++ [ByteRange (mstart st) (mend st)])
       ++ [r])
      true (mstart st) (mend st)
  else
    MergeState (merged st) (inserted st)
      (if Start r <? mstart st then Start r else mstart st)
      (if mend st <? End r then End r else mend st).

Definition mergeFinish (st : mergeState) : list byteRange :=
  if inserted st then merged st
  else merged st ++ [ByteRange (mstart st) (mend st)].

Definition addCoveredRange (coveredRanges : list byteRange) (start end_ : Z) : list byteRange :=
  if end_ <=? start then coveredRanges
  else mergeFinish (foldl mergeStep (MergeState [] false start end_) coveredRanges).

(** The loop over adjacent pairs. *)
Fixpoint contiguous (rs : list byteRange) : bool :=
  match rs with
  | r1 :: (r2 :: _) as rest => (Start r2 =? End r1) && contiguous rest
  | _ => true
  end.

Definition isFullyCovered (coveredRanges : list byteRange) (TotalSize : Z) : bool :=
  match coveredRanges with
  | [] => TotalSize =? 0
  | r :: _ =>
      if negb (Start r =? 0) then false
      else match last coveredRanges with
           | Some l => if negb (End l =? TotalSize) then false else contiguous coveredRanges
           | None => false
           end
  end.

(** ** The invariant and what a slice of ranges denotes *)

Definition apart (r1 r2 : byteRange) : Prop := End r1 < Start r2.
Definition nonEmpty (r : byteRange) : Prop := Start r < End r.

(** Sorted, non-overlapping, non-adjacent and non-empty. *)
Definition wfRanges (rs : list byteRange) : Prop :=
  StronglySorted apart rs ∧ Forall nonEmpty rs.

Definition inRange (i : Z) (r : byteRange) : Prop := Start r ≤ i < End r.
Definition covers (rs : list byteRange) (i : Z) : Prop := ∃ r, r ∈ rs ∧ inRange i r.

Lemma wfRanges_cons r rs :
  wfRanges (r :: rs) ↔ nonEmpty r ∧ Forall (apart r) rs ∧ wfRanges rs.
Proof.
  unfold wfRanges. rewrite Forall_cons. split.
  - intros [[? ?]%StronglySorted_inv [? ?]]. done.
  - intros (? & ? & ? & ?). split; [by constructor|done].
Qed.

Lemma covers_nil i : covers [] i ↔ False.
Proof. split; [|done]. by intros (r & Hr%elem_of_nil & _). Qed.

Lemma covers_cons r rs i : covers (r :: rs) i ↔ inRange i r ∨ covers rs i.
Proof.
  unfold covers. setoid_rewrite elem_of_cons. naive_solver.
Qed.

Lemma covers_apart r rs i : Forall (apart r) rs → covers rs i → End r < i.
Proof.
  intros Hr (x & Hx & Hi). rewrite Forall_forall in Hr. specialize (Hr x Hx).
  unfold apart, inRange in *. lia.
Qed.

#[export] Hint Rewrite covers_nil covers_cons : ranges.

(** ** A structurally recursive reading of the merging loop *)

Fixpoint insertRange (rs : list byteRange) (s e : Z) : list byteRange :=
  match rs with
  | [] => [ByteRange s e]
  | r :: rest =>
      if End r <? s then r :: insertRange rest s e
      else if e <? Start r then ByteRange s e :: r :: rest
      else insertRange rest (Z.min (Start r) s) (Z.max (End r) e)
  end.

Lemma mergeStep_inserted rs m s e :
  Forall (λ r, e < Start r) rs →
  foldl mergeStep (MergeState m true s e) rs = MergeState (m ++ rs) true s e.
Proof.
  revert m. induction rs as [|r rs IH]; intros m; simpl; [by rewrite app_nil_r|].
  intros [Hr Hrs]%Forall_cons. unfold mergeStep at 2; simpl.
  destruct (End r <? s); [|rewrite (proj2 (Z.ltb_lt _ _)) by done];
    rewrite IH by done; by rewrite <-app_assoc.
Qed.

Lemma merge_insertRange rs m s e :
  wfRanges rs →
  mergeFinish (foldl mergeStep (MergeState m false s e) rs) = m ++ insertRange rs s e.
Proof.
  revert m s e. induction rs as [|r rs IH]; intros m s e; [done|].
  intros (Hr & Hap & Hrs)%wfRanges_cons. simpl. unfold mergeStep at 2; simpl.
  destruct (End r <? s) eqn:E1.
  { rewrite IH by done. by rewrite <-app_assoc. }
  destruct (e <? Start r) eqn:E2; bool_prop.
  - rewrite mergeStep_inserted.
    + simpl. by rewrite <-!app_assoc.
    + eapply Forall_impl; [done|]. unfold apart, nonEmpty in *. simpl. lia.
  - rewrite IH by done. do 2 f_equal.
    + case_match; bool_prop; lia.
    + case_match; bool_prop; lia.
Qed.

Lemma insertRange_covers rs s e i :
  wfRanges rs → s < e → covers (insertRange rs s e) i ↔ covers rs i ∨ s ≤ i < e.
Proof.
  revert s e. induction rs as [|r rs IH]; intros s e Hwf Hse; simpl.
  { autorewrite with ranges. unfold inRange. simpl. naive_solver. }
  apply wfRanges_cons in Hwf as (Hr & Hap & Hrs). unfold nonEmpty in Hr.
  destruct (End r <? s) eqn:E1; [|destruct (e <? Start r) eqn:E2]; bool_prop;
    autorewrite with ranges.
  - rewrite IH by done. tauto.
  - unfold inRange at 1. simpl. tauto.
  - rewrite IH by (done || lia). unfold inRange.
    destruct (decide (Start r ≤ i < End r)); destruct (decide (s ≤ i < e));
      split; intros [?|?]; try tauto; right; lia.
Qed.

Lemma insertRange_apart rs s e r0 :
  Forall (apart r0) rs → End r0 < s → Forall (apart r0) (insertRange rs s e).
Proof.
  revert s e. induction rs as [|r rs IH]; intros s e; simpl.
  { intros _ ?. by repeat constructor. }
  intros [Hr Hrs]%Forall_cons Hs. unfold apart in Hr.
  destruct (End r <? s); [constructor; auto|].
  destruct (e <? Start r); [repeat constructor; auto|].
  apply IH; [done|lia].
Qed.

Lemma insertRange_wf rs s e : wfRanges rs → s < e → wfRanges (insertRange rs s e).
Proof.
  revert s e. induction rs as [|r rs IH]; intros s e Hwf Hse; simpl.
  { by apply wfRanges_cons. }
  pose proof Hwf as (Hr & Hap & Hrs)%wfRanges_cons.
  destruct (End r <? s) eqn:E1; [|destruct (e <? Start r) eqn:E2]; bool_prop.
  - apply wfRanges_cons. auto using insertRange_apart.
  - apply wfRanges_cons. split; [done|]. split; [|done].
    constructor; [done|]. eapply Forall_impl; [done|].
    unfold apart, nonEmpty in *. simpl. lia.
  - apply IH; [done|lia].
Qed.

Lemma addCoveredRange_spec rs s e :
  wfRanges rs →
  addCoveredRange rs s e = if e <=? s then rs else insertRange rs s e.
Proof.
  intros. unfold addCoveredRange. case_match; [done|]. by rewrite merge_insertRange.
Qed.

Lemma addCoveredRange_wf rs s e : wfRanges rs → wfRanges (addCoveredRange rs s e).
Proof.
  intros. rewrite addCoveredRange_spec by done.
  case_match; bool_prop; auto using insertRange_wf.
Qed.

Lemma addCoveredRange_covers rs s e i :
  wfRanges rs → covers (addCoveredRange rs s e) i ↔ covers rs i ∨ s ≤ i < e.
Proof.
  intros. rewrite addCoveredRange_spec by done. case_match; bool_prop.
  - intuition lia.
  - by apply insertRange_covers.
Qed.

#[export] Hint Resolve addCoveredRange_wf : ranges.

(** ** The representation is canonical *)

Lemma wfRanges_canonical rs1 rs2 :
  wfRanges rs1 → wfRanges rs2 → (∀ i, covers rs1 i ↔ covers rs2 i) → rs1 = rs2.
Proof.
  revert rs2. induction rs1 as [|r1 rs1 IH]; intros [|r2 rs2] H1 H2 Heq; [done|..].
  { exfalso. apply wfRanges_cons in H2 as (Hr & _). apply (covers_nil (Start r2)), Heq.
    exists r2. split; [by left|]. unfold inRange, nonEmpty in *. lia. }
  { exfalso. apply wfRanges_cons in H1 as (Hr & _). apply (covers_nil (Start r1)), Heq.
    exists r1. split; [by left|]. unfold inRange, nonEmpty in *. lia. }
  apply wfRanges_cons in H1 as (Hr1 & Ha1 & Hw1).
  apply wfRanges_cons in H2 as (Hr2 & Ha2 & Hw2). unfold nonEmpty in *.
  setoid_rewrite covers_cons in Heq. unfold inRange in Heq.
  assert (∀ i, covers rs1 i → End r1 < i) as Hc1 by eauto using covers_apart.
  assert (∀ i, covers rs2 i → End r2 < i) as Hc2 by eauto using covers_apart.
  assert (Start r1 = Start r2) as Hs.
  { destruct (proj1 (Heq (Start r1)) ltac:(lia)) as [?|?%Hc2];
      destruct (proj2 (Heq (Start r2)) ltac:(lia)) as [?|?%Hc1]; lia. }
  assert (End r1 = End r2) as He.
  { assert (¬ End r1 < End r2) as ?.
    { intros Hlt. destruct (proj2 (Heq (End r1)) ltac:(lia)) as [?|?%Hc1]; lia. }
    assert (¬ End r2 < End r1) as ?; [|lia].
    intros Hlt. destruct (proj1 (Heq (End r2)) ltac:(lia)) as [?|?%Hc2]; lia. }
  destruct r1, r2; simpl in *; subst. f_equal. apply IH; [done..|].
  intros i. split; intros Hi.
  - specialize (Hc1 i Hi). destruct (proj1 (Heq i) (or_intror Hi)); [lia|done].
  - specialize (Hc2 i Hi). destruct (proj2 (Heq i) (or_intror Hi)); [lia|done].
Qed.

(** ** Full coverage *)

Lemma contiguous_wf r rs : wfRanges (r :: rs) → contiguous (r :: rs) = true → rs = [].
Proof.
  intros (_ & Hap & _)%wfRanges_cons. destruct rs as [|r2 rs]; [done|].
  simpl. intros. bool_prop. apply Forall_cons in Hap as [Ha _]. unfold apart in Ha. lia.
Qed.

Lemma isFullyCovered_wf rs n :
  wfRanges rs →
  isFullyCovered rs n = true ↔ (rs = [] ∧ n = 0) ∨ (0 < n ∧ rs = [ByteRange 0 n]).
Proof.
  intros Hwf. destruct rs as [|r rs]; simpl.
  { rewrite Z.eqb_eq. naive_solver. }
  split.
  - destruct (Start r =? 0) eqn:E0; [|done]. simpl.
    destruct (last (r :: rs)) as [l|] eqn:El; [|done].
    destruct (End l =? n) eqn:En; [|done]. simpl. intros Hc. right.
    pose proof (contiguous_wf _ _ Hwf Hc) as ->. simpl in El. simplify_eq.
    apply wfRanges_cons in Hwf as (Hr & _). unfold nonEmpty in Hr.
    bool_prop. destruct l; simpl in *; subst. auto.
  - intros [[? _]|[Hn Hrs]]; [done|]. simplify_eq. simpl. by rewrite Z.eqb_refl.
Qed.

Lemma isFullyCovered_spec rs n :
  wfRanges rs → 0 ≤ n →
  isFullyCovered rs n = true ↔ ∀ i, covers rs i ↔ 0 ≤ i < n.
Proof.
  intros Hwf Hn. rewrite isFullyCovered_wf by done. split.
  - intros [[-> ->]|[Hp ->]] i; autorewrite with ranges; unfold inRange; simpl; intuition lia.
  - intros Hc. destruct (decide (n = 0)) as [->|Hnz].
    + left. split; [|done]. apply (wfRanges_canonical rs []); [done|by split; constructor|].
      intros i. rewrite Hc, covers_nil. lia.
    + right. split; [lia|]. apply (wfRanges_canonical rs [_]); [done| |].
      * apply wfRanges_cons. unfold nonEmpty; simpl. split; [lia|]. by repeat constructor.
      * intros i. rewrite Hc. autorewrite with ranges. unfold inRange; simpl. intuition lia.
Qed.

(** ** Sequences of recorded writes *)

Definition recordAll (rs : list byteRange) (ws : list (Z * Z)) : list byteRange :=
  foldl (λ rs w, addCoveredRange rs w.1 w.2) rs ws.

Lemma recordAll_wf rs ws : wfRanges rs → wfRanges (recordAll rs ws).
Proof. revert rs. induction ws as [|w ws IH]; simpl; auto with ranges. Qed.

Lemma recordAll_covers rs ws i :
  wfRanges rs →
  covers (recordAll rs ws) i ↔ covers rs i ∨ ∃ w, w ∈ ws ∧ w.1 ≤ i < w.2.
Proof.
  revert rs. induction ws as [|w ws IH]; intros rs Hwf; simpl.
  { split; [by left|]. intros [?|(w & []%elem_of_nil & _)]; done. }
  rewrite IH, addCoveredRange_covers by auto with ranges.
  setoid_rewrite elem_of_cons. naive_solver.
Qed.

(** ** Properties *)

(** Recording a written interval keeps the slice sorted, non-overlapping,
    non-adjacent and non-empty, and adds exactly the bytes of that interval to
    the bytes it covers. *)
Lemma addCoveredRange_correct (rs : list byteRange) (start end_ : Z) :
  wfRanges rs →
  wfRanges (addCoveredRange rs start end_) ∧
  ∀ i, covers (addCoveredRange rs start end_) i ↔ covers rs i ∨ start ≤ i < end_.
Proof.
  intros Hwf. split; [by apply addCoveredRange_wf|].
  intros i. by apply addCoveredRange_covers.
Qed.

(** C40: the slice of ranges does not depend on the order in which the parts of an
    upload arrive: concurrent part uploads that record the same intervals in any
    order leave the same slice. *)
Theorem coverage_order_independent (ws1 ws2 : list (Z * Z)) :
  ws1 ≡ₚ ws2 → recordAll [] ws1 = recordAll [] ws2.
Proof.
  intros Hp. assert (wfRanges []) as H0 by (split; constructor).
  apply wfRanges_canonical; [by apply recordAll_wf..|].
  intros i. rewrite !recordAll_covers by done. by setoid_rewrite Hp.
Qed.

Lemma coverage_order_independent_witness :
  recordAll [] [(0, 4); (8, 12); (4, 8)] = recordAll [] [(8, 12); (4, 8); (0, 4)].
Proof. apply coverage_order_independent. vm_compute. eauto using Permutation. Defined.

(** For the slice that a sequence of writes leaves, the completion check
    holds exactly when the writes cover every byte of [0, TotalSize) and none
    outside it. *)
Lemma fully_covered_iff (ws : list (Z * Z)) (TotalSize : Z) :
  0 ≤ TotalSize →
  isFullyCovered (recordAll [] ws) TotalSize = true ↔
  ∀ i, (∃ w, w ∈ ws ∧ w.1 ≤ i < w.2) ↔ 0 ≤ i < TotalSize.
Proof.
  intros Hn. assert (wfRanges []) as H0 by (split; constructor).
  rewrite isFullyCovered_spec by (done || by apply recordAll_wf).
  setoid_rewrite (recordAll_covers [] ws); [|done].
  setoid_rewrite covers_nil. split; intros H i; specialize (H i); tauto.
Qed.
