(* ===== verification/Dialect.v ===== *)
(** * internal/database/dialect.go and db.go: dialects and prepared statements

    The translation of placeholders, the fragments of SQL that depend on the
    dialect, and the wrapper that keeps prepared statements by their text. The
    statements are those of database/sql: a handle for every successful Prepare.
    Goroutines that share a [DB] interleave between any two of its calls. *)

From S2P Require Export GoString.
From stdpp Require Import pretty.

Local Open Scope go_scope.

Inductive Dialect := DialectSQLite | DialectPostgreSQL.

#[export] Instance Dialect_eq_dec : EqDecision Dialect.
Proof. solve_decision. Defined.

(** [strings.ToLower] on a name, whose letters are ASCII. *)
Definition lowerAscii (a : Ascii.ascii) : Ascii.ascii :=
  let n := Ascii.nat_of_ascii a in
  if (65 <=? n) && (n <=? 90) then Ascii.ascii_of_nat (n + 32) else a.
Fixpoint ToLower (s : string) : string :=
  match s with "" => "" | String a s => String (lowerAscii a) (ToLower s) end.

Definition DialectFromString (s : string) : Dialect :=
  if bool_decide (ToLower s ∈ ["postgresql"; "postgres"; "pg"]) then DialectPostgreSQL
  else DialectSQLite.

Definition DialectString (d : Dialect) : string :=
  match d with DialectPostgreSQL => "postgresql" | DialectSQLite => "sqlite" end.

Definition Placeholder (d : Dialect) (n : Z) : string :=
  match d with DialectPostgreSQL => "$" +:+ pretty n | DialectSQLite => "?" end.

Definition question : Ascii.ascii := Ascii.ascii_of_nat 63.

Fixpoint translateFrom (paramIndex : Z) (query : string) : string :=
  match query with
  | "" => ""
  | String a rest =>
      if bool_decide (a = question) then "$" +:+ pretty paramIndex +:+ translateFrom (paramIndex + 1) rest
      else String a (translateFrom paramIndex rest)
  end.

Definition Translate (d : Dialect) (query : string) : string :=
  match d with DialectSQLite => query | DialectPostgreSQL => translateFrom 1 query end.

(** [interface{}]: a bool or an int. *)
Definition BooleanValue (d : Dialect) (v : bool) : bool + Z :=
  match d with
  | DialectPostgreSQL => inl v
  | DialectSQLite => inr (if v then 1 else 0)%Z
  end.

Definition BooleanCheck (d : Dialect) (v : bool) : string :=
  match d with
  | DialectPostgreSQL => if v then "TRUE" else "FALSE"
  | DialectSQLite => if v then "1" else "0"
  end.

Definition AutoIncrementType (d : Dialect) : string :=
  match d with DialectPostgreSQL => "SERIAL" | DialectSQLite => "INTEGER" end.
Definition BooleanType (d : Dialect) : string := "BOOLEAN".
Definition TextType (d : Dialect) : string := "TEXT".
Definition TimestampType (d : Dialect) : string :=
  match d with DialectPostgreSQL => "TIMESTAMP WITH TIME ZONE" | DialectSQLite => "TIMESTAMP" end.
Definition CurrentTimestamp (d : Dialect) : string :=
  match d with DialectPostgreSQL => "NOW()" | DialectSQLite => "CURRENT_TIMESTAMP" end.
Definition CreateTableIfNotExistsSuffix (d : Dialect) : string := "".

(** ** The translation

    A query is its text between the question marks. *)

Fixpoint hasQuestion (s : string) : bool :=
  match s with "" => false | String a s => bool_decide (a = question) || hasQuestion s end.

(** [parts] joined with the placeholders of the dialect, numbered from [n]. *)
Fixpoint withPlaceholders (d : Dialect) (n : Z) (parts : list string) : string :=
  match parts with
  | [] => ""
  | [p] => p
  | p :: rest => p +:+ Placeholder d n +:+ withPlaceholders d (n + 1) rest
  end.

Lemma translateFrom_plain n p s :
  hasQuestion p = false → translateFrom n (p +:+ s) = p +:+ translateFrom n s.
Proof.
  induction p as [|a p IH]; simpl; [done|]. intros Hq. bool_prop.
  rewrite bool_decide_eq_false_2, IH by done. done.
Qed.

Lemma translateFrom_parts n m parts :
  Forall (λ p, hasQuestion p = false) parts →
  translateFrom n (withPlaceholders DialectSQLite m parts)
  = withPlaceholders DialectPostgreSQL n parts.
Proof.
  intros Hp. revert n m. induction Hp as [|p parts Hp Hps IH]; intros n m; [done|].
  destruct parts as [|p' parts].
  - simpl. pose proof (translateFrom_plain n p "" Hp) as H. by rewrite !append_nil_r in H.
  - change (withPlaceholders ?d ?n (p :: p' :: parts))
      with (p +:+ Placeholder d n +:+ withPlaceholders d (n + 1) (p' :: parts)).
    rewrite translateFrom_plain by done. f_equal. simpl Placeholder.
    change (translateFrom n ("?" +:+ ?s)) with ("$" +:+ pretty n +:+ translateFrom (n + 1) s).
    by rewrite (IH (n + 1)%Z (m + 1)%Z), append_assoc.
Qed.

(** Every query of the repository is written with question marks and none in a
    literal: its translation has the numbered placeholders in their place. *)
Lemma Translate_parts d parts :
  Forall (λ p, hasQuestion p = false) parts →
  Translate d (withPlaceholders DialectSQLite 1 parts) = withPlaceholders d 1 parts.
Proof. destruct d; [done|]. apply translateFrom_parts. Qed.

(** A question mark within a literal becomes a placeholder too. *)
Lemma Translate_literal :
  Translate DialectPostgreSQL "SELECT '?' WHERE id = ?" = "SELECT '$1' WHERE id = $2".
Proof. reflexivity. Qed.

(** ** Prepared statements

    [texts] is the text each handle was prepared with, [sent] the statements that
    were executed: the goroutine, the handle (none for the fallback that sends the
    text itself) and the text. *)

Record DB := MkDB {
  dialect : Dialect; stmts : gmap string nat; nextStmt : nat; texts : gmap nat string;
  closedStmts : gset nat; sent : list (nat * option nat * string)
}.

Definition NewDB (d : Dialect) : DB := MkDB d ∅ 0 ∅ ∅ [].

(** [sql.DB.Prepare], which may fail. *)
Definition prepare (ok : bool) (text : string) (db : DB) : option nat * DB :=
  if ok then
    let h := nextStmt db in
    (Some h, MkDB (dialect db) (stmts db) (S h) (<[h := text]> (texts db)) (closedStmts db) (sent db))
  else (None, db).

Definition closeStmt (h : nat) (db : DB) : DB :=
  MkDB (dialect db) (stmts db) (nextStmt db) (texts db) ({[h]} ∪ closedStmts db) (sent db).

Definition setStmts (s : gmap string nat) (db : DB) : DB :=
  MkDB (dialect db) s (nextStmt db) (texts db) (closedStmts db) (sent db).

(** [stmts.LoadOrStore]: the loser's statement is closed. *)
Definition loadOrStore (text : string) (h : nat) (db : DB) : nat * DB :=
  match stmts db !! text with
  | Some actual => (actual, closeStmt h db)
  | None => (h, setStmts (<[text := h]> (stmts db)) db)
  end.

Definition prepareStmt (ok : bool) (query : string) (db : DB) : option nat * DB :=
  let translated := Translate (dialect db) query in
  match stmts db !! translated with
  | Some h => (Some h, db)
  | None =>
      let '(stmt, db) := prepare ok translated db in
      match stmt with
      | None => (None, db)
      | Some h => let '(actual, db) := loadOrStore translated h db in (Some actual, db)
      end
  end.

Definition send (me : nat) (h : option nat) (text : string) (db : DB) : DB :=
  MkDB (dialect db) (stmts db) (nextStmt db) (texts db) (closedStmts db)
    (sent db ++ [(me, h, text)]).

(** Close ends every statement that the map holds. *)
Definition CloseDB (db : DB) : DB :=
  MkDB (dialect db) ∅ (nextStmt db) (texts db)
    (list_to_set (snd <$> map_to_list (stmts db)) ∪ closedStmts db) (sent db).

(** ** Transactions

    [txSent]: what was sent through the transaction; its statements pass by the map of
    prepared ones. *)

Record Tx := MkTx { txDialect : Dialect; txSent : list string }.

Definition BeginTx (begin : res unit) (db : DB) : res Tx :=
  match begin with Err e => Err e | Ok _ => Ok (MkTx (dialect db) []) end.

(** Exec, Query and QueryRow *)
Definition TxExec (query : string) (tx : Tx) : Tx :=
  MkTx (txDialect tx) (txSent tx ++ [Translate (txDialect tx) query]).

(** ** Interleaved calls *)

(** Where a goroutine is in Exec, Query or QueryRow. *)
Inductive pc := PStart | PMiss | PPrepared (h : nat) | PUse (h : nat) | PDirect | PDone.

(** What the next call does, and whether it succeeds. Only Query forgets the
    statement and tries again when its execution fails. *)
Definition stepCall (ok isQuery : bool) (me : nat) (query : string) (p : pc) (db : DB) : pc * DB :=
  let text := Translate (dialect db) query in
  match p with
  | PStart => (match stmts db !! text with Some h => PUse h | None => PMiss end, db)
  | PMiss =>
      let '(stmt, db) := prepare ok text db in
      (match stmt with Some h => PPrepared h | None => PDirect end, db)
  | PPrepared h => let '(actual, db) := loadOrStore text h db in (PUse actual, db)
  | PUse h =>
      let db := send me (Some h) text db in
      if isQuery && negb ok then (PDirect, setStmts (delete text (stmts db)) db) else (PDone, db)
  | PDirect => (PDone, send me None text db)
  | PDone => (PDone, db)
  end.

(** One goroutine takes a step. *)
Definition stepDB (calls : list (bool * string)) (act : nat * bool) (s : list pc * DB) : list pc * DB :=
  match calls !! act.1, s.1 !! act.1 with
  | Some (isQuery, query), Some p =>
      let '(p, db) := stepCall act.2 isQuery act.1 query p s.2 in (<[act.1 := p]> s.1, db)
  | _, _ => s
  end.

Definition runDB (calls : list (bool * string)) (sched : list (nat * bool)) (s : list pc * DB)
    : list pc * DB :=
  foldl (λ s act, stepDB calls act s) s sched.

Definition startDB (d : Dialect) (calls : list (bool * string)) : list pc * DB :=
  (replicate (length calls) PStart, NewDB d).

(** The whole of [prepareStmt] is the steps of one goroutine that nobody
    interrupts. *)
Lemma prepareStmt_steps ok q me isQuery db :
  let '(p1, db1) := stepCall ok isQuery me q PStart db in
  let '(p2, db2) := match p1 with PMiss => stepCall ok isQuery me q PMiss db1 | _ => (p1, db1) end in
  let '(p3, db3) := match p2 with PPrepared h => stepCall ok isQuery me q (PPrepared h) db2
                                | _ => (p2, db2) end in
  prepareStmt ok q db = (match p3 with PUse h => Some h | _ => None end, db3).
Proof.
  unfold stepCall, prepareStmt, prepare. simpl.
  destruct (stmts db !! _) as [h|] eqn:E; [done|]. destruct ok; [|done]. simpl.
  unfold loadOrStore. simpl. by rewrite E.
Qed.

(** ** The invariant *)

Definition holds (p : pc) (h : nat) : Prop := p = PPrepared h ∨ p = PUse h.

Definition good (db : DB) (h : nat) (text : string) : Prop :=
  texts db !! h = Some text ∧ h ∉ closedStmts db ∧ h < nextStmt db.

Definition sendsOf (i : nat) (db : DB) : nat :=
  length (filter (λ e, e.1.1 = i) (sent db)).

(** How often a goroutine has sent its statement. *)
Definition sendsOk (isQuery : bool) (p : pc) (n : nat) : Prop :=
  match p with
  | PDirect => n = 0 ∨ (isQuery = true ∧ n = 1)
  | PDone => n = 1 ∨ (isQuery = true ∧ n = 2)
  | _ => n = 0
  end.

Record dbInv (d : Dialect) (calls : list (bool * string)) (s : list pc * DB) : Prop := {
  inv_dialect : dialect s.2 = d;
  inv_len : length s.1 = length calls;
  inv_closed h : h ∈ closedStmts s.2 → h < nextStmt s.2;
  inv_map t h : stmts s.2 !! t = Some h → good s.2 h t;
  inv_held i p h isq q : s.1 !! i = Some p → calls !! i = Some (isq, q) → holds p h →
    good s.2 h (Translate d q);
  inv_private i j h p : s.1 !! i = Some (PPrepared h) → s.1 !! j = Some p → holds p h → i = j;
  inv_unmapped i h t : s.1 !! i = Some (PPrepared h) → stmts s.2 !! t ≠ Some h;
  inv_sent i h t : (i, h, t) ∈ sent s.2 →
    ∃ isq q, calls !! i = Some (isq, q) ∧ t = Translate d q ∧
      ∀ n, h = Some n → good s.2 n t ∧ (∀ j, s.1 !! j ≠ Some (PPrepared n));
  inv_count i p isq q : s.1 !! i = Some p → calls !! i = Some (isq, q) →
    sendsOk isq p (sendsOf i s.2)
}.

Lemma sendsOf_send i me h t db :
  sendsOf i (send me h t db) = sendsOf i db + (if decide (me = i) then 1 else 0).
Proof.
  unfold sendsOf, send. simpl. rewrite filter_app, length_app. f_equal.
  rewrite filter_cons. simpl. by case_decide.
Qed.

Ltac at_pc :=
  repeat match goal with
  | H : <[_ := _]> _ !! _ = Some _ |- _ =>
      apply list_lookup_insert_Some in H as [(<- & H & _)|[? H]]; simplify_eq
  | H : holds _ _ |- _ => destruct H as [H|H]; simplify_eq
  end; simplify_eq/=.

Section preserved.
Context (d : Dialect) (calls : list (bool * string)) (pcs : list pc) (db : DB).
Context (i : nat) (isq : bool) (q : string).
Context (Hinv : dbInv d calls (pcs, db)) (Hc : calls !! i = Some (isq, q)).

(** A goroutine that goes on without touching the shared state. *)
Lemma inv_move p p' :
  pcs !! i = Some p →
  (∀ h, holds p' h → p' = PUse h ∧ good db h (Translate d q) ∧ ∀ j, pcs !! j ≠ Some (PPrepared h)) →
  (∀ n, sendsOk isq p n → sendsOk isq p' n) →
  dbInv d calls (<[i := p']> pcs, db).
Proof.
  intros Hp Hh Hn. destruct Hinv as [Hd Hl Hcl Hm He Hpr Hu Hs Hk]. simpl in *. constructor; simpl.
  - done.
  - by rewrite length_insert.
  - done.
  - done.
  - intros j p0 h isq' q' Hj Hcj Hold. apply list_lookup_insert_Some in Hj as [(<- & <- & _)|[? Hj]].
    + simplify_eq. by apply Hh.
    + by eapply He.
  - intros j k h p0 Hj Hk' Hold.
    apply list_lookup_insert_Some in Hj as [(<- & Hj & _)|[? Hj]].
    { destruct (Hh h) as [? _]; [by left|]. congruence. }
    apply list_lookup_insert_Some in Hk' as [(<- & <- & _)|[? Hk']].
    { destruct (Hh h Hold) as (_ & _ & Hno). by destruct (Hno j). }
    by eapply Hpr.
  - intros j h t Hj. apply list_lookup_insert_Some in Hj as [(<- & Hj & _)|[? Hj]]; [|by eapply Hu].
    destruct (Hh h) as [? _]; [by left|]. congruence.
  - intros j h t Hin. destruct (Hs j h t Hin) as (isq' & q' & ? & ? & Hg). exists isq', q'.
    split_and!; [done|done|]. intros n ->. destruct (Hg n eq_refl) as [? Hno]. split; [done|].
    intros k Hk'. apply list_lookup_insert_Some in Hk' as [(<- & Hk' & _)|[? Hk']]; [|by eapply Hno].
    destruct (Hh n) as [? _]; [by left|]. congruence.
  - intros j p0 isq' q' Hj Hcj. apply list_lookup_insert_Some in Hj as [(<- & <- & _)|[? Hj]].
    + simplify_eq. by eapply Hn, Hk.
    + by eapply Hk.
Qed.

Lemma mapped_not_pending t h :
  stmts db !! t = Some h → ∀ j, pcs !! j ≠ Some (PPrepared h).
Proof. intros Ht j Hj. by eapply (inv_unmapped _ _ _ Hinv). Qed.

Lemma used_not_pending h : pcs !! i = Some (PUse h) → ∀ j, pcs !! j ≠ Some (PPrepared h).
Proof.
  intros Hi j Hj. assert (j = i) as -> by (eapply (inv_private _ _ _ Hinv); [done..|by right]).
  simpl in *. congruence.
Qed.

Lemma held_good j p h :
  pcs !! j = Some p → holds p h → ∃ q', good db h (Translate d q').
Proof.
  intros Hj Hh. assert (is_Some (calls !! j)) as [[isq' q'] Hcj].
  { apply lookup_lt_is_Some. rewrite <-(inv_len _ _ _ Hinv). by eapply lookup_lt_Some. }
  exists q'. by eapply (inv_held _ _ _ Hinv).
Qed.

(** A new statement is known to nobody else. *)
Lemma inv_prepare :
  pcs !! i = Some PMiss →
  dbInv d calls (<[i := PPrepared (nextStmt db)]> pcs, (prepare true (Translate d q) db).2).
Proof.
  intros Hp. pose proof held_good as Hgood. destruct Hinv as [Hd Hl Hcl Hm He Hpr Hu Hs Hk]. simpl in *.
  assert (∀ h t, good db h t → h ≠ nextStmt db) as Hne by (intros h t (_ & _ & ?); lia).
  assert (∀ h t, good db h t → good (prepare true (Translate d q) db).2 h t) as Hg.
  { intros h t Hg. pose proof (Hne _ _ Hg). destruct Hg as (? & ? & ?). unfold good, prepare. simpl.
    rewrite lookup_insert_ne by done. split_and!; [done|done|lia]. }
  assert (good (prepare true (Translate d q) db).2 (nextStmt db) (Translate d q)) as Hnew.
  { unfold good. simpl. rewrite lookup_insert_eq. split_and!; [done| |lia].
    intros Hin%Hcl. lia. }
  constructor; simpl; try done.
  - by rewrite length_insert.
  - intros h ?%Hcl. lia.
  - intros t h Ht. by apply Hg, Hm.
  - intros j p0 h isq' q' Hj Hcj Hold. at_pc; [done|apply Hg; eapply He; [done|done|]..]; [by left|by right].
  - intros j k h p0 Hj Hk' Hold.
    apply list_lookup_insert_Some in Hj as [(<- & [= <-] & _)|[? Hj]];
      apply list_lookup_insert_Some in Hk' as [(<- & <- & _)|[? Hk']]; [done|..].
    + exfalso. destruct (Hgood k p0 _ Hk' Hold) as [? ?%Hne]. done.
    + exfalso. destruct (Hgood j _ h Hj) as [? ?%Hne]; [by left|]. by destruct Hold; simplify_eq.
    + by eapply Hpr.
  - intros j h t Hj Ht. at_pc; [by apply (Hne _ _ (Hm _ _ Ht))|by eapply Hu].
  - intros j h t Hin. destruct (Hs j h t Hin) as (isq' & q' & ? & ? & Hgs). exists isq', q'.
    split_and!; [done|done|]. intros n ->. destruct (Hgs n eq_refl) as [Hgn Hno]. split; [by apply Hg|].
    intros k Hk'. at_pc; [by apply (Hne _ _ Hgn)|by eapply Hno].
  - intros j p0 isq' q' Hj Hcj. at_pc; [|by eapply Hk]. by apply (Hk i PMiss isq q).
Qed.

(** The goroutine that lost the race closes its own statement. *)
Lemma inv_lose h actual :
  pcs !! i = Some (PPrepared h) → stmts db !! Translate d q = Some actual →
  dbInv d calls (<[i := PUse actual]> pcs, closeStmt h db).
Proof.
  intros Hp Ha. destruct Hinv as [Hd Hl Hcl Hm He Hpr Hu Hs Hk]. simpl in *.
  assert (∀ h' t, good db h' t → h' ≠ h → good (closeStmt h db) h' t) as Hg.
  { intros h' t (? & ? & ?) ?. unfold good. simpl. split_and!; [done|set_solver|done]. }
  assert (actual ≠ h) as Hah by (intros ->; by eapply Hu).
  constructor; simpl; try done.
  - by rewrite length_insert.
  - intros h' [->%elem_of_singleton|?]%elem_of_union; [|by apply Hcl].
    by destruct (He i _ h _ _ Hp Hc) as (_ & _ & ?); [by left|].
  - intros t h' Ht. apply Hg; [by apply Hm|]. intros ->. by eapply Hu.
  - intros j p0 h' isq' q' Hj Hcj Hold.
    apply list_lookup_insert_Some in Hj as [(<- & <- & _)|[? Hj]].
    + simplify_eq. destruct Hold as [|Hold]; [done|]. simplify_eq. by apply Hg; [apply Hm|].
    + apply Hg; [by eapply He|]. intros ->. by assert (i = j) by (by eapply Hpr).
  - intros j k h' p0 Hj Hk' Hold.
    apply list_lookup_insert_Some in Hj as [(_ & ? & _)|[? Hj]]; [done|].
    apply list_lookup_insert_Some in Hk' as [(<- & <- & _)|[? Hk']]; [|by eapply Hpr].
    destruct Hold as [|Hold]; [done|]. simplify_eq. exfalso. by eapply Hu.
  - intros j h' t Hj. apply list_lookup_insert_Some in Hj as [(_ & ? & _)|[? Hj]]; [done|by eapply Hu].
  - intros j h' t Hin. destruct (Hs j h' t Hin) as (isq' & q' & ? & ? & Hgs). exists isq', q'.
    split_and!; [done|done|]. intros n ->. destruct (Hgs n eq_refl) as [Hgn Hno].
    split; [apply Hg; [done|intros ->; by eapply Hno]|].
    intros k Hk'. apply list_lookup_insert_Some in Hk' as [(_ & ? & _)|[? Hk']]; [done|by eapply Hno].
  - intros j p0 isq' q' Hj Hcj. apply list_lookup_insert_Some in Hj as [(<- & <- & _)|[? Hj]];
      [|by eapply Hk]. simplify_eq. by apply (Hk i (PPrepared h) isq q).
Qed.

(** The one that won has stored its statement. *)
Lemma inv_win h :
  pcs !! i = Some (PPrepared h) → stmts db !! Translate d q = None →
  dbInv d calls (<[i := PUse h]> pcs, setStmts (<[Translate d q := h]> (stmts db)) db).
Proof.
  intros Hp Ha. destruct Hinv as [Hd Hl Hcl Hm He Hpr Hu Hs Hk]. simpl in *.
  assert (good db h (Translate d q)) as Hgh by (eapply He; [done|done|by left]).
  constructor; simpl; try done.
  - by rewrite length_insert.
  - intros t h' Ht. rewrite lookup_insert in Ht. case_decide; [by simplify_eq|by apply Hm].
  - intros j p0 h' isq' q' Hj Hcj Hold.
    apply list_lookup_insert_Some in Hj as [(<- & <- & _)|[? Hj]]; [|by eapply He].
    destruct Hold as [|Hold]; [done|]. by simplify_eq.
  - intros j k h' p0 Hj Hk' Hold.
    apply list_lookup_insert_Some in Hj as [(_ & ? & _)|[? Hj]]; [done|].
    apply list_lookup_insert_Some in Hk' as [(<- & <- & _)|[? Hk']]; [|by eapply Hpr].
    destruct Hold as [|Hold]; [done|]. simplify_eq. eapply Hpr; [done..|by left].
  - intros j h' t Hj Ht. apply list_lookup_insert_Some in Hj as [(_ & ? & _)|[? Hj]]; [done|].
    rewrite lookup_insert in Ht. case_decide; [|by eapply Hu]. simplify_eq.
    by assert (j = i) by (eapply Hpr; [done..|by left]).
  - intros j h' t Hin. destruct (Hs j h' t Hin) as (isq' & q' & ? & ? & Hgs). exists isq', q'.
    split_and!; [done|done|]. intros n ->. destruct (Hgs n eq_refl) as [Hgn Hno]. split; [done|].
    intros k Hk'. apply list_lookup_insert_Some in Hk' as [(_ & ? & _)|[? Hk']]; [done|by eapply Hno].
  - intros j p0 isq' q' Hj Hcj. apply list_lookup_insert_Some in Hj as [(<- & <- & _)|[? Hj]];
      [|by eapply Hk]. simplify_eq. by apply (Hk i (PPrepared h) isq q).
Qed.

(** A statement is sent, through a handle or as text; forgetting the entry of the
    map is always sound. *)
Lemma inv_send p p' ho m :
  pcs !! i = Some p → (∀ h, ¬ holds p' h) → m ⊆ stmts db →
  (∀ n, ho = Some n → p = PUse n) →
  (∀ n, sendsOk isq p n → sendsOk isq p' (n + 1)) →
  dbInv d calls (<[i := p']> pcs, setStmts m (send i ho (Translate d q) db)).
Proof.
  intros Hp Hh Hsub Hho Hn. pose proof used_not_pending as Hunp.
  destruct Hinv as [Hd Hl Hcl Hm He Hpr Hu Hs Hk]. simpl in *.
  assert (∀ h j, <[i := p']> pcs !! j = Some (PPrepared h) → pcs !! j = Some (PPrepared h)) as Hlk.
  { intros h j Hj. apply list_lookup_insert_Some in Hj as [(_ & -> & _)|[? Hj]]; [|done].
    destruct (Hh h). by left. }
  constructor; simpl; try done.
  - by rewrite length_insert.
  - intros t h Ht. by eapply Hm, lookup_weaken.
  - intros j p0 h isq' q' Hj Hcj Hold.
    apply list_lookup_insert_Some in Hj as [(<- & <- & _)|[? Hj]]; [by destruct (Hh h)|by eapply He].
  - intros j k h p0 Hj%Hlk Hk' Hold.
    apply list_lookup_insert_Some in Hk' as [(<- & <- & _)|[? Hk']]; [by destruct (Hh h)|by eapply Hpr].
  - intros j h t Hj%Hlk Ht. by eapply Hu, lookup_weaken.
  - intros j h t [Hin|Hin]%elem_of_app.
    + destruct (Hs j h t Hin) as (isq' & q' & ? & ? & Hgs). exists isq', q'.
      split_and!; [done|done|]. intros n ->. destruct (Hgs n eq_refl) as [Hgn Hno]. split; [done|].
      intros k Hk'%Hlk. by eapply Hno.
    + apply list_elem_of_singleton in Hin as [= -> -> ->]. exists isq, q. split_and!; [done|done|].
      intros n Hn'. rewrite (Hho n Hn') in Hp. split; [eapply He; [done|done|by right]|].
      intros k Hk'%Hlk. by eapply Hunp.
  - intros j p0 isq' q' Hj Hcj.
    change (sendsOf j (setStmts m ?x)) with (sendsOf j x). rewrite sendsOf_send.
    apply list_lookup_insert_Some in Hj as [(<- & <- & _)|[? Hj]].
    + rewrite decide_True by done. simplify_eq. by eapply Hn, Hk.
    + rewrite decide_False, Nat.add_0_r by done. by eapply Hk.
Qed.
End preserved.

Lemma dbInv_start d calls : dbInv d calls (startDB d calls).
Proof.
  constructor; simpl; try done; try (intros; set_solver).
  - by rewrite length_replicate.
  - intros i p h isq q [-> _]%lookup_replicate _ [|]; done.
  - intros i j h p [? _]%lookup_replicate; done.
  - intros i p isq q [-> _]%lookup_replicate _. done.
Qed.

Lemma dbInv_step d calls act s : dbInv d calls s → dbInv d calls (stepDB calls act s).
Proof.
  destruct s as [pcs db], act as [i ok]. intros Hinv. unfold stepDB. simpl.
  destruct (calls !! i) as [[isq q]|] eqn:Hc; [|done]. destruct (pcs !! i) as [p|] eqn:Hp; [|done].
  assert (dialect db = d) as Hd by apply (inv_dialect _ _ _ Hinv).
  unfold stepCall. rewrite Hd. destruct p as [| |h|h| |].
  - destruct (stmts db !! _) as [h|] eqn:Em; (eapply inv_move; [done..| |done]).
    + intros h' [|[= <-]]; [done|]. split_and!; [done|by apply (inv_map _ _ _ Hinv)|].
      by eapply mapped_not_pending.
    + intros h' [|]; done.
  - destruct ok; [by eapply inv_prepare|]. eapply inv_move; [done..| |].
    + intros h' [|]; done.
    + intros n ?. by left.
  - unfold loadOrStore. destruct (stmts db !! _) as [actual|] eqn:Em; [by eapply inv_lose|by eapply inv_win].
  - assert (∀ n, isq && negb ok = true → sendsOk isq (PUse h) n → sendsOk isq PDirect (n + 1)) as Hq.
    { intros n Hb Hn. simpl in *. subst n. bool_prop. by right. }
    destruct (isq && negb ok).
    + eapply (inv_send d calls pcs db i isq q Hinv Hc (PUse h) PDirect (Some h));
        [done|by intros h' [|]|apply delete_subseteq|naive_solver|auto].
    + eapply (inv_send d calls pcs db i isq q Hinv Hc (PUse h) PDone (Some h) (stmts db));
        [done|by intros h' [|]|done|naive_solver|]. intros n ->. by left.
  - eapply (inv_send d calls pcs db i isq q Hinv Hc PDirect PDone None (stmts db));
      [done|by intros h' [|]|done|done|]. intros n [->|[? ->]]; [by left|by right].
  - eapply inv_move; [done..| |done]. intros h' [|]; done.
Qed.

Lemma dbInv_run d calls sched s : dbInv d calls s → dbInv d calls (runDB calls sched s).
Proof.
  revert s. induction sched as [|act sched IH]; intros s Hs; [done|]. by apply IH, dbInv_step.
Qed.

(** Every step of a goroutine brings it nearer to its end. *)
Definition rank (p : pc) : nat :=
  match p with PStart => 5 | PMiss => 4 | PPrepared _ => 3 | PUse _ => 2 | PDirect => 1 | PDone => 0 end.

Lemma stepCall_rank ok isq me q p db : rank (stepCall ok isq me q p db).1 ≤ pred (rank p).
Proof.
  unfold stepCall, prepare, loadOrStore. destruct p; simpl; repeat case_match; simplify_eq/=; lia.
Qed.

Lemma runDB_rank calls i isq q sched s p :
  calls !! i = Some (isq, q) → s.1 !! i = Some p →
  ∃ p', (runDB calls sched s).1 !! i = Some p' ∧
        rank p' ≤ rank p - length (filter (λ a, a.1 = i) sched).
Proof.
  intros Hc. revert s p. induction sched as [|[j ok] sched IH]; intros s p Hp.
  { exists p. split; [done|]. simpl. lia. }
  simpl. change (runDB calls ((j, ok) :: sched) s) with (runDB calls sched (stepDB calls (j, ok) s)).
  rewrite filter_cons. simpl. destruct (decide (j = i)) as [->|Hj].
  - assert ((stepDB calls (i, ok) s).1 !! i = Some (stepCall ok isq i q p s.2).1) as Hs.
    { unfold stepDB. simpl. rewrite Hc, Hp. destruct (stepCall _ _ _ _ _ _). simpl.
      by rewrite list_lookup_insert_eq by (by eapply lookup_lt_Some). }
    destruct (IH _ _ Hs) as (p' & Hp' & Hr). exists p'. split; [done|]. simpl.
    pose proof (stepCall_rank ok isq i q p s.2). lia.
  - assert ((stepDB calls (j, ok) s).1 !! i = Some p) as Hs.
    { unfold stepDB. simpl. destruct (calls !! j) as [[]|]; [|done]. destruct (s.1 !! j); [|done].
      destruct (stepCall _ _ _ _ _ _). simpl. by rewrite list_lookup_insert_ne. }
    apply (IH _ _ Hs).
Qed.

(** ** Properties *)

(** C34: goroutines that share a database, under every interleaving of their
    calls: every statement that is sent is the translation of the caller's
    query, through a handle that was prepared with exactly that text and is open;
    a goroutine that was given five steps is done, and has sent its statement
    exactly once, or for Query once more after a failure. *)
Theorem prepared_statements (d : Dialect) (calls : list (bool * string)) (sched : list (nat * bool)) :
  let s := runDB calls sched (startDB d calls) in
  (∀ i h t, (i, h, t) ∈ sent s.2 →
     ∃ isQuery q, calls !! i = Some (isQuery, q) ∧ t = Translate d q ∧
       ∀ n, h = Some n → texts s.2 !! n = Some t ∧ n ∉ closedStmts s.2) ∧
  (∀ i h, s.1 !! i = Some (PUse h) → h ∉ closedStmts s.2) ∧
  (∀ i isQuery q, calls !! i = Some (isQuery, q) →
     5 ≤ length (filter (λ a, a.1 = i) sched) →
     s.1 !! i = Some PDone ∧
     (sendsOf i s.2 = 1 ∨ (isQuery = true ∧ sendsOf i s.2 = 2))).
Proof.
  intros s. assert (dbInv d calls s) as Hinv by apply dbInv_run, dbInv_start. split_and!.
  - intros i h t Hin. destruct (inv_sent _ _ _ Hinv i h t Hin) as (isq & q & Hc & Ht & Hg).
    exists isq, q. split_and!; [done|done|]. intros n Hn. by destruct (Hg n Hn) as [(? & ? & _) _].
  - intros i h Hi. assert (is_Some (calls !! i)) as [[isq q] Hc].
    { apply lookup_lt_is_Some. rewrite <-(inv_len _ _ _ Hinv). by eapply lookup_lt_Some. }
    destruct (inv_held _ _ _ Hinv i _ h _ _ Hi Hc) as (_ & ? & _); [by right|done].
  - intros i isq q Hc Hlen.
    destruct (runDB_rank calls i isq q sched (startDB d calls) PStart Hc) as (p & Hp & Hr).
    { simpl. apply lookup_replicate. split; [done|by eapply lookup_lt_Some]. }
    simpl in Hr. assert (p = PDone) as -> by (destruct p; simpl in *; (done || lia)).
    split; [done|]. apply (inv_count _ _ _ Hinv i _ _ _ Hp Hc).
Qed.

(** A statement that Query gives up is taken out of the map and never closed. *)
Lemma evicted_never_closed :
  let s := runDB [(true, "SELECT ?")] [(0, true); (0, true); (0, true); (0, false); (0, true)]
             (startDB DialectPostgreSQL [(true, "SELECT ?")]) in
  s.1 = [PDone] ∧ texts s.2 !! 0 = Some "SELECT $1" ∧ stmts s.2 = ∅ ∧ closedStmts (CloseDB s.2) = ∅.
Proof. vm_compute. split_and!; reflexivity. Qed.
