(* ===== verification/Redis.v ===== *)
(** * The Redis server behind internal/distributed

    The server and the go-redis client are not part of the repository: they
    are an interface here. [RedisServer] lists the commands the code issues and
    [RedisLaws] what the Redis documentation says of them; [MapRedis] is a
    concrete server that satisfies the laws. Time is in nanoseconds. *)

From S2P Require Export GoString.

Local Open Scope Z_scope.

Definition Millisecond : Z := 1000000.
Definition Second : Z := 1000 * Millisecond.

Class RedisServer (R : Type) := {
  rGET : Z → string → R → option string;
  (** SET k v, with an expiry in milliseconds when one is given *)
  rSET : Z → string → string → option Z → R → R;
  (** SET k v NX: [true] when the key was set *)
  rSETNX : Z → string → string → option Z → R → bool * R;
  rDEL : Z → string → R → Z * R;
  rPEXPIRE : Z → string → Z → R → Z * R
}.

(** When a value stored at [now] with [ttl] milliseconds is still promised at
    [t]: the server's clock has millisecond resolution. *)
Definition promised (now : Z) (ttl : option Z) (t : Z) : Prop :=
  now ≤ t ∧
  match ttl with None => True | Some ms => t < now + ms * Millisecond - Millisecond end.

Class RedisLaws (R : Type) `{RedisServer R} := {
  get_expires r k t t' v : t ≤ t' → rGET t' k r = Some v → rGET t k r = Some v;
  set_promised r now k v ttl t :
    promised now ttl t → rGET t k (rSET now k v ttl r) = Some v;
  set_only r now k v ttl t v' :
    now ≤ t → rGET t k (rSET now k v ttl r) = Some v' → v' = v;
  set_frame r now k v ttl k' t :
    k ≠ k' → now ≤ t → rGET t k' (rSET now k v ttl r) = rGET t k' r;
  setnx_present r now k v ttl v0 :
    rGET now k r = Some v0 → rSETNX now k v ttl r = (false, r);
  setnx_absent r now k v ttl :
    rGET now k r = None → rSETNX now k v ttl r = (true, rSET now k v ttl r);
  del_present r now k v :
    rGET now k r = Some v → (rDEL now k r).1 = 1;
  del_absent r now k :
    rGET now k r = None → (rDEL now k r).1 = 0;
  del_gone r now k t : now ≤ t → rGET t k (rDEL now k r).2 = None;
  del_frame r now k k' t :
    k ≠ k' → now ≤ t → rGET t k' (rDEL now k r).2 = rGET t k' r;
  pexpire_present r now k v ms :
    rGET now k r = Some v → (rPEXPIRE now k ms r).1 = 1;
  pexpire_absent r now k ms :
    rGET now k r = None → rPEXPIRE now k ms r = (0, r);
  pexpire_promised r now k v ms t :
    rGET now k r = Some v → promised now (Some ms) t →
    rGET t k (rPEXPIRE now k ms r).2 = Some v;
  pexpire_only r now k v ms t v' :
    rGET now k r = Some v → now ≤ t →
    rGET t k (rPEXPIRE now k ms r).2 = Some v' → v' = v;
  pexpire_frame r now k ms k' t :
    k ≠ k' → now ≤ t → rGET t k' (rPEXPIRE now k ms r).2 = rGET t k' r
}.

(** ** A concrete server: a map from keys to values with an optional deadline *)

Module MapRedis.

Notation state := (gmap string (string * option Z)).

Definition live (t : Z) (e : string * option Z) : option string :=
  match e.2 with
  | Some d => if t <? d then Some e.1 else None
  | None => Some e.1
  end.

Definition get (t : Z) (k : string) (r : state) : option string := r !! k ≫= live t.

Definition deadline (now : Z) (ttl : option Z) : option Z :=
  (λ ms, now + ms * Millisecond) <$> ttl.

Definition set (now : Z) (k v : string) (ttl : option Z) (r : state) : state :=
  <[k := (v, deadline now ttl)]> r.

#[global] Instance server : RedisServer state := {|
  rGET := get;
  rSET := set;
  rSETNX now k v ttl r :=
    match get now k r with Some _ => (false, r) | None => (true, set now k v ttl r) end;
  rDEL now k r :=
    (match get now k r with Some _ => 1 | None => 0 end, delete k r);
  rPEXPIRE now k ms r :=
    match get now k r with
    | Some v => (1, set now k v (Some ms) r)
    | None => (0, r)
    end
|}.

Lemma get_set_eq now k v ttl r t :
  get t k (set now k v ttl r) = live t (v, deadline now ttl).
Proof. unfold get, set. by rewrite lookup_insert_eq. Qed.

Lemma get_set_ne now k v ttl r k' t : k ≠ k' → get t k' (set now k v ttl r) = get t k' r.
Proof. intros. unfold get, set. by rewrite lookup_insert_ne. Qed.

Lemma live_promised now ttl t v :
  promised now ttl t → live t (v, deadline now ttl) = Some v.
Proof.
  unfold promised, live, deadline, Millisecond. destruct ttl as [ms|]; simpl; [|done].
  intros [? ?]. case_match; bool_prop; [done|lia].
Qed.

Lemma live_only t v d v' : live t (v, d) = Some v' → v' = v.
Proof. unfold live; simpl. intros. go_cases. Qed.

#[global] Instance laws : RedisLaws state.
Proof.
  split; simpl.
  - intros r k t t' v Ht. unfold get. destruct (r !! k) as [[v0 [d|]]|]; simpl; [|done..].
    unfold live; simpl. repeat case_match; bool_prop; intros; simplify_eq; [done|lia].
  - intros. rewrite get_set_eq. by apply live_promised.
  - intros r now k v ttl t v' _. rewrite get_set_eq. apply live_only.
  - intros. by apply get_set_ne.
  - intros r now k v ttl v0 ->. done.
  - intros r now k v ttl ->. done.
  - intros r now k v ->. done.
  - intros r now k ->. done.
  - intros. unfold get. by rewrite lookup_delete_eq.
  - intros. unfold get. by rewrite lookup_delete_ne.
  - intros r now k v ms ->. done.
  - intros r now k ms ->. done.
  - intros r now k v ms t ->. simpl. rewrite get_set_eq. apply live_promised.
  - intros r now k v ms t v' ->. simpl. rewrite get_set_eq. intros _. apply live_only.
  - intros r now k ms k' t Hk _. destruct (get now k r); simpl; [by apply get_set_ne|done].
Qed.

End MapRedis.

(** ** The client side: a call can be lost, or its reply can be

    A transfer can also break off after [n] bytes; the call that makes it fails. *)

Inductive fault := NoFault | Lost (e : error) | ReplyLost (e : error) | ShortRead (n : nat).

Definition errIO : error := ErrMsg "input/output error".

Definition callRedis {R A} (f : fault) (op : R → A * R) : R → res A * R := λ r,
  match f with
  | NoFault => let '(a, r') := op r in (Ok a, r')
  | Lost e => (Err e, r)
  | ReplyLost e => let '(_, r') := op r in (Err e, r')
  | ShortRead _ => (Err errIO, r)
  end.

(** go-redis sends a duration as whole milliseconds, at least one; zero means
    no expiry. *)
Definition redisTTL (ttl : Z) : option Z :=
  if ttl =? 0 then None
  else if (0 <? ttl) && (ttl <? Millisecond) then Some 1
  else Some (Z.quot ttl Millisecond).

Lemma redisTTL_promised now ttl t :
  0 < ttl → now ≤ t < now + ttl - 2 * Millisecond → promised now (redisTTL ttl) t.
Proof.
  unfold promised, redisTTL, Millisecond. intros Httl Ht. split; [lia|].
  destruct (ttl =? 0) eqn:E0; bool_prop; [done|].
  destruct ((0 <? ttl) && (ttl <? 1000000)) eqn:E1; bool_prop; [lia|].
  rewrite Z.quot_div_nonneg by lia.
  pose proof (Z.mul_div_le ttl 1000000). pose proof (Z.mod_pos_bound ttl 1000000).
  pose proof (Z.div_mod ttl 1000000). lia.
Qed.
