(* ===== verification/Consistency.v ===== *)
(** * internal/consistency: versions, replicas and quorums

    The manager of replica status: what BeforeWrite, AfterWrite and BeforeRead
    decide at each level, the health check, and the validation of the quorums. The
    calls to the replicas themselves are not there in the code: a write is only
    noted. *)

From S2P Require Export Redis.

Local Open Scope go_scope.

Inductive ConsistencyLevel := LevelNone | LevelEventual | LevelStrong.

#[export] Instance ConsistencyLevel_eq_dec : EqDecision ConsistencyLevel.
Proof. solve_decision. Defined.

(** [LastSync] is [None] for the zero time, which is always long ago. *)
Record ReplicaStatus := MkReplica {
  rsID : string; rsAddress : string; rsLastSync : option Z; rsVersion : Z; rsAvailable : bool
}.

Record ConsistencyManager := MkConsistency {
  level : ConsistencyLevel; replicaCount : Z; readQuorum : Z; writeQuorum : Z;
  syncInterval : Z; localVersion : Z; replicaStatus : gmap string ReplicaStatus
}.

Definition levelOf (level : string) : ConsistencyLevel :=
  if bool_decide (level = "strong") then LevelStrong
  else if bool_decide (level = "eventual") then LevelEventual
  else LevelNone.

(** syncLoop, which runs at every level but none, sets the interval when it is
    zero. *)
Definition NewConsistencyManager (lvl : string) (replicas read write syncIntervalMs : Z)
    : ConsistencyManager :=
  let interval := wrap64 (syncIntervalMs * Millisecond) in
  MkConsistency (levelOf lvl) replicas read write
    (if negb (bool_decide (levelOf lvl = LevelNone)) && (interval =? 0)%Z
     then 5 * Second else interval) 0 ∅.

Definition setVersion v (cm : ConsistencyManager) : ConsistencyManager :=
  MkConsistency (level cm) (replicaCount cm) (readQuorum cm) (writeQuorum cm) (syncInterval cm)
    v (replicaStatus cm).
Definition setReplicas r (cm : ConsistencyManager) : ConsistencyManager :=
  MkConsistency (level cm) (replicaCount cm) (readQuorum cm) (writeQuorum cm) (syncInterval cm)
    (localVersion cm) r.

Definition IncrementVersion (cm : ConsistencyManager) : Z * ConsistencyManager :=
  let v := wrap64 (localVersion cm + 1) in (v, setVersion v cm).

Definition GetVersion (cm : ConsistencyManager) : Z := localVersion cm.

Definition countAvailableReplicas (cm : ConsistencyManager) : Z :=
  Z.of_nat (size (filter (λ kv, rsAvailable kv.2 = true) (replicaStatus cm))).

Definition BeforeWrite (cm : ConsistencyManager) : bool :=
  match level cm with
  | LevelStrong => (writeQuorum cm <=? countAvailableReplicas cm + 1)%Z
  | LevelEventual => true
  | LevelNone => true
  end.

Definition BeforeRead (cm : ConsistencyManager) : bool :=
  match level cm with
  | LevelStrong => (readQuorum cm <=? countAvailableReplicas cm + 1)%Z
  | _ => true
  end.

(** A write is noted at every available replica. *)
Definition noteWrite (now version : Z) (r : ReplicaStatus) : ReplicaStatus :=
  if rsAvailable r then MkReplica (rsID r) (rsAddress r) (Some now) version true else r.

(** [syncWrite] and, in a goroutine, [asyncReplicate]: the same effect; the count of
    confirmations only goes to the log. *)
Definition syncWrite (now version : Z) (cm : ConsistencyManager) : ConsistencyManager :=
  setReplicas (noteWrite now version <$> replicaStatus cm) cm.
Definition asyncReplicate := syncWrite.

(** Whether the goroutine of an eventual write has run is [ran]. *)
Definition AfterWrite (now : Z) (ran : bool) (cm : ConsistencyManager) : ConsistencyManager :=
  let '(version, cm) := IncrementVersion cm in
  match level cm with
  | LevelStrong => syncWrite now version cm
  | LevelEventual => if ran then asyncReplicate now version cm else cm
  | LevelNone => cm
  end.

Definition RegisterReplica (id address : string) (cm : ConsistencyManager) : ConsistencyManager :=
  setReplicas (<[id := MkReplica id address None 0 true]> (replicaStatus cm)) cm.

(** [time.Since(LastSync) > syncInterval*3] *)
Definition stale (now interval : Z) (r : ReplicaStatus) : bool :=
  match rsLastSync r with
  | Some t => (wrap64 (interval * 3) <? now - t)%Z
  | None => (wrap64 (interval * 3) <? int64_max)%Z
  end.

Definition checkReplicaHealth (now : Z) (cm : ConsistencyManager) : ConsistencyManager :=
  setReplicas
    ((λ r, if stale now (syncInterval cm) r
           then MkReplica (rsID r) (rsAddress r) (rsLastSync r) (rsVersion r) false else r)
     <$> replicaStatus cm) cm.

(** The order of the map is the order of its keys here. *)
Definition GetReplicaStatus (cm : ConsistencyManager) : list ReplicaStatus :=
  snd <$> map_to_list (replicaStatus cm).

Record SyncRequest := MkSyncRequest {
  sqOperation : string; sqKey : string; sqValue : list Byte.byte; sqVersion : Z; sqTimestamp : Z
}.
Record SyncResponse := MkSyncResponse { spSuccess : bool; spVersion : Z }.

Definition HandleSyncRequest (req : SyncRequest) (cm : ConsistencyManager)
    : res SyncResponse * ConsistencyManager :=
  let cm := if (localVersion cm <? sqVersion req)%Z then setVersion (sqVersion req) cm else cm in
  (Ok (MkSyncResponse true (localVersion cm)), cm).

(** The handler that is registered for a pattern. *)
Definition syncEndpoint (req : SyncRequest) (cm : ConsistencyManager) : SyncResponse * ConsistencyManager :=
  let '(r, cm) := HandleSyncRequest req cm in
  (match r with Ok resp => resp | Err _ => MkSyncResponse false 0 end, cm).

Definition AddSyncEndpoint (cm : ConsistencyManager)
    : list (string * (SyncRequest → ConsistencyManager → SyncResponse * ConsistencyManager)) :=
  if bool_decide (level cm = LevelNone) then [] else [("/sync", syncEndpoint)].

Definition ValidateQuorum (replicaCount readQuorum writeQuorum : Z) : res unit :=
  if (0 <? replicaCount)%Z then
    if (readQuorum <=? 0)%Z || (wrap64 (replicaCount + 1) <? readQuorum)%Z
    then Err (ErrMsg "read_quorum out of range")
    else if (writeQuorum <=? 0)%Z || (wrap64 (replicaCount + 1) <? writeQuorum)%Z
    then Err (ErrMsg "write_quorum out of range")
    else if (wrap64 (readQuorum + writeQuorum) <=? wrap64 (replicaCount + 1))%Z
    then Err (ErrMsg "read_quorum + write_quorum must be > replica_count+1")
    else Ok tt
  else Ok tt.

(** ** What happens to a manager *)

Inductive consistencyOp :=
| OpAfterWrite (now : Z) (ran : bool)
| OpRegister (id address : string)
| OpHealth (now : Z)
| OpSync (req : SyncRequest).

Definition runConsistency (op : consistencyOp) (cm : ConsistencyManager) : ConsistencyManager :=
  match op with
  | OpAfterWrite t ran => AfterWrite t ran cm
  | OpRegister id a => RegisterReplica id a cm
  | OpHealth t => checkReplicaHealth t cm
  | OpSync req => (HandleSyncRequest req cm).2
  end.

(** No replica is ahead, and the version is one of int64. *)
Definition versionsOk (cm : ConsistencyManager) : Prop :=
  (0 ≤ localVersion cm < int64_max)%Z ∧
  map_Forall (λ _ r, (0 ≤ rsVersion r ≤ localVersion cm)%Z) (replicaStatus cm).

(** The versions of other instances that arrive are in range too. *)
Definition opOk (op : consistencyOp) : Prop :=
  match op with OpSync req => (sqVersion req < int64_max)%Z | _ => True end.

Lemma IncrementVersion_spec cm :
  versionsOk cm →
  (IncrementVersion cm).1 = (localVersion cm + 1)%Z ∧
  localVersion (IncrementVersion cm).2 = (localVersion cm + 1)%Z.
Proof.
  intros [Hv _]. unfold IncrementVersion. simpl.
  rewrite wrap64_id; [done|]. unfold in64, int64_min, int64_max in *. lia.
Qed.

(** Every operation keeps the invariant, up to the last version, and never takes
    the version back. *)
Lemma runConsistency_spec op cm :
  versionsOk cm → opOk op →
  (localVersion cm ≤ localVersion (runConsistency op cm))%Z ∧
  (localVersion (runConsistency op cm) < int64_max → versionsOk (runConsistency op cm))%Z.
Proof.
  intros Hok Hop. destruct (IncrementVersion_spec cm Hok) as [H1 H2]. destruct Hok as [Hv Hr].
  rewrite map_Forall_lookup in Hr. destruct op as [t ran|id a|t|v]; simpl.
  - unfold AfterWrite. destruct (IncrementVersion cm) as [n cm1] eqn:Ei. simpl in H1, H2.
    assert (replicaStatus cm1 = replicaStatus cm) as Hs by (unfold IncrementVersion in Ei; by simplify_eq).
    assert (localVersion (syncWrite t n cm1) = localVersion cm1) as Hl by done.
    assert ((localVersion cm1 < int64_max)%Z → versionsOk cm1) as Hk1.
    { intros. split; [lia|]. rewrite Hs, H2. apply map_Forall_lookup. intros i r Hi.
      specialize (Hr i r Hi). lia. }
    assert ((localVersion cm1 < int64_max)%Z → versionsOk (syncWrite t n cm1)) as Hk2.
    { intros. split; [lia|]. simpl. rewrite H2. apply map_Forall_lookup. intros i r.
      rewrite lookup_fmap, Hs. destruct (replicaStatus cm !! i) as [r0|] eqn:E0; [|done].
      intros [= <-]. specialize (Hr i r0 E0). unfold noteWrite. destruct (rsAvailable r0); simpl; lia. }
    unfold asyncReplicate. destruct (level cm1); [|destruct ran|]; (split; [rewrite ?Hl; lia|auto]).
  - split; [done|]. intros _. split; [done|]. simpl. apply map_Forall_lookup. intros i r.
    rewrite lookup_insert. case_decide; [intros [= <-]; simpl; lia|apply Hr].
  - split; [done|]. intros _. split; [done|]. simpl. apply map_Forall_lookup. intros i r.
    rewrite lookup_fmap. destruct (replicaStatus cm !! i) as [r0|] eqn:E0; [|done].
    intros [= <-]. specialize (Hr i r0 E0). destruct (stale _ _ r0); simpl; lia.
  - unfold HandleSyncRequest. simpl in Hop. destruct (localVersion cm <? sqVersion v)%Z eqn:E; bool_prop; simpl.
    + split; [lia|]. intros _. split; simpl in *; [lia|]. apply map_Forall_lookup. intros i r Hi.
      specialize (Hr i r Hi). lia.
    + split; [lia|]. intros _. split; [done|]. by apply map_Forall_lookup.
Qed.

(** The endpoint, where it is registered, answers with a version that is neither before the
    one of the request nor before the own one. *)
Lemma sync_answer pattern handler req cm :
  (pattern, handler) ∈ AddSyncEndpoint cm →
  let '(resp, cm') := handler req cm in
  spSuccess resp = true ∧ spVersion resp = localVersion cm' ∧
  spVersion resp = Z.max (sqVersion req) (localVersion cm).
Proof.
  unfold AddSyncEndpoint. case_bool_decide; [by intros ?%elem_of_nil|].
  intros [= -> ->]%list_elem_of_singleton. unfold syncEndpoint, HandleSyncRequest.
  destruct (localVersion cm <? sqVersion req)%Z eqn:E; bool_prop; simpl; split_and!; done || lia.
Qed.

(** A replica that is unavailable stays so until it is registered again: writes
    skip it, so that its time of synchronisation never moves. *)
Lemma unavailable_for_ever op cm id r :
  replicaStatus cm !! id = Some r → rsAvailable r = false →
  (∀ a, op ≠ OpRegister id a) →
  ∃ r', replicaStatus (runConsistency op cm) !! id = Some r' ∧ rsAvailable r' = false.
Proof.
  intros Hr Ha Hop. destruct op as [t ran|id' a|t|v]; simpl.
  - unfold AfterWrite, IncrementVersion, asyncReplicate, syncWrite. simpl.
    destruct (level cm); [|destruct ran|]; simpl; rewrite ?lookup_fmap, Hr; simpl;
      (eexists; split; [done|]); unfold noteWrite; rewrite ?Ha; done.
  - rewrite lookup_insert_ne; [eauto|]. intros ->. by apply (Hop a).
  - rewrite lookup_fmap, Hr. simpl. eexists. split; [done|]. by destruct (stale _ _ r).
  - unfold HandleSyncRequest. destruct (_ <? _)%Z; simpl; eauto.
Qed.

(** A replica that was registered and not written to yet is taken out by the first
    health check, whatever the interval. *)
Lemma new_replica_unavailable id a t cm :
  (0 ≤ syncInterval cm ≤ 3600 * Second)%Z →
  ∃ r, replicaStatus (checkReplicaHealth t (RegisterReplica id a cm)) !! id = Some r ∧
       rsAvailable r = false.
Proof.
  intros Hi. unfold checkReplicaHealth, RegisterReplica. simpl.
  rewrite lookup_fmap, lookup_insert_eq. simpl. eexists. split; [done|]. unfold stale. simpl.
  rewrite wrap64_id by (unfold in64, int64_min, int64_max, Second, Millisecond in *; lia).
  rewrite (proj2 (Z.ltb_lt _ _)); [done|]. unfold int64_max, Second, Millisecond in *. lia.
Qed.

Lemma ValidateQuorum_overlap n r w :
  (0 < n < int64_max)%Z → ValidateQuorum n r w = Ok tt →
  (0 < r ≤ n + 1 ∧ 0 < w ≤ n + 1 ∧ n + 1 < r + w)%Z.
Proof.
  intros Hn. unfold ValidateQuorum. rewrite (proj2 (Z.ltb_lt 0 n)) by lia.
  rewrite (wrap64_id (n + 1)) by (unfold in64, int64_min, int64_max in *; lia).
  destruct ((r <=? 0)%Z || _) eqn:E1; [done|]. destruct ((w <=? 0)%Z || _) eqn:E2; [done|].
  destruct (_ <=? n + 1)%Z eqn:E3; [done|]. intros _. bool_prop.
  split_and!; [lia..|]. destruct (decide (in64 (r + w))) as [Hi|Hi].
  - rewrite wrap64_id in E3 by done. lia.
  - assert (¬ (r + w ≤ int64_max))%Z by (intros ?; apply Hi; unfold in64, int64_min in *; lia). lia.
Qed.

(** ** Properties *)

(** With validated quorums and all replicas registered, a strong write that
    passes [BeforeWrite] leaves its version, which is newer than every version
    before, at the local node and at every available replica, and every set of
    replicas of the size of the read quorum contains one that has it. *)
Lemma quorum_reads_latest (cm : ConsistencyManager) (t : Z) (ran : bool) :
  level cm = LevelStrong → versionsOk cm →
  (0 < replicaCount cm < int64_max)%Z → Z.of_nat (size (replicaStatus cm)) = replicaCount cm →
  ValidateQuorum (replicaCount cm) (readQuorum cm) (writeQuorum cm) = Ok tt →
  BeforeWrite cm = true →
  let cm' := AfterWrite t ran cm in
  localVersion cm' = (localVersion cm + 1)%Z ∧
  (∀ id r, replicaStatus cm !! id = Some r → (rsVersion r < localVersion cm')%Z) ∧
  (∀ R : gset string, R ⊆ dom (replicaStatus cm) → (readQuorum cm ≤ Z.of_nat (size R))%Z →
     ∃ id r, id ∈ R ∧ replicaStatus cm' !! id = Some r ∧ rsVersion r = localVersion cm').
Proof.
  intros Hlvl Hok Hn Hsize Hq Hb cm'.
  destruct (IncrementVersion_spec cm Hok) as [H1 H2].
  assert (cm' = syncWrite t (localVersion cm + 1) (IncrementVersion cm).2) as Hcm.
  { subst cm'. unfold AfterWrite. destruct (IncrementVersion cm) as [n cm1] eqn:E. simpl in H1. subst n.
    assert (level cm1 = level cm) as -> by (unfold IncrementVersion in E; by simplify_eq).
    by rewrite Hlvl. }
  assert (localVersion cm' = localVersion cm + 1)%Z as Hv by (by rewrite Hcm).
  split; [done|]. split.
  { intros id r Hr. destruct Hok as [_ Hf]. specialize (Hf id r Hr). simpl in Hf. rewrite Hv. lia. }
  intros R HR Hsz.
  apply (ValidateQuorum_overlap _ _ _ Hn) in Hq as (_ & _ & Hsum).
  unfold BeforeWrite in Hb. rewrite Hlvl in Hb. bool_prop. unfold countAvailableReplicas in Hb.
  set (A := dom (filter (λ kv, rsAvailable kv.2 = true) (replicaStatus cm)) : gset string).
  assert (size A = size (filter (λ kv, rsAvailable kv.2 = true) (replicaStatus cm))) as HA
    by apply size_dom.
  assert (A ⊆ dom (replicaStatus cm)) as HAd by apply dom_filter_subseteq.
  destruct (decide (R ## A)) as [Hdis|Hnd].
  - exfalso. pose proof (size_union R A Hdis) as Hu.
    assert (size (R ∪ A) ≤ size (dom (replicaStatus cm) : gset string)) as Hle
      by (apply subseteq_size; set_solver).
    rewrite size_dom in Hle. lia.
  - assert (R ∩ A ≢ ∅) as Hne by set_solver.
    apply set_choose in Hne as [id Hid]. apply elem_of_intersection in Hid as [HidR HidA].
    apply elem_of_dom in HidA as [r Hr]. apply map_lookup_filter_Some in Hr as [Hr Hav]. simpl in Hav.
    exists id, (noteWrite t (localVersion cm + 1) r). split_and!; [done| |].
    + rewrite Hcm. unfold syncWrite, IncrementVersion. simpl. by rewrite lookup_fmap, Hr.
    + unfold noteWrite. rewrite Hav. done.
Qed.

Definition threeReplicas : ConsistencyManager :=
  RegisterReplica "b" "" (RegisterReplica "a" "" (NewConsistencyManager "strong" 2 2 2 1000)).
