(* ===== verification/Config.v ===== *)
(** * internal/config: the configuration

    The sections of the file, the defaults, and the validation that runs before
    the server starts. The YAML decoder is a parameter: a program that fills a
    configuration from the bytes of the file. *)

From S2P Require Export Consistency.

Local Open Scope go_scope.

Record TLSConfig := MkTLS { tEnabled : bool; CertFile : string; TKeyFile : string }.

Record ServerConfig := MkServer {
  HTTPPort : Z; HTTPSPort : Z; GRPCPort : Z; GRPCEnabled : bool; Workers : Z;
  MaxUploadSizeMB : Z; MaxChunkSizeMB : Z; MaxPageSize : Z;
  CORSAllowedOrigins : string; TrustedProxies : list string
}.

Record LocalStorageConfig := MkLocal { RootDir : string }.

Record MinIOStorageConfig := MkMinIO {
  Endpoint : string; AccessKey : string; SecretKey : string; Bucket : string; UseSSL : bool
}.

Record StorageConfig := MkStorage {
  sType : string; SLocal : LocalStorageConfig; SMinIO : MinIOStorageConfig; TempDir : string
}.

Record DatabaseConfig := MkDatabase {
  dType : string; DPath : string; Host : string; Port : Z; DName : string; DUser : string;
  DPassword : string; SSLMode : string; SearchPath : string; DPoolSize : Z;
  ConnectionTimeoutMs : Z
}.

Record LoggingConfig := MkLogging { Level : string; LFile : string; Format : string }.

Record CacheConfig := MkCacheCfg { cEnabled : bool; cType : string; TTL : Z; MaxSize : Z }.

Record RedisConfig := MkRedisCfg {
  rEnabled : bool; rAddress : string; rPassword : string; rDB : Z; RPoolSize : Z
}.

Record EtcdConfig := MkEtcd { eEnabled : bool; Endpoints : list string; Prefix : string }.

Record ConsistencyConfig := MkConsCfg {
  CLevel : string; ReplicaCount : Z; ReadQuorum : Z; WriteQuorum : Z; SyncIntervalMs : Z
}.

Record DiscoveryConfig := MkDiscovery {
  yEnabled : bool; yType : string; yAddress : string; Interval : Z
}.

Record AuthConfig := MkAuthCfg {
  aEnabled : bool; Secret : string; TokenExpiry : Z; RefreshExpiry : Z
}.

Record CryptoConfig := MkCryptoCfg {
  xEnabled : bool; Algorithm : string; XKeyFile : string; Passphrase : string
}.

Record Config := MkConfig {
  Server : ServerConfig; TLS : TLSConfig; Storage : StorageConfig; Database : DatabaseConfig;
  Logging : LoggingConfig; CacheC : CacheConfig; Redis : RedisConfig; Etcd : EtcdConfig;
  ConsistencyC : ConsistencyConfig; Discovery : DiscoveryConfig; AuthC : AuthConfig;
  CryptoC : CryptoConfig
}.

(** ** Defaults *)

Definition orZ (n d : Z) : Z := if (n =? 0)%Z then d else n.
Definition orStr (s d : string) : string := if bool_decide (s = "") then d else s.

Definition serverDefaults (s : ServerConfig) : ServerConfig :=
  MkServer (orZ (HTTPPort s) 8080) (orZ (HTTPSPort s) 8443) (orZ (GRPCPort s) 9090)
    (if negb (GRPCEnabled s) then true else GRPCEnabled s) (orZ (Workers s) 8)
    (orZ (MaxUploadSizeMB s) 1024) (orZ (MaxChunkSizeMB s) 64) (orZ (MaxPageSize s) 1000)
    (orStr (CORSAllowedOrigins s) "") (TrustedProxies s).

Definition storageDefaults (s : StorageConfig) : StorageConfig :=
  MkStorage (orStr (sType s) "local") (MkLocal (orStr (RootDir (SLocal s)) "/data/fsserver"))
    (SMinIO s) (TempDir s).

Definition databaseDefaults (d : DatabaseConfig) : DatabaseConfig :=
  MkDatabase (orStr (dType d) "postgresql") (DPath d) (Host d) (Port d) (DName d) (DUser d)
    (DPassword d) (SSLMode d) (SearchPath d) (orZ (DPoolSize d) 10)
    (orZ (ConnectionTimeoutMs d) 5000).

Definition loggingDefaults (l : LoggingConfig) : LoggingConfig :=
  MkLogging (orStr (Level l) "info") (LFile l) (orStr (Format l) "console").

Definition redisDefaults (r : RedisConfig) : RedisConfig :=
  MkRedisCfg (rEnabled r) (rAddress r) (rPassword r) (rDB r)
    (if rEnabled r && (RPoolSize r =? 0)%Z then 10%Z else RPoolSize r).

Definition applyDefaults (c : Config) : Config :=
  MkConfig (serverDefaults (Server c)) (TLS c) (storageDefaults (Storage c))
    (databaseDefaults (Database c)) (loggingDefaults (Logging c)) (CacheC c)
    (redisDefaults (Redis c)) (Etcd c) (ConsistencyC c) (Discovery c) (AuthC c) (CryptoC c).

(** [os.ReadFile] gives the bytes or an error. *)
Definition Load (unmarshal : string → M Config unit) (file : res string) : M Config unit :=
  data ← wrapErr "failed to read config file" (lift file);
  _ ← wrapErr "failed to parse config file" (unmarshal data);
  modify applyDefaults.

(** ** Validation *)

Definition reject (bad : bool) (msg : string) : M Config unit :=
  if bad then throw (ErrMsg msg) else mret tt.

Definition badPort (p : Z) : bool := (p <? 1)%Z || (65535 <? p)%Z.
Definition blank (s : string) : bool := bool_decide (s = "").

Definition validateServer : M Config unit :=
  s ← gets Server;
  reject (badPort (HTTPPort s)) "server.http_port must be between 1 and 65535" ⨟
  reject (badPort (HTTPSPort s)) "server.https_port must be between 1 and 65535" ⨟
  reject (badPort (GRPCPort s)) "server.grpc_port must be between 1 and 65535" ⨟
  reject (Workers s <? 1)%Z "server.workers must be at least 1" ⨟
  reject (MaxUploadSizeMB s <? 1)%Z "server.max_upload_size_mb must be at least 1" ⨟
  reject (MaxChunkSizeMB s <? 1)%Z "server.max_chunk_size_mb must be at least 1" ⨟
  reject (MaxUploadSizeMB s <? MaxChunkSizeMB s)%Z
    "server.max_chunk_size_mb must not exceed max_upload_size_mb" ⨟
  reject ((MaxPageSize s <? 1)%Z || (10000 <? MaxPageSize s)%Z)
    "server.max_page_size must be between 1 and 10000".

Definition validateTLS : M Config unit :=
  t ← gets TLS;
  if tEnabled t then
    reject (blank (CertFile t)) "tls.cert_file is required when TLS is enabled" ⨟
    reject (blank (TKeyFile t)) "tls.key_file is required when TLS is enabled"
  else mret tt.

Definition validateStorage : M Config unit :=
  s ← gets Storage;
  reject (negb (bool_decide (sType s ∈ ["local"; "minio"])))
    "storage.type must be local or minio" ⨟
  (if bool_decide (sType s = "local") then
     reject (blank (RootDir (SLocal s)) || bool_decide (RootDir (SLocal s) = "/"))
       "storage.local.root_dir cannot be empty or root '/'"
   else mret tt) ⨟
  (if bool_decide (sType s = "minio") then
     reject (blank (Endpoint (SMinIO s))) "storage.minio.endpoint is required" ⨟
     reject (blank (AccessKey (SMinIO s))) "storage.minio.access_key is required" ⨟
     reject (blank (SecretKey (SMinIO s))) "storage.minio.secret_key is required" ⨟
     reject (blank (Bucket (SMinIO s))) "storage.minio.bucket is required"
   else mret tt).

Definition validateDatabase : M Config unit :=
  d ← gets Database;
  reject (negb (bool_decide (dType d = "postgresql"))) "database.type must be postgresql" ⨟
  reject (blank (Host d)) "database.host is required" ⨟
  reject (badPort (Port d)) "database.port must be between 1 and 65535" ⨟
  reject (blank (DName d)) "database.name is required" ⨟
  reject (blank (DUser d)) "database.user is required" ⨟
  reject (DPoolSize d <? 1)%Z "database.pool_size must be at least 1".

Definition validateCache : M Config unit :=
  k ← gets CacheC;
  if cEnabled k then
    reject (blank (cType k)) "cache.type is required when cache is enabled" ⨟
    reject (TTL k <? 0)%Z "cache.ttl must not be negative" ⨟
    reject (MaxSize k <? 0)%Z "cache.max_size must not be negative"
  else mret tt.

Definition validateRedis : M Config unit :=
  r ← gets Redis;
  if rEnabled r then
    reject (blank (rAddress r)) "redis.address is required when Redis is enabled" ⨟
    reject (RPoolSize r <? 1)%Z "redis.pool_size must be at least 1"
  else mret tt.

Definition validateEtcd : M Config unit :=
  e ← gets Etcd;
  if eEnabled e then
    reject (bool_decide (Endpoints e = [])) "etcd.endpoints must not be empty when etcd is enabled"
  else mret tt.

(** The interval is repaired here, in the configuration itself. *)
Definition defaultInterval (c : Config) : Config :=
  let k := ConsistencyC c in
  if negb (bool_decide (CLevel k = "none")) && negb (blank (CLevel k))
     && (SyncIntervalMs k <? 1)%Z
  then MkConfig (Server c) (TLS c) (Storage c) (Database c) (Logging c) (CacheC c) (Redis c)
         (Etcd c) (MkConsCfg (CLevel k) (ReplicaCount k) (ReadQuorum k) (WriteQuorum k) 5000)
         (Discovery c) (AuthC c) (CryptoC c)
  else c.

Definition validateConsistency : M Config unit :=
  k ← gets ConsistencyC;
  (if negb (blank (CLevel k)) then
     reject (negb (bool_decide (CLevel k ∈ ["none"; "eventual"; "strong"])))
       "consistency.level must be none, eventual, or strong"
   else mret tt) ⨟
  modify defaultInterval.

Definition validateDiscovery : M Config unit :=
  y ← gets Discovery;
  if yEnabled y then
    reject (blank (yType y)) "discovery.type is required when discovery is enabled" ⨟
    reject (blank (yAddress y)) "discovery.address is required when discovery is enabled" ⨟
    reject (Interval y <? 1)%Z "discovery.interval must be at least 1"
  else mret tt.

Definition validateAuth : M Config unit :=
  a ← gets AuthC;
  if aEnabled a then
    reject (blank (Secret a)) "auth.secret is required when auth is enabled" ⨟
    reject (TokenExpiry a <? 1)%Z "auth.token_expiry must be at least 1" ⨟
    reject (RefreshExpiry a <? 1)%Z "auth.refresh_expiry must be at least 1"
  else mret tt.

Definition validateCrypto : M Config unit :=
  x ← gets CryptoC;
  if xEnabled x then
    reject (blank (Algorithm x)) "crypto.algorithm is required when crypto is enabled" ⨟
    reject (blank (XKeyFile x) && blank (Passphrase x))
      "crypto.key_file or crypto.passphrase is required when crypto is enabled"
  else mret tt.

Definition Validate : M Config unit :=
  validateServer ⨟ validateTLS ⨟ validateStorage ⨟ validateDatabase ⨟ validateCache ⨟
  validateRedis ⨟ validateEtcd ⨟ validateConsistency ⨟ validateDiscovery ⨟ validateAuth ⨟
  validateCrypto.

(** What the entry point does with the configuration up to the consistency
    manager, whose quorums it checks. *)
Definition startConsistency (c : Config) : res (option ConsistencyManager) :=
  let k := ConsistencyC c in
  if negb (bool_decide (CLevel k = "none")) && negb (blank (CLevel k)) then
    _ ← ValidateQuorum (ReplicaCount k) (ReadQuorum k) (WriteQuorum k);
    mret (Some (NewConsistencyManager (CLevel k) (ReplicaCount k) (ReadQuorum k)
                  (WriteQuorum k) (SyncIntervalMs k)))
  else mret None.

Definition startConfig (unmarshal : string → M Config unit) (file : res string)
    : M Config (option ConsistencyManager) :=
  _ ← Load unmarshal file;
  _ ← Validate;
  c ← get;
  lift (startConsistency c).

(** ** What a valid configuration is *)

Definition portOk (p : Z) : Prop := (1 ≤ p ≤ 65535)%Z.

Definition serverOk (s : ServerConfig) : Prop :=
  portOk (HTTPPort s) ∧ portOk (HTTPSPort s) ∧ portOk (GRPCPort s) ∧ (1 ≤ Workers s)%Z ∧
  (1 ≤ MaxChunkSizeMB s ≤ MaxUploadSizeMB s)%Z ∧ (1 ≤ MaxPageSize s ≤ 10000)%Z.

Definition storageOk (s : StorageConfig) : Prop :=
  (sType s = "local" ∧ RootDir (SLocal s) ≠ "" ∧ RootDir (SLocal s) ≠ "/") ∨
  (sType s = "minio" ∧ Endpoint (SMinIO s) ≠ "" ∧ AccessKey (SMinIO s) ≠ "" ∧
   SecretKey (SMinIO s) ≠ "" ∧ Bucket (SMinIO s) ≠ "").

Definition databaseOk (d : DatabaseConfig) : Prop :=
  dType d = "postgresql" ∧ Host d ≠ "" ∧ portOk (Port d) ∧ DName d ≠ "" ∧ DUser d ≠ "" ∧
  (1 ≤ DPoolSize d)%Z.

Record wellFormed (c : Config) : Prop := {
  wf_server : serverOk (Server c);
  wf_tls : tEnabled (TLS c) = true → CertFile (TLS c) ≠ "" ∧ TKeyFile (TLS c) ≠ "";
  wf_storage : storageOk (Storage c);
  wf_database : databaseOk (Database c);
  wf_cache : cEnabled (CacheC c) = true →
    cType (CacheC c) ≠ "" ∧ (0 ≤ TTL (CacheC c))%Z ∧ (0 ≤ MaxSize (CacheC c))%Z;
  wf_redis : rEnabled (Redis c) = true → rAddress (Redis c) ≠ "" ∧ (1 ≤ RPoolSize (Redis c))%Z;
  wf_etcd : eEnabled (Etcd c) = true → Endpoints (Etcd c) ≠ [];
  wf_level : CLevel (ConsistencyC c) ∈ [""; "none"; "eventual"; "strong"];
  wf_discovery : yEnabled (Discovery c) = true →
    yType (Discovery c) ≠ "" ∧ yAddress (Discovery c) ≠ "" ∧ (1 ≤ Interval (Discovery c))%Z;
  wf_auth : aEnabled (AuthC c) = true →
    Secret (AuthC c) ≠ "" ∧ (1 ≤ TokenExpiry (AuthC c))%Z ∧ (1 ≤ RefreshExpiry (AuthC c))%Z;
  wf_crypto : xEnabled (CryptoC c) = true →
    Algorithm (CryptoC c) ≠ "" ∧ (XKeyFile (CryptoC c) ≠ "" ∨ Passphrase (CryptoC c) ≠ "")
}.

(** ** Each validator is exact *)

Lemma reject_iff bad msg (c c' : Config) :
  reject bad msg c = (Ok tt, c') ↔ bad = false ∧ c' = c.
Proof.
  unfold reject. destruct bad; simpl; (split; [|intros [? ->]; done]); [done|].
  by intros [= <-].
Qed.

Lemma reject_then bad msg (k : M Config unit) c c' :
  (reject bad msg ⨟ k)%go c = (Ok tt, c') ↔ bad = false ∧ k c = (Ok tt, c').
Proof. unfold reject, mbind, M_bind. destruct bad; simpl; split; try done; by intros []. Qed.

Lemma gets_then {A} (f : Config → A) (k : A → M Config unit) c : (gets f ≫= k) c = k (f c) c.
Proof. done. Qed.

Lemma ret_then (k : M Config unit) c : (mret tt ⨟ k)%go c = k c.
Proof. done. Qed.

Lemma ret_iff (c c' : Config) : mret (M := M Config) tt c = (Ok tt, c') ↔ c' = c.
Proof. unfold mret, M_ret. split; [by intros [= <-]|by intros ->]. Qed.

Lemma badPort_iff p : badPort p = false ↔ portOk p.
Proof. unfold badPort, portOk. rewrite orb_false_iff, Z.ltb_ge, Z.ltb_ge. lia. Qed.

Lemma blank_iff s : blank s = false ↔ s ≠ "".
Proof. unfold blank. apply bool_decide_eq_false. Qed.

Lemma bool_decide_not P `{Decision P} : negb (bool_decide P) = false ↔ P.
Proof. by rewrite negb_false_iff, bool_decide_eq_true. Qed.

Create Rewrite HintDb validate.
#[export] Hint Rewrite @gets_then ret_then reject_then reject_iff ret_iff badPort_iff blank_iff
  @bool_decide_not orb_false_iff andb_false_iff @bool_decide_eq_false Z.ltb_ge : validate.

Definition checks (v : M Config unit) (P : Config → Prop) : Prop :=
  ∀ c c', v c = (Ok tt, c') ↔ P c ∧ c' = c.

Lemma checks_then v P (k : M Config unit) c c' :
  checks v P → (v ⨟ k)%go c = (Ok tt, c') ↔ P c ∧ k c = (Ok tt, c').
Proof.
  intros Hv. unfold mbind, M_bind. destruct (v c) as [[[]|e] c1] eqn:E.
  - apply Hv in E as [HP ->]. tauto.
  - split; [done|]. intros [HP _]. assert (v c = (Ok tt, c)) as E' by (by apply Hv). congruence.
Qed.

Lemma checks_server : checks validateServer (λ c, serverOk (Server c)).
Proof.
  intros c c'. unfold validateServer, serverOk. autorewrite with validate. naive_solver lia.
Qed.

Lemma checks_tls :
  checks validateTLS (λ c, tEnabled (TLS c) = true → CertFile (TLS c) ≠ "" ∧ TKeyFile (TLS c) ≠ "").
Proof.
  intros c c'. unfold validateTLS. rewrite gets_then.
  destruct (tEnabled (TLS c)); autorewrite with validate; intuition discriminate.
Qed.

Lemma checks_storage : checks validateStorage (λ c, storageOk (Storage c)).
Proof.
  intros c c'. unfold validateStorage, storageOk. rewrite gets_then, reject_then, bool_decide_not.
  destruct (decide (sType (Storage c) = "local")) as [Hl|Hl].
  - rewrite Hl. simpl. autorewrite with validate.
    split; [intuition|]. intros [[(_ & ? & ?)|(? & _)] ->]; [|done]. split; [set_solver|done].
  - rewrite (bool_decide_eq_false_2 _ Hl). rewrite ret_then.
    destruct (decide (sType (Storage c) = "minio")) as [Hm|Hm].
    + rewrite Hm. simpl. autorewrite with validate.
      split; [intuition|]. intros [[(? & _)|(_ & ?)] ->]; [done|]. split; [set_solver|intuition].
    + rewrite (bool_decide_eq_false_2 _ Hm), ret_iff. set_solver.
Qed.

Lemma checks_database : checks validateDatabase (λ c, databaseOk (Database c)).
Proof.
  intros c c'. unfold validateDatabase, databaseOk. autorewrite with validate. naive_solver lia.
Qed.

Lemma checks_cache : checks validateCache (λ c, cEnabled (CacheC c) = true →
  cType (CacheC c) ≠ "" ∧ (0 ≤ TTL (CacheC c))%Z ∧ (0 ≤ MaxSize (CacheC c))%Z).
Proof.
  intros c c'. unfold validateCache. rewrite gets_then.
  destruct (cEnabled (CacheC c)); autorewrite with validate; intuition discriminate.
Qed.

Lemma checks_redis : checks validateRedis (λ c, rEnabled (Redis c) = true →
  rAddress (Redis c) ≠ "" ∧ (1 ≤ RPoolSize (Redis c))%Z).
Proof.
  intros c c'. unfold validateRedis. rewrite gets_then.
  destruct (rEnabled (Redis c)); autorewrite with validate; intuition discriminate.
Qed.

Lemma checks_etcd : checks validateEtcd (λ c, eEnabled (Etcd c) = true → Endpoints (Etcd c) ≠ []).
Proof.
  intros c c'. unfold validateEtcd. rewrite gets_then.
  destruct (eEnabled (Etcd c)); autorewrite with validate; intuition discriminate.
Qed.

Lemma checks_discovery : checks validateDiscovery (λ c, yEnabled (Discovery c) = true →
  yType (Discovery c) ≠ "" ∧ yAddress (Discovery c) ≠ "" ∧ (1 ≤ Interval (Discovery c))%Z).
Proof.
  intros c c'. unfold validateDiscovery. rewrite gets_then.
  destruct (yEnabled (Discovery c)); autorewrite with validate; intuition discriminate.
Qed.

Lemma checks_auth : checks validateAuth (λ c, aEnabled (AuthC c) = true →
  Secret (AuthC c) ≠ "" ∧ (1 ≤ TokenExpiry (AuthC c))%Z ∧ (1 ≤ RefreshExpiry (AuthC c))%Z).
Proof.
  intros c c'. unfold validateAuth. rewrite gets_then.
  destruct (aEnabled (AuthC c)); autorewrite with validate; intuition discriminate.
Qed.

Lemma checks_crypto : checks validateCrypto (λ c, xEnabled (CryptoC c) = true →
  Algorithm (CryptoC c) ≠ "" ∧ (XKeyFile (CryptoC c) ≠ "" ∨ Passphrase (CryptoC c) ≠ "")).
Proof.
  intros c c'. unfold validateCrypto. rewrite gets_then.
  destruct (xEnabled (CryptoC c)); autorewrite with validate; intuition discriminate.
Qed.

(** The one validator that writes. *)
Lemma validateConsistency_iff c c' :
  validateConsistency c = (Ok tt, c') ↔
  CLevel (ConsistencyC c) ∈ [""; "none"; "eventual"; "strong"] ∧ c' = defaultInterval c.
Proof.
  unfold validateConsistency. rewrite gets_then.
  assert (modify defaultInterval c = (Ok tt, c') ↔ c' = defaultInterval c) as Hm
    by (unfold modify; split; [by intros [= <-]|by intros ->]).
  unfold blank. case_bool_decide as Hb; simpl; rewrite ?ret_then, ?reject_then, ?bool_decide_not, Hm;
    set_solver.
Qed.

Lemma validateConsistency_err c c' e : validateConsistency c = (Err e, c') → c' = c.
Proof.
  unfold validateConsistency. rewrite gets_then. unfold reject.
  repeat case_match; simpl; unfold mbind, M_bind, throw, mret, M_ret, modify; congruence.
Qed.

Lemma defaultInterval_rest c :
  let c' := defaultInterval c in
  Server c' = Server c ∧ TLS c' = TLS c ∧ Storage c' = Storage c ∧ Database c' = Database c ∧
  Logging c' = Logging c ∧ CacheC c' = CacheC c ∧ Redis c' = Redis c ∧ Etcd c' = Etcd c ∧
  Discovery c' = Discovery c ∧ AuthC c' = AuthC c ∧ CryptoC c' = CryptoC c ∧
  CLevel (ConsistencyC c') = CLevel (ConsistencyC c) ∧
  ReplicaCount (ConsistencyC c') = ReplicaCount (ConsistencyC c) ∧
  ReadQuorum (ConsistencyC c') = ReadQuorum (ConsistencyC c) ∧
  WriteQuorum (ConsistencyC c') = WriteQuorum (ConsistencyC c).
Proof. unfold defaultInterval. case_match; split_and!; done. Qed.

Lemma wellFormed_interval c : wellFormed (defaultInterval c) ↔ wellFormed c.
Proof.
  destruct (defaultInterval_rest c) as (E1&E2&E3&E4&_&E5&E6&E7&E8&E9&E10&E11&_).
  split; intros []; constructor;
    rewrite ?E1, ?E2, ?E3, ?E4, ?E5, ?E6, ?E7, ?E8, ?E9, ?E10, ?E11 in *; done.
Qed.

Lemma defaultInterval_positive c :
  let k := ConsistencyC (defaultInterval c) in
  CLevel k ≠ "none" → CLevel k ≠ "" → (1 ≤ SyncIntervalMs k)%Z.
Proof.
  unfold defaultInterval, blank. simpl. repeat case_bool_decide; simpl; try done.
  destruct (_ <? 1)%Z eqn:E; bool_prop; simpl; lia.
Qed.

Lemma defaultInterval_id c :
  (CLevel (ConsistencyC c) ≠ "none" → CLevel (ConsistencyC c) ≠ "" →
   (1 ≤ SyncIntervalMs (ConsistencyC c))%Z) →
  defaultInterval c = c.
Proof.
  intros Hp. unfold defaultInterval, blank. repeat case_bool_decide; simpl; try done.
  destruct (_ <? 1)%Z eqn:E; [|done]. bool_prop. exfalso. specialize (Hp ltac:(done) ltac:(done)). lia.
Qed.

Lemma Validate_iff c c' : Validate c = (Ok tt, c') ↔ wellFormed c ∧ c' = defaultInterval c.
Proof.
  unfold Validate.
  rewrite (checks_then _ _ _ _ _ checks_server), (checks_then _ _ _ _ _ checks_tls),
    (checks_then _ _ _ _ _ checks_storage), (checks_then _ _ _ _ _ checks_database),
    (checks_then _ _ _ _ _ checks_cache), (checks_then _ _ _ _ _ checks_redis),
    (checks_then _ _ _ _ _ checks_etcd).
  destruct (defaultInterval_rest c) as (E1&E2&E3&E4&_&E5&E6&E7&E8&E9&E10&E11&_).
  assert (∀ k : M Config unit, (validateConsistency ⨟ k)%go c = (Ok tt, c') ↔
    CLevel (ConsistencyC c) ∈ [""; "none"; "eventual"; "strong"] ∧ k (defaultInterval c) = (Ok tt, c'))
    as Hc.
  { intros k. unfold mbind, M_bind. destruct (validateConsistency c) as [[[]|e] c1] eqn:Ev.
    - apply validateConsistency_iff in Ev as [HP ->]. tauto.
    - split; [done|]. intros [HP _].
      assert (validateConsistency c = (Ok tt, defaultInterval c)) by (by apply validateConsistency_iff).
      congruence. }
  rewrite Hc, (checks_then _ _ _ _ _ checks_discovery), (checks_then _ _ _ _ _ checks_auth),
    (checks_crypto _ _), E8, E9, E10.
  split; [intros ([] & ? & ? & ? & ? & ? & ? & ? & ? & ? & ? & ->); split; [|done]; by constructor|].
  intros [[] ->]. split_and!; done.
Qed.

(** ** The defaults *)

Lemma orZ_idem n d : orZ (orZ n d) d = orZ n d.
Proof. unfold orZ. destruct (n =? 0)%Z eqn:E; [by destruct (d =? 0)%Z|by rewrite E]. Qed.

Lemma orStr_idem s d : orStr (orStr s d) d = orStr s d.
Proof. unfold orStr. destruct (bool_decide (s = "")) eqn:E; [by destruct (bool_decide (d = ""))|by rewrite E]. Qed.

Lemma applyDefaults_idem c : applyDefaults (applyDefaults c) = applyDefaults c.
Proof.
  destruct c as [s t st d l k r e co y a x]. unfold applyDefaults. simpl. f_equal.
  - unfold serverDefaults. simpl. rewrite !orZ_idem, !orStr_idem. by destruct (GRPCEnabled s).
  - unfold storageDefaults. simpl. by rewrite !orStr_idem.
  - unfold databaseDefaults. simpl. by rewrite !orZ_idem, !orStr_idem.
  - unfold loggingDefaults. simpl. by rewrite !orStr_idem.
  - unfold redisDefaults. simpl. by destruct (rEnabled r && (RPoolSize r =? 0)%Z) eqn:E;
      [destruct (rEnabled r)|rewrite E].
Qed.

(** A value that was given is never replaced, except for the gRPC switch. *)
Lemma defaults_keep c :
  let c' := applyDefaults c in
  (HTTPPort (Server c) ≠ 0%Z → HTTPPort (Server c') = HTTPPort (Server c)) ∧
  (MaxUploadSizeMB (Server c) ≠ 0%Z → MaxUploadSizeMB (Server c') = MaxUploadSizeMB (Server c)) ∧
  (MaxChunkSizeMB (Server c) ≠ 0%Z → MaxChunkSizeMB (Server c') = MaxChunkSizeMB (Server c)) ∧
  (sType (Storage c) ≠ "" → sType (Storage c') = sType (Storage c)) ∧
  CORSAllowedOrigins (Server c') = CORSAllowedOrigins (Server c) ∧
  GRPCEnabled (Server c') = true.
Proof.
  simpl. unfold orZ, orStr. split_and!; intros; repeat case_match; bool_prop; try done.
Qed.

Lemma defaults_then_interval c :
  applyDefaults (defaultInterval (applyDefaults c)) = defaultInterval (applyDefaults c).
Proof.
  rewrite <-(applyDefaults_idem c) at 2. unfold defaultInterval. simpl.
  destruct (_ && _) eqn:E; [reflexivity|]. by rewrite applyDefaults_idem.
Qed.

Lemma Validate_total c : (Validate c).1 = Ok tt ∨ ¬ wellFormed c.
Proof.
  destruct (Validate c) as [[[]|e] c'] eqn:E; [by left|right]. intros Hw.
  assert (Validate c = (Ok tt, defaultInterval c)) by (by apply Validate_iff). congruence.
Qed.

(** The manager that is started: the quorums of [ValidateQuorum], and a period
    that [time.NewTicker] accepts, which panics on one that is not positive. *)
Definition managerOk (k : ConsistencyConfig) (cm : ConsistencyManager) : Prop :=
  level cm ≠ LevelNone ∧
  (0 < replicaCount cm < int64_max →
   0 < readQuorum cm ≤ replicaCount cm + 1 ∧ 0 < writeQuorum cm ≤ replicaCount cm + 1 ∧
   replicaCount cm + 1 < readQuorum cm + writeQuorum cm)%Z ∧
  (SyncIntervalMs k * Millisecond ≤ int64_max → 0 < syncInterval cm)%Z.

Lemma startConsistency_ok c mgr :
  wellFormed c → startConsistency (defaultInterval c) = Ok mgr →
  match mgr with
  | Some cm => managerOk (ConsistencyC (defaultInterval c)) cm
  | None => CLevel (ConsistencyC c) ∈ [""; "none"]
  end.
Proof.
  intros Hw. pose proof (wf_level _ Hw) as Hl. pose proof (defaultInterval_positive c) as Hp.
  destruct (defaultInterval_rest c) as (_&_&_&_&_&_&_&_&_&_&_&El&_&_&_). simpl in Hp.
  unfold startConsistency. rewrite El in *. unfold blank.
  destruct (bool_decide (_ = "none")) eqn:E1; simpl; [bool_prop; intros [= <-]; set_solver|].
  destruct (bool_decide (_ = "")) eqn:E2; simpl; [bool_prop; intros [= <-]; set_solver|]. bool_prop.
  destruct (ValidateQuorum _ _ _) as [[]|] eqn:Eq; simpl; [|done]. intros [= <-].
  set (k := ConsistencyC (defaultInterval c)) in *. specialize (Hp E1 E2).
  unfold managerOk, NewConsistencyManager. simpl.
  assert (levelOf (CLevel (ConsistencyC c)) ≠ LevelNone) as Hn.
  { unfold levelOf. repeat case_bool_decide; try done. set_solver. }
  split_and!; [done|intros ?; by eapply ValidateQuorum_overlap|].
  intros Hms. rewrite (bool_decide_eq_false_2 _ Hn). simpl.
  rewrite wrap64_id by (unfold in64, int64_min, Millisecond in *; lia).
  case_match; unfold Second, Millisecond in *; lia.
Qed.

(** ** Properties *)

(** C37: a configuration the server starts with is well formed in every section, a
    fixed point of the defaults and of the validation, and its consistency manager
    has overlapping quorums and a positive period; and a file that parses is
    refused only when a section is not well formed or the quorums do not
    validate. *)
Theorem config_checked (unmarshal : string → M Config unit) (data : string) (c0 c1 : Config) :
  unmarshal data c0 = (Ok tt, c1) →
  match startConfig unmarshal (Ok data) c0 with
  | (Ok mgr, c) =>
      wellFormed c ∧ applyDefaults c = c ∧ Validate c = (Ok tt, c) ∧
      match mgr with
      | Some cm => managerOk (ConsistencyC c) cm
      | None => CLevel (ConsistencyC c) ∈ [""; "none"]
      end
  | (Err _, _) =>
      ¬ wellFormed (applyDefaults c1) ∨
      let k := ConsistencyC c1 in ValidateQuorum (ReplicaCount k) (ReadQuorum k) (WriteQuorum k) ≠ Ok tt
  end.
Proof.
  intros Hu. unfold startConfig, Load, mbind, M_bind, wrapErr, lift, get, modify. simpl. rewrite Hu. simpl.
  set (d := applyDefaults c1). destruct (Validate d) as [[[]|e] c] eqn:Ev; simpl.
  - apply Validate_iff in Ev as [Hw ->].
    destruct (defaultInterval_rest d) as (_&_&_&_&_&_&_&_&_&_&_&El&Er&Ed&Ew).
    destruct (startConsistency (defaultInterval d)) as [mgr|e] eqn:Es; simpl.
    + split_and!; [by apply wellFormed_interval|apply defaults_then_interval| |].
      * apply Validate_iff. rewrite wellFormed_interval. split; [done|]. symmetry.
        apply defaultInterval_id, defaultInterval_positive.
      * pose proof (startConsistency_ok d mgr Hw Es). destruct mgr; [done|]. by rewrite El.
    + right. unfold startConsistency in Es. rewrite Er, Ed, Ew in Es. intros Hq.
      change (ConsistencyC d) with (ConsistencyC c1) in Es. rewrite Hq in Es.
      by destruct (_ && _) in Es.
  - left. destruct (Validate_total d) as [Ht|Ht]; [|done]. by rewrite Ev in Ht.
Qed.

(** A configuration with two replicas, and the decoder that yields it. *)
Definition exampleConfig : Config :=
  MkConfig (MkServer 0 0 0 false 0 0 0 0 "" []) (MkTLS false "" "")
    (MkStorage "" (MkLocal "") (MkMinIO "" "" "" "" false) "")
    (MkDatabase "" "" "db" 5432 "fs" "fs" "" "" "" 0 0) (MkLogging "" "" "")
    (MkCacheCfg true "memory" 60 100) (MkRedisCfg false "" "" 0 0) (MkEtcd false [] "")
    (MkConsCfg "strong" 2 2 2 0) (MkDiscovery false "" "" 0) (MkAuthCfg true "secret" 3600 7200)
    (MkCryptoCfg false "" "" "").

Definition decodeExample (_ : string) : M Config unit := λ _, (Ok tt, exampleConfig).

Lemma config_checked_witness :
  match startConfig decodeExample (Ok "") exampleConfig with
  | (Ok (Some cm), c) => wellFormed c ∧ HTTPPort (Server c) = 8080%Z ∧ syncInterval cm = (5 * Second)%Z
  | _ => False
  end.
Proof.
  pose proof (config_checked decodeExample "" exampleConfig exampleConfig eq_refl) as H.
  destruct (startConfig decodeExample (Ok "") exampleConfig) as [r c] eqn:E.
  vm_compute in E. injection E as <- <-. destruct H as [Hw _]. split; [exact Hw|].
  split; vm_compute; reflexivity.
Defined.
