(* ===== verification/Locks.v ===== *)
(** * internal/distributed/lock.go: the distributed lock

    The Go interface is the class [DistributedLock]; [LockLaws] states what it
    promises to its clients in terms of an abstract holder per key. The local
    and the Redis implementation are instances that satisfy the laws, and the
    clients (the retry loop, the renewal goroutine, mutual exclusion between
    any number of callers) are proved against the laws alone. *)

From S2P Require Export Redis.

Local Open Scope Z_scope.

(** What a call sees of the outside: the clock, the bytes [rand.Read] delivers,
    and the fate of its request on the network. *)
Record callEnv := CallEnv { now : Z; rnd : list Byte.byte; net : fault }.

Definition generateToken (rnd : list Byte.byte) : string := EncodeToString rnd.

Class DistributedLock (S : Type) := {
  Lock : callEnv → string → Z → S → res string * S;
  Unlock : callEnv → string → string → S → res unit * S;
  Extend : callEnv → string → string → Z → S → res unit * S
}.

(** [holder s k t] is the token that holds [k] at time [t] if nothing else
    happens before. A lock taken or extended for [ttl] lasts at least
    [ttl - granularity]. *)
Class LockLaws (S : Type) `{DistributedLock S} := {
  holder : S → string → Z → option string;
  granularity : Z;
  holder_expires s k t t' a :
    t ≤ t' → holder s k t' = Some a → holder s k t = Some a;
  lock_ok env k ttl s a s' :
    Lock env k ttl s = (Ok a, s') →
    holder s k (now env) = None ∧ a = generateToken (rnd env) ∧
    (∀ t b, now env ≤ t → holder s' k t = Some b → b = a) ∧
    (0 < ttl → ∀ t, now env ≤ t < now env + ttl - granularity → holder s' k t = Some a);
  lock_held env k ttl s a :
    holder s k (now env) = Some a →
    (∃ e, (Lock env k ttl s).1 = Err e ∧ (net env = NoFault → e = ErrLockConflict)) ∧
    ∀ t, now env ≤ t → holder (Lock env k ttl s).2 k t = holder s k t;
  lock_free env k ttl s :
    net env = NoFault → holder s k (now env) = None →
    (Lock env k ttl s).1 = Ok (generateToken (rnd env));
  lock_frame env k ttl s k' t :
    k ≠ k' → now env ≤ t → holder (Lock env k ttl s).2 k' t = holder s k' t;
  unlock_held env k a s :
    net env = NoFault → holder s k (now env) = Some a →
    (Unlock env k a s).1 = Ok tt ∧
    ∀ t, now env ≤ t → holder (Unlock env k a s).2 k t = None;
  unlock_other env k a s :
    holder s k (now env) ≠ Some a →
    (∃ e, (Unlock env k a s).1 = Err e ∧ (net env = NoFault → e = ErrLockNotHeld)) ∧
    ∀ t, now env ≤ t → holder (Unlock env k a s).2 k t = holder s k t;
  unlock_frame env k a s k' t :
    k ≠ k' → now env ≤ t → holder (Unlock env k a s).2 k' t = holder s k' t;
  extend_held env k a ttl s :
    net env = NoFault → holder s k (now env) = Some a → 0 < ttl →
    (Extend env k a ttl s).1 = Ok tt ∧
    ∀ t, now env ≤ t < now env + ttl - granularity →
      holder (Extend env k a ttl s).2 k t = Some a;
  extend_other env k a ttl s :
    holder s k (now env) ≠ Some a →
    (∃ e, (Extend env k a ttl s).1 = Err e ∧ (net env = NoFault → e = ErrLockNotHeld)) ∧
    ∀ t, now env ≤ t → holder (Extend env k a ttl s).2 k t = holder s k t;
  extend_frame env k a ttl s k' t :
    k ≠ k' → now env ≤ t → holder (Extend env k a ttl s).2 k' t = holder s k' t
}.

(** ** LocalDistributedLock: one process, a map under a mutex *)

Module Local.

(** A zero [time.Time] is [None]: the lock never expires. *)
Record localLockEntry := LocalLockEntry { token : string; expiry : option Z }.

Record LocalDistributedLock := MkLocal { locks : gmap string localLockEntry }.

Definition NewLocalDistributedLock : LocalDistributedLock := MkLocal ∅.

Definition expiredLocked (now : Z) (e : localLockEntry) : bool :=
  match expiry e with None => false | Some x => x <? now end.

Definition LocalLock (env : callEnv) (key : string) (ttl : Z) (l : LocalDistributedLock)
    : res string * LocalDistributedLock :=
  let take (m : gmap string localLockEntry) :=
    let token := generateToken (rnd env) in
    let expiry := if 0 <? ttl then Some (now env + ttl) else None in
    (Ok token, MkLocal (<[key := LocalLockEntry token expiry]> m)) in
  match locks l !! key with
  | Some e =>
      if expiredLocked (now env) e then take (delete key (locks l))
      else (Err ErrLockConflict, l)
  | None => take (locks l)
  end.

Definition LocalUnlock (env : callEnv) (key token_ : string) (l : LocalDistributedLock)
    : res unit * LocalDistributedLock :=
  match locks l !! key with
  | None => (Err ErrLockNotHeld, l)
  | Some e =>
      if expiredLocked (now env) e then (Err ErrLockNotHeld, MkLocal (delete key (locks l)))
      else if negb (bool_decide (token e = token_)) then (Err ErrLockNotHeld, l)
      else (Ok tt, MkLocal (delete key (locks l)))
  end.

Definition LocalExtend (env : callEnv) (key token_ : string) (ttl : Z)
    (l : LocalDistributedLock) : res unit * LocalDistributedLock :=
  match locks l !! key with
  | None => (Err ErrLockNotHeld, l)
  | Some e =>
      if expiredLocked (now env) e then (Err ErrLockNotHeld, MkLocal (delete key (locks l)))
      else if negb (bool_decide (token e = token_)) then (Err ErrLockNotHeld, l)
      else if 0 <? ttl then
        (Ok tt, MkLocal (<[key := LocalLockEntry (token e) (Some (now env + ttl))]> (locks l)))
      else (Ok tt, l)
  end.

#[global] Instance local_lock : DistributedLock LocalDistributedLock :=
  {| Lock := LocalLock; Unlock := LocalUnlock; Extend := LocalExtend |}.

Definition entryHolder (t : Z) (e : localLockEntry) : option string :=
  if expiredLocked t e then None else Some (token e).

Definition localHolder (l : LocalDistributedLock) (k : string) (t : Z) : option string :=
  locks l !! k ≫= entryHolder t.

Lemma expired_mono e t t' : t ≤ t' → expiredLocked t e = true → expiredLocked t' e = true.
Proof. unfold expiredLocked. destruct (expiry e); [|done]. intros. bool_prop. apply Z.ltb_lt. lia. Qed.

Lemma entryHolder_expired e t t' :
  t ≤ t' → expiredLocked t e = true → entryHolder t' e = None.
Proof. intros. unfold entryHolder. by rewrite (expired_mono e t t'). Qed.

Lemma localHolder_insert k e m t :
  localHolder (MkLocal (<[k := e]> m)) k t = entryHolder t e.
Proof. unfold localHolder. simpl. by rewrite lookup_insert_eq. Qed.

Lemma localHolder_insert_ne k e m k' t :
  k ≠ k' → localHolder (MkLocal (<[k := e]> m)) k' t = localHolder (MkLocal m) k' t.
Proof. intros. unfold localHolder. simpl. by rewrite lookup_insert_ne. Qed.

Lemma localHolder_delete k m t : localHolder (MkLocal (delete k m)) k t = None.
Proof. unfold localHolder. simpl. by rewrite lookup_delete_eq. Qed.

Lemma localHolder_delete_ne k m k' t :
  k ≠ k' → localHolder (MkLocal (delete k m)) k' t = localHolder (MkLocal m) k' t.
Proof. intros. unfold localHolder. simpl. by rewrite lookup_delete_ne. Qed.

(** The entry written by a lock or an extension. *)
Lemma entryHolder_new tok x t :
  entryHolder t (LocalLockEntry tok (Some x)) = if x <? t then None else Some tok.
Proof. done. Qed.

Lemma localHolder_lookup l k t e :
  locks l !! k = Some e → localHolder l k t = entryHolder t e.
Proof. intros He. unfold localHolder. by rewrite He. Qed.

(** The two ways an entry can look to a caller. *)
Lemma localHolder_held l k t a :
  localHolder l k t = Some a →
  ∃ e, locks l !! k = Some e ∧ expiredLocked t e = false ∧ token e = a.
Proof.
  unfold localHolder, entryHolder. destruct (locks l !! k) as [e|]; simpl; [|done].
  destruct (expiredLocked t e) eqn:E; intros; simplify_eq. eauto.
Qed.

Lemma localHolder_free l k t :
  localHolder l k t = None →
  locks l !! k = None ∨ ∃ e, locks l !! k = Some e ∧ expiredLocked t e = true.
Proof.
  unfold localHolder, entryHolder. destruct (locks l !! k) as [e|]; simpl; [|by left].
  destruct (expiredLocked t e) eqn:E; intros; simplify_eq. eauto.
Qed.

Lemma localHolder_drop l k e t0 t :
  locks l !! k = Some e → expiredLocked t0 e = true → t0 ≤ t →
  localHolder (MkLocal (delete k (locks l))) k t = localHolder l k t.
Proof.
  intros El Ex Ht. rewrite localHolder_delete, (localHolder_lookup _ _ _ e) by done.
  by rewrite (entryHolder_expired e t0).
Qed.

Ltac local_frame := intros; unfold LocalLock, LocalUnlock, LocalExtend;
  repeat case_match; simpl;
  rewrite ?localHolder_insert_ne, ?localHolder_delete_ne by done; done.

Lemma local_expires l k t t' a :
  t ≤ t' → localHolder l k t' = Some a → localHolder l k t = Some a.
Proof.
  intros Ht (e & El & Ex & <-)%localHolder_held.
  rewrite (localHolder_lookup _ _ _ e) by done. unfold entryHolder.
  destruct (expiredLocked t e) eqn:E; [|done]. by rewrite (expired_mono e t t') in Ex.
Qed.

Lemma local_lock_takes env k ttl l a l' :
  LocalLock env k ttl l = (Ok a, l') →
  localHolder l k (now env) = None ∧ a = generateToken (rnd env) ∧
  ∃ m, l' = MkLocal (<[k := LocalLockEntry a
                        (if 0 <? ttl then Some (now env + ttl) else None)]> m).
Proof.
  unfold LocalLock, localHolder, entryHolder.
  destruct (locks l !! k) as [e|]; simpl; [destruct (expiredLocked (now env) e)|];
    intros; simplify_eq; eauto.
Qed.

Lemma local_lock_ok env k ttl l a l' :
  LocalLock env k ttl l = (Ok a, l') →
  localHolder l k (now env) = None ∧ a = generateToken (rnd env) ∧
  (∀ t b, now env ≤ t → localHolder l' k t = Some b → b = a) ∧
  (0 < ttl → ∀ t, now env ≤ t < now env + ttl - 0 → localHolder l' k t = Some a).
Proof.
  intros (? & Ha & m & ->)%local_lock_takes. split_and!; [done|done|..].
  - intros t b _. rewrite localHolder_insert. unfold entryHolder.
    destruct (expiredLocked _ _); intros; by simplify_eq/=.
  - intros Httl t Ht. rewrite localHolder_insert, (proj2 (Z.ltb_lt 0 ttl)) by done.
    rewrite entryHolder_new. case_match; bool_prop; [lia|done].
Qed.

Lemma local_lock_held env k ttl l a :
  localHolder l k (now env) = Some a → LocalLock env k ttl l = (Err ErrLockConflict, l).
Proof. intros (e & El & Ex & _)%localHolder_held. unfold LocalLock. by rewrite El, Ex. Qed.

Lemma local_lock_free env k ttl l :
  localHolder l k (now env) = None → (LocalLock env k ttl l).1 = Ok (generateToken (rnd env)).
Proof.
  intros [El|(e & El & Ex)]%localHolder_free; unfold LocalLock; rewrite El; [done|].
  by rewrite Ex.
Qed.

Lemma local_unlock_held env k a l :
  localHolder l k (now env) = Some a →
  LocalUnlock env k a l = (Ok tt, MkLocal (delete k (locks l))).
Proof.
  intros (e & El & Ex & <-)%localHolder_held. unfold LocalUnlock.
  by rewrite El, Ex, bool_decide_true.
Qed.

Lemma local_unlock_other env k a l :
  localHolder l k (now env) ≠ Some a →
  (LocalUnlock env k a l).1 = Err ErrLockNotHeld ∧
  ∀ t, now env ≤ t → localHolder (LocalUnlock env k a l).2 k t = localHolder l k t.
Proof.
  unfold LocalUnlock. destruct (locks l !! k) as [e|] eqn:El; simpl; [|done].
  rewrite (localHolder_lookup _ _ _ e) by done. unfold entryHolder.
  destruct (expiredLocked (now env) e) eqn:Ex; intros Ha; simpl.
  { split; [done|]. intros. by apply (localHolder_drop l k e (now env)). }
  by rewrite bool_decide_false by congruence.
Qed.

Lemma local_extend_held env k a ttl l :
  localHolder l k (now env) = Some a → 0 < ttl →
  LocalExtend env k a ttl l =
    (Ok tt, MkLocal (<[k := LocalLockEntry a (Some (now env + ttl))]> (locks l))).
Proof.
  intros (e & El & Ex & <-)%localHolder_held Httl. unfold LocalExtend.
  rewrite El, Ex, bool_decide_true by done. simpl. by rewrite (proj2 (Z.ltb_lt 0 ttl)).
Qed.

Lemma local_extend_other env k a ttl l :
  localHolder l k (now env) ≠ Some a →
  (LocalExtend env k a ttl l).1 = Err ErrLockNotHeld ∧
  ∀ t, now env ≤ t → localHolder (LocalExtend env k a ttl l).2 k t = localHolder l k t.
Proof.
  unfold LocalExtend. destruct (locks l !! k) as [e|] eqn:El; simpl; [|done].
  rewrite (localHolder_lookup _ _ _ e) by done. unfold entryHolder.
  destruct (expiredLocked (now env) e) eqn:Ex; intros Ha; simpl.
  { split; [done|]. intros. by apply (localHolder_drop l k e (now env)). }
  by rewrite bool_decide_false by congruence.
Qed.

#[global] Instance local_laws : LockLaws LocalDistributedLock.
Proof.
  refine {| holder := localHolder; granularity := 0 |}; simpl; try (by local_frame).
  - apply local_expires.
  - apply local_lock_ok.
  - intros env k ttl l a Ha. rewrite (local_lock_held _ _ _ _ a) by done. eauto.
  - intros. by apply local_lock_free.
  - intros env k a l _ Ha. rewrite local_unlock_held by done. split; [done|].
    intros. apply localHolder_delete.
  - intros env k a l Ha. destruct (local_unlock_other env k a l Ha). eauto.
  - intros env k a ttl l _ Ha Httl. rewrite local_extend_held by done. split; [done|].
    intros t Ht. simpl. rewrite localHolder_insert, entryHolder_new.
    case_match; bool_prop; [lia|done].
  - intros env k a ttl l Ha. destruct (local_extend_other env k a ttl l Ha). eauto.
Defined.

End Local.

(** ** RedisDistributedLock: SET NX and two Lua scripts *)

Module RedisLock.
Section redis.
Context {R : Type} `{RedisServer R}.

Definition lockKey (key : string) : string := "fsserver:lock:" +:+ key.

Definition RLock (env : callEnv) (key : string) (ttl : Z) (r : R) : res string * R :=
  let token := generateToken (rnd env) in
  match callRedis (net env) (rSETNX (now env) (lockKey key) token (redisTTL ttl)) r with
  | (Err e, r) => (Err (ErrWrap "redis lock failed" e), r)
  | (Ok ok, r) => if negb ok then (Err ErrLockConflict, r) else (Ok token, r)
  end.

(** if redis.call("GET", KEYS[1]) == ARGV[1] then return redis.call(...) else return 0 end *)
Definition ifOwner (now : Z) (key arg : string) (call : R → Z * R) (r : R) : Z * R :=
  if bool_decide (rGET now key r = Some arg) then call r else (0, r).

Definition RUnlock (env : callEnv) (key token : string) (r : R) : res unit * R :=
  let script := ifOwner (now env) (lockKey key) token (rDEL (now env) (lockKey key)) in
  match callRedis (net env) script r with
  | (Err e, r) => (Err (ErrWrap "redis unlock failed" e), r)
  | (Ok result, r) => if result =? 0 then (Err ErrLockNotHeld, r) else (Ok tt, r)
  end.

Definition RExtend (env : callEnv) (key token : string) (ttl : Z) (r : R) : res unit * R :=
  let script := ifOwner (now env) (lockKey key) token
                  (rPEXPIRE (now env) (lockKey key) (Z.quot ttl Millisecond)) in
  match callRedis (net env) script r with
  | (Err e, r) => (Err (ErrWrap "redis extend lock failed" e), r)
  | (Ok result, r) => if result =? 0 then (Err ErrLockNotHeld, r) else (Ok tt, r)
  end.

#[global] Instance redis_lock : DistributedLock R :=
  {| Lock := RLock; Unlock := RUnlock; Extend := RExtend |}.

Context `{!RedisLaws R}.

Definition redisHolder (r : R) (k : string) (t : Z) : option string := rGET t (lockKey k) r.

Lemma lockKey_ne k k' : k ≠ k' → lockKey k ≠ lockKey k'.
Proof. intros Hk Heq. apply append_inj_l in Heq. done. Qed.

(** A call either runs its command once or not at all. *)
Lemma callRedis_runs {A} f (op : R → A * R) r :
  callRedis f op r = (Ok (op r).1, (op r).2) ∧ f = NoFault ∨
  ∃ e, callRedis f op r = (Err e, (op r).2) ∨ callRedis f op r = (Err e, r).
Proof. unfold callRedis. destruct f; destruct (op r); eauto. Qed.

Lemma ifOwner_other now k a call r :
  rGET now k r ≠ Some a → ifOwner now k a call r = (0, r).
Proof. intros. unfold ifOwner. by rewrite bool_decide_false. Qed.

Lemma ifOwner_owner now k a call r :
  rGET now k r = Some a → ifOwner now k a call r = call r.
Proof. intros. unfold ifOwner. by rewrite bool_decide_true. Qed.

Lemma redis_lock_frame env k ttl r k' t :
  k ≠ k' → now env ≤ t → redisHolder (RLock env k ttl r).2 k' t = redisHolder r k' t.
Proof.
  intros Hk%lockKey_ne Ht. unfold RLock, redisHolder.
  assert (rGET t (lockKey k')
    (rSETNX (now env) (lockKey k) (generateToken (rnd env)) (redisTTL ttl) r).2
    = rGET t (lockKey k') r) as Hf.
  { destruct (rGET (now env) (lockKey k) r) eqn:E.
    - by erewrite setnx_present.
    - rewrite setnx_absent by done. by apply set_frame. }
  destruct (callRedis_runs (net env)
    (rSETNX (now env) (lockKey k) (generateToken (rnd env)) (redisTTL ttl)) r)
    as [[-> _]|(e & [->| ->])]; simpl; [case_match|..]; done.
Qed.

Lemma script_frame now k a call r k' t :
  k ≠ k' → rGET t (lockKey k') (call r).2 = rGET t (lockKey k') r →
  rGET t (lockKey k') (ifOwner now (lockKey k) a call r).2 = rGET t (lockKey k') r.
Proof. intros. unfold ifOwner. by case_bool_decide. Qed.

Ltac script_cases f op r :=
  destruct (callRedis_runs f op r) as [[-> ?]|(? & [-> | ->])]; simpl; [case_match|..].

Lemma redis_unlock_frame env k a r k' t :
  k ≠ k' → now env ≤ t → redisHolder (RUnlock env k a r).2 k' t = redisHolder r k' t.
Proof.
  intros Hk Ht. unfold RUnlock, redisHolder.
  set (op := ifOwner _ _ _ _). script_cases (net env) op r; try done;
    apply script_frame; auto using del_frame, lockKey_ne.
Qed.

Lemma redis_extend_frame env k a ttl r k' t :
  k ≠ k' → now env ≤ t → redisHolder (RExtend env k a ttl r).2 k' t = redisHolder r k' t.
Proof.
  intros Hk Ht. unfold RExtend, redisHolder.
  set (op := ifOwner _ _ _ _). script_cases (net env) op r; try done;
    apply script_frame; auto using pexpire_frame, lockKey_ne.
Qed.

Lemma redis_lock_ok env k ttl r a r' :
  RLock env k ttl r = (Ok a, r') →
  redisHolder r k (now env) = None ∧ a = generateToken (rnd env) ∧
  (∀ t b, now env ≤ t → redisHolder r' k t = Some b → b = a) ∧
  (0 < ttl → ∀ t, now env ≤ t < now env + ttl - 2 * Millisecond →
    redisHolder r' k t = Some a).
Proof.
  unfold RLock, redisHolder.
  destruct (callRedis_runs (net env)
    (rSETNX (now env) (lockKey k) (generateToken (rnd env)) (redisTTL ttl)) r)
    as [[-> _]|(e & [->| ->])]; simpl; [|done..].
  destruct (rGET (now env) (lockKey k) r) as [v|] eqn:E.
  { by erewrite setnx_present. }
  rewrite setnx_absent by done. intros [= <- <-]. split_and!; [done|done|..].
  - intros t b. apply set_only.
  - intros. by apply set_promised, redisTTL_promised.
Qed.

Lemma redis_lock_held env k ttl r a :
  redisHolder r k (now env) = Some a →
  (∃ e, (RLock env k ttl r).1 = Err e ∧ (net env = NoFault → e = ErrLockConflict)) ∧
  ∀ t, now env ≤ t → redisHolder (RLock env k ttl r).2 k t = redisHolder r k t.
Proof.
  unfold redisHolder. intros Ha. unfold RLock, callRedis.
  rewrite (setnx_present _ _ _ _ _ a) by done. destruct (net env); simpl; (split; [by eexists|done]).
Qed.

Lemma redis_unlock_other env k a r :
  redisHolder r k (now env) ≠ Some a →
  (∃ e, (RUnlock env k a r).1 = Err e ∧ (net env = NoFault → e = ErrLockNotHeld)) ∧
  ∀ t, now env ≤ t → redisHolder (RUnlock env k a r).2 k t = redisHolder r k t.
Proof.
  unfold redisHolder. intros Ha. unfold RUnlock, callRedis.
  rewrite ifOwner_other by done. destruct (net env); simpl; (split; [by eexists|done]).
Qed.

Lemma redis_extend_other env k a ttl r :
  redisHolder r k (now env) ≠ Some a →
  (∃ e, (RExtend env k a ttl r).1 = Err e ∧ (net env = NoFault → e = ErrLockNotHeld)) ∧
  ∀ t, now env ≤ t → redisHolder (RExtend env k a ttl r).2 k t = redisHolder r k t.
Proof.
  unfold redisHolder. intros Ha. unfold RExtend, callRedis.
  rewrite ifOwner_other by done. destruct (net env); simpl; (split; [by eexists|done]).
Qed.

Lemma redis_unlock_held env k a r :
  net env = NoFault → redisHolder r k (now env) = Some a →
  RUnlock env k a r = (Ok tt, (rDEL (now env) (lockKey k) r).2).
Proof.
  unfold redisHolder. intros Hn Ha. unfold RUnlock, callRedis.
  rewrite Hn, ifOwner_owner by done. pose proof (del_present r _ _ _ Ha) as H1.
  destruct (rDEL _ _ r); simpl in *. by subst.
Qed.

Lemma redis_extend_held env k a ttl r :
  net env = NoFault → redisHolder r k (now env) = Some a →
  RExtend env k a ttl r =
    (Ok tt, (rPEXPIRE (now env) (lockKey k) (Z.quot ttl Millisecond) r).2).
Proof.
  unfold redisHolder. intros Hn Ha. unfold RExtend, callRedis.
  rewrite Hn, ifOwner_owner by done.
  pose proof (pexpire_present r _ _ _ (Z.quot ttl Millisecond) Ha) as H1.
  destruct (rPEXPIRE _ _ _ r); simpl in *. by subst.
Qed.

Lemma quot_promised now ttl t :
  0 < ttl → now ≤ t < now + ttl - 2 * Millisecond →
  promised now (Some (Z.quot ttl Millisecond)) t.
Proof.
  unfold promised, Millisecond. intros Httl Ht. split; [lia|].
  rewrite Z.quot_div_nonneg by lia.
  pose proof (Z.div_mod ttl 1000000). pose proof (Z.mod_pos_bound ttl 1000000). lia.
Qed.

#[global] Instance redis_laws : LockLaws R.
Proof.
  refine {| holder := redisHolder; granularity := 2 * Millisecond |}.
  - intros s k t t' a. apply get_expires.
  - apply redis_lock_ok.
  - apply redis_lock_held.
  - intros env k ttl r Hn Hf. simpl. unfold RLock, callRedis. rewrite Hn.
    by rewrite setnx_absent.
  - apply redis_lock_frame.
  - intros env k a r Hn Ha. simpl. rewrite redis_unlock_held by done. split; [done|].
    intros. by apply del_gone.
  - apply redis_unlock_other.
  - apply redis_unlock_frame.
  - intros env k a ttl r Hn Ha Httl. simpl. rewrite redis_extend_held by done.
    split; [done|]. intros. apply pexpire_promised; auto using quot_promised.
  - apply redis_extend_other.
  - apply redis_extend_frame.
Defined.

End redis.
End RedisLock.

(** ** Clients of the interface *)

(** The eight random bytes as a big-endian int64: or-ing the shifted bytes
    and reading bit 63 as the sign. *)
Definition int64OfBytes (b : list Byte.byte) : Z :=
  wrap64 (foldl (λ v x, Z.lor (Z.shiftl v 8) (Z.of_nat (Byte.to_nat x))) 0 b).

Definition randInt63n (n : Z) (b : list Byte.byte) : Z :=
  if n <=? 0 then 0
  else let v := int64OfBytes b in
       let v := if v <? 0 then wrap64 (- v) else v in
       Z.rem v n.

(** The wait after attempt [i]. *)
Definition retryWait (retryDelay : Z) (i : nat) (b : list Byte.byte) : Z :=
  if (i =? 0)%nat then retryDelay
  else
    let backoff := (wrap64 (Z.shiftl 1 (Z.of_nat (i - 1))) *₆₄ retryDelay)%go in
    let backoff := if 2 * Second <? backoff then 2 * Second else backoff in
    let jitter := randInt63n (Z.quot backoff 2) b in
    (backoff +₆₄ jitter)%go.

Section clients.
Context {S : Type} `{DistributedLock S}.

(** What one attempt meets: its call, the bytes of its jitter, whether the
    context is done before the timer fires, and what other clients do to the
    lock service during the wait. *)
Record attempt := Attempt {
  call : callEnv;
  jitterBytes : list Byte.byte;
  ctxDone : option error;
  others : S → S
}.

(** Returns the result, the state and the waits that were made. *)
Fixpoint acquireLoop (att : nat → attempt) (key : string) (ttl retryDelay : Z)
    (lastErr : option error) (i remaining : nat) (s : S) : res string * S * list Z :=
  match remaining with
  | O => (Err (match lastErr with
               | Some e => ErrWrap "failed to acquire lock after retries" e
               | None => ErrMsg "failed to acquire lock after retries"
               end), s, [])
  | Datatypes.S remaining =>
      match Lock (call (att i)) key ttl s with
      | (Ok token, s) => (Ok token, s, [])
      | (Err err, s) =>
          if negb (errorsIs err ErrLockConflict) then (Err err, s, [])
          else
            let delay := retryWait retryDelay i (jitterBytes (att i)) in
            let s := others (att i) s in
            match ctxDone (att i) with
            | Some e => (Err e, s, [])
            | None =>
                let '(r, s, ds) := acquireLoop att key ttl retryDelay (Some err) (i + 1) remaining s in
                (r, s, delay :: ds)
            end
      end
  end.

Definition AcquireLock (att : nat → attempt) (key : string) (ttl retryCount retryDelay : Z)
    (s : S) : res string * S * list Z :=
  acquireLoop att key ttl retryDelay None 0 (Z.to_nat retryCount) s.

(** The ticker of the renewal goroutine. *)
Definition renewInterval (ttl : Z) : Z :=
  let interval := Z.quot ttl 3 in
  if interval <? 2 * Second then 2 * Second else interval.

(** Calls that any client of the service can make. *)
Inductive op :=
| OpLock (env : callEnv) (key : string) (ttl : Z)
| OpUnlock (env : callEnv) (key token : string)
| OpExtend (env : callEnv) (key token : string) (ttl : Z).

Definition exec (s : S) (o : op) : S :=
  match o with
  | OpLock env key ttl => (Lock env key ttl s).2
  | OpUnlock env key token => (Unlock env key token s).2
  | OpExtend env key token ttl => (Extend env key token ttl s).2
  end.

Definition execs (s : S) (os : list op) : S := foldl exec s os.

(** The renewal goroutine: what others do before each tick, then [Extend]; it
    stops at the first error. *)
Fixpoint renewLoop (key token : string) (ttl : Z) (ticks : list (list op * callEnv)) (s : S)
    : bool * S :=
  match ticks with
  | [] => (true, s)
  | (os, env) :: ticks =>
      match Extend env key token ttl (execs s os) with
      | (Err _, s) => (false, s)
      | (Ok _, s) => renewLoop key token ttl ticks s
      end
  end.

(** [AcquireLockWithRenewal] as seen after the given ticks of its goroutine. *)
Definition AcquireLockWithRenewal (att : nat → attempt) (key : string)
    (ttl retryCount retryDelay : Z) (ticks : list (list op * callEnv)) (s : S)
    : res string * bool * S :=
  match AcquireLock att key ttl retryCount retryDelay s with
  | (Err e, s, _) => (Err e, false, s)
  | (Ok token, s, _) =>
      let '(alive, s) := renewLoop key token ttl ticks s in (Ok token, alive, s)
  end.

Definition opTime (o : op) : Z :=
  match o with OpLock env _ _ | OpUnlock env _ _ | OpExtend env _ _ _ => now env end.

(** A call by someone who does not own [a]: tokens are secret. *)
Definition foreign (a : string) (o : op) : Prop :=
  match o with
  | OpLock _ _ _ => True
  | OpUnlock _ _ b | OpExtend _ _ b _ => b ≠ a
  end.

(** Calls of others in the order of the clock, from [lo] to before [hi]. *)
Fixpoint foreignRun (a : string) (lo hi : Z) (os : list op) : Prop :=
  match os with
  | [] => True
  | o :: os => lo ≤ opTime o < hi ∧ foreign a o ∧ foreignRun a (opTime o) hi os
  end.

Context `{!LockLaws S}.

(** [a] holds [k] at every time of the interval. *)
Definition heldOn (s : S) (k a : string) (lo hi : Z) : Prop :=
  ∀ t, lo ≤ t < hi → holder s k t = Some a.

Lemma foreign_keeps s k a o lo hi :
  heldOn s k a lo hi → lo ≤ opTime o < hi → foreign a o →
  heldOn (exec s o) k a (opTime o) hi.
Proof.
  intros Hh Ho Hf t Ht. pose proof (Hh (opTime o) Ho) as Hnow.
  assert (holder s k t = Some a) as Hs by (apply Hh; lia).
  assert (∀ s' : S, holder s' k t = holder s k t → holder s' k t = Some a) as Heq by congruence.
  apply Heq. destruct o as [env k' ttl|env k' b|env k' b ttl]; simpl in *;
    destruct (decide (k' = k)) as [->|Hk];
    eauto using lock_frame, unlock_frame, extend_frame with lia;
    [edestruct lock_held|edestruct unlock_other|edestruct extend_other];
    eauto with lia; congruence.
Qed.

Lemma foreign_run_keeps os s k a lo hi t :
  heldOn s k a lo hi → foreignRun a lo hi os → lo ≤ t → Forall (λ o, opTime o ≤ t) os →
  heldOn (execs s os) k a t hi.
Proof.
  revert s lo. induction os as [|o os IH]; intros s lo Hh; simpl.
  { intros _ Ht _ t' Ht'. apply Hh. lia. }
  intros (Ho & Hf & Hr) Ht [Hot Hos]%Forall_cons.
  apply (IH (exec s o) (opTime o)); [by eapply foreign_keeps|done..].
Qed.

Lemma lock_gives s env k ttl a s' :
  Lock env k ttl s = (Ok a, s') → 0 < ttl →
  heldOn s' k a (now env) (now env + ttl - granularity).
Proof. intros (_ & _ & _ & Hh)%lock_ok Httl t Ht. auto. Qed.

Lemma held_time s k a lo hi t :
  heldOn s k a lo hi → lo ≤ t < hi → heldOn s k a t hi.
Proof. intros Hh Ht t' Ht'. apply Hh. lia. Qed.

End clients.
Arguments attempt : clear implicits.
Arguments Attempt {S} _ _ _ _.

(** ** Waits and attempts *)

Lemma randInt63n_range n b : 0 < n → - n < randInt63n n b < n.
Proof.
  intros Hn. unfold randInt63n. case_match; bool_prop; [lia|]. cbv zeta.
  pose proof (Z.rem_bound_abs (if int64OfBytes b <? 0 then wrap64 (- int64OfBytes b)
    else int64OfBytes b) n ltac:(lia)). lia.
Qed.

Lemma randInt63n_nonpos n b : n ≤ 0 → randInt63n n b = 0.
Proof. intros. unfold randInt63n. by rewrite (proj2 (Z.leb_le n 0)). Qed.

(** Two's complement has no positive counterpart of the smallest integer. *)
Lemma randInt63n_nonneg n b : int64OfBytes b ≠ int64_min → 0 ≤ randInt63n n b.
Proof.
  intros Hb. unfold randInt63n. case_match; bool_prop; [lia|]. cbv zeta.
  apply Z.rem_nonneg; [lia|]. pose proof (wrap64_in64 (foldl (λ v x,
    Z.lor (Z.shiftl v 8) (Z.of_nat (Byte.to_nat x))) 0 b)) as H64.
  fold (int64OfBytes b) in H64. case_match; bool_prop; [|done].
  rewrite wrap64_id; unfold in64, int64_min, int64_max in *; lia.
Qed.

Example randInt63n_negative :
  randInt63n 1000 [Byte.x80; Byte.x00; Byte.x00; Byte.x00;
                   Byte.x00; Byte.x00; Byte.x00; Byte.x00] = -808.
Proof. reflexivity. Qed.

Lemma retryWait_upper d i b : d ≤ 3 * Second → retryWait d i b ≤ 3 * Second.
Proof.
  intros Hd. unfold retryWait. destruct (i =? 0)%nat; [done|]. cbv zeta.
  pose proof (wrap64_in64 (wrap64 (Z.shiftl 1 (Z.of_nat (i - 1))) * d)) as H64.
  set (bo := wrap64 (_ * d)) in *. clearbody bo.
  set (m := if 2 * Second <? bo then 2 * Second else bo).
  assert (int64_min ≤ m ≤ 2 * Second) as Hm.
  { unfold m, in64, Second, Millisecond, int64_min, int64_max in *. case_match; bool_prop; lia. }
  clearbody m. destruct (decide (Z.quot m 2 ≤ 0)) as [Hn|Hn].
  - rewrite randInt63n_nonpos, Z.add_0_r, wrap64_id by
      (unfold in64, Second, Millisecond, int64_min, int64_max in *; lia).
    unfold Second, Millisecond in *; lia.
  - assert (0 < m) by (destruct (decide (0 < m)); [done|];
      pose proof (Z.quot_le_mono m 0 2 ltac:(lia) ltac:(lia)); rewrite Z.quot_0_l in *; lia).
    pose proof (randInt63n_range (Z.quot m 2) b ltac:(lia)) as Hr.
    rewrite Z.quot_div_nonneg in Hr |- * by lia.
    pose proof (Z.mul_div_le m 2 ltac:(lia)).
    rewrite wrap64_id; unfold in64, Second, Millisecond, int64_min, int64_max in *; lia.
Qed.

Section attempts.
Context {S : Type} `{LockLaws S}.
Implicit Types (s : S) (att : nat → attempt S).

Lemma acquireLoop_sound att key ttl d last i n s r s' ds :
  acquireLoop att key ttl d last i n s = (r, s', ds) →
  (length ds ≤ n)%nat ∧
  (∀ w, w ∈ ds → ∃ j, (j < i + n)%nat ∧ w = retryWait d j (jitterBytes (att j))) ∧
  ∀ a, r = Ok a → ∃ j s0, (i ≤ j < i + n)%nat ∧ Lock (call (att j)) key ttl s0 = (Ok a, s').
Proof.
  revert last i s ds. induction n as [|n IH]; intros last i s ds; simpl.
  { intros [= <- <- <-]. simpl. split_and!; [done|by intros ? ?%elem_of_nil|done]. }
  destruct (Lock (call (att i)) key ttl s) as [[a|e] s1] eqn:EL.
  { intros [= <- <- <-]. simpl. split_and!; [lia|by intros ? ?%elem_of_nil|].
    intros a' [= <-]. exists i, s. split; [lia|done]. }
  destruct (errorsIs e ErrLockConflict); simpl.
  2: { intros [= <- <- <-]. simpl. split_and!; [lia|by intros ? ?%elem_of_nil|done]. }
  destruct (ctxDone (att i)).
  { intros [= <- <- <-]. simpl. split_and!; [lia|by intros ? ?%elem_of_nil|done]. }
  destruct (acquireLoop att key ttl d (Some e) (i + 1) n _) as [[r1 s2] ds1] eqn:E2.
  intros [= <- <- <-]. apply IH in E2 as (Hl & Hw & Ha). simpl. split_and!; [lia|..].
  - intros w [->|Hin]%elem_of_cons; [exists i; split; [lia|done]|].
    destruct (Hw w Hin) as (j & ? & ?). exists j. split; [lia|done].
  - intros a Hr. destruct (Ha a Hr) as (j & s0 & ? & ?). exists j, s0. split; [lia|done].
Qed.

(** A key that stays held makes every attempt fail with a conflict. *)
Lemma acquireLoop_held att key ttl d b last i n s lo hi :
  heldOn s key b lo hi →
  (∀ j, (i ≤ j)%nat → lo ≤ now (call (att j)) < hi ∧
    net (call (att j)) = NoFault ∧ ctxDone (att j) = None ∧
    ∀ s0, heldOn s0 key b (now (call (att j))) hi →
          heldOn (others (att j) s0) key b (now (call (att (j + 1)%nat))) hi) →
  now (call (att i)) = lo →
  (∀ j, (i ≤ j)%nat → now (call (att j)) ≤ now (call (att (j + 1)%nat))) →
  ∃ s' ds, length ds = n ∧
    acquireLoop att key ttl d last i n s =
      (Err (match n, last with
            | O, None => ErrMsg "failed to acquire lock after retries"
            | O, Some e => ErrWrap "failed to acquire lock after retries" e
            | _, _ => ErrWrap "failed to acquire lock after retries" ErrLockConflict
            end), s', ds).
Proof.
  revert last i s lo. induction n as [|n IH]; intros last i s lo Hh Hatt Hlo Hmono; simpl.
  { exists s, []. split; [done|]. by destruct last. }
  destruct (Hatt i ltac:(lia)) as (Ht & Hnet & Hctx & Hoth). subst lo.
  destruct (lock_held (call (att i)) key ttl s b) as [(e & He & Hc) Hsame].
  { apply Hh. lia. }
  destruct (Lock (call (att i)) key ttl s) as [r s1]; simpl in *. subst r.
  rewrite Hc by done. simpl. rewrite Hctx.
  destruct (IH (Some ErrLockConflict) (i + 1)%nat (others (att i) s1)
    (now (call (att (i + 1)%nat)))) as (s' & ds & Hl & ->).
  - apply Hoth. intros t Htt. rewrite Hsame by lia. apply Hh. lia.
  - intros j Hj. destruct (Hatt j ltac:(lia)) as (Htj & ?). split; [|done].
    split; [|lia]. clear -Hj Hmono.
    induction Hj as [|j Hj IHj]; [done|]. specialize (Hmono j ltac:(lia)).
    replace (Datatypes.S j) with (j + 1)%nat by lia. lia.
  - done.
  - intros j Hj. apply Hmono. lia.
  - exists s', (retryWait d i (jitterBytes (att i)) :: ds). simpl. split; [by rewrite Hl|].
    by destruct n.
Qed.

End attempts.

(** ** Renewal *)

Section renewal.
Context {S : Type} `{LockLaws S}.

(** Ticks that come at most [period] after the previous one and reach the lock
    service, with calls of others in between. *)
Fixpoint ticksWithin (a : string) (ttl period lo : Z) (ticks : list (list op * callEnv)) : Prop :=
  match ticks with
  | [] => True
  | (os, env) :: ticks =>
      lo ≤ now env ≤ lo + period ∧ net env = NoFault ∧
      foreignRun a lo (lo + ttl - granularity) os ∧
      Forall (λ o, opTime o ≤ now env) os ∧
      ticksWithin a ttl period (now env) ticks
  end.

Definition lastTick (lo : Z) (ticks : list (list op * callEnv)) : Z :=
  match last ticks with Some (_, env) => now env | None => lo end.

Lemma renewLoop_holds key a ttl period ticks s lo :
  0 < ttl → period < ttl - granularity →
  heldOn s key a lo (lo + ttl - granularity) →
  ticksWithin a ttl period lo ticks →
  ∃ s', renewLoop key a ttl ticks s = (true, s') ∧
    heldOn s' key a (lastTick lo ticks) (lastTick lo ticks + ttl - granularity).
Proof.
  intros Httl Hp. revert s lo. induction ticks as [|[os env] ticks IH]; intros s lo Hh; simpl.
  { intros _. eauto. }
  intros (Ht & Hn & Hf & Hos & Hrest).
  pose proof (foreign_run_keeps os s key a lo _ (now env) Hh Hf ltac:(lia) Hos) as Hh'.
  destruct (extend_held env key a ttl (execs s os)) as [Hok Hext]; [done|apply Hh'; lia|done|].
  destruct (Extend env key a ttl (execs s os)) as [r s1]; simpl in *. subst r.
  destruct (IH s1 (now env) Hext Hrest) as (s' & -> & Hs').
  exists s'. split; [done|]. unfold lastTick in *. rewrite last_cons. by destruct (last ticks) as [[]|].
Qed.

End renewal.

(** ** Properties *)

(** C6: mutual exclusion. After a successful [Lock], and whatever other clients
    call on any key without knowing the token, no [Lock] of the same key
    succeeds before the time to live (less the granularity of the service's
    clock) has run out; without a network fault it reports the conflict. It
    holds of every implementation of the interface that satisfies its laws, the
    local and the Redis one both. *)
Theorem lock_mutual_exclusion {S : Type} `{LockLaws S}
    (s s1 : S) (env env2 : callEnv) (key a : string) (ttl ttl2 : Z) (os : list op) :
  Lock env key ttl s = (Ok a, s1) → 0 < ttl →
  foreignRun a (now env) (now env + ttl - granularity) os →
  Forall (λ o, opTime o ≤ now env2) os →
  now env ≤ now env2 < now env + ttl - granularity →
  ∃ e, (Lock env2 key ttl2 (execs s1 os)).1 = Err e ∧
       (net env2 = NoFault → e = ErrLockConflict).
Proof.
  intros HL Httl Hf Hos Ht. pose proof (lock_gives _ _ _ _ _ _ HL Httl) as Hh.
  apply (lock_held _ _ _ _ a).
  apply (foreign_run_keeps os s1 key a (now env) _ (now env2) Hh Hf); [lia|done|lia].
Qed.

Definition env0 (t : Z) (b : Byte.byte) : callEnv := CallEnv t [b; b] NoFault.

Lemma lock_mutual_exclusion_witness :
  let others := [OpLock (env0 5 Byte.x02) "k" 9; OpUnlock (env0 7 Byte.x02) "k" "0202"] in
  (∃ e, (Lock (env0 100 Byte.x03) "k" 50
          (execs (Local.LocalLock (env0 0 Byte.x01) "k" Second Local.NewLocalDistributedLock).2
             others)).1 = Err e ∧
        (net (env0 100 Byte.x03) = NoFault → e = ErrLockConflict)) ∧
  ∃ e, (Lock (env0 100 Byte.x03) "k" 50
          (execs (RedisLock.RLock (R := MapRedis.state) (env0 0 Byte.x01) "k" Second ∅).2
             others)).1 = Err e ∧
        (net (env0 100 Byte.x03) = NoFault → e = ErrLockConflict).
Proof.
  split.
  - eapply (lock_mutual_exclusion Local.NewLocalDistributedLock _ (env0 0 Byte.x01)
      (env0 100 Byte.x03) "k" "0101" Second 50);
      [vm_compute; reflexivity|reflexivity|vm_compute; repeat split; done|
       repeat constructor; done|vm_compute; done].
  - eapply (lock_mutual_exclusion (∅ : MapRedis.state) _ (env0 0 Byte.x01)
      (env0 100 Byte.x03) "k" "0101" Second 50);
      [vm_compute; reflexivity|reflexivity|vm_compute; repeat split; done|
       repeat constructor; done|vm_compute; done].
Defined.

(** Only the owner releases. Calls of clients that do not know the token
    leave the lock to its owner; the owner's [Unlock] then succeeds, and the next
    [Lock] of the key, by anyone, succeeds at once. *)
Lemma owner_releases {S : Type} `{LockLaws S}
    (s s1 : S) (env env2 env3 : callEnv) (key a : string) (ttl ttl3 : Z) (os : list op) :
  Lock env key ttl s = (Ok a, s1) → 0 < ttl →
  foreignRun a (now env) (now env + ttl - granularity) os →
  Forall (λ o, opTime o ≤ now env2) os →
  now env ≤ now env2 < now env + ttl - granularity → net env2 = NoFault →
  now env2 ≤ now env3 → net env3 = NoFault →
  (Unlock env2 key a (execs s1 os)).1 = Ok tt ∧
  (Lock env3 key ttl3 (Unlock env2 key a (execs s1 os)).2).1 = Ok (generateToken (rnd env3)).
Proof.
  intros HL Httl Hf Hos Ht Hn2 Ht3 Hn3. pose proof (lock_gives _ _ _ _ _ _ HL Httl) as Hh.
  pose proof (foreign_run_keeps os s1 key a (now env) _ (now env2) Hh Hf ltac:(lia) Hos) as Hh2.
  destruct (unlock_held env2 key a (execs s1 os)) as [? Hgone]; [done|apply Hh2; lia|].
  split; [done|]. apply lock_free; [done|]. by apply Hgone.
Qed.

(** C39: renewal. While the ticks of the renewal goroutine come within a period
    shorter than the time to live (less the clock's granularity), the goroutine
    never stops and the lock is held without a gap, however many ticks there are
    and whatever the other clients do in between. *)
Theorem renewal_keeps_lock {S : Type} `{LockLaws S}
    (att : nat → attempt S) (key a : string) (ttl retryCount retryDelay lag : Z)
    (ticks : list (list op * callEnv)) (s s1 : S) (i : nat) (s0 : S) (ds : list Z) :
  AcquireLock att key ttl retryCount retryDelay s = (Ok a, s1, ds) →
  Lock (call (att i)) key ttl s0 = (Ok a, s1) →
  0 < ttl → renewInterval ttl + lag < ttl - granularity →
  ticksWithin a ttl (renewInterval ttl + lag) (now (call (att i))) ticks →
  let t := lastTick (now (call (att i))) ticks in
  ∃ s2, AcquireLockWithRenewal att key ttl retryCount retryDelay ticks s = (Ok a, true, s2) ∧
        heldOn s2 key a t (t + ttl - granularity).
Proof.
  intros HA HL Httl Hp Htk t.
  destruct (renewLoop_holds key a ttl _ ticks s1 _ Httl Hp (lock_gives _ _ _ _ _ _ HL Httl) Htk)
    as (s2 & Hr & Hh).
  exists s2. split; [|done]. unfold AcquireLockWithRenewal. by rewrite HA, Hr.
Qed.

Definition quietAttempt (j : nat) : attempt Local.LocalDistributedLock :=
  Attempt (env0 (Z.of_nat j) Byte.x01) [] None (λ s, s).

Lemma renewal_keeps_lock_witness :
  let ticks := [([OpLock (env0 Second Byte.x02) "k" Second], env0 (4 * Second) Byte.x01)] in
  ∃ s2, AcquireLockWithRenewal quietAttempt "k" (10 * Second) 30 (50 * Millisecond) ticks
          Local.NewLocalDistributedLock = (Ok "0101", true, s2) ∧
        heldOn s2 "k" "0101" (4 * Second) (4 * Second + 10 * Second - granularity).
Proof.
  eapply (renewal_keeps_lock quietAttempt "k" "0101" (10 * Second) 30 (50 * Millisecond) Second
    [([OpLock (env0 Second Byte.x02) "k" Second], env0 (4 * Second) Byte.x01)]
    Local.NewLocalDistributedLock _ 0 Local.NewLocalDistributedLock []);
    [vm_compute; reflexivity|vm_compute; reflexivity|reflexivity|vm_compute; reflexivity|].
  cbn [ticksWithin foreignRun opTime now net foreign env0].
  split_and!; try done; repeat constructor; done.
Defined.

(** The retry loop makes at most [retryCount] attempts and waits at most
    three seconds after each of them (the cap of two seconds and its jitter),
    also when the exponential backoff overflows; when it returns a token, that
    token was obtained by one of these attempts and holds the key in the state
    that is returned. *)
Lemma acquire_bounded {S : Type} `{LockLaws S} (att : nat → attempt S) (key : string)
    (ttl retryCount retryDelay : Z) (s s' : S) (r : res string) (ds : list Z) :
  AcquireLock att key ttl retryCount retryDelay s = (r, s', ds) →
  retryDelay ≤ 3 * Second →
  Z.of_nat (length ds) ≤ Z.max 0 retryCount ∧
  Forall (λ w, w ≤ 3 * Second) ds ∧
  ∀ a, r = Ok a → ∃ j, Z.of_nat j < retryCount ∧ a = generateToken (rnd (call (att j))) ∧
    (0 < ttl → heldOn s' key a (now (call (att j))) (now (call (att j)) + ttl - granularity)).
Proof.
  intros (Hl & Hw & Ha)%acquireLoop_sound Hd. split_and!; [lia|..].
  - apply Forall_forall. intros w Hin. destruct (Hw w Hin) as (j & _ & ->).
    by apply retryWait_upper.
  - intros a Hr. destruct (Ha a Hr) as (j & s0 & Hj & HL). exists j. split; [lia|].
    pose proof (lock_ok _ _ _ _ _ _ HL) as (_ & ? & _). split; [done|].
    intros Httl. by apply (lock_gives s0 _ _ ttl).
Qed.

Definition heldLocal : Local.LocalDistributedLock :=
  (Local.LocalLock (env0 0 Byte.x07) "k" 2 Local.NewLocalDistributedLock).2.

(** When the key stays with another owner during all the attempts, the loop
    makes exactly [retryCount] of them and returns an error in which
    [errors.Is] finds the lock conflict. *)
Lemma acquire_gives_up {S : Type} `{LockLaws S} (att : nat → attempt S) (key b : string)
    (ttl retryCount retryDelay hi : Z) (s : S) :
  0 < retryCount →
  heldOn s key b (now (call (att 0%nat))) hi →
  (∀ j, now (call (att 0%nat)) ≤ now (call (att j)) < hi ∧
    net (call (att j)) = NoFault ∧ ctxDone (att j) = None ∧
    ∀ s0, heldOn s0 key b (now (call (att j))) hi →
          heldOn (others (att j) s0) key b (now (call (att (j + 1)%nat))) hi) →
  (∀ j, now (call (att j)) ≤ now (call (att (j + 1)%nat))) →
  ∃ e s' ds, AcquireLock att key ttl retryCount retryDelay s = (Err e, s', ds) ∧
    errorsIs e ErrLockConflict = true ∧ Z.of_nat (length ds) = retryCount.
Proof.
  intros Hn Hh Hatt Hmono.
  destruct (acquireLoop_held att key ttl retryDelay b None 0 (Z.to_nat retryCount) s
    (now (call (att 0%nat))) hi) as (s' & ds & Hl & HA); [done|auto|done|auto|].
  unfold AcquireLock. rewrite HA. destruct (Z.to_nat retryCount) eqn:E; [lia|].
  exists (ErrWrap "failed to acquire lock after retries" ErrLockConflict), s', ds.
  split; [done|]. split; [reflexivity|]. lia.
Qed.

Definition stalledAttempt (_ : nat) : attempt Local.LocalDistributedLock :=
  Attempt (env0 1 Byte.x01) [] None (λ s, s).

