(* ===== verification/OS.v ===== *)
(** * The operating system: clock, randomness, failures and files

    [Sys] is what every component shares with the outside world. Its oracle
    supplies, call after call, the clock, the bytes of crypto/rand and the fate
    of the call: a call can fail before it takes effect or after. The functions
    of package os that the code uses act on a tree of files and directories
    addressed by cleaned paths. The tree has no symbolic links; Symlinks.v adds
    them for the local storage, whose guard against traversal resolves them. *)

From S2P Require Export Locks Utils.

(** ** Contents of files *)

Notation bytes := (list Byte.byte).

#[export] Instance byte_eq_dec : EqDecision Byte.byte := Byte.byte_eq_dec.

Definition blen (d : bytes) : Z := Z.of_nat (length d).

Definition padTo (d : bytes) (n : nat) : bytes := d ++ replicate (n - length d) Byte.x00.

(** [File.Truncate]: cut, or extend with zeros. *)
Definition truncateTo (d : bytes) (n : nat) : bytes := take n (padTo d n).

(** [File.WriteAt]: overwrite in place; a hole is filled with zeros. *)
Definition writeAt (d : bytes) (off : nat) (x : bytes) : bytes :=
  match x with
  | [] => d
  | _ => take off (padTo d off) ++ x ++ drop (off + length x) d
  end.

(** [File.ReadAt] into a buffer of [n] bytes. *)
Definition readAt (d : bytes) (off n : nat) : bytes := take n (drop off d).

Lemma length_padTo d n : length (padTo d n) = Nat.max (length d) n.
Proof. unfold padTo. rewrite length_app, length_replicate. lia. Qed.

Lemma length_truncateTo d n : length (truncateTo d n) = n.
Proof. unfold truncateTo. rewrite length_take, length_padTo. lia. Qed.

Lemma length_writeAt d off x :
  (off + length x ≤ length d)%nat → length (writeAt d off x) = length d.
Proof.
  intros. unfold writeAt. destruct x; [done|].
  rewrite !length_app, length_take, length_padTo, length_drop. lia.
Qed.

(** A write changes the bytes it covers and no other. *)
Lemma lookup_writeAt d off x i :
  (off + length x ≤ length d)%nat →
  writeAt d off x !! i =
    if decide (off ≤ i < off + length x)%nat then x !! (i - off)%nat else d !! i.
Proof.
  intros Hlen. unfold writeAt. destruct x as [|b x]; [simpl; case_decide; [lia|done]|].
  set (y := b :: x) in *. assert (padTo d off = d) as ->.
  { unfold padTo. replace (off - length d)%nat with 0%nat by lia. by rewrite app_nil_r. }
  case_decide as Hi.
  - rewrite lookup_app_r by (rewrite length_take; lia).
    rewrite lookup_app_l by (rewrite length_take; lia). f_equal. rewrite length_take. lia.
  - destruct (decide (i < off)%nat).
    + rewrite lookup_app_l by (rewrite length_take; lia). by rewrite lookup_take_lt by lia.
    + rewrite lookup_app_r by (rewrite length_take; lia).
      rewrite lookup_app_r by (rewrite length_take; lia).
      rewrite lookup_drop. f_equal. rewrite length_take. lia.
Qed.

(** A write at the end of what was written before appends to it. *)
Lemma take_writeAt_append d off x :
  (off + length x ≤ length d)%nat →
  take (off + length x) (writeAt d off x) = take off d ++ x.
Proof.
  intros Hlen. apply list_eq. intros i.
  destruct (decide (i < off + length x)%nat) as [Hi|Hi].
  - rewrite lookup_take_lt, lookup_writeAt by lia. case_decide.
    + rewrite lookup_app_r by (rewrite length_take; lia). f_equal. rewrite length_take. lia.
    + rewrite lookup_app_l by (rewrite length_take; lia). by rewrite lookup_take_lt by lia.
  - rewrite lookup_take_ge by lia. symmetry. apply lookup_ge_None.
    rewrite length_app, length_take. lia.
Qed.

(** ** The tree *)

Inductive node := FileN (data : bytes) | DirN.

#[export] Instance node_eq_dec : EqDecision node.
Proof. solve_decision. Defined.

Notation OS := (gmap string node).

Definition fileAt (o : OS) (p : string) : option bytes :=
  match o !! p with Some (FileN d) => Some d | _ => None end.

Definition isDirAt (o : OS) (p : string) : bool := bool_decide (o !! p = Some DirN).

Definition errNotDir : error := ErrMsg "not a directory".
Definition errIsDir : error := ErrMsg "is a directory".
Definition errNotEmpty : error := ErrMsg "directory not empty".
Definition errExist : error := ErrMsg "file exists".

(** [q] lies below [p]. *)
Definition below (p q : string) : bool :=
  if bool_decide (p = "/") then HasPrefix q "/" && negb (bool_decide (q = "/"))
  else HasPrefix q (p +:+ "/").

(** The directory that must hold an entry for [p]. *)
Definition parentOk (o : OS) (p : string) : bool :=
  bool_decide (Dir p = p) || isDirAt o (Dir p).

(** [p] and the directories on the way to it, the outermost first. *)
Definition ancestors (p : string) : list string :=
  let segs := Split (stripSlashes p) slash in
  (λ n, (if HasPrefix p "/" then "/" else "") +:+ Join (take n segs) slash)
    <$> seq 1 (length segs).

Definition osStat (p : string) (o : OS) : res node * OS :=
  (match o !! p with
   | Some n => Ok n
   | None => if existsb (λ a, bool_decide (is_Some (fileAt o a))) (ancestors p)
             then Err errNotDir else Err ErrNotExist
   end, o).

(** O_CREATE|O_TRUNC with the given contents. *)
Definition osWriteFile (p : string) (d : bytes) (o : OS) : res unit * OS :=
  if isDirAt o p then (Err errIsDir, o)
  else if negb (parentOk o p) then (Err ErrNotExist, o)
  else (Ok tt, <[p := FileN d]> o).

Definition osCreate (p : string) (o : OS) : res unit * OS := osWriteFile p [] o.

(** [os.OpenFile] without O_CREATE. *)
Definition osOpen (p : string) (o : OS) : res unit * OS :=
  (match o !! p with Some (FileN _) => Ok tt | Some DirN => Err errIsDir
   | None => Err ErrNotExist end, o).

(** O_CREATE|O_WRONLY: keeps the contents of an existing file. *)
Definition osOpenCreate (p : string) (o : OS) : res unit * OS :=
  match o !! p with
  | Some (FileN _) => (Ok tt, o)
  | Some DirN => (Err errIsDir, o)
  | None => osCreate p o
  end.

Definition osReadFile (p : string) (o : OS) : res bytes * OS :=
  (match o !! p with Some (FileN d) => Ok d | Some DirN => Err errIsDir
   | None => Err ErrNotExist end, o).

(** Operations through an open handle: when the file was unlinked they succeed
    and what they write is lost. *)
Definition fTruncate (p : string) (n : Z) (o : OS) : res unit * OS :=
  if (n <? 0)%Z then (Err (ErrMsg "invalid argument"), o)
  else match o !! p with
       | Some (FileN d) => (Ok tt, <[p := FileN (truncateTo d (Z.to_nat n))]> o)
       | _ => (Ok tt, o)
       end.

(** A position past the largest file offset is refused (EFBIG). *)
Definition fWriteAt (p : string) (x : bytes) (off : Z) (o : OS) : res unit * OS :=
  if (off <? 0)%Z then (Err (ErrMsg "negative offset"), o)
  else if (int64_max <? off + blen x)%Z then (Err (ErrMsg "file too large"), o)
  else match o !! p with
       | Some (FileN d) => (Ok tt, <[p := FileN (writeAt d (Z.to_nat off) x)]> o)
       | _ => (Ok tt, o)
       end.

(** A handle stands for the path it was opened at. Linux still reads the contents of a
    file that was unlinked while it is open; here such a read finds the end of the file.
    The program closes its handles before it removes what they read, so that this
    happens only when somebody else removes the file. *)
Definition fReadAt (p : string) (n : nat) (off : Z) (o : OS) : res bytes * OS :=
  (if (off <? 0)%Z then Err (ErrMsg "negative offset")
   else match o !! p with
        | Some (FileN d) => Ok (readAt d (Z.to_nat off) n)
        | _ => Ok []
        end, o).

Definition hasChildren (o : OS) (p : string) : bool :=
  existsb (λ kv, below p kv.1) (map_to_list o).

Definition osRemove (p : string) (o : OS) : res unit * OS :=
  match o !! p with
  | None => (Err ErrNotExist, o)
  | Some (FileN _) => (Ok tt, delete p o)
  | Some DirN => if hasChildren o p then (Err errNotEmpty, o) else (Ok tt, delete p o)
  end.

Definition osRemoveAll (p : string) (o : OS) : res unit * OS :=
  (Ok tt, filter (λ kv, kv.1 ≠ p ∧ below p kv.1 = false) o).

Fixpoint mkdirs (l : list string) (o : OS) : res unit * OS :=
  match l with
  | [] => (Ok tt, o)
  | a :: l => match o !! a with
              | Some (FileN _) => (Err errNotDir, o)
              | Some DirN => mkdirs l o
              | None => if bool_decide (a = "/") then mkdirs l o else mkdirs l (<[a := DirN]> o)
              end
  end.

Definition osMkdirAll (p : string) (o : OS) : res unit * OS := mkdirs (ancestors p) o.

Lemma fileAt_insert o p d : fileAt (<[p := FileN d]> o) p = Some d.
Proof. unfold fileAt. by rewrite lookup_insert_eq. Qed.

Lemma fileAt_insert_ne o p n q : p ≠ q → fileAt (<[p := n]> o) q = fileAt o q.
Proof. intros. unfold fileAt. by rewrite lookup_insert_ne. Qed.

Lemma fileAt_delete o p : fileAt (delete p o) p = None.
Proof. unfold fileAt. by rewrite lookup_delete_eq. Qed.

Lemma fileAt_delete_ne o p q : p ≠ q → fileAt (delete p o) q = fileAt o q.
Proof. intros. unfold fileAt. by rewrite lookup_delete_ne. Qed.

(** Creating directories never changes a file. *)
Lemma fileAt_mkdirs l o q : fileAt (mkdirs l o).2 q = fileAt o q.
Proof.
  revert o. induction l as [|a l IH]; intros o; [done|]. simpl.
  destruct (o !! a) as [[d|]|] eqn:E; [done|apply IH|]. case_bool_decide; [apply IH|].
  rewrite IH. unfold fileAt.
  destruct (decide (a = q)) as [->|Hne]; [|by rewrite lookup_insert_ne].
  by rewrite lookup_insert_eq, E.
Qed.

(** The path of [k] after the directory [p] has become [q]. *)
Definition moved (p q k : string) : string :=
  if bool_decide (k = p) then q else if below p k then q +:+ sdrop (slen p) k else k.

(** A file replaces a file; a directory moves with everything below it. *)
Definition osRename (p q : string) (o : OS) : res unit * OS :=
  match o !! p with
  | None => (Err ErrNotExist, o)
  | Some (FileN d) =>
      if isDirAt o q then (Err errExist, o)
      else if negb (parentOk o q) then (Err ErrNotExist, o)
      else (Ok tt, <[q := FileN d]> (delete p o))
  | Some DirN =>
      if bool_decide (p = q) then (Ok tt, o)
      else if below p q then (Err (ErrMsg "invalid argument"), o)
      else if negb (parentOk o q) then (Err ErrNotExist, o)
      else if bool_decide (is_Some (fileAt o q)) then (Err errNotDir, o)
      else if isDirAt o q && hasChildren o q then (Err errExist, o)
      else (Ok tt, list_to_map ((λ kv, (moved p q kv.1, kv.2)) <$> map_to_list (delete q o)))
  end.

(** A path that is moved by neither name is left. *)
Lemma moved_keeps p q k x :
  p ≠ "/" → moved p q k = x → x ≠ q → below q x = false → x = k.
Proof.
  intros Hp Hm Hq Hb. unfold moved in Hm. case_bool_decide; [congruence|].
  destruct (below p k) eqn:Hk; [|done]. subst x. exfalso.
  unfold below in Hk. rewrite bool_decide_eq_false_2 in Hk by done.
  apply HasPrefix_spec in Hk as [t ->]. rewrite append_assoc, sdrop_append in Hb.
  unfold below in Hb. case_bool_decide.
  - subst q. by rewrite append_cons in Hb.
  - by rewrite <-append_assoc, HasPrefix_append in Hb.
Qed.

Lemma moved_id p q x : x ≠ p → below p x = false → moved p q x = x.
Proof. intros. unfold moved. rewrite bool_decide_eq_false_2 by done. by case_match. Qed.

(** The entries of a map whose keys are renamed, at a key that nothing moves to. *)
Lemma lookup_moved {A} (f : string → string) (m : gmap string A) x :
  f x = x → (∀ k, f k = x → x = k) →
  (list_to_map ((λ kv, (f kv.1, kv.2)) <$> map_to_list m) : gmap string A) !! x = m !! x.
Proof.
  intros Hx Hk. destruct (m !! x) as [v|] eqn:E.
  - apply elem_of_list_to_map_1'.
    + intros v' ([k v''] & [= Hf ->] & Hin%elem_of_map_to_list)%list_elem_of_fmap.
      apply eq_sym, Hk in Hf as <-. congruence.
    + apply list_elem_of_fmap. exists (x, v). simpl. rewrite Hx. split; [done|].
      by apply elem_of_map_to_list.
  - apply not_elem_of_list_to_map. rewrite <-list_fmap_compose.
    intros ([k v] & Hf & Hin%elem_of_map_to_list)%list_elem_of_fmap. simpl in Hf.
    apply eq_sym, Hk in Hf as <-. congruence.
Qed.

(** A rename touches its two paths and what is below them. *)
Lemma osRename_keeps p q o x :
  p ≠ "/" → x ≠ p → x ≠ q → below p x = false → below q x = false →
  (osRename p q o).2 !! x = o !! x.
Proof.
  intros Hp Hxp Hxq Hbp Hbq. unfold osRename. destruct (o !! p) as [[d|]|]; [|cbv zeta|done].
  - repeat case_match; try done. simpl. by rewrite lookup_insert_ne, lookup_delete_ne.
  - repeat case_match; try done. cbn [snd]. rewrite lookup_moved.
    + by rewrite lookup_delete_ne.
    + by apply moved_id.
    + intros k Hk. by eapply moved_keeps.
Qed.

(** ** The system state and calls into it *)

Record Sys := MkSys { oracle : nat → callEnv; tick : nat; os : OS }.

Definition setOS (o : OS) (s : Sys) : Sys := MkSys (oracle s) (tick s) o.

Definition skip (n : nat) (s : Sys) : Sys := MkSys (oracle s) (tick s + n) (os s).

(** Time does not go backwards. *)
Definition monotoneClock (s : Sys) : Prop :=
  ∀ n m, n ≤ m → (now (oracle s n) ≤ now (oracle s m))%Z.

Definition timeOf (s : Sys) : Z := now (oracle s (tick s)).

Lemma timeOf_skip n s : monotoneClock s → (timeOf s ≤ timeOf (skip n s))%Z.
Proof. intros Hm. apply Hm. simpl. lia. Qed.

(** The environment of the next call. *)
Definition nextEnv : M Sys callEnv := λ s, (Ok (oracle s (tick s)), skip 1 s).

Definition faulty {S A} (f : fault) (op : S → res A * S) : S → res A * S := λ s,
  match f with
  | NoFault => op s
  | Lost e => (Err e, s)
  | ReplyLost e => let '(_, s') := op s in (Err e, s')
  | ShortRead _ => (Err errIO, s)
  end.

Definition osCall {A} (op : OS → res A * OS) : M Sys A := λ s,
  let '(r, o) := faulty (net (oracle s (tick s))) op (os s) in (r, setOS o (skip 1 s)).

(** A call into a component [C] of the system. *)
Definition extCall {C A} (op : callEnv → C → res A * C) : M (C * Sys) A := λ '(c, s),
  let '(r, c) := op (oracle s (tick s)) c in (r, (c, skip 1 s)).

Definition onSys {C A} (m : M Sys A) : M (C * Sys) A := λ '(c, s),
  let '(r, s) := m s in (r, (c, s)).

(** ** What a call can do to the files *)

Lemma osCall_os {A} (op : OS → res A * OS) s :
  os (osCall op s).2 = os s ∨ os (osCall op s).2 = (op (os s)).2.
Proof.
  unfold osCall, faulty. destruct (net _); simpl; [|by left| |by left];
    destruct (op (os s)); simpl; by right.
Qed.

Lemma osCall_oracle {A} (op : OS → res A * OS) s : oracle (osCall op s).2 = oracle s.
Proof. unfold osCall. by destruct (faulty _ _ _). Qed.

Lemma osCall_ok {A} (op : OS → res A * OS) s a s' :
  osCall op s = (Ok a, s') → op (os s) = (Ok a, os s').
Proof.
  unfold osCall, faulty. destruct (net _).
  - destruct (op (os s)) eqn:E. by intros [= -> <-].
  - done.
  - destruct (op (os s)). done.
  - done.
Qed.

Lemma onSys_ok {C A} (m : M Sys A) (c : C) s a w' :
  onSys m (c, s) = (Ok a, w') → ∃ s', m s = (Ok a, s') ∧ w' = (c, s').
Proof. unfold onSys. destruct (m s) as [r s1] eqn:E. intros [= -> <-]. eauto. Qed.

Lemma fileAt_writeFile p d o q : p ≠ q → fileAt (osWriteFile p d o).2 q = fileAt o q.
Proof.
  intros. unfold osWriteFile. repeat case_match; simpl; auto using fileAt_insert_ne.
Qed.

Lemma osWriteFile_ok p d o o' :
  osWriteFile p d o = (Ok tt, o') → fileAt o' p = Some d.
Proof.
  unfold osWriteFile. repeat case_match; intros [= <-]. apply fileAt_insert.
Qed.

Lemma fileAt_openCreate p o q : p ≠ q → fileAt (osOpenCreate p o).2 q = fileAt o q.
Proof.
  intros. unfold osOpenCreate, osCreate. repeat case_match; auto using fileAt_writeFile.
Qed.

Lemma fileAt_fWriteAt p x off o q : p ≠ q → fileAt (fWriteAt p x off o).2 q = fileAt o q.
Proof. intros. unfold fWriteAt. repeat case_match; simpl; auto using fileAt_insert_ne. Qed.

Lemma fileAt_fTruncate p n o q : p ≠ q → fileAt (fTruncate p n o).2 q = fileAt o q.
Proof. intros. unfold fTruncate. repeat case_match; simpl; auto using fileAt_insert_ne. Qed.

Lemma fileAt_remove p o q : p ≠ q → fileAt (osRemove p o).2 q = fileAt o q.
Proof. intros. unfold osRemove. repeat case_match; simpl; auto using fileAt_delete_ne. Qed.

Lemma osRemove_cases p o :
  fileAt (osRemove p o).2 p = fileAt o p ∨ fileAt (osRemove p o).2 p = None.
Proof. unfold osRemove. repeat case_match; simpl; auto using fileAt_delete. Qed.

Lemma osRemove_ok p o o' : osRemove p o = (Ok tt, o') → fileAt o' p = None.
Proof. unfold osRemove. repeat case_match; intros [= <-]; apply fileAt_delete. Qed.

(** Renaming a file. *)
Lemma fileAt_rename p q d o r :
  fileAt o p = Some d → p ≠ r → q ≠ r → fileAt (osRename p q o).2 r = fileAt o r.
Proof.
  unfold osRename. intros Hd Hp Hq. unfold fileAt in Hd at 1.
  destruct (o !! p) as [[d'|]|]; simplify_eq. repeat case_match; simpl; try done.
  by rewrite fileAt_insert_ne, fileAt_delete_ne.
Qed.

Lemma osRename_ok p q d o o' :
  fileAt o p = Some d → p ≠ q → osRename p q o = (Ok tt, o') →
  fileAt o' q = Some d ∧ fileAt o' p = None.
Proof.
  unfold osRename. intros Hd Hpq. unfold fileAt in Hd.
  destruct (o !! p) as [[d'|]|]; simplify_eq. repeat case_match; intros [= <-].
  by rewrite fileAt_insert, fileAt_insert_ne, fileAt_delete.
Qed.

Lemma osRename_err p q d o e o' :
  fileAt o p = Some d → osRename p q o = (Err e, o') → o' = o.
Proof.
  unfold osRename. intros Hd. unfold fileAt in Hd.
  destruct (o !! p) as [[d'|]|]; simplify_eq. by repeat case_match; intros [= <- <-].
Qed.
