(* ===== verification/Symlinks.v ===== *)
(** * Symbolic links: how the kernel and filepath.EvalSymlinks resolve a path

    The links of a file system, next to the tree of OS.v: a map from the path of
    a link to its target, both absolute and cleaned. [walk] resolves a path
    component by component and starts again at the target of every link it meets,
    as the kernel (at most 40 links) and [filepath.EvalSymlinks] (at most 255) do.
    The calls of package os, with the last component of the path followed or not
    as each of them does it. *)

From S2P Require Export OS.

Local Open Scope go_scope.

Notation Links := (gmap string string).

Definition segsOf (p : string) : list string := filter (λ s, s ≠ "") (Split p slash).

(** The rest of a path [rest] below the resolved directory [base]; the links that
    may still be followed are returned with the result. *)
Fixpoint walk (fuel : nat) (ln : Links) : list string → list string → option (nat * list string) :=
  fix go base rest :=
    match rest with
    | [] => Some (fuel, base)
    | x :: rest =>
        match ln !! absPath (base ++ [x]) with
        | None => go (base ++ [x]) rest
        | Some t => match fuel with
                    | O => None
                    | S fuel => walk fuel ln [] (segsOf t ++ rest)
                    end
        end
    end.

(** A path without a link on it is its own resolution. *)
Definition follow (fuel : nat) (ln : Links) (p : string) : option string :=
  match walk fuel ln [] (segsOf p) with
  | None => None
  | Some (rest, r) => Some (if bool_decide (rest = fuel) then p else absPath r)
  end.

(** The directory entry that a path names: the last component is not followed. *)
Definition entry (fuel : nat) (ln : Links) (p : string) : option string :=
  match walk fuel ln [] (removelast (segsOf p)) with
  | None => None
  | Some (rest, r) =>
      Some (if bool_decide (rest = fuel) then p
            else absPath (r ++ default [] (option_map (λ x, [x]) (last (segsOf p)))))
  end.

Definition kernelLinks : nat := 40.
Definition goLinks : nat := 255.

Definition existsAt (o : OS) (p : string) : bool :=
  bool_decide (p = "/") || bool_decide (is_Some (o !! p)).

(** [filepath.EvalSymlinks]: nothing when a component is missing. *)
Definition EvalSymlinks (ln : Links) (o : OS) (p : string) : option string :=
  match follow goLinks ln p with
  | Some r => if existsAt o r then Some (Clean r) else None
  | None => None
  end.

(** ** Package os on a tree with links *)

Notation FS := (Links * OS)%type.

Definition errLoop : error := ErrMsg "too many levels of symbolic links".

(** A call that follows every link. *)
Definition following {A} (p : string) (op : string → OS → res A * OS) (f : FS) : res A * FS :=
  match follow kernelLinks f.1 p with
  | None => (Err errLoop, f)
  | Some q => let '(r, o) := op q f.2 in (r, (f.1, o))
  end.

(** unlink, or rmdir. *)
Definition fsRemove (p : string) (f : FS) : res unit * FS :=
  match entry kernelLinks f.1 p with
  | None => (Err errLoop, f)
  | Some e =>
      match f.1 !! e with
      | Some _ => (Ok tt, (delete e f.1, f.2))
      | None =>
          if isDirAt f.2 e && existsb (λ kv, below e kv.1) (map_to_list f.1)
          then (Err errNotEmpty, f)
          else let '(r, o) := osRemove e f.2 in (r, (f.1, o))
      end
  end.

(** A link is removed, not what it leads to. *)
Definition fsRemoveAll (p : string) (f : FS) : res unit * FS :=
  match entry kernelLinks f.1 p with
  | None => (Err errLoop, f)
  | Some e =>
      match f.1 !! e with
      | Some _ => (Ok tt, (delete e f.1, f.2))
      | None => let '(r, o) := osRemoveAll e f.2 in
                (r, (filter (λ kv, below e kv.1 = false) f.1, o))
      end
  end.

(** rename(2): it moves a link and replaces one. *)
Definition fsRename (p q : string) (f : FS) : res unit * FS :=
  match entry kernelLinks f.1 p, entry kernelLinks f.1 q with
  | Some a, Some b =>
      match f.1 !! a, f.1 !! b with
      | Some t, _ =>
          if isDirAt f.2 b then (Err errExist, f)
          else if negb (parentOk f.2 b) then (Err ErrNotExist, f)
          else (Ok tt, (<[b := t]> (delete a f.1), delete b f.2))
      | None, Some _ =>
          if isDirAt f.2 a then (Err errNotDir, f)
          else let '(r, o) := osRename a b f.2 in
               (r, (if is_ok r then delete b f.1 else f.1, o))
      | None, None =>
          if isDirAt f.2 a && isDirAt f.2 b && existsb (λ kv, below b kv.1) (map_to_list f.1)
          then (Err errExist, f)
          else let '(r, o) := osRename a b f.2 in
               (r, (if is_ok r && isDirAt f.2 a
                    then list_to_map ((λ kv, (moved a b kv.1, kv.2)) <$> map_to_list f.1)
                    else f.1, o))
      end
  | _, _ => (Err errLoop, f)
  end.

(** [os.MkdirAll]: a link on the way that leads nowhere is no directory and
    cannot be created. *)
Fixpoint fsMkdirs (l : list string) (f : FS) : res unit * FS :=
  match l with
  | [] => (Ok tt, f)
  | a :: l =>
      match follow kernelLinks f.1 a with
      | None => (Err errLoop, f)
      | Some q =>
          match f.2 !! q with
          | Some (FileN _) => (Err errNotDir, f)
          | Some DirN => fsMkdirs l f
          | None =>
              if bool_decide (q = "/") then fsMkdirs l f
              else if bool_decide (entry kernelLinks f.1 a = Some q)
              then fsMkdirs l (f.1, <[q := DirN]> f.2)
              else (Err errExist, f)
          end
      end
  end.

Definition fsMkdirAll (p : string) (f : FS) : res unit * FS := fsMkdirs (ancestors p) f.

(** ** Resolution *)

Lemma links_le : kernelLinks ≤ goLinks.
Proof. unfold kernelLinks, goLinks. lia. Qed.

Lemma walk_nil n ln b : walk n ln b [] = Some (n, b).
Proof. by destruct n. Qed.

Lemma walk_cons n ln b x l :
  walk n ln b (x :: l) =
    match ln !! absPath (b ++ [x]) with
    | None => walk n ln (b ++ [x]) l
    | Some t => match n with O => None | S n => walk n ln [] (segsOf t ++ l) end
    end.
Proof. by destruct n. Qed.

Lemma walk_app n ln b l1 l2 :
  walk n ln b (l1 ++ l2) = walk n ln b l1 ≫= λ kr, walk kr.1 ln kr.2 l2.
Proof.
  revert b l1. induction n as [|n IHn]; intros b l1; revert b;
    (induction l1 as [|x l1 IH]; intros b; [by rewrite walk_nil|]);
    rewrite <-app_comm_cons, !walk_cons; destruct (ln !! _); auto.
  by rewrite app_assoc, IHn.
Qed.

(** More links allowed, same result. *)
Lemma walk_mono n j ln b l k r :
  walk n ln b l = Some (k, r) → walk (n + j) ln b l = Some (k + j, r).
Proof.
  revert b l. induction n as [|n IHn]; intros b l; revert b;
    (induction l as [|x l IH]; intros b; [rewrite !walk_nil; by intros [= <- <-]|]);
    rewrite !walk_cons; destruct (ln !! _); auto; [done|]. apply IHn.
Qed.

Lemma walk_left n ln b l k r : walk n ln b l = Some (k, r) → k ≤ n.
Proof.
  revert b l. induction n as [|n IHn]; intros b l; revert b;
    (induction l as [|x l IH]; intros b; [rewrite !walk_nil; intros [= <- <-]; lia|]);
    rewrite !walk_cons; destruct (ln !! _); eauto; done.
Qed.

(** No link was met: the path is the directory and the rest. *)
Lemma walk_straight n ln b l r : walk n ln b l = Some (n, r) → r = b ++ l.
Proof.
  revert b. induction l as [|x l IH]; intros b.
  - rewrite walk_nil, app_nil_r. by intros [= <-].
  - rewrite walk_cons. destruct (ln !! _).
    + destruct n; [done|]. intros ?%walk_left. lia.
    + intros ->%IH. by rewrite <-app_assoc.
Qed.

Lemma walk_none n b l : walk n ∅ b l = Some (n, b ++ l).
Proof.
  revert b. induction l as [|x l IH]; intros b; [by rewrite walk_nil, app_nil_r|].
  by rewrite walk_cons, lookup_empty, IH, <-app_assoc.
Qed.

(** Two successful walks of one path agree, however many links each may follow. *)
Lemma walk_agree n m ln b l k r k' r' :
  walk n ln b l = Some (k, r) → walk m ln b l = Some (k', r') → r = r' ∧ n + k' = m + k.
Proof.
  intros Hn%(walk_mono _ m) Hm%(walk_mono _ n). rewrite (Nat.add_comm m n) in Hm.
  rewrite Hn in Hm. injection Hm as ? <-. split; [done|lia].
Qed.

Lemma follow_none n p : follow n ∅ p = Some p.
Proof. unfold follow. rewrite walk_none. by rewrite bool_decide_eq_true_2. Qed.

Lemma entry_none n p : entry n ∅ p = Some p.
Proof. unfold entry. rewrite walk_none. by rewrite bool_decide_eq_true_2. Qed.

(** ** Without links these are the calls on the tree *)

Section noLinks.
Context (o : OS).

Lemma following_none {A} p (op : string → OS → res A * OS) :
  following p op (∅, o) = let '(r, o') := op p o in (r, (∅, o')).
Proof. unfold following. cbn [fst snd]. by rewrite follow_none. Qed.

Lemma fsRemove_none p : fsRemove p (∅, o) = let '(r, o') := osRemove p o in (r, (∅, o')).
Proof.
  unfold fsRemove. cbn [fst snd]. rewrite entry_none, lookup_empty, map_to_list_empty.
  by rewrite andb_false_r.
Qed.

Lemma fsRemoveAll_none p :
  fsRemoveAll p (∅, o) = let '(r, o') := osRemoveAll p o in (r, (∅, o')).
Proof. unfold fsRemoveAll. cbn [fst snd]. by rewrite entry_none, lookup_empty, map_filter_empty. Qed.

Lemma fsRename_none p q :
  fsRename p q (∅, o) = let '(r, o') := osRename p q o in (r, (∅, o')).
Proof.
  unfold fsRename. cbn [fst snd]. rewrite !entry_none, !lookup_empty, map_to_list_empty.
  rewrite andb_false_r. destruct (osRename p q o) as [r o']. by destruct (_ && _).
Qed.
End noLinks.

Lemma fsMkdirs_none l o : fsMkdirs l (∅, o) = let '(r, o') := mkdirs l o in (r, (∅, o')).
Proof.
  revert o. induction l as [|a l IH]; intros o; [done|].
  cbn [fsMkdirs mkdirs fst snd]. rewrite follow_none, entry_none.
  rewrite (bool_decide_eq_true_2 (Some a = Some a)) by done.
  destruct (o !! a) as [[]|]; [done|auto|]. case_bool_decide; auto.
Qed.
