(* ===== verification/Logger.v ===== *)
(** * internal/logger: the process's log

    The global logger, its initialisation and the functions that write to it. zap is a
    library: the levels it knows and their order are written as its documentation gives
    them, the reading of a level's name is a parameter. A message is kept by its level
    and its template, its formatted arguments are not. *)

From S2P Require Export OS.

Local Open Scope go_scope.

Inductive level := DebugLevel | InfoLevel | WarnLevel | ErrorLevel | DPanicLevel | PanicLevel | FatalLevel.

Definition severity (l : level) : Z :=
  match l with
  | DebugLevel => -1 | InfoLevel => 0 | WarnLevel => 1 | ErrorLevel => 2
  | DPanicLevel => 3 | PanicLevel => 4 | FatalLevel => 5
  end.

(** Where a core writes. *)
Inductive sink := Stdout | LogFile (path : string).

(** The logger: the level of its cores, and the cores. *)
Record logger := MkLogger { lgLevel : level; lgCores : list sink }.

Definition line : Type := sink * level * string.

(** [globalLogger], nil before Initialize, and what was written. *)
Record logState := MkLogState { globalLogger : option logger; written : list line }.

Section logger.
(** [zapcore.Level.UnmarshalText] *)
Context (UnmarshalText : string → option level).

(** The file is opened with O_APPEND|O_CREATE|O_WRONLY. *)
Definition Initialize (logFile level : string) : M (logState * Sys) unit :=
  let zapLevel := default InfoLevel (UnmarshalText level) in
  cores ← (if bool_decide (logFile = "") then mret [Stdout]
           else wrapErr "failed to open log file" (onSys (osCall (osOpenCreate logFile))) ⨟
                mret [Stdout; LogFile logFile]);
  modify (λ '(g, y), (MkLogState (Some (MkLogger zapLevel cores)) (written g), y)).

(** A tee of cores: each that is enabled for the level writes the message. *)
Definition logAt (l : level) (template : string) (g : logState) : logState :=
  match globalLogger g with
  | None => g
  | Some lg =>
      if (severity (lgLevel lg) <=? severity l)%Z
      then MkLogState (globalLogger g) (written g ++ ((λ c, (c, l, template)) <$> lgCores lg))
      else g
  end.

Definition Debug : string → logState → logState := logAt DebugLevel.
Definition Info : string → logState → logState := logAt InfoLevel.
Definition Warn : string → logState → logState := logAt WarnLevel.
Definition Error : string → logState → logState := logAt ErrorLevel.

(** A log file that cannot be opened leaves the logger that was; otherwise the console and
    the file, when one is named, get every message from the configured level on, a level
    that is not known counting as info. *)
Lemma logger_initialized file name g y r g' y' :
  Initialize file name (g, y) = (r, (g', y')) →
  match r with
  | Err _ => g' = g ∧ file ≠ ""
  | Ok _ =>
      ∀ l template, severity (default InfoLevel (UnmarshalText name)) <= severity l →
        written (logAt l template g') =
        written g ++ (Stdout, l, template) :: (if decide (file = "") then [] else [(LogFile file, l, template)])
  end%Z.
Proof.
  unfold Initialize, mbind, M_bind, wrapErr, modify, onSys, mret, M_ret. case_bool_decide as Hf; simpl.
  - intros [= <- <- <-] l template Hl. unfold logAt. simpl. rewrite (proj2 (Z.leb_le _ _) Hl). simpl.
    by rewrite decide_True.
  - destruct (osCall (osOpenCreate file) y) as [[[]|e] y1]; simpl; intros [= <- <- <-]; [|done].
    intros l template Hl. unfold logAt. simpl. rewrite (proj2 (Z.leb_le _ _) Hl). simpl. by rewrite decide_False.
Qed.

End logger.

(** What is said before Initialize is lost. *)
Lemma logger_silent l template w : logAt l template (MkLogState None w) = MkLogState None w.
Proof. reflexivity. Qed.
