(* ===== verification/Storage.v ===== *)
(** * internal/storage: the storage adapter, on local files and on MinIO

    [StorageAdapter] is the Go interface; [StorageLaws] states what the services
    rely on, in terms of the object stored under a key. Keys are the safe keys
    that the path validators produce. Both backends satisfy the laws. *)

From S2P Require Export Symlinks.

Local Open Scope go_scope.

(** An [io.Reader]: the bytes it delivers, then end of file or an error. *)
Record reader := Reader { rdata : bytes; rerr : option error }.

Class StorageAdapter (Sg : Type) := {
  Write : string → bytes → M (Sg * Sys) unit;
  WriteAt : string → bytes → Z → M (Sg * Sys) unit;
  WriteFromTempFile : string → string → M (Sg * Sys) unit;
  WriteFromReader : string → reader → M (Sg * Sys) unit;
  Read : string → M (Sg * Sys) bytes;
  ReadAt : string → Z → Z → M (Sg * Sys) bytes;
  OpenReader : string → M (Sg * Sys) bytes;
  Remove : string → M (Sg * Sys) unit;
  Exists : string → M (Sg * Sys) bool;
  List : string → M (Sg * Sys) (list string);
  GetSize : string → M (Sg * Sys) Z;
  Rename : string → string → M (Sg * Sys) unit;
  CreateDirectory : string → M (Sg * Sys) unit;
  RemoveDirectory : string → M (Sg * Sys) unit;
  StorageType : string;
  ValidatePath : string → M (Sg * Sys) unit
}.

(** [IsNotExist] of errors.go. *)
Fixpoint IsNotExist (err : error) : bool :=
  match err with
  | ErrNotExist => true
  | ErrMinio code => bool_decide (code = "NoSuchKey") || bool_decide (code = "NotFound")
  | ErrWrap _ inner => IsNotExist inner
  | _ => false
  end.

(** [filepath.Abs] in a process with working directory [cwd]. *)
Definition Abs (cwd p : string) : string :=
  if HasPrefix p "/" then Clean p else PathJoin [cwd; p].

(** [os.TempDir()] is /tmp unless TMPDIR is set. *)
Definition validateTempFilePath (cwd tmpdir tempFilePath : string) : res unit :=
  let absTemp := Abs cwd tempFilePath in
  if negb (HasPrefix absTemp tmpdir) && negb (HasPrefix absTemp "/tmp/")
  then Err (ErrMsg "temp file must be in system temp directory")
  else Ok tt.

(** The order in which [Rename] locks its two paths. *)
Definition renameLockOrder (oldPath newPath : string) : list string :=
  if String.ltb oldPath newPath then [oldPath; newPath] else [newPath; oldPath].

Definition safe (k : string) : Prop := ∃ segs, safeKey k segs.

(** What an operation leaves alone: every object whose key is not in [ks], and
    every file on a path that belongs to the callers and is not in [ps]. *)
Definition frame {Sg : Type} (inv : Sg → Prop) (object : Sg → OS → string → option bytes)
    (outside : Sg → string → Prop) (ks ps : string → Prop) (w w' : Sg * Sys) : Prop :=
  inv w'.1 ∧ outside w'.1 = outside w.1 ∧
  (∀ k, safe k → ¬ ks k → object w'.1 (os w'.2) k = object w.1 (os w.2) k) ∧
  (∀ p, outside w.1 p → ¬ ps p → fileAt (os w'.2) p = fileAt (os w.2) p).

Definition none (_ : string) : Prop := False.

Lemma not_none p : ¬ none p.
Proof. by intros []. Qed.
#[export] Hint Resolve not_none : core.

(** The keys [k] and those below it. *)
Definition under (k j : string) : Prop := j = k ∨ below k j = true.

#[export] Instance under_dec k j : Decision (under k j).
Proof. unfold under. apply _. Defined.

(** An operation that can touch whole directories: the objects of the other keys
    are as they were. *)
Definition spares {Sg : Type} (inv : Sg → Prop) (object : Sg → OS → string → option bytes)
    (ks : string → Prop) (w w' : Sg * Sys) : Prop :=
  inv w'.1 ∧ ∀ k, safe k → ¬ ks k → object w'.1 (os w'.2) k = object w.1 (os w.2) k.

Class StorageLaws (Sg : Type) `{StorageAdapter Sg} := {
  storeInv : Sg → Prop;
  (** the object stored under a key *)
  object : Sg → OS → string → option bytes;
  (** the paths of the file system that hold no object *)
  outside : Sg → string → Prop;

  object_local g o o' k :
    storeInv g → safe k → (∀ p, ¬ outside g p → fileAt o' p = fileAt o p) →
    object g o' k = object g o k;
  write_spec k d w :
    storeInv w.1 → safe k →
    let '(r, w') := Write k d w in
    frame storeInv object outside (eq k) none w w' ∧
    (r = Ok tt → object w'.1 (os w'.2) k = Some d);
  write_temp_spec k t d w :
    storeInv w.1 → safe k → outside w.1 t → fileAt (os w.2) t = Some d →
    let '(r, w') := WriteFromTempFile k t w in
    frame storeInv object outside (eq k) (eq t) w w' ∧
    (r = Ok tt → object w'.1 (os w'.2) k = Some d);
  write_reader_spec k rd w :
    storeInv w.1 → safe k →
    let '(r, w') := WriteFromReader k rd w in
    frame storeInv object outside (eq k) none w w' ∧
    (r = Ok tt → rerr rd = None ∧ object w'.1 (os w'.2) k = Some (rdata rd));
  read_spec k w :
    storeInv w.1 → safe k →
    let '(r, w') := Read k w in
    frame storeInv object outside none none w w' ∧
    (∀ d, r = Ok d → object w.1 (os w.2) k = Some d);
  read_at_spec k n off w :
    storeInv w.1 → safe k → in64 n → in64 off →
    let '(r, w') := ReadAt k n off w in
    frame storeInv object outside none none w w' ∧
    ∀ x, r = Ok x → (0 < n)%Z ∧ (0 ≤ off)%Z ∧
      ∃ d, object w.1 (os w.2) k = Some d ∧ x = readAt d (Z.to_nat off) (Z.to_nat n);
  open_spec k w :
    storeInv w.1 → safe k →
    let '(r, w') := OpenReader k w in
    frame storeInv object outside none none w w' ∧
    (∀ d, r = Ok d → object w.1 (os w.2) k = Some d);
  size_spec k w :
    storeInv w.1 → safe k →
    let '(r, w') := GetSize k w in
    frame storeInv object outside none none w w' ∧
    ∀ n d, r = Ok n → object w.1 (os w.2) k = Some d → n = blen d;
  remove_spec k w :
    storeInv w.1 → safe k →
    let '(r, w') := Remove k w in
    frame storeInv object outside (eq k) none w w' ∧
    (r = Ok tt → object w'.1 (os w'.2) k = None) ∧
    (object w'.1 (os w'.2) k = object w.1 (os w.2) k ∨ object w'.1 (os w'.2) k = None);
  rename_spec k1 k2 d w :
    storeInv w.1 → safe k1 → safe k2 → k1 ≠ k2 → object w.1 (os w.2) k1 = Some d →
    let '(r, w') := Rename k1 k2 w in
    frame storeInv object outside (λ k, k = k1 ∨ k = k2) none w w' ∧
    (r = Ok tt → object w'.1 (os w'.2) k2 = Some d ∧ object w'.1 (os w'.2) k1 = None) ∧
    (object w'.1 (os w'.2) k1 = Some d ∨ object w'.1 (os w'.2) k2 = Some d);
  write_at_spec k x off w :
    storeInv w.1 → safe k →
    let '(r, w') := WriteAt k x off w in
    frame storeInv object outside (eq k) none w w' ∧
    (r = Ok tt → (0 ≤ off)%Z ∧ object w'.1 (os w'.2) k =
       Some (writeAt (default [] (object w.1 (os w.2) k)) (Z.to_nat off) x));
  exists_spec k w :
    storeInv w.1 → frame storeInv object outside none none w (Exists k w).2;
  list_spec k w :
    storeInv w.1 → frame storeInv object outside none none w (List k w).2;
  create_dir_spec k w :
    storeInv w.1 → safe k → frame storeInv object outside none none w (CreateDirectory k w).2;
  (** whatever kind of thing is under the names *)
  rename_frame k1 k2 w :
    storeInv w.1 → safe k1 → safe k2 →
    spares storeInv object (λ j, under k1 j ∨ under k2 j) w (Rename k1 k2 w).2;
  write_temp_frame k t w :
    storeInv w.1 → safe k → outside w.1 t → (∀ p, ¬ outside w.1 p → below t p = false) →
    spares storeInv object (under k) w (WriteFromTempFile k t w).2;
  remove_dir_spec k w :
    storeInv w.1 → safe k →
    let '(r, w') := RemoveDirectory k w in
    spares storeInv object (under k) w w' ∧
    (r = Ok tt → ∀ j, safe j → below k j = true → object w'.1 (os w'.2) j = None)
}.

(** No safe key ends in a slash. *)
Lemma safe_no_slash t : ¬ safe (t +:+ "/").
Proof.
  intros (segs & Hne & Hs & Heq). pose proof (Split_Join_ordinary segs Hne Hs) as Hsp.
  rewrite <-Heq, (Split_app_sep t "" slash) in Hsp. subst segs.
  apply Forall_app in Hs as [_ [(Hx & _) _]%Forall_cons]. by apply Hx.
Qed.

Lemma safe_below k j : safe k → below k j = HasPrefix j (k +:+ "/").
Proof.
  intros (segs & Hne & Hs & ->). unfold below. rewrite bool_decide_eq_false_2; [done|].
  intros Heq. apply (safe_no_slash ""). exists segs. by rewrite <-Heq.
Qed.

(** ** LocalStorage *)

Module LocalFS.

Record LocalStorage := MkLocalStorage {
  rootDir : string;
  cwd : string;      (* the working directory of the process *)
  tmpDir : string;   (* os.TempDir() *)
  symlinks : Links;  (* the symbolic links of the file system *)
  pathLocks : gset string
}.

Definition setLinks (ls : LocalStorage) (ln : Links) : LocalStorage :=
  MkLocalStorage (rootDir ls) (cwd ls) (tmpDir ls) ln (pathLocks ls).

Definition setLocks (ls : LocalStorage) (locks : gset string) : LocalStorage :=
  MkLocalStorage (rootDir ls) (cwd ls) (tmpDir ls) (symlinks ls) locks.

Definition getFullPath (ls : LocalStorage) (path : string) : string :=
  PathJoin [rootDir ls; path].

(** [fuel] bounds the number of parents of a path by its length. *)
Fixpoint resolveLoop (fuel : nat) (ln : Links) (o : OS) (path dir tail : string) : string :=
  match EvalSymlinks ln o dir with
  | Some resolved => if bool_decide (tail = "") then resolved else PathJoin [resolved; tail]
  | None =>
      let tail := PathJoin [Base dir; tail] in
      let parent := Dir dir in
      if bool_decide (parent = dir) then path
      else match fuel with
           | O => path
           | S fuel => resolveLoop fuel ln o path parent tail
           end
  end.

Definition resolveExistingAncestor (ln : Links) (o : OS) (path : string) : string :=
  resolveLoop (slen path) ln o path path "".

Definition validatePath (ls : LocalStorage) (o : OS) (path : string) : res unit :=
  let fullPath := getFullPath ls path in
  let absRoot := Abs (cwd ls) (rootDir ls) in
  let absRoot := default absRoot (EvalSymlinks (symlinks ls) o absRoot) in
  let absFull := Abs (cwd ls) fullPath in
  let resolved := match EvalSymlinks (symlinks ls) o absFull with
                  | Some r => r
                  | None => resolveExistingAncestor (symlinks ls) o absFull
                  end in
  let absFull := Clean resolved in
  if negb (HasPrefix absFull (absRoot +:+ "/")) && negb (bool_decide (absFull = absRoot))
  then Err (ErrMsg "path traversal detected")
  else Ok tt.

Definition check (path : string) : M (LocalStorage * Sys) unit := λ '(ls, s),
  (validatePath ls (os s) path, (ls, s)).

Definition full (path : string) : M (LocalStorage * Sys) string :=
  gets (λ w, getFullPath w.1 path).

(** The mutex of a path: its entry stays in the map. *)
Definition getLock (path : string) : M (LocalStorage * Sys) unit :=
  modify (λ '(ls, s), (setLocks ls ({[path]} ∪ pathLocks ls), s)).

(** A call on the tree and its links, and one that follows every link of its path. *)
Definition fsCall {A} (op : FS → res A * FS) : M (LocalStorage * Sys) A := λ '(ls, s),
  let '(r, (ln, o)) := faulty (net (oracle s (tick s))) op (symlinks ls, os s) in
  (r, (setLinks ls ln, setOS o (skip 1 s))).

Definition sysCall {A} (path : string) (op : string → OS → res A * OS) : M (LocalStorage * Sys) A :=
  fsCall (following path op).

Definition ensureDirectoryExists (dirPath : string) : M (LocalStorage * Sys) unit :=
  r ← catch (sysCall dirPath osStat);
  match r with
  | Err e => if bool_decide (e = ErrNotExist) then fsCall (fsMkdirAll dirPath) else mret tt
  | Ok _ => mret tt
  end.

Definition LWrite (path : string) (data : bytes) : M (LocalStorage * Sys) unit :=
  check path ⨟
  getLock path ⨟
  fullPath ← full path;
  wrapErr "failed to create directory" (ensureDirectoryExists (Dir fullPath)) ⨟
  wrapErr "failed to write file" (sysCall fullPath (λ p, osWriteFile p data)).

Definition LWriteAt (path : string) (data : bytes) (offset : Z) : M (LocalStorage * Sys) unit :=
  check path ⨟
  getLock path ⨟
  fullPath ← full path;
  wrapErr "failed to create directory" (ensureDirectoryExists (Dir fullPath)) ⨟
  wrapErr "failed to open file" (sysCall fullPath osOpenCreate) ⨟
  wrapErr "failed to write at offset" (sysCall fullPath (λ p, fWriteAt p data offset)).

(** Reading a source to its end into a destination opened with O_TRUNC. *)
Definition copyInto (dst : string) (src : bytes) (o : OS) : res unit * OS :=
  match o !! dst with
  | Some (FileN _) => (Ok tt, <[dst := FileN src]> o)
  | _ => (Ok tt, o)
  end.

Definition LWriteFromTempFile (path tempFilePath : string) : M (LocalStorage * Sys) unit :=
  check path ⨟
  ls ← gets fst;
  lift (validateTempFilePath (cwd ls) (tmpDir ls) tempFilePath) ⨟
  getLock path ⨟
  fullPath ← full path;
  wrapErr "failed to create directory" (ensureDirectoryExists (Dir fullPath)) ⨟
  r ← catch (fsCall (fsRename tempFilePath fullPath));
  match r with
  | Ok _ => mret tt
  | Err _ =>
      src ← wrapErr "failed to open temp file" (sysCall tempFilePath osReadFile);
      wrapErr "failed to create destination file" (sysCall fullPath osCreate) ⨟
      wrapErr "failed to copy file" (sysCall fullPath (λ p, copyInto p src)) ⨟
      wrapErr "failed to remove temp file" (fsCall (fsRemove tempFilePath))
  end.

Definition LRead (path : string) : M (LocalStorage * Sys) bytes :=
  check path ⨟
  fullPath ← full path;
  wrapErr "failed to read file" (sysCall fullPath osReadFile).

Definition LOpenReader (path : string) : M (LocalStorage * Sys) bytes :=
  check path ⨟
  fullPath ← full path;
  wrapErr "failed to open file" (sysCall fullPath osReadFile).

Definition LWriteFromReader (path : string) (rd : reader) : M (LocalStorage * Sys) unit :=
  check path ⨟
  getLock path ⨟
  fullPath ← full path;
  wrapErr "failed to create directory" (ensureDirectoryExists (Dir fullPath)) ⨟
  wrapErr "failed to create file" (sysCall fullPath osCreate) ⨟
  wrapErr "failed to write from reader"
    (sysCall fullPath (λ p, copyInto p (rdata rd)) ⨟
     match rerr rd with Some e => throw e | None => mret tt end).

Definition LReadAt (path : string) (size offset : Z) : M (LocalStorage * Sys) bytes :=
  check path ⨟
  guard (negb (size <=? 0)%Z) (ErrMsg "invalid read size") ⨟
  guard (negb (offset <? 0)%Z) (ErrMsg "invalid read offset") ⨟
  fullPath ← full path;
  wrapErr "failed to open file" (sysCall fullPath osOpen) ⨟
  wrapErr "failed to read at offset" (sysCall fullPath (λ p, fReadAt p (Z.to_nat size) offset)).

Definition LRemove (path : string) : M (LocalStorage * Sys) unit :=
  check path ⨟
  getLock path ⨟
  fullPath ← full path;
  wrapErr "failed to remove file" (fsCall (fsRemove fullPath)).

Definition LExists (path : string) : M (LocalStorage * Sys) bool :=
  r ← catch (check path);
  if negb (is_ok r) then mret false
  else
    fullPath ← full path;
    r ← catch (sysCall fullPath osStat);
    mret (is_ok r).

(** The names in a directory, sorted. *)
Definition childName (p q : string) : option string :=
  if below p q then
    let rel := TrimPrefix q (if bool_decide (p = "/") then "/" else p +:+ "/") in
    if sIn slash rel then None else Some rel
  else None.

Definition osReadDir (p : string) (o : OS) : res (list string) * OS :=
  match o !! p with
  | Some DirN =>
      (Ok (merge_sort strLe
             (omap (λ kv, childName p kv.1) (map_to_list o))), o)
  | Some (FileN _) => (Err errNotDir, o)
  | None => (Err ErrNotExist, o)
  end.

Definition LList (directory : string) : M (LocalStorage * Sys) (list string) :=
  check directory ⨟
  fullPath ← full directory;
  wrapErr "failed to list directory" (sysCall fullPath osReadDir).

(** The size that Stat reports for a directory depends on the file system. *)
Definition dirSize : Z := 4096.

Definition LGetSize (path : string) : M (LocalStorage * Sys) Z :=
  check path ⨟
  fullPath ← full path;
  info ← wrapErr "failed to get file size" (sysCall fullPath osStat);
  mret (match info with FileN d => blen d | DirN => dirSize end).

Definition LRename (oldPath newPath : string) : M (LocalStorage * Sys) unit :=
  check oldPath ⨟
  check newPath ⨟
  if bool_decide (oldPath = newPath) then mret tt
  else
    getLock oldPath ⨟
    getLock newPath ⨟
    fullOldPath ← full oldPath;
    fullNewPath ← full newPath;
    wrapErr "failed to create directory" (ensureDirectoryExists (Dir fullNewPath)) ⨟
    wrapErr "failed to rename" (fsCall (fsRename fullOldPath fullNewPath)).

Definition LCreateDirectory (path : string) : M (LocalStorage * Sys) unit :=
  check path ⨟
  getLock path ⨟
  fullPath ← full path;
  wrapErr "failed to create directory" (fsCall (fsMkdirAll fullPath)).

Definition LRemoveDirectory (path : string) : M (LocalStorage * Sys) unit :=
  check path ⨟
  getLock path ⨟
  fullPath ← full path;
  wrapErr "failed to remove directory" (fsCall (fsRemoveAll fullPath)).

(** The entry of a path goes when Stat says that the path does not exist, and stays
    on any other error; no mutex is held between operations, so every [TryLock]
    succeeds. *)
Fixpoint cleanEach (keys : list string) : M (LocalStorage * Sys) unit :=
  match keys with
  | [] => mret tt
  | path :: keys =>
      fullPath ← full path;
      r ← catch (sysCall fullPath osStat);
      match r with
      | Err e => if IsNotExist e
                 then modify (λ '(ls, s), (setLocks ls (pathLocks ls ∖ {[path]}), s))
                 else mret tt
      | Ok _ => mret tt
      end ⨟
      cleanEach keys
  end.

Definition LCleanPathLocks : M (LocalStorage * Sys) unit :=
  ls ← gets fst;
  cleanEach (elements (pathLocks ls)).

#[global] Instance adapter : StorageAdapter LocalStorage := {|
  Write := LWrite; WriteAt := LWriteAt; WriteFromTempFile := LWriteFromTempFile;
  WriteFromReader := LWriteFromReader; Read := LRead; ReadAt := LReadAt;
  OpenReader := LOpenReader; Remove := LRemove; Exists := LExists; List := LList;
  GetSize := LGetSize; Rename := LRename; CreateDirectory := LCreateDirectory;
  RemoveDirectory := LRemoveDirectory; StorageType := "local"; ValidatePath := check
|}.

(** ** The laws *)

(** The root is an absolute, cleaned path. *)
Definition rooted (ls : LocalStorage) : Prop :=
  ∃ rs, Forall ordinary rs ∧ rootDir ls = absPath rs.

(** The laws are those of a file system without symbolic links; with links the keys
    of two objects can name one file. *)
Definition localInv (ls : LocalStorage) : Prop := rooted ls ∧ symlinks ls = ∅.

(** What a call on the tree with links is on a tree without. *)
Class Plain {A} (op : FS → res A * FS) (op' : OS → res A * OS) : Prop :=
  plain o : op (∅, o) = let '(r, o') := op' o in (r, (∅, o')).

#[export] Instance following_plain {A} p (op : string → OS → res A * OS) :
  Plain (following p op) (op p) := λ o, following_none o p op.
#[export] Instance remove_plain p : Plain (fsRemove p) (osRemove p) := λ o, fsRemove_none o p.
#[export] Instance removeAll_plain p : Plain (fsRemoveAll p) (osRemoveAll p) :=
  λ o, fsRemoveAll_none o p.
#[export] Instance rename_plain p q : Plain (fsRename p q) (osRename p q) :=
  λ o, fsRename_none o p q.
#[export] Instance mkdirAll_plain p : Plain (fsMkdirAll p) (osMkdirAll p) :=
  fsMkdirs_none (ancestors p).

Lemma fsCall_plain {A} (op : FS → res A * FS) op' `{!Plain op op'} ls s :
  symlinks ls = ∅ → fsCall op (ls, s) = onSys (osCall op') (ls, s).
Proof.
  intros Hl. unfold fsCall, onSys, osCall, faulty. rewrite Hl.
  assert (setLinks ls ∅ = ls) as Heq by (rewrite <-Hl; by destruct ls).
  destruct (net _); rewrite ?Heq; [|done| |done];
    rewrite (plain (os s)); destruct (op' (os s)); by rewrite Heq.
Qed.

Definition localObject (ls : LocalStorage) (o : OS) (k : string) : option bytes :=
  fileAt o (getFullPath ls k).

Definition localOutside (ls : LocalStorage) (p : string) : Prop :=
  ∀ k, safe k → getFullPath ls k ≠ p.

Lemma full_safe ls rs k segs :
  Forall ordinary rs → rootDir ls = absPath rs → safeKey k segs →
  getFullPath ls k = absPath (rs ++ segs).
Proof.
  intros Hrs Hroot (Hne & Hsegs & ->). unfold getFullPath. rewrite Hroot.
  by apply PathJoin_absPath.
Qed.

Lemma full_inj ls k1 k2 :
  rooted ls → safe k1 → safe k2 → getFullPath ls k1 = getFullPath ls k2 → k1 = k2.
Proof.
  intros (rs & Hrs & Hroot) [s1 H1] [s2 H2]. rewrite (full_safe ls rs k1 s1), (full_safe ls rs k2 s2) by done.
  destruct H1 as (_ & Hs1 & ->), H2 as (_ & Hs2 & ->).
  intros Heq%absPath_inj; [by simplify_list_eq|apply Forall_app; done..].
Qed.

Definition atRoot (root : string) (ls : LocalStorage) : Prop :=
  rootDir ls = root ∧ symlinks ls = ∅.

(** An operation of the adapter with root [root] touches only the files on
    [paths]. *)
Definition touches (root : string) (paths : string → Prop) (w w' : LocalStorage * Sys) : Prop :=
  atRoot root w.1 →
  atRoot root w'.1 ∧ ∀ q, ¬ paths q → fileAt (os w'.2) q = fileAt (os w.2) q.

#[export] Instance touches_preorder root paths : PreOrder (touches root paths).
Proof.
  split; [by intros w ?|]. intros w1 w2 w3 H12 H23 Hr.
  destruct (H12 Hr) as [Hr2 Hq2]. destruct (H23 Hr2) as [Hr3 Hq3].
  split; [done|]. intros q Hq. by rewrite Hq3, Hq2.
Qed.

Section touches.
Context (root : string) (paths : string → Prop).

Lemma touches_fsCall {A} (op : FS → res A * FS) op' `{!Plain op op'} :
  (∀ o q, ¬ paths q → fileAt (op' o).2 q = fileAt o q) →
  steps (touches root paths) (fsCall op).
Proof.
  intros Hop [ls s] Hr. rewrite (fsCall_plain op op') by apply Hr. unfold onSys.
  pose proof (osCall_os op' s) as Ho.
  destruct (osCall op' s) as [r s']; simpl in *. split; [done|]. intros q Hq.
  destruct Ho as [-> | ->]; [done|]. auto.
Qed.

Lemma touches_check path : steps (touches root paths) (check path).
Proof. by intros [ls s] Hr. Qed.

Lemma touches_getLock path : steps (touches root paths) (getLock path).
Proof. by intros [ls s] Hr. Qed.

Lemma touches_full {A} path (g : string → M (LocalStorage * Sys) A) :
  (steps (touches root paths) (g (PathJoin [root; path]))) →
  steps (touches root paths) (full path ≫= g).
Proof.
  intros Hg [ls s] Hr. specialize (Hg (ls, s) Hr). destruct Hr as [<- _]. exact Hg.
Qed.

Lemma touches_ensure dir : steps (touches root paths) (ensureDirectoryExists dir).
Proof.
  apply steps_bind; [apply _|..].
  - apply steps_catch. by eapply touches_fsCall; [apply _|].
  - intros [n|e]; [apply steps_ret, _|]. apply steps_if; [|apply steps_ret, _].
    eapply touches_fsCall; [apply _|]. intros. apply fileAt_mkdirs.
Qed.
End touches.

Lemma fileAt_copyInto p d o q : p ≠ q → fileAt (copyInto p d o).2 q = fileAt o q.
Proof. intros. unfold copyInto. repeat case_match; simpl; auto using fileAt_insert_ne. Qed.

Ltac touch :=
  repeat lazymatch goal with
  | |- steps _ (mbind _ (full _)) => apply touches_full
  | |- steps _ (mbind _ _) => apply steps_bind; [apply _| |intros ?]
  | |- steps _ (check _) => apply touches_check
  | |- steps _ (getLock _) => apply touches_getLock
  | |- steps _ (ensureDirectoryExists _) => apply touches_ensure
  | |- steps _ (wrapErr _ _) => apply steps_wrapErr
  | |- steps _ (catch _) => apply steps_catch
  | |- steps _ (mret _) => apply steps_ret, _
  | |- steps _ (throw _) => apply steps_throw, _
  | |- steps _ (guard _ _) => apply steps_guard, _
  | |- steps _ (lift _) => apply steps_lift, _
  | |- steps _ (gets _) => apply steps_gets, _
  | |- steps _ (if _ then _ else _) => apply steps_if
  | |- steps _ (sysCall _ _) => unfold sysCall
  | |- steps _ (fsCall _) =>
      eapply touches_fsCall; [apply _|]; intros o q Hq; cbv beta;
      first [ done
            | apply fileAt_mkdirs
            | first [ apply fileAt_writeFile | apply fileAt_copyInto | apply fileAt_openCreate
                    | apply fileAt_remove | apply fileAt_fWriteAt ]; intros <-; apply Hq; by auto ]
  end.

Lemma frame_touches ks ps paths w w' :
  localInv w.1 → touches (rootDir w.1) paths w w' →
  (∀ k, safe k → ¬ ks k → ¬ paths (getFullPath w.1 k)) →
  (∀ p, localOutside w.1 p → ¬ ps p → ¬ paths p) →
  frame localInv localObject localOutside ks ps w w'.
Proof.
  intros [Hroot Hln] Ht Hk Hp. destruct (Ht (conj eq_refl Hln)) as [[Hr Hln'] Hq].
  assert (∀ k, getFullPath w'.1 k = getFullPath w.1 k) as Hfull.
  { intros k. unfold getFullPath. by rewrite Hr. }
  split_and!.
  - split; [|done]. destruct Hroot as (rs & ? & ?). exists rs. split; congruence.
  - unfold localOutside. unfold getFullPath. by rewrite Hr.
  - intros k Hs Hn. unfold localObject. rewrite Hfull. auto.
  - intros p Ho Hn. auto.
Qed.

(** The common case: the file of one key. *)
Lemma frame_one k w w' :
  localInv w.1 → safe k → touches (rootDir w.1) (eq (getFullPath w.1 k)) w w' →
  frame localInv localObject localOutside (eq k) none w w'.
Proof.
  intros Hr Hk Ht. apply (frame_touches _ _ _ _ _ Hr Ht).
  - intros k' Hk' Hne Heq. apply Hne. by apply (full_inj w.1); [apply Hr|..].
  - intros p Ho _ Heq. by apply (Ho k).
Qed.

Lemma frame_nothing w w' :
  localInv w.1 → touches (rootDir w.1) none w w' →
  frame localInv localObject localOutside none none w w'.
Proof. intros Hr Ht. apply (frame_touches _ _ _ _ _ Hr Ht); auto. Qed.

(** From the program-level statement to one run. *)
Lemma run_touches {A} paths (m : M (LocalStorage * Sys) A) w :
  steps (touches (rootDir w.1) paths) m → touches (rootDir w.1) paths w (m w).2.
Proof. intros Hm. apply Hm. Qed.

(** The root, and the contents of a path that is not touched. *)
Definition knows (root q : string) (d : option bytes) (w : LocalStorage * Sys) : Prop :=
  atRoot root w.1 ∧ fileAt (os w.2) q = d.

Lemma hoare_untouched {A} root q d (m : M (LocalStorage * Sys) A) :
  steps (touches root (λ p, p ≠ q)) m → hoare (knows root q d) m (λ _, knows root q d).
Proof.
  intros Hm. apply (hoare_steps _ _ _ Hm). intros w w' [Hr Hd] Ht.
  destruct (Ht Hr) as [Hr' Hq]. split; [done|]. rewrite Hq; [done|]. by intros ?.
Qed.

Lemma hoare_full {A} root q d path (g : string → M (LocalStorage * Sys) A) Q :
  hoare (knows root q d) (g (PathJoin [root; path])) Q →
  hoare (knows root q d) (full path ≫= g) Q.
Proof.
  intros Hg w a w' HP (x & w1 & [-> ->]%gets_ok & H2)%bind_ok.
  apply (Hg w a w' HP). destruct HP as [[<- _] _]. exact H2.
Qed.

Lemma fsCall_ok {A} (op : FS → res A * FS) op' `{!Plain op op'} w a w' :
  symlinks w.1 = ∅ → fsCall op w = (Ok a, w') → w'.1 = w.1 ∧ op' (os w.2) = (Ok a, os w'.2).
Proof.
  destruct w as [ls s]. intros Hl. rewrite (fsCall_plain op op') by done.
  by intros (s' & ?%osCall_ok & ->)%onSys_ok.
Qed.

Lemma sysCall_ok {A} p (op : string → OS → res A * OS) w a w' :
  symlinks w.1 = ∅ → sysCall p op w = (Ok a, w') → w'.1 = w.1 ∧ op p (os w.2) = (Ok a, os w'.2).
Proof. apply (fsCall_ok (following p op) (op p)). Qed.

Lemma check_ok path w a w' : check path w = (Ok a, w') → w' = w.
Proof. destruct w. unfold check. by intros [= _ <-]. Qed.

Lemma hoare_fsCall {A} root q d (op : FS → res A * FS) op' `{!Plain op op'}
    (Q : A → LocalStorage * Sys → Prop) :
  (∀ w a w', knows root q d w → w'.1 = w.1 → op' (os w.2) = (Ok a, os w'.2) → Q a w') →
  hoare (knows root q d) (fsCall op) Q.
Proof. intros Hop w a w' HP [Hl Ho]%(fsCall_ok op op'); [eauto|apply HP]. Qed.

(** Steps before the one that matters. *)
Ltac untouched :=
  repeat lazymatch goal with
  | |- hoare _ (mbind _ (full _)) _ => apply hoare_full
  | |- hoare _ (wrapErr _ _) _ => apply hoare_wrapErr
  | |- hoare _ (mbind _ _) _ =>
      eapply hoare_bind; [apply hoare_untouched; touch; fail|
                           let u := fresh "u" in intros u; cbv beta; try clear u]
  end.

(** An operation on the object of one key: what it touches, and what it does to
    the file of that key when it succeeds. *)
Definition keyHoare {A} (k : string) (m : M (LocalStorage * Sys) A)
    (Q : option bytes → A → option bytes → Prop) : Prop :=
  ∀ root d0, hoare (knows root (PathJoin [root; k]) d0) m
    (λ a w, atRoot root w.1 ∧ Q d0 a (fileAt (os w.2) (PathJoin [root; k]))).

Lemma local_key_spec {A} k (m : M (LocalStorage * Sys) A) Q w :
  (∀ root, steps (touches root (eq (PathJoin [root; k]))) m) →
  keyHoare k m Q → localInv w.1 → safe k →
  let '(r, w') := m w in
  frame localInv localObject localOutside (eq k) none w w' ∧
  ∀ a, r = Ok a → Q (localObject w.1 (os w.2) k) a (localObject w'.1 (os w'.2) k).
Proof.
  intros Ht Hq Hr Hk. specialize (Ht (rootDir w.1) w).
  destruct (m w) as [r w'] eqn:E. split; [by apply frame_one|]. intros a ->.
  destruct (Hq (rootDir w.1) (localObject w.1 (os w.2) k) w a w' (conj (conj eq_refl (proj2 Hr)) eq_refl) E)
    as [[Hr' _] HQ].
  unfold localObject at 2. unfold getFullPath. by rewrite Hr'.
Qed.

Lemma local_read_spec {A} k (m : M (LocalStorage * Sys) A) Q w :
  (∀ root, steps (touches root none) m) →
  keyHoare k m Q → localInv w.1 → safe k →
  let '(r, w') := m w in
  frame localInv localObject localOutside none none w w' ∧
  ∀ a, r = Ok a → Q (localObject w.1 (os w.2) k) a (localObject w'.1 (os w'.2) k).
Proof.
  intros Ht Hq Hr Hk. specialize (Ht (rootDir w.1) w).
  destruct (m w) as [r w'] eqn:E. split; [by apply frame_nothing|]. intros a ->.
  destruct (Hq (rootDir w.1) (localObject w.1 (os w.2) k) w a w' (conj (conj eq_refl (proj2 Hr)) eq_refl) E)
    as [[Hr' _] HQ].
  unfold localObject at 2. unfold getFullPath. by rewrite Hr'.
Qed.

(** The call that matters, run on a state of which [knows] holds. *)
Ltac key_call a Hd Ho :=
  let w := fresh "w" in let w' := fresh "w'" in let Hr := fresh "Hr" in let Hl := fresh "Hl" in
  try unfold sysCall; eapply hoare_fsCall; [apply _|];
  intros w a w' [Hr Hd] Hl Ho; split; [by rewrite Hl|]; cbn [fst snd] in *; cbv beta in Ho.

Lemma LWrite_touches k d root : steps (touches root (eq (PathJoin [root; k]))) (LWrite k d).
Proof. unfold LWrite. touch. Qed.

Lemma LWrite_writes k d : keyHoare k (LWrite k d) (λ _ _ d', d' = Some d).
Proof.
  unfold LWrite. intros root d0. untouched. key_call a Hd Ho. destruct a.
  by apply osWriteFile_ok in Ho.
Qed.

Lemma LWriteFromReader_touches k rd root :
  steps (touches root (eq (PathJoin [root; k]))) (LWriteFromReader k rd).
Proof. unfold LWriteFromReader. touch. destruct (rerr rd); touch. Qed.

Lemma copyInto_ok p src o o' d0 :
  fileAt o p = Some d0 → copyInto p src o = (Ok tt, o') → fileAt o' p = Some src.
Proof.
  unfold fileAt at 1, copyInto. destruct (o !! p) as [[|]|]; [|done..]. intros _ [= <-].
  apply fileAt_insert.
Qed.

(** Opening with O_TRUNC and copying. *)
Lemma create_writes root p d0 :
  hoare (knows root p d0) (sysCall p osCreate) (λ _, knows root p (Some [])).
Proof. key_call a Hd Ho. destruct a. by apply osWriteFile_ok in Ho. Qed.

Lemma copy_writes root p src d0 :
  hoare (knows root p (Some d0)) (sysCall p (λ p, copyInto p src)) (λ _, knows root p (Some src)).
Proof. key_call a Hd Ho. destruct a. by eapply copyInto_ok. Qed.

Lemma LWriteFromReader_writes k rd :
  keyHoare k (LWriteFromReader k rd) (λ _ _ d', rerr rd = None ∧ d' = Some (rdata rd)).
Proof.
  unfold LWriteFromReader. intros root d0. untouched.
  eapply hoare_bind; [apply hoare_wrapErr, create_writes|]. intros ?.
  apply hoare_wrapErr. eapply hoare_bind; [apply copy_writes|]. intros ?.
  destruct (rerr rd); [apply hoare_throw|]. by intros w u w' [Hr Hd] [-> ->]%ret_ok.
Qed.

Lemma LRead_reads k : keyHoare k (LRead k) (λ d0 d _, d0 = Some d).
Proof.
  unfold LRead. intros root d0. untouched. key_call d Hd Ho. unfold fileAt in Hd.
  unfold osReadFile in Ho. by repeat case_match; simplify_eq.
Qed.

Lemma LOpenReader_reads k : keyHoare k (LOpenReader k) (λ d0 d _, d0 = Some d).
Proof.
  unfold LOpenReader. intros root d0. untouched. key_call d Hd Ho. unfold fileAt in Hd.
  unfold osReadFile in Ho. by repeat case_match; simplify_eq.
Qed.

Lemma LReadAt_reads k n off :
  keyHoare k (LReadAt k n off) (λ d0 x _, (0 < n)%Z ∧ (0 ≤ off)%Z ∧
    ∃ d, d0 = Some d ∧ x = readAt d (Z.to_nat off) (Z.to_nat n)).
Proof.
  unfold LReadAt, full. intros root d0 w a w' [Hroot Hd] E. run_ok E.
  apply check_ok in Hr. subst. pose proof (proj2 Hroot) as Hln. bool_prop.
  apply sysCall_ok in Hr0 as [Hl0 Ho0]; [|done].
  apply sysCall_ok in E as [Hl Ho]; [|by rewrite Hl0].
  split; [by rewrite Hl, Hl0|]. destruct Hroot as [<- _]. split_and!; [lia..|].
  change (getFullPath w.1 k) with (PathJoin [rootDir w.1; k]) in *.
  revert Ho0 Ho. unfold osOpen, fReadAt, fileAt.
  rewrite (proj2 (Z.ltb_ge off 0)) by done. set (p := PathJoin _).
  intros Ho0 Ho. injection Ho0 as Ho0 Hos. injection Ho as Ho _. rewrite <-Hos in Ho.
  destruct (os w.2 !! p) as [[d|]|]; simplify_eq. eauto.
Qed.

Lemma LGetSize_sizes k :
  keyHoare k (LGetSize k) (λ d0 n _, ∀ d, d0 = Some d → n = blen d).
Proof.
  unfold LGetSize, full. intros root d0 w a w' [Hroot Hd] E. run_ok E.
  apply check_ok in Hr. subst. apply sysCall_ok in Hr0 as [Hl Ho]; [|apply Hroot].
  split; [by rewrite Hl|]. destruct Hroot as [<- _]. change (getFullPath w.1 k) with (PathJoin [rootDir w.1; k]) in *.
  intros d. unfold fileAt. unfold osStat in Ho. injection Ho as Ho _.
  destruct (os w.2 !! _) as [[d'|]|]; intros; by simplify_eq.
Qed.

Lemma LReadOnly_touches root k n off :
  steps (touches root none) (LRead k) ∧ steps (touches root none) (LOpenReader k) ∧
  steps (touches root none) (LReadAt k n off) ∧ steps (touches root none) (LGetSize k).
Proof. unfold LRead, LOpenReader, LReadAt, LGetSize. split_and!; touch. Qed.

Lemma LRemove_touches k root : steps (touches root (eq (PathJoin [root; k]))) (LRemove k).
Proof. unfold LRemove. touch. Qed.

Lemma LRemove_removes k : keyHoare k (LRemove k) (λ _ _ d', d' = None).
Proof.
  unfold LRemove. intros root d0. untouched. key_call a Hd Ho. destruct a.
  by apply osRemove_ok in Ho.
Qed.

Lemma LRemove_cases k w :
  localInv w.1 → safe k →
  localObject (LRemove k w).2.1 (os (LRemove k w).2.2) k = localObject w.1 (os w.2) k ∨
  localObject (LRemove k w).2.1 (os (LRemove k w).2.2) k = None.
Proof.
  destruct w as [ls s]. intros [_ Hln] _. unfold LRemove, mbind, M_bind, check. simpl.
  destruct (validatePath ls (os s) k); simpl; [|by left].
  unfold wrapErr, localObject.
  match goal with |- context [fsCall (fsRemove ?p) ?w] =>
    change p with (getFullPath ls k); rewrite (fsCall_plain _ (osRemove (getFullPath ls k))) by done
  end.
  unfold onSys. pose proof (osCall_os (osRemove (getFullPath ls k)) s) as Ho.
  destruct (osCall _ s) as [r s']; simpl in *.
  change (getFullPath (setLocks _ _) k) with (getFullPath ls k).
  destruct Ho as [-> | ->]; [by left|]. apply osRemove_cases.
Qed.

(** WriteFromTempFile: a rename, or a copy followed by a removal. *)
Section temp.
Context (root t : string) (d : bytes).

Lemma rename_from p q d0 :
  stepsFrom (knows root p (Some d0)) (touches root (λ r, r = p ∨ r = q)) (fsCall (fsRename p q)).
Proof.
  intros [ls s] [Hr Hd] _. rewrite (fsCall_plain _ (osRename p q)) by apply Hr. unfold onSys.
  pose proof (osCall_os (osRename p q) s) as Ho.
  destruct (osCall (osRename p q) s) as [r s']; simpl in *. split; [done|]. intros x Hx.
  destruct Ho as [-> | ->]; [done|]. eapply fileAt_rename; [done|naive_solver..].
Qed.

(** The outcome of the rename, with its failures. *)
Lemma rename_outcome p w r w' :
  p ≠ t → knows root t (Some d) w → fsCall (fsRename t p) w = (r, w') →
  atRoot root w'.1 ∧
  match r with
  | Ok _ => fileAt (os w'.2) p = Some d ∧ fileAt (os w'.2) t = None
  | Err _ => fileAt (os w'.2) t = Some d ∨
             fileAt (os w'.2) p = Some d ∧ fileAt (os w'.2) t = None
  end.
Proof.
  destruct w as [ls s]. intros Hpt [Hr Hd]. rewrite (fsCall_plain _ (osRename t p)) by apply Hr.
  unfold onSys, osCall, faulty. simpl in *.
  destruct (net _); [|by intros [= <- <-]; auto| |by intros [= <- <-]; auto].
  - destruct (osRename t p (os s)) as [r1 o1] eqn:E. intros [= <- <-]. simpl. split; [done|].
    destruct r1 as [[]|e1]; [by eapply osRename_ok|]. left.
    by rewrite (osRename_err _ _ _ _ _ _ Hd E).
  - destruct (osRename t p (os s)) as [r1 o1] eqn:E. intros [= <- <-]. simpl. split; [done|].
    destruct r1 as [[]|e1].
    + right. by eapply osRename_ok.
    + left. by rewrite (osRename_err _ _ _ _ _ _ Hd E).
Qed.

Definition tempTail (fullPath : string) : M (LocalStorage * Sys) unit :=
  r ← catch (fsCall (fsRename t fullPath));
  match r with
  | Ok _ => mret tt
  | Err _ =>
      src ← wrapErr "failed to open temp file" (sysCall t osReadFile);
      wrapErr "failed to create destination file" (sysCall fullPath osCreate) ⨟
      wrapErr "failed to copy file" (sysCall fullPath (λ p, copyInto p src)) ⨟
      wrapErr "failed to remove temp file" (fsCall (fsRemove t))
  end.

Lemma tempTail_touches p :
  stepsFrom (knows root t (Some d)) (touches root (λ r, r = t ∨ r = p)) (tempTail p).
Proof.
  eapply (stepsFrom_bind _ (λ _ _, True)); [apply _|..].
  - intros w Hw. unfold catch. pose proof (rename_from t p d w Hw). by destruct (fsCall _ w).
  - done.
  - intros r. apply steps_from. destruct r; touch.
Qed.

Lemma tempTail_writes p :
  p ≠ t → hoare (knows root t (Some d)) (tempTail p) (λ _, knows root p (Some d)).
Proof.
  intros Hpt w u w' Hw E. unfold tempTail in E. run_ok E.
  apply (rename_outcome p) in Hr as [Hroot Hres]; [|done..]. destruct x as [[]|e].
  { apply ret_ok in E as [_ ->]. by destruct Hres. }
  run_ok E. apply sysCall_ok in Hr as [Hl Ho]; [|apply Hroot]. unfold osReadFile in Ho. injection Ho as Ho Hos.
  assert (x = d) as ->.
  { unfold fileAt in Hres. destruct (os w0.2 !! t) as [[]|]; naive_solver. }
  assert (atRoot root w1.1) as Hroot1 by (by rewrite Hl).
  pose proof (create_writes root p _ w1 _ w2 (conj Hroot1 eq_refl) Hr0) as Hk2.
  destruct (copy_writes root p d _ w2 _ w3 Hk2 Hr1) as [Hr3 Hd3].
  apply (fsCall_ok _ (osRemove t)) in E as [Hl' Ho']; [|apply Hr3]. split; [by rewrite Hl'|].
  pose proof (fileAt_remove t (os w3.2) p ltac:(done)) as Hrm. rewrite Ho' in Hrm.
  by rewrite <-Hd3, <-Hrm.
Qed.

End temp.

Definition tempHead (path tempFilePath : string) : M (LocalStorage * Sys) string :=
  check path ⨟
  ls ← gets fst;
  lift (validateTempFilePath (cwd ls) (tmpDir ls) tempFilePath) ⨟
  getLock path ⨟
  fullPath ← full path;
  wrapErr "failed to create directory" (ensureDirectoryExists (Dir fullPath)) ⨟
  mret fullPath.

Lemma LTemp_split k t w : LWriteFromTempFile k t w = (tempHead k t ≫= tempTail t) w.
Proof.
  unfold LWriteFromTempFile, tempHead, mbind, M_bind, gets, lift, full, mret, M_ret.
  destruct (check k w) as [[]w1]; [|done]. destruct (validateTempFilePath _ _ _); [|done].
  destruct (getLock k w1) as [[]w2]; [|done]. simpl.
  destruct (wrapErr _ _ w2) as [[]w3]; done.
Qed.

Lemma tempHead_touches root k t : steps (touches root none) (tempHead k t).
Proof. unfold tempHead. touch. Qed.

Lemma localTemp_spec k t d w :
  localInv w.1 → safe k → localOutside w.1 t → fileAt (os w.2) t = Some d →
  let '(r, w') := LWriteFromTempFile k t w in
  frame localInv localObject localOutside (eq k) (eq t) w w' ∧
  (r = Ok tt → localObject w'.1 (os w'.2) k = Some d).
Proof.
  intros Hr Hk Ho Hd. rewrite LTemp_split.
  pose proof (tempHead_touches (rootDir w.1) k t w (conj eq_refl (proj2 Hr))) as [Hroot1 Hq1].
  unfold mbind, M_bind. destruct (tempHead k t w) as [[p|e] w1] eqn:E1; simpl in *; last first.
  { split; [|done]. apply (frame_touches _ _ none); auto. intros _. auto. }
  assert (p = getFullPath w.1 k) as ->.
  { unfold tempHead in E1. run_ok E1. unfold full in Hr2. run_ok Hr2. apply check_ok in Hr0.
    unfold getLock in Hr1. run_ok Hr1. subst. by destruct w. }
  assert (knows (rootDir w.1) t (Some d) w1) as Hkn by (split; [done|]; rewrite Hq1; auto).
  pose proof (tempTail_touches _ t d (getFullPath w.1 k) w1 Hkn Hroot1) as [Hroot2 Hq2].
  destruct (tempTail t (getFullPath w.1 k) w1) as [r w'] eqn:E2. simpl in *. split.
  - apply (frame_touches _ _ (λ r, r = t ∨ r = getFullPath w.1 k)); [done|..].
    + intros _. split; [done|]. intros q Hq. rewrite Hq2, Hq1; auto.
    + intros k' Hk' Hne [Heq|Heq]; [by apply (Ho k')|]. apply Hne.
      by apply (full_inj w.1); [apply Hr|..].
    + intros p Hp Hne [-> | ->]; [done|]. by apply (Hp k).
  - intros ->. destruct (tempTail_writes _ t d _ (Ho k Hk) w1 tt w' Hkn E2) as [_ Hd'].
    unfold localObject, getFullPath. by rewrite (proj1 Hroot2).
Qed.

(** Rename of an object. *)
Definition renameHead (oldPath newPath : string) : M (LocalStorage * Sys) (string * string) :=
  check oldPath ⨟
  check newPath ⨟
  getLock oldPath ⨟
  getLock newPath ⨟
  fullOldPath ← full oldPath;
  fullNewPath ← full newPath;
  wrapErr "failed to create directory" (ensureDirectoryExists (Dir fullNewPath)) ⨟
  mret (fullOldPath, fullNewPath).

Lemma LRename_split k1 k2 w :
  k1 ≠ k2 →
  LRename k1 k2 w = (renameHead k1 k2 ≫= λ ps,
    wrapErr "failed to rename" (fsCall (fsRename ps.1 ps.2))) w.
Proof.
  intros Hne. unfold LRename, renameHead, mbind, M_bind, full, gets, mret, M_ret.
  destruct (check k1 w) as [[]w1]; [|done]. destruct (check k2 w1) as [[]w2]; [|done].
  rewrite bool_decide_eq_false_2 by done.
  destruct (getLock k1 w2) as [[]w3]; [|done]. destruct (getLock k2 w3) as [[]w4]; [|done].
  simpl. destruct (wrapErr _ _ w4) as [[]w5]; done.
Qed.

Lemma renameHead_touches root k1 k2 : steps (touches root none) (renameHead k1 k2).
Proof. unfold renameHead. touch. Qed.

Lemma renameHead_paths k1 k2 w ps w1 :
  renameHead k1 k2 w = (Ok ps, w1) → ps = (getFullPath w.1 k1, getFullPath w.1 k2).
Proof.
  unfold renameHead, full, getLock. intros E. run_ok E.
  apply check_ok in Hr. apply check_ok in Hr0. subst. by destruct w.
Qed.

Lemma localRename_spec k1 k2 d w :
  localInv w.1 → safe k1 → safe k2 → k1 ≠ k2 → localObject w.1 (os w.2) k1 = Some d →
  let '(r, w') := LRename k1 k2 w in
  frame localInv localObject localOutside (λ k, k = k1 ∨ k = k2) none w w' ∧
  (r = Ok tt → localObject w'.1 (os w'.2) k2 = Some d ∧ localObject w'.1 (os w'.2) k1 = None) ∧
  (localObject w'.1 (os w'.2) k1 = Some d ∨ localObject w'.1 (os w'.2) k2 = Some d).
Proof.
  intros Hr H1 H2 Hne Hd. rewrite LRename_split by done.
  pose proof (renameHead_touches (rootDir w.1) k1 k2 w (conj eq_refl (proj2 Hr))) as [Hroot1 Hq1].
  unfold mbind, M_bind. destruct (renameHead k1 k2 w) as [[ps|e] w1] eqn:E1; simpl in *; last first.
  { split; [|split; [done|]].
    - apply (frame_touches _ _ none); auto. intros _. auto.
    - left. unfold localObject, getFullPath. rewrite (proj1 Hroot1), Hq1 by auto. done. }
  apply renameHead_paths in E1 as ->. simpl.
  set (p1 := getFullPath w.1 k1) in *. set (p2 := getFullPath w.1 k2) in *.
  assert (p1 ≠ p2) as Hp by (intros ?; by apply Hne, (full_inj w.1); [apply Hr|..]).
  assert (knows (rootDir w.1) p1 (Some d) w1) as Hkn by (split; [done|]; rewrite Hq1; auto).
  pose proof (rename_from _ p1 p2 d w1 Hkn Hroot1) as [Hroot2 Hq2]. unfold wrapErr.
  destruct (fsCall (fsRename p1 p2) w1) as [r w'] eqn:E2. simpl in *.
  assert (∀ k, localObject w'.1 (os w'.2) k = fileAt (os w'.2) (getFullPath w.1 k)) as Hobj.
  { intros k. unfold localObject, getFullPath. by rewrite (proj1 Hroot2). }
  rewrite !Hobj. fold p1 p2. split; [|].
  - apply (frame_touches _ _ (λ r, r = p1 ∨ r = p2)); [done|..].
    + intros _. split; [done|]. intros q Hq. rewrite Hq2, Hq1; auto.
    + intros k Hk Hn [Heq|Heq]; apply Hn; [left|right]; by apply (full_inj w.1); [apply Hr|..].
    + intros p Hp' _ [-> | ->]; [by apply (Hp' k1)|by apply (Hp' k2)].
  - destruct (rename_outcome _ p1 d p2 w1 r w' (not_eq_sym Hp) Hkn E2) as [_ Hres].
    destruct r; naive_solver.
Qed.

(** WriteAt creates the file when it is missing. *)
Lemma LWriteAt_touches k x off root :
  steps (touches root (eq (PathJoin [root; k]))) (LWriteAt k x off).
Proof. unfold LWriteAt. touch. Qed.

Lemma openCreate_opens root p d0 :
  hoare (knows root p d0) (sysCall p osOpenCreate) (λ _, knows root p (Some (default [] d0))).
Proof.
  key_call a Hd Ho. unfold osOpenCreate in Ho. unfold fileAt in Hd.
  destruct (os w.2 !! p) as [[d|]|] eqn:E; [|done|].
  - injection Ho as _ <-. subst d0. unfold fileAt. by rewrite E.
  - subst d0. destruct a. by apply osWriteFile_ok in Ho.
Qed.

Lemma LWriteAt_writes k x off :
  keyHoare k (LWriteAt k x off) (λ d0 _ d', (0 ≤ off)%Z ∧
    d' = Some (writeAt (default [] d0) (Z.to_nat off) x)).
Proof.
  unfold LWriteAt. intros root d0. untouched.
  eapply hoare_bind; [apply hoare_wrapErr, openCreate_opens|]. intros [].
  apply hoare_wrapErr. key_call a Hd Ho. unfold fWriteAt in Ho. unfold fileAt in Hd.
  destruct (off <? 0)%Z eqn:Hoff; [done|]. destruct (int64_max <? _)%Z; [done|].
  destruct (os w.2 !! _) as [[d|]|]; [|done..]. split; [lia|].
  injection Ho as _ <-. injection Hd as <-. by rewrite fileAt_insert.
Qed.

Lemma LDirectory_touches root k :
  steps (touches root none) (LExists k) ∧ steps (touches root none) (LList k) ∧
  steps (touches root none) (LCreateDirectory k).
Proof.
  unfold LExists, LList, LCreateDirectory. split_and!; touch.
  eapply touches_fsCall; [apply _|]. intros o q _. unfold osReadDir. by repeat case_match.
Qed.

Lemma below_full ls k j :
  rooted ls → safe k → safe j → below (getFullPath ls k) (getFullPath ls j) = below k j.
Proof.
  intros (rs & Hrs & Hroot) Hk Hj. rewrite (safe_below k j) by done.
  assert (∃ pre, ∀ i, safe i → getFullPath ls i = String slash (pre +:+ i)) as [pre Hpre].
  { assert (∃ pre, ∀ l, l ≠ [] → Join (rs ++ l) slash = pre +:+ Join l slash) as [pre Hpre].
    { clear. induction rs as [|r rs [pre IH]]; [exists ""; intros; by rewrite append_nil_l|]. exists (r +:+ "/" +:+ pre).
      intros l Hl. rewrite <-app_comm_cons, Join_cons, IH by (by destruct rs, l).
      by rewrite !append_assoc. }
    exists pre. intros i [segs Hi]. rewrite (full_safe ls rs i segs) by done. unfold absPath.
    destruct Hi as (Hne & _ & ->). by rewrite Hpre. }
  rewrite !Hpre by done. unfold below. rewrite bool_decide_eq_false_2; last first.
  { intros [= Heq]. apply append_eq_nil in Heq as [_ ->]. destruct Hk as (segs & Hne & Hs & Hk).
    symmetry in Hk. apply Join_eq_nil in Hk as [->| ->]; [done|].
    apply Forall_cons in Hs as [(? & _) _]. done. }
  apply eq_bool_prop_intro. rewrite !Is_true_true, !HasPrefix_spec. split; intros [t Ht]; exists t.
  - injection Ht as Ht. rewrite !append_assoc in Ht. apply append_inj_l in Ht.
    by rewrite append_assoc.
  - subst j. change (String slash (pre +:+ (k +:+ "/") +:+ t) = String slash (((pre +:+ k) +:+ "/") +:+ t)).
    by rewrite !append_assoc.
Qed.

(** Touching whole directories. *)
Lemma spares_touches ks paths w w' :
  localInv w.1 → touches (rootDir w.1) paths w w' →
  (∀ k, safe k → ¬ ks k → ¬ paths (getFullPath w.1 k)) →
  spares localInv localObject ks w w'.
Proof.
  intros [Hroot Hln] Ht Hk. destruct (Ht (conj eq_refl Hln)) as [[Hr Hln'] Hq]. split.
  - split; [|done]. destruct Hroot as (rs & ? & ?). exists rs. split; congruence.
  - intros k Hs Hn. unfold localObject, getFullPath. rewrite Hr. by apply Hq, Hk.
Qed.

Lemma under_full ls k j :
  rooted ls → safe k → safe j → under (getFullPath ls k) (getFullPath ls j) → under k j.
Proof.
  intros Hr Hk Hj [Heq|Hb]; [left; by apply (full_inj ls)|right].
  by rewrite below_full in Hb.
Qed.

Lemma full_not_root ls k : rooted ls → safe k → getFullPath ls k ≠ "/".
Proof.
  intros (rs & Hrs & Hroot) [segs Hk]. rewrite (full_safe ls rs k segs) by done.
  destruct Hk as (Hne & Hs & _). change "/" with (absPath []). intros Heq%absPath_inj; [|by apply Forall_app|done].
  by apply app_nil in Heq as [_ ->].
Qed.

Lemma fileAt_renameAny p q o x :
  p ≠ "/" → ¬ under p x → ¬ under q x → fileAt (osRename p q o).2 x = fileAt o x.
Proof.
  intros Hp Hpx Hqx. unfold fileAt. rewrite osRename_keeps; [done|done|..].
  - intros ->. apply Hpx. by left.
  - intros ->. apply Hqx. by left.
  - apply not_true_iff_false. intros ?. apply Hpx. by right.
  - apply not_true_iff_false. intros ?. apply Hqx. by right.
Qed.

Lemma localRename_frame k1 k2 w :
  localInv w.1 → safe k1 → safe k2 →
  spares localInv localObject (λ j, under k1 j ∨ under k2 j) w (LRename k1 k2 w).2.
Proof.
  intros Hi H1 H2. pose proof Hi as [Hr _].
  set (p1 := getFullPath w.1 k1). set (p2 := getFullPath w.1 k2).
  apply (spares_touches _ (λ x, under p1 x ∨ under p2 x)); [done| |].
  - apply run_touches. unfold LRename. touch. eapply touches_fsCall; [apply _|]. intros o x Hx.
    apply fileAt_renameAny; [by apply full_not_root|naive_solver..].
  - intros k Hk Hn [?|?]; apply Hn; [left|right]; by apply (under_full w.1).
Qed.

Lemma localTemp_frame k t w :
  localInv w.1 → safe k → localOutside w.1 t →
  (∀ p, ¬ localOutside w.1 p → below t p = false) →
  spares localInv localObject (under k) w (LWriteFromTempFile k t w).2.
Proof.
  intros Hi Hk Ho Hb. pose proof Hi as [Hr _]. set (p := getFullPath w.1 k).
  assert (∀ j, safe j → ¬ under t (getFullPath w.1 j)) as Hj.
  { intros j Hj [Heq|Hbj]; [by apply (Ho j)|]. rewrite Hb in Hbj; [done|]. intros Hout. by apply (Hout j). }
  assert (t ≠ "/") as Ht.
  { intros ->. apply (Hj k Hk). right. unfold below. rewrite bool_decide_eq_true_2 by done.
    rewrite bool_decide_eq_false_2 by (by apply full_not_root). destruct Hr as (rs & Hrs & Hroot).
    destruct Hk as [segs Hk]. by rewrite (full_safe w.1 rs k segs). }
  apply (spares_touches _ (λ x, under t x ∨ under p x)); [done| |].
  - apply run_touches. unfold LWriteFromTempFile. touch.
    + eapply touches_fsCall; [apply _|]. intros o x Hx.
      apply fileAt_renameAny; [done|naive_solver..].
    + match goal with |- steps _ (match ?r with _ => _ end) => destruct r end; touch;
        try (eapply touches_fsCall; [apply _|]; intros o x Hx; cbv beta;
             first [apply fileAt_writeFile|apply fileAt_copyInto|apply fileAt_remove];
             intros <-; apply Hx; (left; by left) || (right; by left)).
  - intros j Hsj Hn [?|?]; [by apply (Hj j)|]. apply Hn. by apply (under_full w.1).
Qed.

Lemma localRemoveDir_spec k w :
  localInv w.1 → safe k →
  let '(r, w') := LRemoveDirectory k w in
  spares localInv localObject (under k) w w' ∧
  (r = Ok tt → ∀ j, safe j → below k j = true → localObject w'.1 (os w'.2) j = None).
Proof.
  intros Hi Hk. pose proof Hi as [Hr Hln].
  assert (spares localInv localObject (under k) w (LRemoveDirectory k w).2) as Hs.
  { apply (spares_touches _ (under (getFullPath w.1 k))); [done| |].
    - apply run_touches. unfold LRemoveDirectory. touch. eapply touches_fsCall; [apply _|].
      intros o x Hx. unfold osRemoveAll, fileAt. cbn [snd]. rewrite map_lookup_filter.
      destruct (o !! x); [simpl|done]. rewrite option_guard_True; [done|]. split.
      + intros ->. apply Hx. by left.
      + apply not_true_iff_false. intros ?. apply Hx. by right.
    - intros j Hj Hn Hu. apply Hn. by apply (under_full w.1). }
  destruct (LRemoveDirectory k w) as [r w'] eqn:E. split; [done|]. intros -> j Hj Hb.
  unfold LRemoveDirectory, full, getLock in E. run_ok E. apply check_ok in Hr0. subst.
  destruct w as [ls s]. apply (fsCall_ok _ (osRemoveAll (getFullPath ls k))) in E as [Hl Ho]; [|done].
  unfold osRemoveAll in Ho. injection Ho as Ho. unfold localObject. rewrite Hl, <-Ho.
  change (getFullPath _ j) with (getFullPath ls j).
  unfold fileAt. simpl. rewrite map_lookup_filter. destruct (os s !! _); [simpl|done].
  rewrite option_guard_False; [done|]. intros [_ Hf]. by rewrite below_full, Hb in Hf.
Qed.

#[global] Instance laws : StorageLaws LocalStorage.
Proof.
  refine {| storeInv := localInv; object := localObject; outside := localOutside |}.
  - intros ls o o' k _ Hk Ho. apply Ho. intros Hout. by apply (Hout k).
  - intros k d w Hr Hk.
    pose proof (local_key_spec k _ _ w (LWrite_touches k d) (LWrite_writes k d) Hr Hk) as Hs.
    simpl. destruct (LWrite k d w). naive_solver.
  - apply localTemp_spec.
  - intros k rd w Hr Hk. pose proof (local_key_spec k _ _ w (LWriteFromReader_touches k rd)
      (LWriteFromReader_writes k rd) Hr Hk) as Hs.
    simpl. destruct (LWriteFromReader k rd w). naive_solver.
  - intros k w Hr Hk. pose proof (local_read_spec k _ _ w
      (λ root, proj1 (LReadOnly_touches root k 0 0)) (LRead_reads k) Hr Hk) as Hs.
    simpl. destruct (LRead k w). naive_solver.
  - intros k n off w Hr Hk _ _. pose proof (local_read_spec k _ _ w
      (λ root, proj1 (proj2 (proj2 (LReadOnly_touches root k n off)))) (LReadAt_reads k n off)
      Hr Hk) as Hs.
    simpl. destruct (LReadAt k n off w). naive_solver.
  - intros k w Hr Hk. pose proof (local_read_spec k _ _ w
      (λ root, proj1 (proj2 (LReadOnly_touches root k 0 0))) (LOpenReader_reads k) Hr Hk) as Hs.
    simpl. destruct (LOpenReader k w). naive_solver.
  - intros k w Hr Hk. pose proof (local_read_spec k _ _ w
      (λ root, proj2 (proj2 (proj2 (LReadOnly_touches root k 0 0)))) (LGetSize_sizes k)
      Hr Hk) as Hs.
    simpl. destruct (LGetSize k w). naive_solver.
  - intros k w Hr Hk. pose proof (local_key_spec k _ _ w (LRemove_touches k)
      (LRemove_removes k) Hr Hk) as Hs.
    pose proof (LRemove_cases k w Hr Hk). simpl. destruct (LRemove k w). naive_solver.
  - apply localRename_spec.
  - intros k x off w Hr Hk. pose proof (local_key_spec k _ _ w (LWriteAt_touches k x off)
      (LWriteAt_writes k x off) Hr Hk) as Hs.
    simpl. destruct (LWriteAt k x off w). naive_solver.
  - intros k w Hr. apply frame_nothing; [done|]. apply run_touches, (LDirectory_touches _ k).
  - intros k w Hr. apply frame_nothing; [done|]. apply run_touches, (LDirectory_touches _ k).
  - intros k w Hr _. apply frame_nothing; [done|]. apply run_touches, (LDirectory_touches _ k).
  - apply localRename_frame.
  - apply localTemp_frame.
  - apply localRemoveDir_spec.
Defined.

End LocalFS.

(** ** MinIOStorage

    The object store is not part of the repository: a class with the documented
    behaviour of its commands, and a map as a concrete store. *)

Class ObjectStore (B : Type) := {
  bGet : string → B → option bytes;
  bPut : string → bytes → B → B;
  bDel : string → B → B;
  bKeys : B → list string
}.

Class ObjectStoreLaws (B : Type) `{ObjectStore B} := {
  get_put b k d : bGet k (bPut k d b) = Some d;
  get_put_ne b k d k' : k ≠ k' → bGet k' (bPut k d b) = bGet k' b;
  get_del b k : bGet k (bDel k b) = None;
  get_del_ne b k k' : k ≠ k' → bGet k' (bDel k b) = bGet k' b;
  keys_get b k : k ∈ bKeys b ↔ is_Some (bGet k b)
}.

Module MapStore.
#[global] Instance store : ObjectStore (gmap string bytes) := {|
  bGet k b := b !! k; bPut k d b := <[k := d]> b; bDel k b := delete k b;
  bKeys b := (map_to_list b).*1
|}.
#[global] Instance store_laws : ObjectStoreLaws (gmap string bytes).
Proof.
  split; simpl; intros.
  - apply lookup_insert_eq.
  - by apply lookup_insert_ne.
  - apply lookup_delete_eq.
  - by apply lookup_delete_ne.
  - rewrite list_elem_of_fmap. split.
    + intros ([k' d] & -> & Hin%elem_of_map_to_list). by exists d.
    + intros [d Hd]. exists (k, d). split; [done|]. by apply elem_of_map_to_list.
Qed.
End MapStore.

Module MinIO.
Section minio.
Context {B : Type} `{ObjectStore B}.

Record MinIOStorage := MkMinIO {
  bucket : B;
  cwd : string;
  tmpDir : string;
  pathLocks : gset string
}.

Definition validateKey (objectKey : string) : res unit :=
  if bool_decide (objectKey = "") then Err (ErrMsg "object key cannot be empty")
  else if HasPrefix objectKey "/" then Err (ErrMsg "object key must not start with /")
  else if existsb (λ part, bool_decide (part = "..")) (Split (TrimSuffix objectKey "/") slash)
  then Err (ErrMsg "path traversal detected")
  else Ok tt.

Definition normalizeKey (objectKey : string) : string := Clean objectKey.

Definition check (objectKey : string) : M (MinIOStorage * Sys) unit := lift (validateKey objectKey).

Definition getLock (objectKey : string) : M (MinIOStorage * Sys) unit :=
  modify (λ '(ms, s), (MkMinIO (bucket ms) (cwd ms) (tmpDir ms)
                         ({[objectKey]} ∪ pathLocks ms), s)).

(** A request to the server. *)
Definition client {A} (op : B → res A * B) : M (MinIOStorage * Sys) A := λ '(ms, s),
  let '(r, b) := faulty (net (oracle s (tick s))) op (bucket ms) in
  (r, (MkMinIO b (cwd ms) (tmpDir ms) (pathLocks ms), skip 1 s)).

Definition noSuchKey : error := ErrMinio "NoSuchKey".

Definition PutObject (key : string) (rd : reader) (b : B) : res unit * B :=
  match rerr rd with
  | Some e => (Err e, b)
  | None => (Ok tt, bPut key (rdata rd) b)
  end.

Definition GetObject (key : string) (b : B) : res bytes * B :=
  (match bGet key b with Some d => Ok d | None => Err noSuchKey end, b).

(** [bytes=start-end], both ends included. *)
Definition GetObjectRange (key : string) (start end_ : Z) (b : B) : res bytes * B :=
  (match bGet key b with
   | None => Err noSuchKey
   | Some d => if (blen d <=? start)%Z then Err (ErrMinio "InvalidRange")
               else Ok (readAt d (Z.to_nat start) (Z.to_nat (end_ - start + 1)))
   end, b).

Definition StatObject (key : string) (b : B) : res Z * B :=
  (match bGet key b with Some d => Ok (blen d) | None => Err noSuchKey end, b).

Definition RemoveObject (key : string) (b : B) : res unit * B := (Ok tt, bDel key b).

(** Objects and common prefixes below a prefix. *)
Definition ListObjects (prefix : string) (recursive : bool) (b : B) : res (list string) * B :=
  let ks := merge_sort strLe (filter (λ k, HasPrefix k prefix = true) (bKeys b)) in
  let entry (k : string) :=
    match Split (TrimPrefix k prefix) slash with
    | seg :: _ :: _ => prefix +:+ seg +:+ "/"
    | _ => k
    end in
  (Ok (if recursive then ks else remove_dups (entry <$> ks)), b).

Definition MWrite (objectKey : string) (data : bytes) : M (MinIOStorage * Sys) unit :=
  check objectKey ⨟
  getLock objectKey ⨟
  wrapErr "failed to write object"
    (client (PutObject (normalizeKey objectKey) (Reader data None))).

Definition MWriteAt (objectKey : string) (data : bytes) (offset : Z)
    : M (MinIOStorage * Sys) unit :=
  check objectKey ⨟
  guard (negb (offset <? 0)%Z) (ErrMsg "invalid offset") ⨟
  throw ErrWriteAtUnsupported.

Definition MWriteFromTempFile (objectKey tempFilePath : string) : M (MinIOStorage * Sys) unit :=
  check objectKey ⨟
  ms ← gets fst;
  lift (validateTempFilePath (cwd ms) (tmpDir ms) tempFilePath) ⨟
  getLock objectKey ⨟
  wrapErr "failed to upload from temp file"
    (d ← onSys (osCall (osReadFile tempFilePath));
     client (PutObject (normalizeKey objectKey) (Reader d None))).

Definition MWriteFromReader (objectKey : string) (rd : reader) : M (MinIOStorage * Sys) unit :=
  check objectKey ⨟
  getLock objectKey ⨟
  wrapErr "failed to write from reader" (client (PutObject (normalizeKey objectKey) rd)).

Definition MRead (objectKey : string) : M (MinIOStorage * Sys) bytes :=
  check objectKey ⨟
  wrapErr "failed to read object" (client (GetObject (normalizeKey objectKey))).

Definition MReadAt (objectKey : string) (size offset : Z) : M (MinIOStorage * Sys) bytes :=
  check objectKey ⨟
  guard (negb (size <=? 0)%Z) (ErrMsg "invalid read size") ⨟
  guard (negb (offset <? 0)%Z) (ErrMsg "invalid read offset") ⨟
  let end_ := (offset + size - 1)%Z in
  let end_ := wrap64 end_ in
  guard (offset <=? end_)%Z (ErrMsg "failed to set range") ⨟
  wrapErr "failed to read object range"
    (data ← client (GetObjectRange (normalizeKey objectKey) offset end_);
     mret (take (Z.to_nat size) data)).

(** minio-go opens an object lazily; the error of the first read is reported
    here, when the reader is opened. *)
Definition MOpenReader (objectKey : string) : M (MinIOStorage * Sys) bytes :=
  check objectKey ⨟
  wrapErr "failed to get object" (client (GetObject (normalizeKey objectKey))).

Definition MRemove (objectKey : string) : M (MinIOStorage * Sys) unit :=
  check objectKey ⨟
  getLock objectKey ⨟
  wrapErr "failed to remove object" (client (RemoveObject (normalizeKey objectKey))).

Definition MExists (objectKey : string) : M (MinIOStorage * Sys) bool :=
  if negb (is_ok (validateKey objectKey)) then mret false
  else
    let key := normalizeKey objectKey in
    let lookupKey := if HasSuffix objectKey "/" && negb (HasSuffix key "/")
                     then key +:+ "/" else key in
    r ← catch (client (StatObject lookupKey));
    if is_ok r then mret true
    else if negb (HasSuffix key "/") then
      r ← catch (client (ListObjects (key +:+ "/") false));
      mret (match r with Ok (_ :: _) => true | _ => false end)
    else mret false.

Definition MList (prefix : string) : M (MinIOStorage * Sys) (list string) :=
  check prefix ⨟
  let key := normalizeKey prefix in
  objs ← wrapErr "failed to list objects" (client (ListObjects (key +:+ "/") false));
  let step (names : list string) (k : string) :=
    let relPath := TrimPrefix k (key +:+ "/") in
    if bool_decide (relPath = "") then names
    else
      let name := default "" (head (Split relPath slash)) in
      if existsb (λ n, bool_decide (n = name)) names then names else names ++ [name] in
  mret (foldl step [] objs).

Definition MGetSize (objectKey : string) : M (MinIOStorage * Sys) Z :=
  check objectKey ⨟
  wrapErr "failed to stat object" (client (StatObject (normalizeKey objectKey))).

Definition MRename (oldKey newKey : string) : M (MinIOStorage * Sys) unit :=
  check oldKey ⨟
  check newKey ⨟
  if bool_decide (oldKey = newKey) then mret tt
  else
    getLock oldKey ⨟
    getLock newKey ⨟
    let src := normalizeKey oldKey in
    let dst := normalizeKey newKey in
    wrapErr "failed to stat source object" (client (StatObject src)) ⨟
    wrapErr "failed to copy object"
      (d ← client (GetObject src);
       client (PutObject dst (Reader d None))) ⨟
    wrapErr "failed to remove source object after rename" (client (RemoveObject src)).

Definition dirMarker (prefix : string) : string :=
  let key := normalizeKey prefix in
  if HasSuffix key "/" then key else key +:+ "/".

Definition MCreateDirectory (prefix : string) : M (MinIOStorage * Sys) unit :=
  check prefix ⨟
  wrapErr "failed to create directory marker"
    (client (PutObject (dirMarker prefix) (Reader [] None))).

Fixpoint removeEach (keys : list string) : M (MinIOStorage * Sys) unit :=
  match keys with
  | [] => mret tt
  | k :: keys =>
      wrapErr "failed to remove object" (client (RemoveObject k)) ⨟ removeEach keys
  end.

Definition MRemoveDirectory (prefix : string) : M (MinIOStorage * Sys) unit :=
  check prefix ⨟
  objs ← wrapErr "failed to list objects for removal"
           (client (ListObjects (dirMarker prefix) true));
  removeEach objs.

Fixpoint cleanEach (keys : list string) : M (MinIOStorage * Sys) unit :=
  match keys with
  | [] => mret tt
  | k :: keys =>
      found ← MExists k;
      (if negb found
       then modify (λ '(ms, s), (MkMinIO (bucket ms) (cwd ms) (tmpDir ms)
                                   (pathLocks ms ∖ {[k]}), s))
       else mret tt) ⨟
      cleanEach keys
  end.

Definition MCleanPathLocks : M (MinIOStorage * Sys) unit :=
  ms ← gets fst;
  cleanEach (elements (pathLocks ms)).

#[global] Instance adapter : StorageAdapter MinIOStorage := {|
  Write := MWrite; WriteAt := MWriteAt; WriteFromTempFile := MWriteFromTempFile;
  WriteFromReader := MWriteFromReader; Read := MRead; ReadAt := MReadAt;
  OpenReader := MOpenReader; Remove := MRemove; Exists := MExists; List := MList;
  GetSize := MGetSize; Rename := MRename; CreateDirectory := MCreateDirectory;
  RemoveDirectory := MRemoveDirectory; StorageType := "minio"; ValidatePath := check
|}.

(** ** The laws *)

Context `{!ObjectStoreLaws B}.

Definition minioObject (ms : MinIOStorage) (_ : OS) (k : string) : option bytes :=
  bGet k (bucket ms).

Definition minioInv (_ : MinIOStorage) : Prop := True.
Definition minioOutside (_ : MinIOStorage) (_ : string) : Prop := True.

Definition changes (ks : string → Prop) (w w' : MinIOStorage * Sys) : Prop :=
  os w'.2 = os w.2 ∧ ∀ k, ¬ ks k → bGet k (bucket w'.1) = bGet k (bucket w.1).

#[export] Instance changes_preorder ks : PreOrder (changes ks).
Proof.
  split; [done|]. intros w1 w2 w3 [Ho12 H12] [Ho23 H23].
  split; [congruence|]. intros k Hk. by rewrite H23, H12.
Qed.

Lemma changes_frame ks w w' :
  changes ks w w' → frame minioInv minioObject minioOutside ks none w w'.
Proof. intros [Ho Hk]. split_and!; [done|done|by intros; apply Hk|]. intros. by rewrite Ho. Qed.

Lemma changes_client ks {A} (op : B → res A * B) :
  (∀ b k, ¬ ks k → bGet k (op b).2 = bGet k b) → steps (changes ks) (client op).
Proof.
  intros Hop [ms s]. unfold client, faulty. destruct (net _); simpl.
  - destruct (op (bucket ms)) as [r b] eqn:E. split; [done|]. intros k Hk. simpl.
    rewrite <-(Hop (bucket ms) k Hk). by rewrite E.
  - done.
  - destruct (op (bucket ms)) as [r b] eqn:E. split; [done|]. intros k Hk. simpl.
    rewrite <-(Hop (bucket ms) k Hk). by rewrite E.
  - done.
Qed.

Lemma changes_getLock ks k : steps (changes ks) (getLock k).
Proof. by intros [ms s]. Qed.

Lemma changes_readFile ks t : steps (changes ks) (onSys (osCall (osReadFile t))).
Proof.
  intros [ms s]. unfold onSys. pose proof (osCall_os (osReadFile t) s) as Ho.
  destruct (osCall _ s) as [r s']. simpl in *. split; [|done]. simpl. by destruct Ho as [-> | ->].
Qed.

Lemma put_ne k k' rd b : k ≠ k' → bGet k' (PutObject k rd b).2 = bGet k' b.
Proof. intros. unfold PutObject. case_match; [done|]. by apply get_put_ne. Qed.

Ltac bucket_steps :=
  repeat lazymatch goal with
  | |- steps _ (mbind _ _) => apply steps_bind; [apply _| |intros ?]
  | |- steps _ (check _) => apply steps_lift, _
  | |- steps _ (getLock _) => apply changes_getLock
  | |- steps _ (wrapErr _ _) => apply steps_wrapErr
  | |- steps _ (catch _) => apply steps_catch
  | |- steps _ (throw _) => apply steps_throw, _
  | |- steps _ (mret _) => apply steps_ret, _
  | |- steps _ (guard _ _) => apply steps_guard, _
  | |- steps _ (lift _) => apply steps_lift, _
  | |- steps _ (gets _) => apply steps_gets, _
  | |- steps _ (if _ then _ else _) => apply steps_if
  | |- steps _ (onSys _) => apply changes_readFile
  | |- steps _ (client _) =>
      apply changes_client; intros b k' Hk';
      first [ done
            | first [apply put_ne | apply get_del_ne]; intros <-; apply Hk'; by auto ]
  end.

Lemma client_ok {A} (op : B → res A * B) w a w' :
  client op w = (Ok a, w') → op (bucket w.1) = (Ok a, bucket w'.1).
Proof.
  destruct w as [ms s]. unfold client, faulty. destruct (net _).
  - destruct (op (bucket ms)) eqn:Eo. intros [= -> <-]. done.
  - done.
  - destruct (op (bucket ms)). done.
  - done.
Qed.

Lemma safe_clean k : safe k → normalizeKey k = k.
Proof.
  intros (segs & Hne & Hs & ->). unfold normalizeKey.
  apply (Clean_fixed 0 segs); [done|]. done.
Qed.

Lemma check_same k w a w' : check k w = (Ok a, w') → w' = w.
Proof. by intros [_ ->]%lift_ok. Qed.

Lemma getLock_same k w a w' : getLock k w = (Ok a, w') → bucket w'.1 = bucket w.1 ∧ w'.2 = w.2.
Proof. destruct w. unfold getLock, modify. by intros [= _ <-]. Qed.

Lemma minio_put k rd w w' :
  client (PutObject k rd) w = (Ok tt, w') → rerr rd = None ∧ bGet k (bucket w'.1) = Some (rdata rd).
Proof.
  intros Ho%client_ok. unfold PutObject in Ho. destruct (rerr rd); [done|].
  split; [done|]. injection Ho as <-. apply get_put.
Qed.

Lemma minio_write_spec k d w :
  safe k →
  let '(r, w') := MWrite k d w in
  frame minioInv minioObject minioOutside (eq k) none w w' ∧
  (r = Ok tt → minioObject w'.1 (os w'.2) k = Some d).
Proof.
  intros Hk. assert (steps (changes (eq k)) (MWrite k d)) as Hs.
  { unfold MWrite. rewrite safe_clean by done. bucket_steps. }
  specialize (Hs w). destruct (MWrite k d w) as [r w'] eqn:E. split; [by apply changes_frame|].
  intros ->. unfold MWrite in E. rewrite safe_clean in E by done. run_ok E.
  by apply minio_put in E as [_ ?].
Qed.

Lemma minio_temp_spec k t d w :
  safe k → fileAt (os w.2) t = Some d →
  let '(r, w') := MWriteFromTempFile k t w in
  frame minioInv minioObject minioOutside (eq k) (eq t) w w' ∧
  (r = Ok tt → minioObject w'.1 (os w'.2) k = Some d).
Proof.
  intros Hk Hd. assert (steps (changes (eq k)) (MWriteFromTempFile k t)) as Hs.
  { unfold MWriteFromTempFile. rewrite safe_clean by done. bucket_steps. }
  specialize (Hs w). destruct (MWriteFromTempFile k t w) as [r w'] eqn:E. split.
  { destruct (changes_frame _ _ _ Hs) as (? & ? & ? & Hp). split_and!; auto. }
  intros ->. unfold MWriteFromTempFile in E. rewrite safe_clean in E by done. run_ok E.
  apply check_same in Hr. apply getLock_same in Hr0 as [_ Hl]. subst.
  apply minio_put in E as [_ HE]. simpl in HE. unfold minioObject. rewrite HE. f_equal.
  destruct w3 as [ms3 s3]. apply onSys_ok in Hr1 as (s' & Ho%osCall_ok & _).
  unfold osReadFile in Ho. unfold fileAt in Hd. simpl in Hl. subst s3.
  destruct (os w.2 !! t) as [[]|]; naive_solver.
Qed.

Lemma minio_reader_spec k rd w :
  safe k →
  let '(r, w') := MWriteFromReader k rd w in
  frame minioInv minioObject minioOutside (eq k) none w w' ∧
  (r = Ok tt → rerr rd = None ∧ minioObject w'.1 (os w'.2) k = Some (rdata rd)).
Proof.
  intros Hk. assert (steps (changes (eq k)) (MWriteFromReader k rd)) as Hs.
  { unfold MWriteFromReader. rewrite safe_clean by done. bucket_steps. }
  specialize (Hs w). destruct (MWriteFromReader k rd w) as [r w'] eqn:E.
  split; [by apply changes_frame|].
  intros ->. unfold MWriteFromReader in E. rewrite safe_clean in E by done. run_ok E.
  by apply minio_put in E.
Qed.

Lemma minio_get k w d w' :
  client (GetObject k) w = (Ok d, w') → bGet k (bucket w.1) = Some d.
Proof. intros Ho%client_ok. unfold GetObject in Ho. by destruct (bGet k _); simplify_eq. Qed.

Lemma minio_read_spec k w :
  safe k →
  (let '(r, w') := MRead k w in
   frame minioInv minioObject minioOutside none none w w' ∧
   ∀ d, r = Ok d → minioObject w.1 (os w.2) k = Some d) ∧
  (let '(r, w') := MOpenReader k w in
   frame minioInv minioObject minioOutside none none w w' ∧
   ∀ d, r = Ok d → minioObject w.1 (os w.2) k = Some d).
Proof.
  intros Hk. assert (steps (changes none) (MRead k) ∧ steps (changes none) (MOpenReader k))
    as [Hs Hs'].
  { unfold MRead, MOpenReader. split; bucket_steps. }
  specialize (Hs w). specialize (Hs' w).
  destruct (MRead k w) as [r w'] eqn:E, (MOpenReader k w) as [r1 w1] eqn:E1.
  split; (split; [by apply changes_frame|]); intros d ->;
    [unfold MRead in E; rename E into E'|unfold MOpenReader in E1; rename E1 into E'];
    rewrite safe_clean in E' by done; run_ok E'; apply check_same in Hr; subst;
    by apply minio_get in E'.
Qed.

Lemma minio_read_at_spec k n off w :
  safe k → in64 n → in64 off →
  let '(r, w') := MReadAt k n off w in
  frame minioInv minioObject minioOutside none none w w' ∧
  ∀ x, r = Ok x → (0 < n)%Z ∧ (0 ≤ off)%Z ∧
    ∃ d, minioObject w.1 (os w.2) k = Some d ∧ x = readAt d (Z.to_nat off) (Z.to_nat n).
Proof.
  intros Hk Hn Hoff. assert (steps (changes none) (MReadAt k n off)) as Hs.
  { unfold MReadAt. bucket_steps. }
  specialize (Hs w). destruct (MReadAt k n off w) as [r w'] eqn:E.
  split; [by apply changes_frame|]. intros x ->. unfold MReadAt in E.
  rewrite safe_clean in E by done. run_ok E. apply check_same in Hr.
  apply client_ok in Hr0. subst. bool_prop. unfold GetObjectRange in Hr0. injection Hr0 as Hd _.
  unfold minioObject. destruct (bGet k (bucket w.1)) as [d|]; [|done].
  destruct (blen d <=? off)%Z; simplify_eq. split_and!; [lia|lia|]. exists d. split; [done|].
  unfold readAt. rewrite take_take. f_equal. unfold in64, int64_min, int64_max in *.
  pose proof (wrap64_cases (off + n - 1) ltac:(lia)) as Hw.
  unfold int64_min, int64_max in Hw. lia.
Qed.

Lemma minio_size_spec k w :
  safe k →
  let '(r, w') := MGetSize k w in
  frame minioInv minioObject minioOutside none none w w' ∧
  ∀ n d, r = Ok n → minioObject w.1 (os w.2) k = Some d → n = blen d.
Proof.
  intros Hk. assert (steps (changes none) (MGetSize k)) as Hs.
  { unfold MGetSize. bucket_steps. }
  specialize (Hs w). destruct (MGetSize k w) as [r w'] eqn:E.
  split; [by apply changes_frame|]. intros n d -> Hd. unfold MGetSize in E.
  rewrite safe_clean in E by done. run_ok E. apply check_same in Hr. subst.
  apply client_ok in E. unfold StatObject in E. unfold minioObject in Hd.
  rewrite Hd in E. by simplify_eq.
Qed.

Lemma client_cases {A} (op : B → res A * B) w :
  bucket (client op w).2.1 = bucket w.1 ∨ bucket (client op w).2.1 = (op (bucket w.1)).2.
Proof.
  destruct w as [ms s]. unfold client, faulty.
  destruct (net _); simpl; [|by left| |by left]; destruct (op (bucket ms)); by right.
Qed.

Lemma minio_remove_spec k w :
  safe k →
  let '(r, w') := MRemove k w in
  frame minioInv minioObject minioOutside (eq k) none w w' ∧
  (r = Ok tt → minioObject w'.1 (os w'.2) k = None) ∧
  (minioObject w'.1 (os w'.2) k = minioObject w.1 (os w.2) k ∨
   minioObject w'.1 (os w'.2) k = None).
Proof.
  intros Hk. assert (steps (changes (eq k)) (MRemove k)) as Hs.
  { unfold MRemove. rewrite safe_clean by done. bucket_steps. }
  specialize (Hs w). destruct (MRemove k w) as [r w'] eqn:E.
  split; [by apply changes_frame|]. unfold MRemove in E. rewrite safe_clean in E by done. split.
  - intros ->. run_ok E. apply client_ok in E. injection E as E. unfold minioObject.
    rewrite <-E. apply get_del.
  - unfold mbind, M_bind, check, lift in E. destruct (validateKey k); simplify_eq; [|by left].
    destruct w as [ms s]. unfold getLock, modify, wrapErr in E. unfold minioObject.
    match type of E with context [client ?op ?w1] =>
      pose proof (client_cases op w1) as Hc; destruct (client op w1) as [r1 w2] end.
    simplify_eq/=. destruct Hc as [-> | ->]; [by left|right; apply get_del].
Qed.

(** Rename: the copy, then the removal of the source. *)
Definition renameCopy (k1 k2 : string) : M (MinIOStorage * Sys) unit :=
  check k1 ⨟
  check k2 ⨟
  getLock k1 ⨟
  getLock k2 ⨟
  wrapErr "failed to stat source object" (client (StatObject k1)) ⨟
  wrapErr "failed to copy object"
    (d ← client (GetObject k1);
     client (PutObject k2 (Reader d None))).

Lemma MRename_split k1 k2 w :
  safe k1 → safe k2 → k1 ≠ k2 →
  MRename k1 k2 w = (renameCopy k1 k2 ≫= λ _,
    wrapErr "failed to remove source object after rename" (client (RemoveObject k1))) w.
Proof.
  intros H1 H2 Hne. unfold MRename, renameCopy. rewrite !safe_clean by done.
  rewrite bool_decide_eq_false_2 by done. unfold mbind, M_bind.
  destruct (check k1 w) as [[]w1]; [|done]. destruct (check k2 w1) as [[]w2]; [|done].
  destruct (getLock k1 w2) as [[]w3]; [|done]. destruct (getLock k2 w3) as [[]w4]; [|done].
  destruct (wrapErr _ _ w4) as [[]w5]; done.
Qed.

Lemma renameCopy_changes k1 k2 : steps (changes (eq k2)) (renameCopy k1 k2).
Proof. unfold renameCopy. bucket_steps. Qed.

Lemma renameCopy_copies k1 k2 w d w' :
  k1 ≠ k2 → bGet k1 (bucket w.1) = Some d → renameCopy k1 k2 w = (Ok tt, w') →
  bGet k2 (bucket w'.1) = Some d.
Proof.
  intros Hne Hd E. unfold renameCopy in E. run_ok E. apply check_same in Hr, Hr0.
  apply getLock_same in Hr1 as [Hb1 _]. apply getLock_same in Hr2 as [Hb2 _].
  apply client_ok in Hr3. injection Hr3 as _ Hb3. apply minio_get in Hr4. subst.
  apply minio_put in E as [_ HE]. simpl in HE. congruence.
Qed.

Lemma minio_rename_spec k1 k2 d w :
  safe k1 → safe k2 → k1 ≠ k2 → minioObject w.1 (os w.2) k1 = Some d →
  let '(r, w') := MRename k1 k2 w in
  frame minioInv minioObject minioOutside (λ k, k = k1 ∨ k = k2) none w w' ∧
  (r = Ok tt → minioObject w'.1 (os w'.2) k2 = Some d ∧ minioObject w'.1 (os w'.2) k1 = None) ∧
  (minioObject w'.1 (os w'.2) k1 = Some d ∨ minioObject w'.1 (os w'.2) k2 = Some d).
Proof.
  intros H1 H2 Hne Hd. unfold minioObject in *. rewrite MRename_split by done.
  pose proof (renameCopy_changes k1 k2 w) as [Hos Hch]. unfold mbind, M_bind.
  destruct (renameCopy k1 k2 w) as [[[]|e] w1] eqn:E1; simpl in Hos, Hch; last first.
  { split; [|split; [done|]].
    - apply changes_frame. split; [done|]. intros k Hk. apply Hch. naive_solver.
    - left. by rewrite Hch. }
  pose proof (renameCopy_copies k1 k2 w d w1 Hne Hd E1) as Hd2.
  assert (steps (changes (eq k1)) (client (RemoveObject k1))) as Hs by bucket_steps.
  specialize (Hs w1) as [Hos2 Hch2]. unfold wrapErr.
  destruct (client (RemoveObject k1) w1) as [r w'] eqn:E2; simpl in *.
  assert (bGet k2 (bucket w'.1) = Some d) as Hd2' by (by rewrite Hch2).
  split; [|split; [|by right]].
  - apply changes_frame. split; [congruence|]. intros k Hk.
    rewrite Hch2, Hch; naive_solver.
  - intros Hok. split; [done|]. destruct r; [|done].
    apply client_ok in E2. injection E2 as _ <-. apply get_del.
Qed.

Lemma minio_writeAt_spec k x off w :
  let '(r, w') := MWriteAt k x off w in
  frame minioInv minioObject minioOutside (eq k) none w w' ∧ r ≠ Ok tt.
Proof.
  assert (steps (changes none) (MWriteAt k x off)) as Hs by (unfold MWriteAt; bucket_steps).
  specialize (Hs w). destruct (MWriteAt k x off w) as [r w'] eqn:E. split.
  - destruct (changes_frame _ _ _ Hs) as (? & ? & ? & ?). split_and!; auto.
  - intros ->. unfold MWriteAt in E. by run_ok E.
Qed.

(** Directories are markers: keys that end in a slash. *)
Lemma dirMarker_safe k : safe k → dirMarker k = k +:+ "/".
Proof.
  intros Hk. unfold dirMarker. rewrite safe_clean by done.
  destruct (HasSuffix k "/") eqn:E; [|done]. apply HasSuffix_spec in E as [t ->].
  by apply safe_no_slash in Hk.
Qed.

Lemma minio_directory_changes k :
  steps (changes none) (MExists k) ∧ steps (changes none) (MList k) ∧
  steps (changes (λ j, j = dirMarker k)) (MCreateDirectory k).
Proof. unfold MExists, MList, MCreateDirectory. split_and!; bucket_steps. Qed.

Lemma ListObjects_all prefix b ks b' :
  ListObjects prefix true b = (Ok ks, b') →
  b' = b ∧ ∀ k, k ∈ ks ↔ HasPrefix k prefix = true ∧ is_Some (bGet k b).
Proof.
  intros [= <- <-]. split; [done|]. intros k. rewrite merge_sort_Permutation.
  rewrite list_elem_of_filter. by rewrite keys_get.
Qed.

Lemma removeEach_spec keys w :
  let '(r, w') := removeEach keys w in
  changes (λ j, j ∈ keys) w w' ∧ (r = Ok tt → ∀ j, j ∈ keys → bGet j (bucket w'.1) = None).
Proof.
  revert w. induction keys as [|k keys IH]; intros w; [by split; [|intros _ j ?%elem_of_nil]|].
  cbn [removeEach]. unfold mbind, M_bind, wrapErr.
  assert (steps (changes (eq k)) (client (RemoveObject k))) as Hs by bucket_steps.
  specialize (Hs w). destruct (client (RemoveObject k) w) as [[[]|e] w1] eqn:E; last first.
  { split; [|done]. destruct Hs as [? Hs]. split; [done|]. intros j Hj. apply Hs.
    intros ->. apply Hj. by left. }
  apply client_ok in E. injection E as E. specialize (IH w1).
  destruct (removeEach keys w1) as [r w']. destruct Hs as [Ho Hs]; cbn [fst snd] in Ho, Hs. destruct IH as [[Ho' Hc] Hn]. split.
  - split; [by rewrite Ho'|]. intros j Hj. rewrite Hc, Hs; [done|..].
    + intros ->. apply Hj. by left.
    + intros ?. apply Hj. by right.
  - intros -> j [->|Hj]%elem_of_cons; [|by apply Hn].
    destruct (decide (k ∈ keys)); [by apply Hn|]. rewrite Hc by done. rewrite <-E. apply get_del.
Qed.

Lemma minio_removeDir_spec k w :
  safe k →
  let '(r, w') := MRemoveDirectory k w in
  spares minioInv minioObject (under k) w w' ∧
  (r = Ok tt → ∀ j, safe j → below k j = true → minioObject w'.1 (os w'.2) j = None).
Proof.
  intros Hk. unfold MRemoveDirectory. rewrite dirMarker_safe by done.
  unfold mbind, M_bind, check, lift, wrapErr. destruct (validateKey k); [|by split; [split|]].
  assert (steps (changes none) (client (ListObjects (k +:+ "/") true))) as Hs by bucket_steps.
  specialize (Hs w). destruct (client (ListObjects _ _) w) as [[ks|e] w1] eqn:E; last first.
  { split; [|done]. split; [done|]. intros j _ _. by apply Hs. }
  apply client_ok, ListObjects_all in E as [Hb Hin]. destruct Hs as [_ Hs].
  cbn [res_map_err fst snd] in *.
  pose proof (removeEach_spec ks w1) as Hr. destruct (removeEach ks w1) as [r w'].
  destruct Hr as [[_ Hc] Hn]. split.
  - split; [done|]. intros j Hj Hu. unfold minioObject. rewrite Hc; [by apply Hs|].
    intros [Hp _]%Hin. apply Hu. right. by rewrite safe_below.
  - intros -> j Hj Hbj. unfold minioObject. rewrite safe_below in Hbj by done.
    destruct (decide (j ∈ ks)) as [Hjk|Hjk]; [by apply Hn|]. rewrite Hc by done.
    rewrite Hs by auto. apply eq_None_not_Some. intros Hsome. by apply Hjk, Hin.
Qed.

#[global] Instance laws : StorageLaws MinIOStorage.
Proof.
  refine {| storeInv := minioInv; object := minioObject; outside := minioOutside |}; simpl.
  - done.
  - intros. by apply minio_write_spec.
  - intros. by apply minio_temp_spec.
  - intros. by apply minio_reader_spec.
  - intros. by apply (minio_read_spec k w).
  - intros. by apply minio_read_at_spec.
  - intros. by apply (minio_read_spec k w).
  - intros. by apply minio_size_spec.
  - intros. by apply minio_remove_spec.
  - intros. by apply minio_rename_spec.
  - intros k x off w _ _. pose proof (minio_writeAt_spec k x off w) as Hs.
    destruct (MWriteAt k x off w). naive_solver.
  - intros k w _. apply changes_frame, (minio_directory_changes k).
  - intros k w _. apply changes_frame, (minio_directory_changes k).
  - intros k w _ Hk. destruct (minio_directory_changes k) as (_ & _ & Hs). destruct (Hs w) as [Ho Hc].
    split_and!; [done|done| |by intros; rewrite Ho]. intros j Hj _. apply Hc.
    rewrite dirMarker_safe by done. intros ->. by apply safe_no_slash in Hj.
  - intros k1 k2 w _ H1 H2. assert (steps (changes (λ j, j = k1 ∨ j = k2)) (MRename k1 k2)) as Hs.
    { unfold MRename. rewrite !safe_clean by done. bucket_steps. }
    destruct (Hs w) as [_ Hc]. split; [done|]. intros j _ Hu. apply Hc. unfold under in Hu. naive_solver.
  - intros k t w _ Hk _ _. assert (steps (changes (eq k)) (MWriteFromTempFile k t)) as Hs.
    { unfold MWriteFromTempFile. rewrite safe_clean by done. bucket_steps. }
    destruct (Hs w) as [_ Hc]. split; [done|]. intros j _ Hu. apply Hc. intros ->. apply Hu. by left.
  - intros. by apply minio_removeDir_spec.
Defined.

End minio.
End MinIO.

(** ** Properties *)

(** Every call of the adapter. *)
Inductive storeOp :=
| SWrite (key : string) (data : bytes)
| SWriteAt (key : string) (data : bytes) (offset : Z)
| SWriteFromTempFile (key temp : string)
| SWriteFromReader (key : string) (rd : reader)
| SRead (key : string)
| SReadAt (key : string) (size offset : Z)
| SOpenReader (key : string)
| SRemove (key : string)
| SExists (key : string)
| SList (directory : string)
| SGetSize (key : string)
| SRename (oldKey newKey : string)
| SCreateDirectory (directory : string)
| SRemoveDirectory (directory : string).

Section properties.
Context {Sg : Type} `{StorageLaws Sg}.

Definition runOp (w : Sg * Sys) (o : storeOp) : Sg * Sys :=
  match o with
  | SWrite key data => (Write key data w).2
  | SWriteAt key data offset => (WriteAt key data offset w).2
  | SWriteFromTempFile key temp => (WriteFromTempFile key temp w).2
  | SWriteFromReader key rd => (WriteFromReader key rd w).2
  | SRead key => (Read key w).2
  | SReadAt key size offset => (ReadAt key size offset w).2
  | SOpenReader key => (OpenReader key w).2
  | SRemove key => (Remove key w).2
  | SExists key => (Exists key w).2
  | SList directory => (List directory w).2
  | SGetSize key => (GetSize key w).2
  | SRename oldKey newKey => (Rename oldKey newKey w).2
  | SCreateDirectory directory => (CreateDirectory directory w).2
  | SRemoveDirectory directory => (RemoveDirectory directory w).2
  end.

(** The temporary file of a call: no object is stored on it or below it. *)
Definition apart (w : Sg * Sys) (t : string) : Prop :=
  outside w.1 t ∧ ∀ p, ¬ outside w.1 p → below t p = false.

(** The call leaves the object of key [k] to others: it writes, moves and removes
    other keys, and no directory that [k] is in. *)
Definition avoids (k : string) (w : Sg * Sys) (o : storeOp) : Prop :=
  match o with
  | SWrite key _ | SWriteAt key _ _ | SWriteFromReader key _ | SRemove key => safe key ∧ key ≠ k
  | SWriteFromTempFile key t => safe key ∧ ¬ under key k ∧ apart w t
  | SRead key | SGetSize key | SOpenReader key | SCreateDirectory key => safe key
  | SExists _ | SList _ => True
  | SReadAt key size offset => safe key ∧ in64 size ∧ in64 offset
  | SRename key key' => safe key ∧ safe key' ∧ ¬ under key k ∧ ¬ under key' k
  | SRemoveDirectory key => safe key ∧ ¬ under key k
  end.

(** Each call avoids [k], in the state in which it is made. *)
Fixpoint allAvoid (k : string) (w : Sg * Sys) (ops : list storeOp) : Prop :=
  match ops with
  | [] => True
  | o :: ops => avoids k w o ∧ allAvoid k (runOp w o) ops
  end.

Lemma frame_spares ks ps w w' :
  frame storeInv object outside ks ps w w' → spares storeInv object ks w w'.
Proof. by intros (? & _ & ? & _). Qed.

Lemma spares_keeps ks k w w' :
  spares storeInv object ks w w' → safe k → ¬ ks k →
  storeInv w'.1 ∧ object w'.1 (os w'.2) k = object w.1 (os w.2) k.
Proof. intros [? Hs] ? ?. auto. Qed.

Lemma runOp_keeps k o w :
  storeInv w.1 → safe k → avoids k w o →
  storeInv (runOp w o).1 ∧
  object (runOp w o).1 (os (runOp w o).2) k = object w.1 (os w.2) k.
Proof.
  intros Hi Hk Ha.
  destruct o as [key d|key d off|key t|key rd|key|key n off|key|key|key|key|key|key key'|key|key];
    simpl in *;
    [pose proof (write_spec key d w Hi)|pose proof (write_at_spec key d off w Hi)
    |apply (spares_keeps (under key)); [apply write_temp_frame; apply Ha || done|done|apply Ha]
    |pose proof (write_reader_spec key rd w Hi)
    |pose proof (read_spec key w Hi)|pose proof (read_at_spec key n off w Hi)
    |pose proof (open_spec key w Hi)|pose proof (remove_spec key w Hi)
    |apply (spares_keeps none); [eapply frame_spares, exists_spec; done|done|auto]
    |apply (spares_keeps none); [eapply frame_spares, list_spec; done|done|auto]
    |pose proof (size_spec key w Hi)
    |apply (spares_keeps (λ j, under key j ∨ under key' j));
       [apply rename_frame; apply Ha || done|done|naive_solver]
    |apply (spares_keeps none); [by eapply frame_spares, create_dir_spec|done|auto]
    |pose proof (remove_dir_spec key w Hi)];
    match goal with |- context [?f w] => destruct (f w) as [r w'] end; simpl in *;
    unfold frame, spares, none in *; naive_solver.
Qed.

Lemma runOps_keep k os_ w :
  storeInv w.1 → safe k → allAvoid k w os_ →
  storeInv (foldl runOp w os_).1 ∧
  object (foldl runOp w os_).1 (os (foldl runOp w os_).2) k = object w.1 (os w.2) k.
Proof.
  revert w. induction os_ as [|o os_ IH]; intros w Hi Hk; [done|].
  intros [Ho Hos]. destruct (runOp_keeps k o w Hi Hk Ho) as [Hi' Heq].
  simpl. rewrite <-Heq. by apply IH.
Qed.
End properties.

Lemma renameLockOrder_sym a b : renameLockOrder a b = renameLockOrder b a.
Proof.
  unfold renameLockOrder, String.ltb. rewrite (String.compare_antisym a b).
  destruct (String.compare b a) eqn:E; [|done..].
  apply String.compare_eq_iff in E. by subst.
Qed.

(** C19: read back. After a successful [Write] under a safe key, and any further
    calls on the adapter (all fourteen of them) that do not write, move or remove that
    key or a directory it is in, whatever fails among them, a [Read] that succeeds returns exactly the bytes written and a
    [ReadAt] that succeeds exactly the slice of them that was asked for. It holds
    of every adapter that satisfies the laws: LocalStorage and MinIOStorage. *)
Theorem storage_read_back {Sg : Type} `{StorageLaws Sg} (k : string) (d : bytes)
    (w w1 : Sg * Sys) (ops : list storeOp) (n off : Z) :
  storeInv w.1 → safe k → in64 n → in64 off →
  Write k d w = (Ok tt, w1) → allAvoid k w1 ops →
  (∀ x w', Read k (foldl runOp w1 ops) = (Ok x, w') → x = d) ∧
  (∀ x w', ReadAt k n off (foldl runOp w1 ops) = (Ok x, w') →
           x = readAt d (Z.to_nat off) (Z.to_nat n)).
Proof.
  intros Hi Hk Hn Hoff HW Hops.
  pose proof (write_spec k d w Hi Hk) as Hw. rewrite HW in Hw.
  destruct Hw as [(Hi1 & _) Hd]. specialize (Hd eq_refl).
  destruct (runOps_keep k ops w1 Hi1 Hk Hops) as [Hi2 Hobj]. rewrite Hd in Hobj. split.
  - intros x w' HR. pose proof (read_spec k _ Hi2 Hk) as Hr. rewrite HR in Hr.
    destruct Hr as [_ Hr]. specialize (Hr x eq_refl). congruence.
  - intros x w' HR. pose proof (read_at_spec k n off _ Hi2 Hk Hn Hoff) as Hr. rewrite HR in Hr.
    destruct Hr as [_ Hr]. destruct (Hr x eq_refl) as (_ & _ & d' & Hd' & ->). congruence.
Qed.

Definition quiet : Sys := MkSys (λ _, CallEnv 0 [] NoFault) 0 ∅.
Definition localDisk : LocalFS.LocalStorage * Sys :=
  (LocalFS.MkLocalStorage "/data" "/" "/tmp" ∅ ∅, quiet).
Definition minioDisk : MinIO.MinIOStorage (B := gmap string bytes) * Sys :=
  (MinIO.MkMinIO ∅ "/" "/tmp" ∅, quiet).

Lemma safe_dec_true k :
  bool_decide (Split k slash ≠ [] ∧ Forall ordinary (Split k slash)) = true → safe k.
Proof.
  intros [Hne Ho]%bool_decide_eq_true. exists (Split k slash). split_and!; [done|done|].
  by rewrite Join_Split.
Qed.

Lemma localDisk_rooted : LocalFS.localInv localDisk.1.
Proof.
  split; [|done]. exists ["data"]. split; [|done]. apply (bool_decide_eq_true_1 (Forall ordinary ["data"])).
  vm_compute. reflexivity.
Qed.

Lemma not_under_dec k j : bool_decide (under k j) = false → ¬ under k j.
Proof. apply bool_decide_eq_false_1. Qed.

Lemma storage_read_back_witness :
  let d := [Byte.x61; Byte.x62; Byte.x63] in
  let ops := [SWrite "b.txt" []; SRename "b.txt" "d/e"; SWriteAt "d/f" d 1; SRemoveDirectory "d"] in
  ((∀ x w', Read "a.txt" (foldl runOp (Write "a.txt" d localDisk).2 ops) = (Ok x, w') → x = d) ∧
   (∀ x w', ReadAt "a.txt" 2 1 (foldl runOp (Write "a.txt" d localDisk).2 ops) = (Ok x, w') →
      x = [Byte.x62; Byte.x63])) ∧
  ((∀ x w', Read "a.txt" (foldl runOp (Write "a.txt" d minioDisk).2 ops) = (Ok x, w') → x = d) ∧
   (∀ x w', ReadAt "a.txt" 2 1 (foldl runOp (Write "a.txt" d minioDisk).2 ops) = (Ok x, w') →
      x = [Byte.x62; Byte.x63])) ∧
  (Read "a.txt" (foldl runOp (Write "a.txt" d localDisk).2 ops)).1 = Ok d.
Proof.
  intros d ops. split; [|split; [|vm_compute; reflexivity]].
  - apply (storage_read_back "a.txt" d localDisk _ ops 2 1);
      [apply localDisk_rooted|apply safe_dec_true; vm_compute; reflexivity|split; vm_compute; done..
      |vm_compute; reflexivity|].
    cbn [allAvoid avoids ops]. split_and!; try done;
      (apply safe_dec_true || apply not_under_dec); vm_compute; reflexivity.
  - apply (storage_read_back "a.txt" d minioDisk _ ops 2 1);
      [done|apply safe_dec_true; vm_compute; reflexivity|split; vm_compute; done..
      |vm_compute; reflexivity|].
    cbn [allAvoid avoids ops]. split_and!; try done;
      (apply safe_dec_true || apply not_under_dec); vm_compute; reflexivity.
Defined.

(** A rename never loses the object. Whatever fails on the way (a lost
    request, a lost reply, a failed removal after the copy), the contents are
    under the old key or under the new one afterwards; when the rename reports
    success they are under the new key and the old key is free, and no other key
    changes. *)
Lemma rename_never_loses {Sg : Type} `{StorageLaws Sg} (k1 k2 : string) (d : bytes)
    (w : Sg * Sys) :
  storeInv w.1 → safe k1 → safe k2 → k1 ≠ k2 → object w.1 (os w.2) k1 = Some d →
  let '(r, w') := Rename k1 k2 w in
  (object w'.1 (os w'.2) k1 = Some d ∨ object w'.1 (os w'.2) k2 = Some d) ∧
  (r = Ok tt → object w'.1 (os w'.2) k2 = Some d ∧ object w'.1 (os w'.2) k1 = None) ∧
  (∀ k, safe k → k ≠ k1 → k ≠ k2 → object w'.1 (os w'.2) k = object w.1 (os w.2) k).
Proof.
  intros Hi H1 H2 Hne Hd. pose proof (rename_spec k1 k2 d w Hi H1 H2 Hne Hd) as Hr.
  destruct (Rename k1 k2 w) as [r w']. destruct Hr as [(_ & _ & Hk & _) [Hok Hsome]].
  split_and!; [done|done|]. intros k Hs ? ?. apply Hk; [done|]. by intros [?|?].
Qed.

(** The renames of any two paths, in either direction, lock the two path
    mutexes in the same order, so that two concurrent renames cannot wait for
    each other; and the order names both paths. *)
Lemma rename_lock_order (oldPath newPath : string) :
  renameLockOrder oldPath newPath = renameLockOrder newPath oldPath ∧
  renameLockOrder oldPath newPath ≡ₚ [oldPath; newPath].
Proof.
  split; [apply renameLockOrder_sym|]. unfold renameLockOrder.
  destruct (String.ltb oldPath newPath); [done|]. apply Permutation_swap.
Qed.
