(* ===== verification/Confine.v ===== *)
(** * internal/storage/local.go: the guard against path traversal, with symbolic links

    The laws of Storage.v are those of a file system without symbolic links. Here
    the local storage runs on one that has them, inside its root and outside.
    [ValidatePath] resolves the path it is given, or its deepest existing ancestor,
    and refuses what leads out of the resolved root. The theorem states that every
    operation then stays inside, and the lemmas after it show that its conditions
    on the links are needed. *)

From S2P Require Export Storage.

Local Open Scope go_scope.

Import LocalFS.

(** ** The file system *)

(** [x] is the directory [R] or lies below it. *)
Definition inside (R x : string) : Prop := x = R ∨ HasPrefix x (R +:+ "/") = true.

#[export] Instance inside_dec R x : Decision (inside R x).
Proof. unfold inside. apply _. Defined.

(** Absolute and cleaned. *)
Definition canonical (p : string) : Prop := Forall ordinary (segsOf p) ∧ p = absPath (segsOf p).

Definition dirAt (o : OS) (p : string) : Prop := p = "/" ∨ o !! p = Some DirN.

(** What has a name is in a directory, and has one name. *)
Definition treeOk (o : OS) : Prop := map_Forall (λ p _, canonical p ∧ dirAt o (Dir p)) o.

Definition linksOk (ln : Links) (o : OS) : Prop :=
  map_Forall (λ x t, canonical x ∧ x ≠ "/" ∧ canonical t ∧ o !! x = None ∧ dirAt o (Dir x)) ln.

(** Every link that can be followed leads to something. *)
Definition noDangling (ln : Links) (o : OS) : Prop :=
  map_Forall (λ x _, match follow goLinks ln x with
                     | Some q => existsAt o q = true
                     | None => True
                     end) ln.

(** No link outside [R] leads into it. *)
Definition noWayIn (ln : Links) (R : string) : Prop :=
  map_Forall (λ x _, inside R x ∨ match follow goLinks ln x with
                                  | Some q => ¬ inside R q
                                  | None => True
                                  end) ln.

#[export] Instance canonical_dec p : Decision (canonical p).
Proof. unfold canonical. apply _. Defined.
#[export] Instance dirAt_dec o p : Decision (dirAt o p).
Proof. unfold dirAt. apply _. Defined.
#[export] Instance treeOk_dec o : Decision (treeOk o).
Proof. unfold treeOk. apply _. Defined.
#[export] Instance linksOk_dec ln o : Decision (linksOk ln o).
Proof. unfold linksOk. apply _. Defined.
#[export] Instance noDangling_dec ln o : Decision (noDangling ln o).
Proof.
  unfold noDangling. apply map_Forall_dec. intros x t. destruct (follow _ _ _); apply _.
Defined.
#[export] Instance noWayIn_dec ln R : Decision (noWayIn ln R).
Proof. unfold noWayIn. apply map_Forall_dec. intros x t. destruct (follow _ _ _); apply _. Defined.

(** ** Paths as lists of components *)

Lemma segsOf_absPath l : Forall ordinary l → segsOf (absPath l) = l.
Proof.
  intros Hl. unfold segsOf. rewrite Split_absPath, filter_cons_False by auto.
  destruct l as [|x l]; [done|]. rewrite Split_Join_ordinary by done.
  clear -Hl. induction Hl as [|s m (?&_) Hm IH]; [done|]. by rewrite filter_cons_True, IH.
Qed.

Lemma canonical_absPath l : Forall ordinary l → canonical (absPath l).
Proof. intros Hl. unfold canonical. by rewrite segsOf_absPath. Qed.

Lemma inside_spec rs l :
  Forall ordinary rs → Forall ordinary l → inside (absPath rs) (absPath l) → rs `prefix_of` l.
Proof.
  intros Hrs Hl [Heq|Hp]; [by apply absPath_inj in Heq as ->|].
  apply HasPrefix_spec in Hp as [t Ht]. destruct rs as [|r rs]; [apply prefix_nil|].
  assert (Split (absPath l) slash = Split (absPath (r :: rs)) slash ++ Split t slash) as Hs.
  { rewrite Ht, append_assoc. apply Split_app_sep. }
  rewrite !Split_absPath, (Split_Join_ordinary (r :: rs)) in Hs by done.
  destruct l as [|x l].
  { injection Hs as <- _. by apply Forall_cons in Hrs as [(? & _) _]. }
  rewrite Split_Join_ordinary in Hs by done.
  exists (Split t slash). by simplify_list_eq.
Qed.

Lemma inside_top l : Forall ordinary l → inside (absPath []) (absPath l) → l = [].
Proof.
  intros Hl [Heq|Hp]; [by apply absPath_inj in Heq|]. exfalso.
  change (bool_decide (slash = slash) && HasPrefix (Join l slash) "/" = true) in Hp.
  rewrite Join_no_slash_prefix in Hp; [by rewrite andb_false_r in Hp|].
  eapply Forall_impl; [done|]. by intros ? (?&?&?&?).
Qed.

Lemma Join_app l m :
  l ≠ [] → m ≠ [] → Join (l ++ m) slash = Join l slash +:+ String slash (Join m slash).
Proof.
  intros Hl Hm. induction l as [|x l IH]; [done|]. rewrite <-app_comm_cons.
  destruct l as [|y l]; [by rewrite Join_cons|].
  rewrite Join_cons, IH, (Join_cons x) by done. by rewrite append_assoc, append_cons.
Qed.

Lemma prefix_inside rs l :
  rs ≠ [] ∨ l = [] → rs `prefix_of` l → inside (absPath rs) (absPath l).
Proof.
  intros Hne [m ->]. destruct (decide (m = [])) as [->|Hm]; [left; by rewrite app_nil_r|].
  right. destruct Hne as [Hne|Hne]; [|by apply app_nil in Hne as [_ ?]].
  apply HasPrefix_spec. exists (Join m slash). unfold absPath. rewrite Join_app by done.
  by rewrite append_assoc, append_cons.
Qed.

(** ** Walks *)

#[local] Opaque walk goLinks kernelLinks.

Section walks.
Context (ln : Links) (o : OS) (Ht : treeOk o) (Hln : linksOk ln o).

Lemma follow_abs n l :
  Forall ordinary l → follow n ln (absPath l) = (λ kr, absPath kr.2) <$> walk n ln [] l.
Proof.
  intros Hl. unfold follow. rewrite segsOf_absPath by done.
  destruct (walk n ln [] l) as [[k r]|] eqn:E; [simpl|done]. case_bool_decide; [|done].
  subst k. by apply walk_straight in E as ->.
Qed.

Lemma entry_abs n l x :
  Forall ordinary (l ++ [x]) →
  entry n ln (absPath (l ++ [x])) = (λ kr, absPath (kr.2 ++ [x])) <$> walk n ln [] l.
Proof.
  intros Hl. unfold entry. rewrite segsOf_absPath, removelast_snoc, last_snoc by done.
  destruct (walk n ln [] l) as [[k r]|] eqn:E; [simpl|done]. case_bool_decide; [|done].
  subst k. by apply walk_straight in E as ->.
Qed.

Lemma link_target x t : ln !! x = Some t → Forall ordinary (segsOf t).
Proof. intros Hx. by destruct (Hln x t Hx) as (_ & _ & [? _] & _). Qed.

(** The directory of a link. *)
Lemma link_parent l x t :
  Forall ordinary (l ++ [x]) → ln !! absPath (l ++ [x]) = Some t → existsAt o (absPath l) = true.
Proof.
  intros Hl Hx. destruct (Hln _ t Hx) as (_ & _ & _ & _ & Hd). rewrite Dir_absPath in Hd by done.
  unfold existsAt. apply orb_true_iff. rewrite !bool_decide_eq_true. destruct Hd; [by left|by right].
Qed.

Lemma exists_parent l x :
  Forall ordinary (l ++ [x]) → existsAt o (absPath (l ++ [x])) = true →
  existsAt o (absPath l) = true.
Proof.
  intros Hl. unfold existsAt. rewrite !orb_true_iff, !bool_decide_eq_true. intros [Heq|[n Hn]].
  - change "/" with (absPath []) in Heq. apply absPath_inj in Heq; [by destruct l|done|done].
  - destruct (Ht _ n Hn) as [_ Hd]. rewrite Dir_absPath in Hd by done.
    destruct Hd; [by left|by right].
Qed.

Lemma exists_prefix l m :
  Forall ordinary (l ++ m) → existsAt o (absPath (l ++ m)) = true → existsAt o (absPath l) = true.
Proof.
  induction m as [|x m IH] using rev_ind; [by rewrite app_nil_r|].
  rewrite app_assoc. intros Ho Hx%exists_parent; [|done]. apply IH; [|done].
  by apply Forall_app in Ho as [? _].
Qed.

Lemma walk_ordinary n b l k r :
  Forall ordinary b → Forall ordinary l → walk n ln b l = Some (k, r) → Forall ordinary r.
Proof.
  revert b l. induction n as [|n IHn]; intros b l Hb Hl; revert b Hb;
    (induction l as [|x l IH]; intros b Hb; [rewrite walk_nil; by intros [= <- <-]|]);
    apply Forall_cons in Hl as [Hx Hl]; rewrite walk_cons;
    (destruct (ln !! _) as [t|] eqn:E; [|apply IH; [done|by apply Forall_app; auto]]); [done|].
  apply IHn; [done|]. apply Forall_app. eauto using link_target.
Qed.

(** What a walk arrives at has no link on it. *)
Lemma walk_again n b l k r m :
  (∀ n, walk n ln [] b = Some (n, b)) → walk n ln b l = Some (k, r) → walk m ln [] r = Some (m, r).
Proof.
  revert b l m. induction n as [|n IHn]; intros b l m Hb; revert b Hb;
    (induction l as [|x l IH]; intros b Hb; [rewrite walk_nil; intros [= <- <-]; apply Hb|]);
    rewrite walk_cons;
    (destruct (ln !! _) as [t|] eqn:E; [|apply IH; intros j; rewrite walk_app, Hb; simpl;
       by rewrite walk_cons, E, walk_nil]); [done|].
  apply IHn. intros. apply walk_nil.
Qed.

Lemma walk_fixed n l k r m : walk n ln [] l = Some (k, r) → walk m ln [] r = Some (m, r).
Proof. apply walk_again. intros. apply walk_nil. Qed.

(** What is on the way to something exists. *)
Lemma walk_exists n b l k r :
  Forall ordinary b → Forall ordinary l → walk n ln b l = Some (k, r) →
  existsAt o (absPath r) = true → existsAt o (absPath b) = true.
Proof.
  revert b l. induction n as [|n IHn]; intros b l Hb Hl; revert b Hb;
    (induction l as [|x l IH]; intros b Hb; [rewrite walk_nil; by intros [= <- <-]|]);
    apply Forall_cons in Hl as [Hx Hl];
    assert (Forall ordinary (b ++ [x])) as Hbx by (apply Forall_app; auto);
    rewrite walk_cons; (destruct (ln !! _) as [t|] eqn:E; intros Hw He;
      [by eapply link_parent|eapply exists_parent, IH; eauto]).
Qed.

(** A link that is followed to [r] from a walked directory. *)
Lemma link_follow n l q k x t k' r :
  Forall ordinary l → ordinary x → n ≤ goLinks →
  walk n ln [] l = Some (k, q) → ln !! absPath (q ++ [x]) = Some t →
  walk k ln q [x] = Some (k', r) → follow goLinks ln (absPath (q ++ [x])) = Some (absPath r).
Proof.
  intros Hl Hx Hn Hw Hlk Hr. rewrite follow_abs; last first.
  { apply Forall_app. eauto using walk_ordinary. }
  rewrite walk_app, (walk_fixed n l k q goLinks Hw). cbn -[walk goLinks].
  pose proof (walk_left _ _ _ _ _ _ Hw) as Hk.
  apply (walk_mono k (goLinks - k)) in Hr. replace (k + (goLinks - k)) with goLinks in Hr by lia.
  by rewrite Hr.
Qed.
End walks.

(** ** The verdict of ValidatePath *)

Section verdict.
Context (ln : Links) (o : OS) (Ht : treeOk o) (Hln : linksOk ln o) (Hnd : noDangling ln o).

(** EvalSymlinks succeeds on [l]. *)
Definition resolves (l r : list string) : Prop :=
  (∃ k, walk goLinks ln [] l = Some (k, r)) ∧ existsAt o (absPath r) = true.

Lemma EvalSymlinks_abs l :
  Forall ordinary l →
  match EvalSymlinks ln o (absPath l) with
  | Some q => ∃ r, resolves l r ∧ Forall ordinary r ∧ q = absPath r
  | None => ∀ r, ¬ resolves l r
  end.
Proof.
  intros Hl. unfold EvalSymlinks. rewrite follow_abs by done.
  destruct (walk goLinks ln [] l) as [[k r]|] eqn:E; cbn [fmap option_fmap option_map fst snd].
  - assert (Forall ordinary r) as Hr by (by eapply walk_ordinary in E).
    destruct (existsAt o (absPath r)) eqn:Hx.
    + exists r. rewrite Clean_absPath by done. split_and!; [split; [by exists k|done]|done..].
    + intros r' [[k' Hw] Hr']. rewrite E in Hw. injection Hw as _ <-. congruence.
  - intros r [[k Hw] _]. by rewrite E in Hw.
Qed.

(** The deepest ancestor that resolves, and the rest of the path. *)
Definition deepest (l l1 l2 r : list string) : Prop :=
  l = l1 ++ l2 ∧ resolves l1 r ∧ Forall ordinary r ∧
  ∀ a b q, l2 = a ++ b → a ≠ [] → ¬ resolves (l1 ++ a) q.

Lemma root_resolves : resolves [] [].
Proof. split; [exists goLinks; apply walk_nil|done]. Qed.

Lemma resolveLoop_spec fuel l m :
  Forall ordinary (l ++ m) → (length l ≤ fuel)%nat →
  ∃ l1 l2 r, deepest l l1 l2 r ∧
    resolveLoop fuel ln o (absPath (l ++ m)) (absPath l) (Join m slash) = absPath (r ++ l2 ++ m).
Proof.
  revert l m. induction fuel as [|fuel IH]; intros l m Hlm Hlen;
    pose proof (proj1 (proj1 (Forall_app _ _ _) Hlm)) as Hl;
    pose proof (proj2 (proj1 (Forall_app _ _ _) Hlm)) as Hm;
    pose proof (EvalSymlinks_abs l Hl) as He; cbn [resolveLoop];
    (destruct (EvalSymlinks ln o (absPath l)) as [q|];
      [destruct He as (r & Hr & Hro & ->); exists l, [], r; split;
        [split_and!; [by rewrite app_nil_r|done|done|by intros [] ? ? [=]]
        |case_bool_decide as Hj; [|by apply PathJoin_absPath];
         apply Join_eq_nil in Hj as [->| ->]; [by rewrite app_nil_r|];
         apply Forall_cons in Hm as [[? _] _]; done]|]).
  { destruct l; [|simpl in Hlen; lia]. by destruct (He [] root_resolves). }
  destruct (exists_last (l:=l)) as (l' & x & ->). { intros ->. by destruct (He [] root_resolves). }
  rewrite Base_absPath, Dir_absPath by done. apply Forall_app in Hl as [Hl Hx].
  apply Forall_cons in Hx as [Hx _]. rewrite (PathJoin_ordinary x m Hx Hm).
  rewrite bool_decide_eq_false_2; last first.
  { intros Heq%absPath_inj; [|done|by apply Forall_app; auto].
    apply (f_equal length) in Heq. rewrite length_app in Heq. simpl in Heq. lia. }
  rewrite length_app in Hlen. simpl in Hlen.
  destruct (IH l' (x :: m)) as (l1 & l2 & r & (-> & Hr & Hro & Hd) & Heq); [|lia|].
  { by rewrite <-app_assoc in Hlm. }
  exists l1, (l2 ++ [x]), r. rewrite <-app_assoc in Heq. split.
  - split_and!; [by rewrite app_assoc|done|done|]. intros a b q Hab Ha Hq.
    destruct (decide (b = [])) as [->|Hb].
    + rewrite app_nil_r in Hab. subst a. rewrite app_assoc in Hq. by destruct (He q).
    + destruct (exists_last Hb) as (b' & y & ->). rewrite app_assoc in Hab.
      apply app_inj_tail in Hab as [Hab _]. by apply (Hd a b' q).
  - by rewrite <-!app_assoc in *.
Qed.

Lemma slen_Join l : Forall ordinary l → (length l ≤ slen (Join l slash))%nat.
Proof.
  induction 1 as [|s l Hs Hl IH]; [done|]. destruct Hs as (Hne & _).
  assert (1 ≤ slen s)%nat by (destruct s; simpl; [done|lia]).
  destruct l; [simpl; lia|]. rewrite Join_cons, slen_append by done. simpl in *. lia.
Qed.

Lemma full_abs ls p :
  rooted ls → ∃ l, Forall ordinary l ∧ getFullPath ls p = absPath l.
Proof.
  intros (rs & _ & Hroot). unfold getFullPath. rewrite Hroot.
  change (PathJoin _) with (Clean (absPath rs +:+ String slash p)).
  by apply Clean_rooted_shape.
Qed.

(** What ValidatePath accepts: the resolved ancestor with the rest of the path is
    inside the resolved root. *)
Lemma validatePath_deepest ls p l R :
  rooted ls → symlinks ls = ln → EvalSymlinks ln o (rootDir ls) = Some R →
  Forall ordinary l → getFullPath ls p = absPath l → validatePath ls o p = Ok tt →
  ∃ l1 l2 r, deepest l l1 l2 r ∧ inside R (absPath (r ++ l2)).
Proof.
  intros (rs & Hrs & Hroot) Hls HR Hl Hfull. unfold validatePath, Abs.
  rewrite Hfull, Hls, Hroot, !Clean_absPath by done. rewrite Hroot in HR.
  change (HasPrefix (absPath rs) "/") with true. change (HasPrefix (absPath l) "/") with true.
  cbv iota zeta. rewrite HR. cbn [default from_option id]; unfold id.
  assert (∃ l1 l2 r, deepest l l1 l2 r ∧
    match EvalSymlinks ln o (absPath l) with
    | Some r => r | None => resolveExistingAncestor ln o (absPath l) end = absPath (r ++ l2))
    as (l1 & l2 & r & Hd & ->).
  { pose proof (EvalSymlinks_abs l Hl) as He. destruct (EvalSymlinks ln o (absPath l)) as [q|].
    - destruct He as (r & Hr & Hro & ->). exists l, [], r. rewrite app_nil_r.
      split; [|done]. split_and!; [by rewrite app_nil_r|done|done|by intros [] ? ? [=]].
    - destruct (resolveLoop_spec (slen (absPath l)) l []) as (l1 & l2 & r & Hd & Heq).
      { by rewrite app_nil_r. } { pose proof (slen_Join l Hl). simpl. lia. }
      rewrite !app_nil_r in Heq. eauto. }
  intros Hok. exists l1, l2, r. split; [done|].
  destruct Hd as (-> & _ & Hr & _). apply Forall_app in Hl as [_ Hl2].
  rewrite Clean_absPath in Hok by (by apply Forall_app).
  destruct (HasPrefix (absPath (r ++ l2)) (R +:+ "/")) eqn:E; [by right|left].
  cbn [negb andb] in Hok. by case_bool_decide.
Qed.

(** *** Where the kernel arrives *)

Context (l l1 l2 r : list string) (R : string).
Context (Hl : Forall ordinary l) (Hd : deepest l l1 l2 r).

Lemma walk_beyond n a b k q :
  n ≤ goLinks → l2 = a ++ b → walk n ln [] (l1 ++ a) = Some (k, q) →
  q = r ++ a ∧ (a ≠ [] → existsAt o (absPath q) = false).
Proof.
  destruct Hd as (Hll & [[k1 H1] Hx1] & Hr & Hlong). intros Hn Ha. revert b k q Ha.
  assert (Forall ordinary (l1 ++ l2)) as Ho by (by rewrite <-Hll).
  induction a as [|x a IH] using rev_ind; intros b k q Ha Hw.
  - rewrite !app_nil_r in *. split; [|done].
    apply (walk_agree _ _ _ _ _ _ _ _ _ Hw H1).
  - rewrite app_assoc, walk_app in Hw.
    destruct (walk n ln [] (l1 ++ a)) as [[k0 q0]|] eqn:E0; [cbn [mbind option_bind fst snd] in Hw|done].
    rewrite <-app_assoc in Ha. destruct (IH _ _ _ Ha eq_refl) as [-> Hxa].
    assert (¬ ∃ q', resolves (l1 ++ a ++ [x]) q') as Hno.
    { intros [q' Hq']. apply (Hlong (a ++ [x]) b q'); [by rewrite <-app_assoc|by destruct a|done]. }
    assert (Forall ordinary (l1 ++ a) ∧ ordinary x) as [Hoa Hox].
    { rewrite Ha in Ho. rewrite !Forall_app, Forall_cons in Ho. rewrite Forall_app. naive_solver. }
    assert (Forall ordinary ((r ++ a) ++ [x])) as Hrax.
    { apply Forall_app. split; [|by constructor]. by eapply (walk_ordinary ln o) in E0. }
    destruct (ln !! absPath ((r ++ a) ++ [x])) as [t|] eqn:Et.
    + exfalso. apply Hno. exists q. split.
      * exists (k + (goLinks - n)). replace goLinks with (n + (goLinks - n)) at 1 by lia.
        apply walk_mono. rewrite app_assoc, walk_app, E0. done.
      * pose proof (link_follow ln o Hln n (l1 ++ a) (r ++ a) k0 x t k q Hoa Hox Hn E0 Et Hw) as Hf.
        pose proof (Hnd _ t Et) as Hx. cbv beta in Hx. by rewrite Hf in Hx.
    + rewrite walk_cons, Et, walk_nil in Hw. injection Hw as <- <-.
      split; [by rewrite app_assoc|]. intros _. apply not_true_iff_false. intros Hx.
      apply Hno. exists ((r ++ a) ++ [x]). split; [|done].
      exists (k0 + (goLinks - n)). replace goLinks with (n + (goLinks - n)) at 1 by lia.
      apply walk_mono. by rewrite app_assoc, walk_app, E0; cbn; rewrite walk_cons, Et, walk_nil.
Qed.

Context (rr : list string) (Hrr : Forall ordinary rr) (HR : R = absPath rr).
Context (HRx : existsAt o R = true) (Hin : inside R (absPath (r ++ l2))).

(** The whole path, when the kernel can follow it. *)
Lemma walk_inside n k q :
  n ≤ goLinks → walk n ln [] l = Some (k, q) → inside R (absPath q).
Proof.
  intros Hn Hw. pose proof (proj1 Hd) as Heq. rewrite Heq in Hw.
  destruct (walk_beyond n l2 [] k q Hn) as [-> _]; [by rewrite app_nil_r|done..].
Qed.

(** Every directory on the way exists or is inside. *)
Lemma walk_way n a b k q :
  n ≤ goLinks → l = a ++ b → walk n ln [] a = Some (k, q) →
  existsAt o (absPath q) = true ∨ inside R (absPath q).
Proof.
  intros Hn Hab Hw. pose proof (walk_beyond n) as Hbeyond. pose proof Hd as (Hll & [[k1 H1] Hx1] & Hr & _).
  assert (Forall ordinary a ∧ Forall ordinary b) as [Ha Hb] by (apply Forall_app; by rewrite <-Hab).
  assert (Forall ordinary (r ++ l2)) as Hrl.
  { apply Forall_app. split; [done|]. rewrite Hll in Hl. by apply Forall_app in Hl as [_ ?]. }
  rewrite Hab in Hll. apply app_eq_inv in Hll as [(c & -> & ->)|(c & -> & ->)].
  - (* below the ancestor that exists *)
    destruct (Hbeyond c b k q Hn eq_refl Hw) as [-> Hc].
    destruct (decide (c = [])) as [->|Hne]; [left; by rewrite app_nil_r|]. right.
    rewrite HR in Hin |- *. apply inside_spec in Hin as Hp; [|done..].
    rewrite app_assoc in Hp, Hrl. apply Forall_app in Hrl as [Hrc _].
    destruct (prefix_weak_total rr (r ++ c) ((r ++ c) ++ b)) as [Hpre|[d Hpre]];
      [done|by exists b|apply prefix_inside; [|done]|].
    + destruct (decide (rr = [])) as [->|]; [right|by left].
      apply inside_top in Hin; [|rewrite app_assoc; by apply Forall_app].
      rewrite app_assoc in Hin. by apply app_nil in Hin as [? _].
    + exfalso. rewrite HR, Hpre in HRx. rewrite Hpre in Hrr.
      apply (exists_prefix o Ht) in HRx; [|done]. rewrite Hc in HRx; done.
  - (* above it *)
    left. apply (walk_mono n (goLinks - n)) in Hw. replace (n + (goLinks - n)) with goLinks in Hw by lia.
    rewrite walk_app, Hw in H1. cbn [mbind option_bind fst snd] in H1.
    assert (Forall ordinary c) as Hoc by (by apply Forall_app in Hb as [? _]).
    eapply (walk_exists ln o Ht Hln); [|exact Hoc|exact H1|done].
    by eapply (walk_ordinary ln o) in Hw.
Qed.

(** The directory entry that the path names. *)
Lemma entry_inside n l' x k q :
  n ≤ goLinks → noWayIn ln R → l = l' ++ [x] → walk n ln [] l' = Some (k, q) →
  inside R (absPath (q ++ [x])).
Proof.
  intros Hn Hno Hlx Hw. pose proof (walk_beyond n) as Hbeyond. pose proof Hd as (Hll & [[k1 H1] Hx1] & Hr & _).
  assert (Forall ordinary l' ∧ ordinary x) as [Hl' Hx].
  { rewrite Hlx, Forall_app, Forall_cons in Hl. naive_solver. }
  destruct (decide (l2 = [])) as [->|Hne].
  - rewrite app_nil_r in Hll, Hin. rewrite <-Hll, Hlx, walk_app in H1.
    pose proof Hw as Hw'. apply (walk_mono n (goLinks - n)) in Hw'.
    replace (n + (goLinks - n)) with goLinks in Hw' by lia. rewrite Hw' in H1.
    cbn [mbind option_bind fst snd] in H1.
    destruct (ln !! absPath (q ++ [x])) as [t|] eqn:Et.
    + destruct (Hno _ t Et) as [?|Hf]; [done|]. exfalso.
      by rewrite (link_follow ln o Hln goLinks l' q (k + (goLinks - n)) x t k1 r) in Hf.
    + rewrite walk_cons, Et, walk_nil in H1. by injection H1 as _ <-.
  - destruct (exists_last Hne) as (c & y & ->). rewrite Hlx, app_assoc in Hll.
    apply app_inj_tail in Hll as [-> ->].
    destruct (Hbeyond c [y] k q Hn eq_refl Hw) as [-> _]. by rewrite <-app_assoc.
Qed.
End verdict.

(** ** The calls of package os *)

Section calls.
Context (ls0 : LocalStorage) (s0 : Sys) (rr : list string) (R : string) (P : string → Prop).
Notation ln := (symlinks ls0).
Notation o0 := (os s0).

(** Outside [R] nothing has changed; no link has. *)
Definition heldFS (f : FS) : Prop := f.1 = ln ∧ ∀ x, ¬ inside R x → f.2 !! x = o0 !! x.

(** Outside [R] nothing has changed but what [P] exempts. *)
Definition confFS (f : FS) : Prop :=
  ∀ x, ¬ inside R x → ¬ P x → f.2 !! x = o0 !! x ∧ f.1 !! x = ln !! x.

Definition fsOf (w : LocalStorage * Sys) : FS := (symlinks w.1, os w.2).

Definition held (w : LocalStorage * Sys) : Prop := rootDir w.1 = rootDir ls0 ∧ heldFS (fsOf w).
Definition conf (w : LocalStorage * Sys) : Prop := confFS (fsOf w).

Lemma heldFS_conf f : heldFS f → confFS f.
Proof. intros [Hl Ho] x Hx _. by rewrite Hl, Ho. Qed.

Lemma held_conf w : held w → conf w.
Proof. intros [_ Hh]. by apply heldFS_conf. Qed.

(** A call that stays inside, and the last one of an operation. *)
Definition stays {A} (m : M (LocalStorage * Sys) A) : Prop := triple held m (λ _, held) held.
Definition ends {A} (m : M (LocalStorage * Sys) A) : Prop := triple held m (λ _, conf) conf.

Lemma stays_ends {A} (m : M (LocalStorage * Sys) A) : stays m → ends m.
Proof. intros Hm. eapply triple_conseq; [apply Hm|done|..]; intros; by apply held_conf. Qed.

Lemma stays_bind {A B} (m : M (LocalStorage * Sys) A) (g : A → M (LocalStorage * Sys) B) :
  stays m → (∀ a, stays (g a)) → stays (m ≫= g).
Proof. intros Hm Hg. by eapply triple_bind. Qed.

Lemma ends_bind {A B} (m : M (LocalStorage * Sys) A) (g : A → M (LocalStorage * Sys) B) :
  stays m → (∀ a, ends (g a)) → ends (m ≫= g).
Proof. intros Hm Hg. eapply triple_seq; [apply Hm|apply held_conf|done]. Qed.

Lemma fsCall_fs {A} (op : FS → res A * FS) w :
  rootDir (fsCall op w).2.1 = rootDir w.1 ∧
  (fsOf (fsCall op w).2 = fsOf w ∨ fsOf (fsCall op w).2 = (op (fsOf w)).2).
Proof.
  destruct w as [ls s]. unfold fsCall, faulty, fsOf. simpl.
  destruct (net _); simpl; [|by auto| |by auto]; destruct (op _) as [r [l o]]; by auto.
Qed.

Lemma stays_fsCall {A} (op : FS → res A * FS) :
  (∀ f, heldFS f → heldFS (op f).2) → stays (fsCall op).
Proof.
  intros Hop w [Hr Hh]. destruct (fsCall_fs op w) as [Hr' Hf].
  destruct (fsCall op w) as [r w']. simpl in *.
  assert (held w') by (split; [congruence|]; destruct Hf as [-> | ->]; auto). by destruct r.
Qed.

Lemma ends_fsCall {A} (op : FS → res A * FS) :
  (∀ f, heldFS f → confFS (op f).2) → ends (fsCall op).
Proof.
  intros Hop w [Hr Hh]. destruct (fsCall_fs op w) as [Hr' Hf].
  destruct (fsCall op w) as [r w']. simpl in *.
  assert (conf w') by (unfold conf; destruct Hf as [-> | ->]; auto using heldFS_conf). by destruct r.
Qed.

Lemma stays_full {A} k (g : string → M (LocalStorage * Sys) A) :
  stays (g (getFullPath ls0 k)) → stays (full k ≫= g).
Proof.
  intros Hg w Hw. specialize (Hg w Hw). unfold mbind, M_bind, full, gets.
  assert (getFullPath w.1 k = getFullPath ls0 k) as ->; [|done].
  unfold getFullPath. by rewrite (proj1 Hw).
Qed.

Lemma ends_full {A} k (g : string → M (LocalStorage * Sys) A) :
  ends (g (getFullPath ls0 k)) → ends (full k ≫= g).
Proof.
  intros Hg w Hw. specialize (Hg w Hw). unfold mbind, M_bind, full, gets.
  assert (getFullPath w.1 k = getFullPath ls0 k) as ->; [|done].
  unfold getFullPath. by rewrite (proj1 Hw).
Qed.

Lemma stays_same {A} (m : M (LocalStorage * Sys) A) :
  steps (λ w w', rootDir w'.1 = rootDir w.1 ∧ fsOf w' = fsOf w) m → stays m.
Proof.
  intros Hm. eapply triple_steps; [exact Hm|]. intros w w' [Hr Hh] [Hr' Hf].
  split; [congruence|]. by rewrite Hf.
Qed.

Lemma stays_getLock k : stays (getLock k).
Proof. apply stays_same. by intros [ls s]. Qed.

Lemma stays_ret {A} (a : A) : stays (mret a).
Proof. by apply stays_same. Qed.

(** A call that follows the links of its path and touches what it arrives at. *)
Lemma stays_at {A} p (op : string → OS → res A * OS) :
  (∀ q, follow kernelLinks ln p = Some q → inside R q) →
  (∀ q o x, x ≠ q → (op q o).2 !! x = o !! x) → stays (sysCall p op).
Proof.
  intros Hp Hop. apply stays_fsCall. intros [l o] [Hl Ho]. simpl in Hl, Ho. subst l.
  unfold following. cbn [fst snd]. destruct (follow kernelLinks ln p) as [q|] eqn:E; [|done].
  specialize (Hop q o). destruct (op q o) as [r o']. split; [done|]. intros x Hx. simpl in *.
  rewrite Hop; [by apply Ho|]. intros ->. by apply Hx, Hp.
Qed.

Lemma stays_look {A} p (op : string → OS → res A * OS) :
  (∀ q o, (op q o).2 = o) → stays (sysCall p op).
Proof.
  intros Hop. apply stays_fsCall. intros [l o] Hh. unfold following. cbn [fst snd].
  destruct (follow kernelLinks l p) as [q|]; [|done]. specialize (Hop q o).
  destruct (op q o) as [r o']. simpl in *. by subst.
Qed.

Lemma fsMkdirs_held l f :
  (∀ a q, a ∈ l → follow kernelLinks ln a = Some q → existsAt o0 q = true ∨ inside R q) →
  heldFS f → heldFS (fsMkdirs l f).2.
Proof.
  revert f. induction l as [|a l IH]; intros [l' o] Hl Hh; [done|]. cbn [fsMkdirs fst snd].
  pose proof Hh as [Heq Ho]. simpl in Heq, Ho. subst l'.
  assert (∀ f, heldFS f → heldFS (fsMkdirs l f).2) as IH'.
  { intros f Hf. apply IH; [|done]. intros b q Hb. apply Hl. by right. }
  destruct (follow kernelLinks ln a) as [q|] eqn:E; [|done].
  destruct (o !! q) as [[d|]|] eqn:Eq; [done|auto|]. case_bool_decide as Hq; [auto|].
  case_bool_decide; [|done]. apply IH'. split; [done|]. intros x Hx. simpl.
  rewrite lookup_insert_ne; [by apply Ho|]. intros ->. apply Hx.
  destruct (Hl a x) as [Hex|?]; [by left|done| |done]. rewrite Ho in Eq by done.
  unfold existsAt in Hex. by rewrite Eq, bool_decide_eq_false_2 in Hex.
Qed.

Lemma stays_ensure p :
  (∀ a q, a ∈ ancestors p → follow kernelLinks ln a = Some q → existsAt o0 q = true ∨ inside R q) →
  stays (ensureDirectoryExists p).
Proof.
  intros Hp. unfold ensureDirectoryExists. apply stays_bind.
  - apply triple_catch. by apply stays_look.
  - intros [n|e]; [apply stays_ret|]. case_bool_decide; [|apply stays_ret].
    apply stays_fsCall. intros f. by apply fsMkdirs_held.
Qed.

(** *** Calls on directory entries *)

Context (HR : R ≠ "/").

Lemma inside_not_top e : canonical R → inside R e → e ≠ "/".
Proof.
  intros [_ Hc] [->|Hp] ->; [done|]. apply HasPrefix_spec in Hp as [t Ht].
  rewrite Hc in Ht. injection Ht as Ht. symmetry in Ht.
  rewrite append_assoc in Ht. by apply append_eq_nil in Ht as [_ ?].
Qed.

Lemma inside_under e x : canonical R → inside R e → under e x → inside R x.
Proof.
  intros Hc He [->|Hb]; [done|]. right. pose proof (inside_not_top e Hc He) as Hne.
  unfold below in Hb. rewrite bool_decide_eq_false_2 in Hb by done.
  apply HasPrefix_spec in Hb as [t ->]. destruct He as [->|[u ->]%HasPrefix_spec].
  - apply HasPrefix_append.
  - apply HasPrefix_spec. exists (u +:+ "/" +:+ t). by rewrite !append_assoc.
Qed.

Context (Hc : canonical R).

Lemma ends_remove p :
  (∀ e, entry kernelLinks ln p = Some e → inside R e) → ends (fsCall (fsRemove p)).
Proof.
  intros Hp. apply ends_fsCall. intros [l o] [Heq Ho] x Hx _. simpl in Heq, Ho. subst l.
  unfold fsRemove. cbn [fst snd]. destruct (entry kernelLinks ln p) as [e|]; [|by rewrite Ho].
  assert (e ≠ x) as Hne by (intros ->; by apply Hx, Hp).
  destruct (ln !! e); [simpl; by rewrite Ho, lookup_delete_ne|].
  case_match; [simpl; by rewrite Ho|]. unfold osRemove.
  repeat case_match; simplify_eq/=; by rewrite ?lookup_delete_ne, Ho.
Qed.

Lemma ends_removeAll p :
  (∀ e, entry kernelLinks ln p = Some e → inside R e) → ends (fsCall (fsRemoveAll p)).
Proof.
  intros Hp. apply ends_fsCall. intros [l o] [Heq Ho] x Hx _. simpl in Heq, Ho. subst l.
  unfold fsRemoveAll. cbn [fst snd]. destruct (entry kernelLinks ln p) as [e|]; [|by rewrite Ho].
  assert (e ≠ x) as Hne by (intros ->; by apply Hx, Hp).
  destruct (ln !! e) eqn:Ee; [simpl; by rewrite Ho, lookup_delete_ne|]. unfold osRemoveAll. simpl.
  assert (below e x = false) as Hb.
  { apply not_true_iff_false. intros Hb. apply Hx, (inside_under e); [done|by apply Hp|by right]. }
  rewrite !map_lookup_filter, Ho by done. split.
  - destruct (o0 !! x); [simpl|done]. by rewrite option_guard_True.
  - destruct (ln !! x); [simpl|done]. by rewrite option_guard_True.
Qed.

Lemma fsRename_conf p q f :
  (∀ e, entry kernelLinks ln p = Some e → inside R e) →
  (∀ e, entry kernelLinks ln q = Some e → inside R e) →
  heldFS f → confFS (fsRename p q f).2.
Proof.
  destruct f as [l o]. intros Hp Hq [Heq Ho] x Hx _. simpl in Heq, Ho. subst l.
  unfold fsRename. cbn [fst snd].
  destruct (entry kernelLinks ln p) as [a|]; [|by rewrite Ho].
  destruct (entry kernelLinks ln q) as [b|]; [|by rewrite Ho].
  assert (inside R a ∧ inside R b) as [Ha Hb] by auto.
  assert (a ≠ x ∧ b ≠ x) as [Hax Hbx] by (split; by intros ->).
  assert (a ≠ "/") as Htop by (by apply inside_not_top).
  assert (∀ e, inside R e → below e x = false) as Hbel.
  { intros e He. apply not_true_iff_false. intros ?. apply Hx, (inside_under e); [done..|by right]. }
  assert ((osRename a b o).2 !! x = o0 !! x) as Hren by (rewrite osRename_keeps; auto).
  destruct (ln !! a) as [t|], (ln !! b) as [u|]; cbn [fst snd].
  1,2: destruct (isDirAt o b); [by rewrite Ho|]; destruct (negb (parentOk o b)); [by rewrite Ho|];
    simpl; by rewrite lookup_delete_ne, Ho, lookup_insert_ne, lookup_delete_ne.
  - destruct (isDirAt o a); [by rewrite Ho|]. destruct (osRename a b o) as [[] o']; simpl in *;
      by rewrite ?lookup_delete_ne.
  - destruct (_ && _ && _); [by rewrite Ho|]. destruct (osRename a b o) as [r o']; simpl in *.
    split; [done|]. destruct (_ && _); [|done]. apply lookup_moved; [by apply moved_id; auto|].
    intros k Hk. eapply moved_keeps; eauto.
Qed.

Lemma ends_rename p q :
  (∀ e, entry kernelLinks ln p = Some e → inside R e) →
  (∀ e, entry kernelLinks ln q = Some e → inside R e) → ends (fsCall (fsRename p q)).
Proof. intros Hp Hq. apply ends_fsCall. intros f. by apply fsRename_conf. Qed.

(** *** The temporary file *)

Context (t : string) (d : bytes).
Context (Hfile : o0 !! t = Some (FileN d)) (Hout : ¬ inside R t) (HP : ∀ x, P x ↔ x = t).
Context (Hno : walk kernelLinks ln [] (segsOf t) = Some (kernelLinks, segsOf t)).
Context (Hnl : ln !! t = None).

Lemma temp_entry : entry kernelLinks ln t = Some t.
Proof.
  unfold entry. destruct (decide (segsOf t = [])) as [Hs|Hs].
  { rewrite Hs. simpl removelast. rewrite walk_nil. by rewrite bool_decide_eq_true_2. }
  destruct (exists_last Hs) as (l & x & Hl). rewrite Hl, removelast_snoc. rewrite Hl, walk_app in Hno.
  destruct (walk kernelLinks ln [] l) as [[k r]|] eqn:E; [|done].
  cbn [mbind option_bind fst snd] in Hno. apply walk_left in E as Hk.
  apply walk_left in Hno as Hk'. by rewrite bool_decide_eq_true_2 by lia.
Qed.

Lemma temp_follow l : l ⊆ ln → follow kernelLinks l t = Some t.
Proof.
  intros Hsub. unfold follow.
  assert (∀ b m r, walk kernelLinks ln b m = Some (kernelLinks, r) →
            walk kernelLinks l b m = Some (kernelLinks, r)) as Hw.
  { intros b m. revert b. induction m as [|x m IH]; intros b r; [by rewrite !walk_nil|].
    rewrite !walk_cons. destruct (ln !! absPath (b ++ [x])) as [u|] eqn:E.
    - destruct kernelLinks; [done|]. intros ?%walk_left. lia.
    - rewrite (lookup_weaken_None _ _ _ E Hsub). apply IH. }
  - by rewrite (Hw _ _ _ Hno), bool_decide_eq_true_2.
Qed.

(** The rename of the temporary file: done, without effect, or done and reported as
    failed. *)
Lemma fsRename_temp p f :
  (∀ e, entry kernelLinks ln p = Some e → inside R e) →
  heldFS f →
  confFS (fsRename t p f).2 ∧
  (heldFS (fsRename t p f).2 ∨
   fileAt (fsRename t p f).2.2 t = None ∧ (fsRename t p f).2.1 ⊆ ln).
Proof.
  destruct f as [l o]. intros Hp Hh. pose proof Hh as [Heq Ho]. simpl in Heq, Ho. subst l.
  unfold fsRename. cbn [fst snd]. rewrite temp_entry.
  destruct (entry kernelLinks ln p) as [b|]; [|by auto using heldFS_conf].
  assert (inside R b) as Hb by auto. assert (t ≠ b) as Htb by (by intros ->).
  assert (o !! t = Some (FileN d)) as Hot by (by rewrite Ho).
  assert (isDirAt o t = false) as -> by (unfold isDirAt; by rewrite Hot).
  rewrite Hnl. unfold osRename. rewrite Hot.
  assert (∀ l, l ⊆ ln → (∀ x, x ≠ b → l !! x = ln !! x) →
    confFS (l, <[b := FileN d]> (delete t o)) ∧
    (heldFS (l, <[b := FileN d]> (delete t o)) ∨
     fileAt (<[b := FileN d]> (delete t o)) t = None ∧ l ⊆ ln)) as Hdone.
  { intros l Hsub Hl. split.
    - intros x Hx Hxt. rewrite HP in Hxt. simpl. assert (x ≠ b) by (by intros ->).
      rewrite lookup_insert_ne, lookup_delete_ne, Ho by done. split; [done|by apply Hl].
    - right. split; [|done]. by rewrite fileAt_insert_ne, fileAt_delete. }
  assert (confFS (ln, o) ∧ (heldFS (ln, o) ∨ fileAt o t = None ∧ ln ⊆ ln)) as Hsame
    by auto using heldFS_conf.
  destruct (ln !! b) as [u|]; cbn [andb].
  - destruct (isDirAt o b); [exact Hsame|]. destruct (negb (parentOk o b)); [exact Hsame|]. simpl.
    apply Hdone; [apply delete_subseteq|]. intros. by rewrite lookup_delete_ne.
  - destruct (isDirAt o b); [exact Hsame|]. destruct (negb (parentOk o b)); [exact Hsame|]. simpl.
    by apply Hdone.
Qed.

Lemma read_gone (w : LocalStorage * Sys) :
  symlinks w.1 ⊆ ln → fileAt (os w.2) t = None →
  ∃ e w', sysCall t osReadFile w = (Err e, w') ∧ fsOf w' = fsOf w.
Proof.
  intros Hsub Hn. destruct w as [ls s]. simpl in *.
  assert (following t osReadFile (symlinks ls, os s) =
    ((osReadFile t (os s)).1, (symlinks ls, os s))) as Hf.
  { unfold following. cbn [fst snd]. by rewrite temp_follow. }
  assert (∃ e, (osReadFile t (os s)).1 = Err e) as [e He].
  { unfold osReadFile, fileAt in *. destruct (os s !! t) as [[]|]; [done|by eexists..]. }
  unfold sysCall, fsCall, faulty. rewrite Hf, He. destruct (net _); simpl; by eexists _, _.
Qed.

Lemma ends_removeTemp : ends (fsCall (fsRemove t)).
Proof.
  apply ends_fsCall. intros [l o] [Heq Ho] x Hx Hxt. simpl in Heq, Ho. subst l. rewrite HP in Hxt.
  unfold fsRemove. cbn [fst snd]. rewrite temp_entry, Hnl.
  case_match; [simpl; by rewrite Ho|]. unfold osRemove.
  repeat case_match; simplify_eq/=; by rewrite ?lookup_delete_ne, Ho.
Qed.

Lemma ends_tempTail p :
  (∀ e, entry kernelLinks ln p = Some e → inside R e) →
  (∀ q, follow kernelLinks ln p = Some q → inside R q) → ends (tempTail t p).
Proof.
  intros He Hp w Hw. unfold tempTail, mbind, M_bind, catch.
  destruct (fsCall_fs (fsRename t p) w) as [Hr Hf].
  destruct (fsRename_temp p (fsOf w) He (proj2 Hw)) as [Hcf Hor].
  destruct (fsCall (fsRename t p) w) as [[u|e] w1]; simpl in Hr, Hf.
  - simpl. unfold conf. destruct Hf as [-> | ->]; [|done]. apply heldFS_conf, Hw.
  - assert (held w1 ∨ conf w1 ∧ fileAt (os w1.2) t = None ∧ symlinks w1.1 ⊆ ln) as [Hh|(Hcw & Hn & Hsub)].
    { unfold held, conf. destruct Hf as [Hf|Hf]; rewrite Hf.
      - left. split; [rewrite Hr|]; apply Hw.
      - destruct Hor as [?|[Hn Hsub]]; [left; split; [rewrite Hr; apply Hw|done]|right].
        rewrite <-Hf in Hn, Hsub. by split_and!. }
    + eapply ends_bind; [apply triple_wrapErr; by apply stays_look| |exact Hh]. intros src.
      apply ends_bind.
      { apply triple_wrapErr, stays_at; [done|]. intros q o x Hx. unfold osCreate, osWriteFile.
        repeat case_match; simpl; by rewrite ?lookup_insert_ne. }
      intros _. apply ends_bind.
      { apply triple_wrapErr, stays_at; [done|]. intros q o x Hx. unfold copyInto.
        repeat case_match; simpl; by rewrite ?lookup_insert_ne. }
      intros _. apply triple_wrapErr, ends_removeTemp.
    + unfold wrapErr at 1. destruct (read_gone w1 Hsub Hn) as (e' & w2 & -> & Hw2). simpl.
      unfold conf. by rewrite Hw2.
Qed.
End calls.

(** ** The operations of the local storage *)

Lemma ancestors_prefix l a :
  Forall ordinary l → a ∈ ancestors (absPath l) → ∃ m n, l = m ++ n ∧ a = absPath m.
Proof.
  intros Hl Ha. unfold ancestors in Ha. change (HasPrefix (absPath l) "/") with true in Ha.
  assert (stripSlashes (absPath l) = Join l slash) as Hs.
  { change (stripSlashes (absPath l)) with (stripSlashes (Join l slash)). apply stripSlashes_id.
    apply Join_no_slash_prefix. eapply Forall_impl; [done|]. by intros ? (?&?&?&?). }
  rewrite Hs in Ha. destruct (decide (l = [])) as [->|Hne].
  - apply list_elem_of_singleton in Ha as ->. by exists [], [].
  - rewrite Split_Join_ordinary in Ha by done. apply list_elem_of_fmap in Ha as (n & -> & _).
    exists (take n l), (drop n l). by rewrite take_drop.
Qed.

Section operations.
Context (ls0 : LocalStorage) (s0 : Sys) (R : string) (P : string → Prop).
Notation ln := (symlinks ls0).
Notation o0 := (os s0).
Context (Hroot : rooted ls0) (Ht : treeOk o0) (Hln : linksOk ln o0) (Hnd : noDangling ln o0).
Context (HR : EvalSymlinks ln o0 (rootDir ls0) = Some R) (Htop : R ≠ "/").
Notation stays := (stays ls0 s0 R).
Notation ends := (ends ls0 s0 R P).
Notation conf := (conf ls0 s0 R P).

Lemma root_resolved : ∃ rr, Forall ordinary rr ∧ R = absPath rr ∧ existsAt o0 R = true.
Proof.
  destruct Hroot as (rs & Hrs & Heq). pose proof (EvalSymlinks_abs ln o0 Hln rs Hrs) as He.
  rewrite Heq in HR. rewrite HR in He. destruct He as (r & [_ Hx] & Hr & Hrr). subst. by exists r.
Qed.

Lemma root_canonical : canonical R.
Proof. destruct root_resolved as (rr & ? & -> & _). by apply canonical_absPath. Qed.

(** What ValidatePath accepts. *)
Record good (p : string) : Prop := {
  good_follow q : follow kernelLinks ln p = Some q → inside R q;
  good_way a q : a ∈ ancestors p ∨ a ∈ ancestors (Dir p) → follow kernelLinks ln a = Some q →
    existsAt o0 q = true ∨ inside R q;
  good_entry e : noWayIn ln R → entry kernelLinks ln p = Some e → inside R e
}.

Lemma validatePath_good k : validatePath ls0 o0 k = Ok tt → good (getFullPath ls0 k).
Proof.
  intros Hv. destruct (full_abs ls0 k Hroot) as (l & Hl & Hfull).
  destruct root_resolved as (rr & Hrr & HRr & HRx).
  destruct (validatePath_deepest ln o0 Hln ls0 k l R Hroot eq_refl HR Hl Hfull Hv)
    as (l1 & l2 & r & Hd & Hin).
  rewrite Hfull. split.
  - intros q. rewrite follow_abs by done. destruct (walk _ _ _ _) as [[k' q']|] eqn:E; [|done].
    intros [= <-]. by eapply (walk_inside ln o0 Hln Hnd l l1 l2 r R Hl Hd Hin), E; apply links_le.
  - intros a q Ha.
    assert (∃ m n, l = m ++ n ∧ a = absPath m) as (m & n & Hmn & ->).
    { destruct Ha as [Ha|Ha]; [by apply ancestors_prefix in Ha|].
      destruct (decide (l = [])) as [->|Hne]; [by apply (ancestors_prefix []) in Ha|].
      destruct (exists_last Hne) as (l' & x & ->). rewrite Dir_absPath in Ha by done.
      apply ancestors_prefix in Ha as (m & n & -> & ->); [|by apply Forall_app in Hl as [? _]].
      exists m, (n ++ [x]). by rewrite app_assoc. }
    assert (Forall ordinary m) as Hm by (rewrite Hmn in Hl; by apply Forall_app in Hl as [? _]).
    rewrite follow_abs by done. destruct (walk _ _ _ m) as [[k' q']|] eqn:E; [|done].
    intros [= <-]. by eapply (walk_way ln o0 Ht Hln Hnd l l1 l2 r R Hl Hd rr Hrr HRr HRx Hin), E;
      [apply links_le|].
  - intros e Hno He. destruct (decide (l = [])) as [->|Hne].
    + unfold entry in He. change (removelast (segsOf (absPath []))) with (@nil string) in He.
      rewrite walk_nil, bool_decide_eq_true_2 in He by done. injection He as <-.
      eapply (walk_inside ln o0 Hln Hnd [] l1 l2 r R Hl Hd Hin kernelLinks); [apply links_le|].
      apply walk_nil.
    + destruct (exists_last Hne) as (l' & x & ->). rewrite entry_abs in He by done.
      destruct (walk _ _ _ l') as [[k' q']|] eqn:E; [|done]. injection He as <-.
      eapply (entry_inside _ _ Hln Hnd (l' ++ [x])); eauto using links_le.
Qed.

Lemma stays_check k : stays (check k).
Proof. apply stays_same. by intros [ls s]. Qed.

(** A guarded operation runs on accepted paths. *)
Lemma check_then {A} k (m : M (LocalStorage * Sys) A) :
  (validatePath ls0 o0 k = Ok tt → conf (m (ls0, s0)).2) → conf ((check k ⨟ m) (ls0, s0)).2.
Proof.
  intros Hm. unfold mbind, M_bind, check. destruct (validatePath ls0 o0 k) as [[]|e]; [by apply Hm|].
  by intros x _ _.
Qed.

Lemma held_start : held ls0 s0 R (ls0, s0).
Proof. done. Qed.

Lemma ends_start {A} (m : M (LocalStorage * Sys) A) : ends m → conf (m (ls0, s0)).2.
Proof. intros Hm. specialize (Hm _ held_start). by destruct (m (ls0, s0)) as [[] w]. Qed.

Lemma stays_wrapErr {A} msg (m : M (LocalStorage * Sys) A) : stays m → stays (wrapErr msg m).
Proof. apply triple_wrapErr. Qed.

Lemma ends_wrapErr {A} msg (m : M (LocalStorage * Sys) A) : ends m → ends (wrapErr msg m).
Proof. apply triple_wrapErr. Qed.

Lemma stays_catch {A} (m : M (LocalStorage * Sys) A) : stays m → stays (catch m).
Proof. apply triple_catch. Qed.

Ltac staying :=
  repeat lazymatch goal with
  | |- Confine.stays _ _ _ (mbind _ (full _)) => apply stays_full
  | |- Confine.stays _ _ _ (mbind _ _) => apply stays_bind; [|intros ?]
  | |- Confine.ends _ _ _ _ (mbind _ (full _)) => apply ends_full
  | |- Confine.ends _ _ _ _ (mbind _ _) => apply ends_bind; [|intros ?]
  | |- Confine.stays _ _ _ (check _) => apply stays_check
  | |- Confine.stays _ _ _ (getLock _) => apply stays_getLock
  | |- Confine.stays _ _ _ (mret _) => apply stays_ret
  | |- Confine.stays _ _ _ (guard ?b _) => apply stays_same; intros w; unfold guard; by destruct b
  | |- Confine.stays _ _ _ (wrapErr _ _) => apply stays_wrapErr
  | |- Confine.ends _ _ _ _ (wrapErr _ _) => apply ends_wrapErr
  | |- Confine.stays _ _ _ (catch _) => apply stays_catch
  | |- Confine.stays _ _ _ (if ?b then _ else _) => destruct b
  end.

(** *** Operations on what a path leads to *)

Lemma stays_write p (op : string → OS → res unit * OS) :
  good p → (∀ q o x, x ≠ q → (op q o).2 !! x = o !! x) → stays (sysCall p op).
Proof. intros Hg Hop. apply stays_at; [apply Hg|done]. Qed.

Lemma write_else q d o x : x ≠ q → (osWriteFile q d o).2 !! x = o !! x.
Proof. intros. unfold osWriteFile. repeat case_match; simpl; by rewrite ?lookup_insert_ne. Qed.

Lemma openCreate_else q o x : x ≠ q → (osOpenCreate q o).2 !! x = o !! x.
Proof. intros. unfold osOpenCreate. destruct (o !! q) as [[]|]; [done..|]. by apply write_else. Qed.

Lemma writeAt_else q d off o x : x ≠ q → (fWriteAt q d off o).2 !! x = o !! x.
Proof.
  intros. unfold fWriteAt. destruct (off <? 0)%Z; [done|]. destruct (int64_max <? _)%Z; [done|].
  destruct (o !! q) as [[]|]; [simpl|done..]. by rewrite lookup_insert_ne.
Qed.

Lemma copyInto_else q d o x : x ≠ q → (copyInto q d o).2 !! x = o !! x.
Proof. intros. unfold copyInto. repeat case_match; simpl; by rewrite ?lookup_insert_ne. Qed.

Lemma stays_ensure_good p : good p → stays (ensureDirectoryExists (Dir p)).
Proof. intros Hg. apply stays_ensure. intros a q Ha. eapply good_way; eauto. Qed.

Lemma content_stays k d off rd :
  good (getFullPath ls0 k) →
  let p := getFullPath ls0 k in
  stays (sysCall p (λ q, osWriteFile q d)) ∧
  stays (sysCall p osOpenCreate) ∧
  stays (sysCall p (λ q, fWriteAt q d off)) ∧
  stays (sysCall p osCreate) ∧
  stays (sysCall p (λ q, copyInto q (rdata rd))).
Proof.
  intros Hg. split_and!; apply stays_write; try done; intros q o x Hx.
  - by apply write_else.
  - by apply openCreate_else.
  - by apply writeAt_else.
  - by apply write_else.
  - by apply copyInto_else.
Qed.

Lemma conf_content k d off rd :
  conf (LWrite k d (ls0, s0)).2 ∧ conf (LWriteAt k d off (ls0, s0)).2 ∧
  conf (LWriteFromReader k rd (ls0, s0)).2 ∧ conf (LCreateDirectory k (ls0, s0)).2.
Proof.
  split_and!; apply check_then; intros Hg%validatePath_good; apply ends_start, stays_ends;
    pose proof (content_stays k d off rd Hg) as (H1 & H2 & H3 & H4 & H5);
    pose proof (stays_ensure_good _ Hg) as He; staying; try done.
  - destruct (rerr rd); by apply stays_same.
  - apply stays_fsCall. intros f. apply fsMkdirs_held. intros p q Hp. eapply good_way; eauto.
Qed.

Lemma conf_look k n off :
  conf (LRead k (ls0, s0)).2 ∧ conf (LReadAt k n off (ls0, s0)).2 ∧
  conf (LOpenReader k (ls0, s0)).2 ∧ conf (LExists k (ls0, s0)).2 ∧
  conf (LList k (ls0, s0)).2 ∧ conf (LGetSize k (ls0, s0)).2.
Proof.
  unfold LRead, LReadAt, LOpenReader, LExists, LList, LGetSize.
  split_and!; apply ends_start, stays_ends; staying; apply stays_look; intros q o;
    unfold osReadDir, osReadFile, osOpen, fReadAt, osStat; by repeat case_match.
Qed.

(** *** What is read *)

Lemma fsCall_run {A} (op : FS → res A * FS) w a w' :
  fsCall op w = (Ok a, w') → op (fsOf w) = (Ok a, fsOf w').
Proof.
  destruct w as [ls s]. unfold fsCall, faulty, fsOf. simpl.
  destruct (net _); [|done| |done]; destruct (op _) as [r [l o]]; simpl; [|done].
  by intros [= -> <-].
Qed.

Lemma sysCall_inside {A} p (op : string → OS → res A * OS) s a w' :
  good p → sysCall p op (ls0, s) = (Ok a, w') →
  ∃ q, inside R q ∧ op q (os s) = (Ok a, os w'.2) ∧ symlinks w'.1 = ln ∧
       follow kernelLinks ln p = Some q.
Proof.
  intros Hg Hr. unfold sysCall in Hr. apply fsCall_run in Hr. unfold following, fsOf in Hr. cbn [fst snd] in Hr.
  destruct (follow kernelLinks ln p) as [q|] eqn:E; [|done]. exists q. split; [by apply Hg|].
  destruct (op q (os s)). by simplify_eq.
Qed.

Lemma read_inside k d w' :
  LRead k (ls0, s0) = (Ok d, w') ∨ LOpenReader k (ls0, s0) = (Ok d, w') →
  ∃ x, inside R x ∧ fileAt o0 x = Some d.
Proof.
  assert (∀ w, check k (ls0, s0) = (Ok tt, w) → w = (ls0, s0) ∧ good (getFullPath ls0 k)) as Hck.
  { intros w [= Hv <-]. split; [done|by apply validatePath_good]. }
  intros [Hr|Hr]; unfold LRead, LOpenReader, full in Hr; run_ok Hr;
    destruct x; destruct (Hck _ Hr0) as [-> Hg]; subst;
    destruct (sysCall_inside _ _ _ _ _ Hg Hr) as (q & Hq & Ho & _); exists q; (split; [done|]);
    unfold osReadFile in Ho; injection Ho as Ho _; unfold fileAt;
    by destruct (o0 !! q) as [[]|]; simplify_eq.
Qed.

Lemma readAt_inside k n off x w' :
  LReadAt k n off (ls0, s0) = (Ok x, w') →
  ∃ q d, inside R q ∧ fileAt o0 q = Some d ∧ x = readAt d (Z.to_nat off) (Z.to_nat n).
Proof.
  intros Hr. unfold LReadAt, full in Hr. run_ok Hr.
  assert (good (getFullPath ls0 k)) as Hg by (injection Hr0 as Hv _; destruct x0; by apply validatePath_good).
  injection Hr0 as _ <-. subst. bool_prop. destruct x1.
  unfold sysCall in *. apply fsCall_run in Hr1, Hr. unfold following, fsOf in Hr1, Hr. cbn [fst snd] in Hr1.
  destruct (follow kernelLinks ln _) as [q|] eqn:E; [|done].
  unfold osOpen in Hr1. injection Hr1 as Hopen Hl Ho. rewrite <-Hl, <-Ho in Hr. cbn [fst snd] in Hr.
  change (getFullPath (ls0, s0).1 k) with (getFullPath ls0 k) in *.
  rewrite E in Hr. unfold fReadAt in Hr. rewrite (proj2 (Z.ltb_ge off 0)) in Hr by done.
  exists q. unfold fileAt. destruct (o0 !! q) as [[d|]|]; [|done..]. exists d.
  split; [by apply Hg|]. injection Hr as <- _. done.
Qed.

(** *** Operations on directory entries *)

Context (Hno : noWayIn ln R).

Lemma conf_entry k k' :
  conf (LRemove k (ls0, s0)).2 ∧ conf (LRemoveDirectory k (ls0, s0)).2 ∧
  conf (LRename k k' (ls0, s0)).2.
Proof.
  split_and!; apply check_then; intros Hg%validatePath_good.
  - apply ends_start. staying. apply ends_remove. intros e. by apply Hg.
  - apply ends_start. staying. apply ends_removeAll; [done|apply root_canonical|].
    intros e. by apply Hg.
  - apply check_then. intros Hg'%validatePath_good. apply ends_start.
    destruct (bool_decide _); [apply stays_ends, stays_ret|]. staying.
    + by apply stays_ensure_good.
    + apply ends_rename; [done|apply root_canonical|..]; intros e; by apply Hg || apply Hg'.
Qed.

Lemma conf_temp k t d :
  o0 !! t = Some (FileN d) → ¬ inside R t → (∀ x, P x ↔ x = t) →
  walk kernelLinks ln [] (segsOf t) = Some (kernelLinks, segsOf t) → ln !! t = None →
  conf (LWriteFromTempFile k t (ls0, s0)).2.
Proof.
  intros Hf Hout HP Hw Hnl. apply check_then. intros Hg%validatePath_good.
  unfold mbind at 1, M_bind at 1, gets. apply ends_start.
  apply ends_bind; [by apply stays_same|intros _].
  apply ends_bind; [apply stays_getLock|intros _]. apply ends_full.
  apply ends_bind; [by apply stays_wrapErr, stays_ensure_good|intros _].
  apply (ends_tempTail ls0 s0 R P t d); try done; intros e; by apply Hg.
Qed.
End operations.

(** ** The property *)

(** The calls that act on a directory entry and not on what it leads to. *)
Definition actsOnEntry (o : storeOp) : bool :=
  match o with
  | SWriteFromTempFile _ _ | SRemove _ | SRename _ _ | SRemoveDirectory _ => true
  | _ => false
  end.

Definition isTemp (o : storeOp) (x : string) : Prop :=
  match o with SWriteFromTempFile _ t => x = t | _ => False end.

(** The temporary file is an ordinary file outside the root, with no link on its path. *)
Definition tempOk (ls : LocalStorage) (s : Sys) (R : string) (o : storeOp) : Prop :=
  match o with
  | SWriteFromTempFile _ t =>
      is_Some (fileAt (os s) t) ∧ ¬ inside R t ∧ symlinks ls !! t = None ∧
      walk kernelLinks (symlinks ls) [] (segsOf t) = Some (kernelLinks, segsOf t)
  | _ => True
  end.

(** C20: no path traversal, not even through symbolic links. [R] is the root directory
    with its links resolved. Whatever path a call on the local backend is given, with
    [".."] segments or through links inside the root that lead out of it, everything
    outside [R], files, directories and links, is afterwards as it was (but for the
    temporary file of WriteFromTempFile), whatever fails on the way; and what a read
    returns are the contents of a file inside [R]. The links may be any whose
    resolution, where it ends, exists; for the calls that act on a directory entry no
    link outside [R] may lead into it. Both conditions are needed
    ([dangling_link_escapes], [link_outside_removed]). *)
Theorem local_no_traversal (ls : LocalStorage) (s : Sys) (R : string) (o : storeOp) :
  rooted ls → treeOk (os s) → linksOk (symlinks ls) (os s) → noDangling (symlinks ls) (os s) →
  EvalSymlinks (symlinks ls) (os s) (rootDir ls) = Some R → R ≠ "/" →
  (actsOnEntry o = true → noWayIn (symlinks ls) R) → tempOk ls s R o →
  (let w' := runOp (ls, s) o in
   ∀ x, ¬ inside R x → ¬ isTemp o x →
     os w'.2 !! x = os s !! x ∧ symlinks w'.1 !! x = symlinks ls !! x) ∧
  (∀ k d w', Read k (ls, s) = (Ok d, w') ∨ OpenReader k (ls, s) = (Ok d, w') →
     ∃ x, inside R x ∧ fileAt (os s) x = Some d) ∧
  (∀ k n off d w', ReadAt k n off (ls, s) = (Ok d, w') →
     ∃ x c, inside R x ∧ fileAt (os s) x = Some c ∧ d = readAt c (Z.to_nat off) (Z.to_nat n)).
Proof.
  intros Hr Ht Hl Hd HR Htop Hno Htemp. split_and!; last first.
  { intros k n off d w' E. by eapply readAt_inside. }
  { intros k d w' E. by eapply read_inside. }
  cbv zeta. change (conf ls s R (isTemp o) (runOp (ls, s) o)).
  pose proof (conf_content ls s R (isTemp o) Hr Ht Hl Hd HR Htop) as Hcontent.
  pose proof (conf_look ls s R (isTemp o)) as Hlook.
  assert (actsOnEntry o = true → ∀ k k', conf ls s R (isTemp o) (LRemove k (ls, s)).2 ∧
    conf ls s R (isTemp o) (LRemoveDirectory k (ls, s)).2 ∧
    conf ls s R (isTemp o) (LRename k k' (ls, s)).2) as Hentry.
  { intros Ho k k'. apply conf_entry; auto. }
  destruct o as [k d|k d off|k t|k rd|k|k n off|k|k|k|k|k|k k'|k|k]; cbn [runOp].
  - apply (Hcontent k d 0%Z (Reader [] None)).
  - apply (Hcontent k d off (Reader [] None)).
  - destruct Htemp as ([d Hf] & Hout & Hnl & Hw). unfold fileAt in Hf.
    destruct (os s !! t) as [[d'|]|] eqn:E; [|done..]. eapply conf_temp; eauto.
  - apply (Hcontent k [] 0%Z rd).
  - apply (Hlook k 0%Z 0%Z).
  - apply (Hlook k n off).
  - apply (Hlook k 0%Z 0%Z).
  - by apply (Hentry eq_refl k k).
  - apply (Hlook k 0%Z 0%Z).
  - apply (Hlook k 0%Z 0%Z).
  - apply (Hlook k 0%Z 0%Z).
  - by apply Hentry.
  - apply (Hcontent k [] 0%Z (Reader [] None)).
  - by apply (Hentry eq_refl k k).
Qed.

(** A disk with links: one stays inside the root, one leads out. *)
Definition linkedDisk (links : Links) (o : OS) : LocalStorage * Sys :=
  (setLinks localDisk.1 links, setOS o quiet).

Definition demoTree : OS :=
  {["/data" := DirN; "/data/sub" := DirN; "/etc" := DirN; "/etc/passwd" := FileN [Byte.x70];
    "/tmp" := DirN; "/tmp/t" := FileN [Byte.x74]]}.

Definition demoLinks : Links := {["/data/in" := "/data/sub"; "/data/out" := "/etc"]}.

Lemma local_no_traversal_witness :
  (let w := linkedDisk demoLinks demoTree in
   let w' := runOp w (SWriteFromTempFile "in/f" "/tmp/t") in
   (∀ x, ¬ inside "/data" x → ¬ x = "/tmp/t" →
      os w'.2 !! x = os w.2 !! x ∧ symlinks w'.1 !! x = symlinks w.1 !! x) ∧
   (∀ k d w', Read k w = (Ok d, w') ∨ OpenReader k w = (Ok d, w') →
      ∃ x, inside "/data" x ∧ fileAt (os w.2) x = Some d) ∧
   (∀ k n off d w', ReadAt k n off w = (Ok d, w') →
      ∃ x c, inside "/data" x ∧ fileAt (os w.2) x = Some c ∧
        d = readAt c (Z.to_nat off) (Z.to_nat n))) ∧
  (let w := linkedDisk demoLinks demoTree in
   fileAt (os (runOp w (SWriteFromTempFile "in/f" "/tmp/t")).2) "/data/sub/f" = Some [Byte.x74] ∧
   (Read "out/passwd" w).1 = Err (ErrMsg "path traversal detected") ∧
   (Write "out/new" [] w).1 = Err (ErrMsg "path traversal detected") ∧
   (Read "../etc/passwd" w).1 = Err (ErrMsg "path traversal detected")).
Proof.
  split; [|vm_compute; split_and!; reflexivity].
  apply (local_no_traversal (setLinks localDisk.1 demoLinks) (setOS demoTree quiet) "/data"
           (SWriteFromTempFile "in/f" "/tmp/t")).
  - apply localDisk_rooted.
  - apply (bool_decide_eq_true_1 (treeOk demoTree)). vm_compute. reflexivity.
  - apply (bool_decide_eq_true_1 (linksOk demoLinks demoTree)). vm_compute. reflexivity.
  - apply (bool_decide_eq_true_1 (noDangling demoLinks demoTree)). vm_compute. reflexivity.
  - vm_compute. reflexivity.
  - discriminate.
  - intros _. apply (bool_decide_eq_true_1 (noWayIn demoLinks "/data")). vm_compute. reflexivity.
  - split_and!; [by eexists| |vm_compute; reflexivity..].
    apply (bool_decide_eq_true_1 (¬ inside "/data" "/tmp/t")). vm_compute. reflexivity.
Defined.

(** A link inside the root whose target does not exist yet: EvalSymlinks fails on it,
    its directory is resolved in its place, and the write creates the target. *)
Lemma dangling_link_escapes :
  let w := linkedDisk {["/data/d" := "/etc/cron"]} demoTree in
  (Write "d" [Byte.x61] w).1 = Ok tt ∧
  fileAt (os (Write "d" [Byte.x61] w).2.2) "/etc/cron" = Some [Byte.x61].
Proof. vm_compute. split; reflexivity. Qed.

(** A link outside the root that leads into it passes the guard, and the calls that act
    on the link itself change the directory outside. *)
Lemma link_outside_removed :
  let links := {["/data/out" := "/etc"; "/etc/back" := "/data/sub"]} in
  let w := linkedDisk links demoTree in
  (Remove "out/back" w).1 = Ok tt ∧ symlinks w.1 !! "/etc/back" = Some "/data/sub" ∧
  symlinks (Remove "out/back" w).2.1 !! "/etc/back" = None.
Proof. vm_compute. split_and!; reflexivity. Qed.
