(* ===== verification/Sql.v ===== *)
(** * The SQL engine behind internal/database

    SQLite or PostgreSQL is not part of the repository: [SqlEngine] lists the
    statements the code issues and [SqlLaws] what the SQL standard says of them
    under PRIMARY KEY and UNIQUE constraints. [ListEngine] is a concrete engine
    that satisfies the laws. LIKE with its ESCAPE character is a function here,
    and so are ORDER BY, LIMIT and OFFSET. *)

From S2P Require Export OS.
From Stdlib Require Import Ascii.

(** ** Tables *)

(** The columns with a PRIMARY KEY or UNIQUE constraint. *)
Class SqlRow (Row : Type) := { uniqueCols : list (Row → string) }.

Definition constraintsOk {Row} `{SqlRow Row} (rs : list Row) : Prop :=
  Forall (λ col, NoDup (col <$> rs)) uniqueCols.

#[export] Instance constraintsOk_dec {Row} `{SqlRow Row} (rs : list Row) :
  Decision (constraintsOk rs).
Proof. unfold constraintsOk. apply _. Defined.

Lemma constraintsOk_by_dec {Row} `{SqlRow Row} (rs : list Row) :
  bool_decide (constraintsOk rs) = true → constraintsOk rs.
Proof. apply bool_decide_eq_true_1. Qed.

(** UPDATE ... SET f WHERE p *)
Definition updateRows {Row} (p : Row → bool) (f : Row → Row) (rs : list Row) : list Row :=
  (λ r, if p r then f r else r) <$> rs.

(** The lower case of an ASCII letter. *)
Definition foldCase (c : ascii) : ascii :=
  let n := nat_of_ascii c in
  if (65 <=? n)%nat && (n <=? 90)%nat then ascii_of_nat (n + 32) else c.

Class SqlEngine (T : Type → Type) := {
  rows : ∀ {Row}, T Row → list Row;
  INSERT : ∀ {Row} `{SqlRow Row}, Row → T Row → res unit * T Row;
  UPDATE : ∀ {Row} `{SqlRow Row}, (Row → bool) → (Row → Row) → T Row → res unit * T Row;
  DELETE : ∀ {Row} `{SqlRow Row}, (Row → bool) → T Row → res unit * T Row;
  (** LIKE folds the case of ASCII letters in SQLite and not in PostgreSQL. *)
  likeFold : ascii → ascii;
  (** The order in which the rows of the query with this number come in, before they
      are sorted: what ORDER BY leaves open can differ from query to query. *)
  deliver : nat → ∀ {A}, list A → list A;
  (** A negative LIMIT or OFFSET: ignored by SQLite, an error in PostgreSQL. *)
  lenientLimit : bool
}.

Class SqlLaws (T : Type → Type) `{SqlEngine T} := {
  insert_ok {Row} `{SqlRow Row} (r : Row) (t : T Row) :
    constraintsOk (r :: rows t) →
    ∃ t', INSERT r t = (Ok tt, t') ∧ rows t' ≡ₚ r :: rows t;
  insert_dup {Row} `{SqlRow Row} (r : Row) (t : T Row) :
    ¬ constraintsOk (r :: rows t) → ∃ e, INSERT r t = (Err e, t);
  update_ok {Row} `{SqlRow Row} p f (t : T Row) :
    constraintsOk (updateRows p f (rows t)) →
    ∃ t', UPDATE p f t = (Ok tt, t') ∧ rows t' ≡ₚ updateRows p f (rows t);
  update_dup {Row} `{SqlRow Row} p f (t : T Row) :
    ¬ constraintsOk (updateRows p f (rows t)) → ∃ e, UPDATE p f t = (Err e, t);
  delete_ok {Row} `{SqlRow Row} p (t : T Row) :
    ∃ t', DELETE p t = (Ok tt, t') ∧ rows t' ≡ₚ filter (λ r, p r = false) (rows t);
  (** Folding merges at most the two cases of a letter. *)
  likeFold_case (c d : ascii) : likeFold c = likeFold d → foldCase c = foldCase d;
  deliver_perm n {A} (l : list A) : deliver n l ≡ₚ l
}.

Lemma likeFold_slash {T} `{SqlLaws T} (c : ascii) :
  likeFold c = likeFold "/"%char → c = "/"%char.
Proof.
  intros Hc%likeFold_case. revert Hc. destruct c as [[] [] [] [] [] [] [] []]; vm_compute; congruence.
Qed.

Module ListEngine.
Definition uniqueViolation : error := ErrMsg "UNIQUE constraint failed".
#[global] Instance engine : SqlEngine list := {|
  rows Row t := t;
  INSERT Row _ r t :=
    if bool_decide (constraintsOk (r :: t)) then (Ok tt, r :: t) else (Err uniqueViolation, t);
  UPDATE Row _ p f t :=
    if bool_decide (constraintsOk (updateRows p f t)) then (Ok tt, updateRows p f t)
    else (Err uniqueViolation, t);
  DELETE Row _ p t := (Ok tt, filter (λ r, p r = false) t);
  likeFold c := c;
  deliver n A l := l;
  lenientLimit := true
|}.
#[global] Instance engine_laws : SqlLaws list.
Proof.
  split; simpl; intros.
  - rewrite bool_decide_eq_true_2 by done. eauto.
  - rewrite bool_decide_eq_false_2 by done. eauto.
  - rewrite bool_decide_eq_true_2 by done. eauto.
  - rewrite bool_decide_eq_false_2 by done. eauto.
  - eauto.
  - congruence.
  - done.
Qed.

(** An engine that, like SQLite, folds the case in LIKE and that, like PostgreSQL, does
    not promise the order of ties: every second query gets the rows in reverse. *)
Definition folding : SqlEngine list := {|
  rows Row t := t;
  INSERT Row _ r t := INSERT r t;
  UPDATE Row _ p f t := UPDATE p f t;
  DELETE Row _ p t := DELETE p t;
  likeFold := foldCase;
  deliver n A l := if Nat.even n then l else reverse l;
  lenientLimit := true
|}.

Lemma folding_laws : @SqlLaws list folding.
Proof.
  split; simpl; intros.
  - by apply (@insert_ok list engine engine_laws Row _ r t).
  - by apply (@insert_dup list engine engine_laws Row _ r t).
  - by apply (@update_ok list engine engine_laws Row _ p f t).
  - by apply (@update_dup list engine engine_laws Row _ p f t).
  - by apply (@delete_ok list engine engine_laws Row _ p t).
  - done.
  - case_match; [done|]. apply reverse_Permutation.
Qed.
End ListEngine.

Lemma constraintsOk_perm {Row} `{SqlRow Row} (rs rs' : list Row) :
  rs ≡ₚ rs' → constraintsOk rs → constraintsOk rs'.
Proof.
  intros Hp Hc. unfold constraintsOk in *. eapply Forall_impl; [done|].
  intros col Hn. by rewrite <-Hp.
Qed.

(** A statement either takes its full effect or has none. *)
Section statements.
Context {T : Type → Type} `{SqlLaws T} {Row : Type} `{SqlRow Row}.

Lemma insert_cases (r : Row) (t : T Row) :
  (∃ t', INSERT r t = (Ok tt, t') ∧ rows t' ≡ₚ r :: rows t ∧ constraintsOk (rows t')) ∨
  (∃ e, INSERT r t = (Err e, t) ∧ ¬ constraintsOk (r :: rows t)).
Proof.
  destruct (decide (constraintsOk (r :: rows t))) as [Hc|Hc].
  - left. destruct (insert_ok r t Hc) as (t' & ? & Hp). exists t'.
    split_and!; [done|done|]. by eapply constraintsOk_perm.
  - right. destruct (insert_dup r t Hc) as [e He]. eauto.
Qed.

Lemma update_cases p f (t : T Row) :
  (∃ t', UPDATE p f t = (Ok tt, t') ∧ rows t' ≡ₚ updateRows p f (rows t) ∧
         constraintsOk (rows t')) ∨
  (∃ e, UPDATE p f t = (Err e, t) ∧ ¬ constraintsOk (updateRows p f (rows t))).
Proof.
  destruct (decide (constraintsOk (updateRows p f (rows t)))) as [Hc|Hc].
  - left. destruct (update_ok p f t Hc) as (t' & ? & Hp). exists t'.
    split_and!; [done|done|]. by eapply constraintsOk_perm.
  - right. destruct (update_dup p f t Hc) as [e He]. eauto.
Qed.
End statements.

Lemma elem_of_updateRows {Row} p f (rs : list Row) x :
  x ∈ updateRows p f rs ↔ ∃ r, r ∈ rs ∧ x = if p r then f r else r.
Proof. unfold updateRows. rewrite list_elem_of_fmap. naive_solver. Qed.

(** ** LIKE

    [%] matches any string, [_] any character, and the escape character makes
    the next character a literal. *)

Section like.
Context (fold : ascii → ascii).

Definition percent : ascii := "%"%char.
Definition underscore : ascii := "_"%char.
Definition backslash : ascii := "\"%char.

(** [suffixes s]: every remainder of [s], for the wildcard. *)
Fixpoint suffixes (s : string) : list string :=
  s :: match s with EmptyString => [] | String _ s => suffixes s end.

Fixpoint LIKE (pat s : string) : bool :=
  match pat with
  | EmptyString => bool_decide (s = "")
  | String c pat' =>
      if bool_decide (c = percent) then existsb (LIKE pat') (suffixes s)
      else if bool_decide (c = underscore) then
        match s with String _ s => LIKE pat' s | EmptyString => false end
      else if bool_decide (c = backslash) then
        match pat', s with
        | String l pat'', String x s => bool_decide (fold l = fold x) && LIKE pat'' s
        | _, _ => false
        end
      else match s with
           | String x s => bool_decide (fold c = fold x) && LIKE pat' s
           | EmptyString => false
           end
  end.

Fixpoint foldString (s : string) : string :=
  match s with EmptyString => EmptyString | String c s => String (fold c) (foldString s) end.

(** [escapeLikePattern] puts a backslash before each of the three special
    characters, in three passes over the string. *)
Definition escapeLikePattern (s : string) : string :=
  let s := ReplaceAllByte s backslash "\\" in
  let s := ReplaceAllByte s percent "\%" in
  ReplaceAllByte s underscore "\_".

(** The same in one pass. *)
Fixpoint escapeOnce (s : string) : string :=
  match s with
  | EmptyString => EmptyString
  | String c s =>
      if bool_decide (c = backslash) || bool_decide (c = percent) || bool_decide (c = underscore)
      then String backslash (String c (escapeOnce s))
      else String c (escapeOnce s)
  end.

Lemma append_two a b (s : string) : String a (String b "") +:+ s = String a (String b s).
Proof. done. Qed.

Lemma escapeLikePattern_once s : escapeLikePattern s = escapeOnce s.
Proof.
  unfold escapeLikePattern. induction s as [|c s IH]; [done|]. cbn [ReplaceAllByte escapeOnce].
  destruct (decide (c = backslash)) as [->|Hb]; [|destruct (decide (c = percent)) as [->|Hp];
    [|destruct (decide (c = underscore)) as [->|Hu]]];
    repeat first [ rewrite bool_decide_eq_true_2 by done
                 | rewrite bool_decide_eq_false_2 by done
                 | rewrite append_two | progress cbn [ReplaceAllByte orb] ]; by rewrite IH.
Qed.

Lemma LIKE_suffix_any s : LIKE "%" s = true.
Proof.
  simpl. induction s as [|c s IH]; [done|]. simpl. by rewrite IH.
Qed.

Lemma LIKE_escape p t s :
  LIKE (escapeOnce p +:+ t) s =
  HasPrefix (foldString s) (foldString p) && LIKE t (sdrop (slen p) s).
Proof.
  revert s. induction p as [|c p IH]; intros s; [done|].
  assert (∀ t', LIKE (String backslash (String c t')) s =
    match s with String x s => bool_decide (fold c = fold x) && LIKE t' s | _ => false end) as Hesc
    by done.
  cbn [escapeOnce]. destruct (_ || _) eqn:E.
  - rewrite !append_cons, Hesc. destruct s as [|x s]; [done|]. simpl. rewrite IH.
    by rewrite andb_assoc.
  - apply orb_false_iff in E as [[Eb Ep]%orb_false_iff Eu]. rewrite append_cons. cbn [LIKE].
    rewrite Eb, Ep, Eu. destruct s as [|x s]; [done|]. simpl. rewrite IH. by rewrite andb_assoc.
Qed.

(** A slash somewhere. *)
Lemma LIKE_slash s :
  (∀ c, fold c = fold "/"%char → c = "/"%char) → LIKE "%/%" s = sIn "/"%char s.
Proof.
  intros Hf. change (existsb (LIKE "/%") (suffixes s) = sIn "/"%char s).
  induction s as [|c s IH]; [done|].
  change (LIKE "/%" (String c s) || existsb (LIKE "/%") (suffixes s) = sIn "/"%char (String c s)).
  rewrite IH.
  change (LIKE "/%" (String c s)) with (bool_decide (fold "/"%char = fold c) && LIKE "%" s).
  rewrite LIKE_suffix_any, andb_true_r. simpl. f_equal.
  apply bool_decide_ext. split; [intros Heq; symmetry; by apply Hf|by intros ->].
Qed.
End like.

(** ** ORDER BY, LIMIT and OFFSET *)

(** Ties stay in the order in which the engine delivers the rows. *)
Definition orderBy {Row} (le : Row → Row → Prop) `{∀ a b, Decision (le a b)}
    (desc : bool) (rs : list Row) : list Row :=
  if desc then merge_sort (λ a b, le b a) rs else merge_sort le rs.

Definition limitOffset {T} `{SqlEngine T} {Row} (limit offset : Z) (rs : list Row)
    : res (list Row) :=
  if negb lenientLimit && ((limit <? 0)%Z || (offset <? 0)%Z)
  then Err (ErrMsg "LIMIT must not be negative")
  else
    let rs := drop (Z.to_nat offset) rs in
    Ok (if (limit <? 0)%Z then rs else take (Z.to_nat limit) rs).
Arguments limitOffset T {_ Row} _ _ _.
