(* ===== verification/Metadata.v ===== *)
(** * internal/database/metadata.go: the metadata services

    One record per table row, and one definition per method of the five
    services: FileMetadataService, DirectoryMetadataService,
    TransferTaskService, AuditLogService and ApiKeyService. A call reaches the
    engine through [dbCall] and can fail. *)

From S2P Require Export Sql.
From Stdlib Require Import Ascii.

Local Open Scope go_scope.

Record FileMetadata := MkFile {
  fID : string; fPath : string; fName : string; fSize : Z; fHash : string;
  fStorageType : string; fStorageLocation : string;
  fCreatedAt : string; fUpdatedAt : string; fIsDeleted : bool
}.

Record DirectoryMetadata := MkDir {
  dID : string; dPath : string; dName : string;
  dCreatedAt : string; dUpdatedAt : string; dIsDeleted : bool
}.

Record TransferTask := MkTask {
  tID : string; tType : string; tFileID : string; tClientID : string;
  tOffset : Z; tTotalSize : Z; tStatus : string; tCreatedAt : string; tUpdatedAt : string
}.

Record AuditLog := MkAudit {
  aID : string; aTimestamp : string; aOperation : string; aResourcePath : string;
  aUserIdentifier : string; aClientIP : string; aUserAgent : string;
  aSuccess : bool; aDetails : string
}.

(** The columns expires_at and last_used_at can be NULL. *)
Record ApiKeyRow := MkKeyRow {
  rID : string; rKeyHash : string; rName : string; rDescription : string;
  rPermissions : string; rCreatedAt : string; rExpiresAt : option string;
  rLastUsedAt : option string; rIsActive : bool
}.

Record ApiKey := MkKey {
  kID : string; kKeyHash : string; kName : string; kDescription : string;
  kPermissions : string; kCreatedAt : string; kExpiresAt : string;
  kLastUsedAt : string; kIsActive : bool
}.

(** The constraints of the CREATE TABLE statements. *)
#[export] Instance files_table : SqlRow FileMetadata := {| uniqueCols := [fID; fPath] |}.
#[export] Instance directories_table : SqlRow DirectoryMetadata := {| uniqueCols := [dID; dPath] |}.
#[export] Instance transfer_tasks_table : SqlRow TransferTask := {| uniqueCols := [tID] |}.
#[export] Instance audit_log_table : SqlRow AuditLog := {| uniqueCols := [aID] |}.
#[export] Instance api_keys_table : SqlRow ApiKeyRow := {| uniqueCols := [rID; rKeyHash] |}.

(** [toNullString] *)
Definition toNullString (s : string) : option string :=
  if bool_decide (s = "") then None else Some s.

(** [strings.EqualFold] with an ASCII target: upper and lower case agree, and so
    does the long s (bytes C5 BF) with the letter s. *)
Definition lowerAscii (c : ascii) : ascii :=
  let n := nat_of_ascii c in
  if (65 <=? n) && (n <=? 90) then ascii_of_nat (n + 32) else c.

Fixpoint EqualFold (s target : string) : bool :=
  match target, s with
  | EmptyString, EmptyString => true
  | String t target, String c s =>
      if bool_decide (lowerAscii c = lowerAscii t) then EqualFold s target
      else match s with
           | String c2 s =>
               bool_decide (nat_of_ascii c = 197) && bool_decide (nat_of_ascii c2 = 191)
               && bool_decide (lowerAscii t = "s"%char) && EqualFold s target
           | EmptyString => false
           end
  | _, _ => false
  end.

Section services.
Context {T : Type → Type} `{SqlEngine T}.

Record DB := MkDB {
  files : T FileMetadata;
  directories : T DirectoryMetadata;
  transfer_tasks : T TransferTask;
  audit_log : T AuditLog;
  api_keys : T ApiKeyRow
}.

(** A statement on one table. *)
Definition dbCall {Row A} (sel : DB → T Row) (upd : T Row → DB → DB)
    (op : T Row → res A * T Row) : M (DB * Sys) A := λ '(db, s),
  let '(r, t) := faulty (net (oracle s (tick s))) op (sel db) in (r, (upd t db, skip 1 s)).

(** A query over one or several tables whose loop over the rows does not ask
    [rows.Err()]: when the delivery of the rows breaks off, those before are the
    result. The number of the query tells in which order the engine delivers ties. *)
Definition queryRows {A} (f : nat → DB → res (list A)) : M (DB * Sys) (list A) := λ '(db, s),
  (match net (oracle s (tick s)) with
   | NoFault => f (tick s) db
   | Lost e | ReplyLost e => Err e
   | ShortRead n => match f (tick s) db with Ok l => Ok (take n l) | Err e => Err e end
   end, (db, skip 1 s)).

Definition setFiles t db :=
  MkDB t (directories db) (transfer_tasks db) (audit_log db) (api_keys db).
Definition setDirectories t db :=
  MkDB (files db) t (transfer_tasks db) (audit_log db) (api_keys db).
Definition setTasks t db := MkDB (files db) (directories db) t (audit_log db) (api_keys db).
Definition setAudit t db := MkDB (files db) (directories db) (transfer_tasks db) t (api_keys db).
Definition setKeys t db := MkDB (files db) (directories db) (transfer_tasks db) (audit_log db) t.

Definition onFiles {A} := dbCall (A := A) files setFiles.
Definition onDirectories {A} := dbCall (A := A) directories setDirectories.
Definition onTasks {A} := dbCall (A := A) transfer_tasks setTasks.
Definition onAudit {A} := dbCall (A := A) audit_log setAudit.
Definition onKeys {A} := dbCall (A := A) api_keys setKeys.

(** SELECT ... WHERE p, as a single row or as all of them. *)
Definition selectOne {Row} (p : Row → bool) (t : T Row) : res (option Row) * T Row :=
  (Ok (head (filter (λ r, p r = true) (rows t))), t).

Definition select {Row A} (f : list Row → res A) (t : T Row) : res A * T Row := (f (rows t), t).

(** ** FileMetadataService *)

Definition fileDeletedAt (path : string) (r : FileMetadata) : bool :=
  bool_decide (fPath r = path) && fIsDeleted r.

Definition fileLiveAt (path : string) (r : FileMetadata) : bool :=
  bool_decide (fPath r = path) && negb (fIsDeleted r).

Definition FileCreate (m : FileMetadata) : M (DB * Sys) unit :=
  let path := NormalizePath (fPath m) in
  r ← catch (onFiles (selectOne (fileDeletedAt path)));
  match r with
  | Ok (Some _) =>
      wrapErr "failed to restore deleted file record"
        (onFiles (UPDATE (λ r, bool_decide (fPath r = path))
           (λ r, MkFile (fID m) (fPath r) (fName m) (fSize m) (fHash m) (fStorageType m)
                   (fStorageLocation m) (fCreatedAt m) (fUpdatedAt m) false)))
  | _ =>
      wrapErr "failed to create file metadata"
        (onFiles (INSERT (MkFile (fID m) path (fName m) (fSize m) (fHash m) (fStorageType m)
                   (fStorageLocation m) (fCreatedAt m) (fUpdatedAt m) (fIsDeleted m))))
  end.

Definition FileUpdate (m : FileMetadata) : M (DB * Sys) unit :=
  wrapErr "failed to update file metadata"
    (onFiles (UPDATE (λ r, bool_decide (fID r = fID m))
       (λ r, MkFile (fID r) (fPath m) (fName m) (fSize m) (fHash m) (fStorageType m)
               (fStorageLocation m) (fCreatedAt r) (fUpdatedAt m) (fIsDeleted m)))).

Definition FileRemove (now id : string) : M (DB * Sys) unit :=
  wrapErr "failed to remove file metadata"
    (onFiles (UPDATE (λ r, bool_decide (fID r = id))
       (λ r, MkFile (fID r) (fPath r) (fName r) (fSize r) (fHash r) (fStorageType r)
               (fStorageLocation r) (fCreatedAt r) now true))).

(** A [sql.Row] keeps the error of its query until Scan; no row gives nil. *)
Definition scanFileMetadata (row : M (DB * Sys) (option FileMetadata)) : M (DB * Sys) (option FileMetadata) :=
  wrapErr "failed to scan file metadata" row.

Definition FileGetById (id : string) : M (DB * Sys) (option FileMetadata) :=
  scanFileMetadata
    (onFiles (selectOne (λ r, bool_decide (fID r = id) && negb (fIsDeleted r)))).

Definition FileGetByPath (path : string) : M (DB * Sys) (option FileMetadata) :=
  scanFileMetadata
    (onFiles (selectOne (fileLiveAt (NormalizePath path)))).

Definition FileExists (path : string) : M (DB * Sys) bool :=
  count ← wrapErr "failed to check file existence"
    (onFiles (select (λ rs,
       Ok (length (filter (λ r, fileLiveAt (NormalizePath path) r = true) rs)))));
  mret (0 <? count)%nat.

(** The columns a caller may sort by; any other name sorts by name. *)
Inductive sortColumn := SortName | SortPath | SortSize | SortCreatedAt | SortUpdatedAt.

Definition sortColumnOf (sortBy : string) : sortColumn :=
  if bool_decide (sortBy = "path") then SortPath
  else if bool_decide (sortBy = "size") then SortSize
  else if bool_decide (sortBy = "created_at") then SortCreatedAt
  else if bool_decide (sortBy = "updated_at") then SortUpdatedAt
  else SortName.

Definition fileLe (c : sortColumn) (a b : FileMetadata) : Prop :=
  match c with
  | SortName => strLe (fName a) (fName b)
  | SortPath => strLe (fPath a) (fPath b)
  | SortSize => (fSize a ≤ fSize b)%Z
  | SortCreatedAt => strLe (fCreatedAt a) (fCreatedAt b)
  | SortUpdatedAt => strLe (fUpdatedAt a) (fUpdatedAt b)
  end.

#[export] Instance fileLe_dec c a b : Decision (fileLe c a b).
Proof. destruct c; simpl; apply _. Defined.

(** The rows that WHERE selects. *)
Definition fileListed (directoryPath : string) (r : FileMetadata) : bool :=
  negb (fIsDeleted r) &&
  (bool_decide (directoryPath = "") ||
   LIKE likeFold (escapeLikePattern directoryPath +:+ "%") (fPath r)).

Definition pageOffset (page pageSize : Z) : Z :=
  wrap64 (wrap64 (page - 1) * pageSize).

Definition FileList (directoryPath sortBy sortOrder : string) (page pageSize : Z)
    : M (DB * Sys) (list FileMetadata) :=
  let directoryPath := NormalizePath directoryPath in
  let desc := EqualFold sortOrder "desc" in
  wrapErr "failed to list files"
    (onFiles (select (λ rs,
       limitOffset T pageSize (pageOffset page pageSize)
         (orderBy (fileLe (sortColumnOf sortBy)) desc
            (filter (λ r, fileListed directoryPath r = true) rs))))).

(** ** DirectoryMetadataService *)

Definition DirCreate (m : DirectoryMetadata) : M (DB * Sys) unit :=
  let path := NormalizePath (dPath m) in
  r ← catch (onDirectories (selectOne (λ r, bool_decide (dPath r = path) && dIsDeleted r)));
  match r with
  | Ok (Some _) =>
      wrapErr "failed to restore deleted directory record"
        (onDirectories (UPDATE (λ r, bool_decide (dPath r = path))
           (λ r, MkDir (dID m) (dPath r) (dName m) (dCreatedAt m) (dUpdatedAt m) false)))
  | _ =>
      wrapErr "failed to create directory metadata"
        (onDirectories (INSERT (MkDir (dID m) path (dName m) (dCreatedAt m) (dUpdatedAt m)
                                  (dIsDeleted m))))
  end.

Definition DirUpdate (m : DirectoryMetadata) : M (DB * Sys) unit :=
  wrapErr "failed to update directory metadata"
    (onDirectories (UPDATE (λ r, bool_decide (dID r = dID m))
       (λ r, MkDir (dID r) (dPath m) (dName m) (dCreatedAt r) (dUpdatedAt m) (dIsDeleted m)))).

Definition DirRemove (now id : string) : M (DB * Sys) unit :=
  wrapErr "failed to remove directory metadata"
    (onDirectories (UPDATE (λ r, bool_decide (dID r = id))
       (λ r, MkDir (dID r) (dPath r) (dName r) (dCreatedAt r) now true))).

Definition scanDirectoryMetadata (row : M (DB * Sys) (option DirectoryMetadata)) : M (DB * Sys) (option DirectoryMetadata) :=
  wrapErr "failed to scan directory metadata" row.

Definition DirGetById (id : string) : M (DB * Sys) (option DirectoryMetadata) :=
  scanDirectoryMetadata
    (onDirectories (selectOne (λ r, bool_decide (dID r = id) && negb (dIsDeleted r)))).

Definition dirLiveAt (path : string) (r : DirectoryMetadata) : bool :=
  bool_decide (dPath r = path) && negb (dIsDeleted r).

Definition DirGetByPath (path : string) : M (DB * Sys) (option DirectoryMetadata) :=
  scanDirectoryMetadata
    (onDirectories (selectOne (dirLiveAt (NormalizePath path)))).

Definition dirLe (a b : DirectoryMetadata) : Prop := strLe (dName a) (dName b).
#[export] Instance dirLe_dec a b : Decision (dirLe a b).
Proof. unfold dirLe. apply _. Defined.

Definition dirListed (parentPath : string) (r : DirectoryMetadata) : bool :=
  negb (dIsDeleted r) &&
  (bool_decide (parentPath = "") ||
   LIKE likeFold (escapeLikePattern parentPath +:+ "/%") (dPath r)).

Definition DirList (parentPath : string) (page pageSize : Z)
    : M (DB * Sys) (list DirectoryMetadata) :=
  let parentPath := NormalizePath parentPath in
  wrapErr "failed to list directories"
    (onDirectories (select (λ rs,
       limitOffset T pageSize (pageOffset page pageSize)
         (orderBy dirLe false (filter (λ r, dirListed parentPath r = true) rs))))).

Definition DirExists (path : string) : M (DB * Sys) bool :=
  count ← wrapErr "failed to check directory existence"
    (onDirectories (select (λ rs,
       Ok (length (filter (λ r, dirLiveAt (NormalizePath path) r = true) rs)))));
  mret (0 <? count)%nat.

(** ** TransferTaskService *)

Definition TaskCreate (t : TransferTask) : M (DB * Sys) unit :=
  wrapErr "failed to create transfer task" (onTasks (INSERT t)).

Definition TaskUpdate (t : TransferTask) : M (DB * Sys) unit :=
  wrapErr "failed to update transfer task"
    (onTasks (UPDATE (λ r, bool_decide (tID r = tID t))
       (λ r, MkTask (tID r) (tType t) (tFileID t) (tClientID t) (tOffset t) (tTotalSize t)
               (tStatus t) (tCreatedAt r) (tUpdatedAt t)))).

Definition TaskRemove (id : string) : M (DB * Sys) unit :=
  wrapErr "failed to remove transfer task" (onTasks (DELETE (λ r, bool_decide (tID r = id)))).

Definition scanTransferTask (row : M (DB * Sys) (option TransferTask)) : M (DB * Sys) (option TransferTask) :=
  wrapErr "failed to scan transfer task" row.

Definition TaskGetById (id : string) : M (DB * Sys) (option TransferTask) :=
  scanTransferTask
    (onTasks (selectOne (λ r, bool_decide (tID r = id)))).

Definition taskLe (a b : TransferTask) : Prop := strLe (tCreatedAt a) (tCreatedAt b).
#[export] Instance taskLe_dec a b : Decision (taskLe a b).
Proof. unfold taskLe. apply _. Defined.

Definition TaskListByFileId (fileId : string) : M (DB * Sys) (list TransferTask) :=
  wrapErr "failed to list transfer tasks by file id"
    (onTasks (select (λ rs,
       Ok (orderBy taskLe true (filter (λ r, tFileID r = fileId) rs))))).

Definition TaskUpdateProgress (now taskId : string) (offset : Z) : M (DB * Sys) unit :=
  wrapErr "failed to update transfer task progress"
    (onTasks (UPDATE (λ r, bool_decide (tID r = taskId))
       (λ r, MkTask (tID r) (tType r) (tFileID r) (tClientID r) offset (tTotalSize r)
               (tStatus r) (tCreatedAt r) now))).

Definition setTaskStatus (status now taskId : string) : M (DB * Sys) unit :=
  onTasks (UPDATE (λ r, bool_decide (tID r = taskId))
    (λ r, MkTask (tID r) (tType r) (tFileID r) (tClientID r) (tOffset r) (tTotalSize r)
            status (tCreatedAt r) now)).

Definition CompleteTask (now taskId : string) : M (DB * Sys) unit :=
  wrapErr "failed to complete transfer task" (setTaskStatus "completed" now taskId).

Definition FailTask (now taskId : string) : M (DB * Sys) unit :=
  wrapErr "failed to fail transfer task" (setTaskStatus "failed" now taskId).

(** ** AuditLogService *)

Definition AuditCreate (log : AuditLog) : M (DB * Sys) unit :=
  wrapErr "failed to create audit log" (onAudit (INSERT log)).

Definition scanAuditLog (row : M (DB * Sys) (option AuditLog)) : M (DB * Sys) (option AuditLog) :=
  wrapErr "failed to scan audit log" row.

Definition AuditGetById (id : string) : M (DB * Sys) (option AuditLog) :=
  scanAuditLog (onAudit (selectOne (λ r, bool_decide (aID r = id)))).

Definition auditLe (a b : AuditLog) : Prop := strLe (aTimestamp a) (aTimestamp b).
#[export] Instance auditLe_dec a b : Decision (auditLe a b).
Proof. unfold auditLe. apply _. Defined.

Definition auditListed (operation resourcePath : string) (r : AuditLog) : bool :=
  (bool_decide (operation = "") || bool_decide (aOperation r = operation)) &&
  (bool_decide (resourcePath = "") ||
   LIKE likeFold (escapeLikePattern resourcePath +:+ "%") (aResourcePath r)).

Definition AuditList (operation resourcePath : string) (page pageSize : Z)
    : M (DB * Sys) (list AuditLog) :=
  wrapErr "failed to list audit logs"
    (onAudit (select (λ rs,
       limitOffset T pageSize (pageOffset page pageSize)
         (orderBy auditLe true (filter (λ r, auditListed operation resourcePath r = true) rs))))).

Definition auditBetween (startTime endTime : string) (r : AuditLog) : bool :=
  String.leb startTime (aTimestamp r) && String.leb (aTimestamp r) endTime.

Definition AuditListByTimeRange (startTime endTime : string) (page pageSize : Z)
    : M (DB * Sys) (list AuditLog) :=
  wrapErr "failed to list audit logs by time range"
    (onAudit (select (λ rs,
       limitOffset T pageSize (pageOffset page pageSize)
         (orderBy auditLe true (filter (λ r, auditBetween startTime endTime r = true) rs))))).

(** ** ApiKeyService *)

Definition KeyCreate (key : ApiKey) : M (DB * Sys) unit :=
  wrapErr "failed to create api key"
    (onKeys (INSERT (MkKeyRow (kID key) (kKeyHash key) (kName key) (kDescription key)
       (kPermissions key) (kCreatedAt key) (toNullString (kExpiresAt key)) None
       (kIsActive key)))).

Definition KeyUpdate (key : ApiKey) : M (DB * Sys) unit :=
  wrapErr "failed to update api key"
    (onKeys (UPDATE (λ r, bool_decide (rID r = kID key))
       (λ r, MkKeyRow (rID r) (rKeyHash r) (kName key) (kDescription key) (kPermissions key)
               (rCreatedAt r) (toNullString (kExpiresAt key)) (rLastUsedAt r) (kIsActive key)))).

Definition KeyRemove (id : string) : M (DB * Sys) unit :=
  wrapErr "failed to remove api key" (onKeys (DELETE (λ r, bool_decide (rID r = id)))).

(** [scanApiKey] reads the two nullable columns through [sql.NullString]. *)
Definition scanApiKey (r : ApiKeyRow) : ApiKey :=
  MkKey (rID r) (rKeyHash r) (rName r) (rDescription r) (rPermissions r) (rCreatedAt r)
    (default "" (rExpiresAt r)) (default "" (rLastUsedAt r)) (rIsActive r).

Definition KeyGetById (id : string) : M (DB * Sys) (option ApiKey) :=
  r ← wrapErr "failed to scan api key" (onKeys (selectOne (λ r, bool_decide (rID r = id))));
  mret (scanApiKey <$> r).

(** [now] is the current time in RFC 3339. *)
Definition IsExpired (now : string) (key : ApiKey) : bool :=
  if bool_decide (kExpiresAt key = "") then false else String.ltb (kExpiresAt key) now.

Definition KeyGetByKeyHash (now keyHash : string) : M (DB * Sys) (option ApiKey) :=
  r ← wrapErr "failed to scan api key"
        (onKeys (selectOne (λ r, bool_decide (rKeyHash r = keyHash) && rIsActive r)));
  match scanApiKey <$> r with
  | None => mret None
  | Some key => if IsExpired now key then mret None else mret (Some key)
  end.

Definition keyLe (a b : ApiKeyRow) : Prop := strLe (rCreatedAt a) (rCreatedAt b).
#[export] Instance keyLe_dec a b : Decision (keyLe a b).
Proof. unfold keyLe. apply _. Defined.

(** [rows.Scan] into a plain string: NULL is an error. *)
Definition scanString (v : option string) : res string :=
  match v with
  | Some s => Ok s
  | None => Err (ErrMsg "converting NULL to string is unsupported")
  end.

Definition scanListedKey (r : ApiKeyRow) : res ApiKey :=
  e ← scanString (rExpiresAt r);
  l ← scanString (rLastUsedAt r);
  Ok (MkKey (rID r) (rKeyHash r) (rName r) (rDescription r) (rPermissions r) (rCreatedAt r)
        e l (rIsActive r)).

Fixpoint scanAll (rs : list ApiKeyRow) : res (list ApiKey) :=
  match rs with
  | [] => Ok []
  | r :: rs =>
      k ← res_map_err (ErrWrap "failed to scan api key") (scanListedKey r);
      ks ← scanAll rs;
      Ok (k :: ks)
  end.

Definition KeyList (activeOnly : bool) (page pageSize : Z) : M (DB * Sys) (list ApiKey) :=
  rs ← wrapErr "failed to list api keys"
    (onKeys (select (λ rs,
       limitOffset T pageSize (pageOffset page pageSize)
         (orderBy keyLe true (filter (λ r, negb activeOnly || rIsActive r = true) rs)))));
  lift (scanAll rs).

Definition UpdateLastUsed (now id : string) : M (DB * Sys) unit :=
  wrapErr "failed to update api key last used"
    (onKeys (UPDATE (λ r, bool_decide (rID r = id))
       (λ r, MkKeyRow (rID r) (rKeyHash r) (rName r) (rDescription r) (rPermissions r)
               (rCreatedAt r) (rExpiresAt r) (Some now) (rIsActive r)))).

Definition Deactivate (id : string) : M (DB * Sys) unit :=
  wrapErr "failed to deactivate api key"
    (onKeys (UPDATE (λ r, bool_decide (rID r = id))
       (λ r, MkKeyRow (rID r) (rKeyHash r) (rName r) (rDescription r) (rPermissions r)
               (rCreatedAt r) (rExpiresAt r) (rLastUsedAt r) false))).

End services.
Arguments DB T : clear implicits.

(** ** The files table as a map from paths to live metadata *)

Definition fileAtPath (rs : list FileMetadata) (p : string) : option FileMetadata :=
  head (filter (λ r, fileLiveAt p r = true) rs).

Lemma fileLiveAt_true p r : fileLiveAt p r = true ↔ fPath r = p ∧ fIsDeleted r = false.
Proof. unfold fileLiveAt. rewrite andb_true_iff, bool_decide_eq_true, negb_true_iff. done. Qed.

Lemma files_unique rs :
  constraintsOk rs → NoDup (fID <$> rs) ∧ NoDup (fPath <$> rs).
Proof.
  intros Hc. unfold constraintsOk in Hc. simpl in Hc.
  apply Forall_cons in Hc as [? Hc]. by apply Forall_cons in Hc as [? _].
Qed.

Lemma fileAtPath_spec rs p r :
  constraintsOk rs →
  fileAtPath rs p = Some r ↔ r ∈ rs ∧ fPath r = p ∧ fIsDeleted r = false.
Proof.
  intros [_ Hp]%files_unique. unfold fileAtPath. rewrite head_filter.
  - by rewrite fileLiveAt_true.
  - intros y z Hy Hz [? _]%fileLiveAt_true [? _]%fileLiveAt_true.
    apply (NoDup_key fPath rs); congruence.
Qed.

Lemma fileAtPath_ext rs rs' p :
  constraintsOk rs → constraintsOk rs' →
  (∀ r, fPath r = p → fIsDeleted r = false → r ∈ rs ↔ r ∈ rs') →
  fileAtPath rs p = fileAtPath rs' p.
Proof.
  intros Hc Hc' Heq. apply option_eq. intros r. rewrite !fileAtPath_spec by done.
  naive_solver.
Qed.

Lemma fileAtPath_perm rs rs' p :
  constraintsOk rs → rs ≡ₚ rs' → fileAtPath rs p = fileAtPath rs' p.
Proof.
  intros Hc Hp. apply fileAtPath_ext; [done|by eapply constraintsOk_perm|].
  intros r _ _. by rewrite Hp.
Qed.

(** The row that [FileCreate] leaves for [m]. *)
Definition createdFile (m : FileMetadata) : FileMetadata :=
  MkFile (fID m) (NormalizePath (fPath m)) (fName m) (fSize m) (fHash m) (fStorageType m)
    (fStorageLocation m) (fCreatedAt m) (fUpdatedAt m) (fIsDeleted m).

(** Inserting a live row. *)
Lemma insert_file rs rs' m :
  constraintsOk rs' → constraintsOk rs → rs' ≡ₚ m :: rs → fIsDeleted m = false →
  fileAtPath rs' (fPath m) = Some m ∧
  ∀ q, q ≠ fPath m → fileAtPath rs' q = fileAtPath rs q.
Proof.
  intros Hc' Hc Hp Hd. split.
  - apply fileAtPath_spec; [done|]. rewrite Hp. split; [by left|done].
  - intros q Hq. apply fileAtPath_ext; [done..|]. intros r Hr _. rewrite Hp, elem_of_cons.
    split; [by intros [->|?]|by right].
Qed.

(** Reviving the deleted row of a path. *)
Lemma revive_file rs rs' path f :
  constraintsOk rs → constraintsOk rs' →
  rs' ≡ₚ updateRows (λ r, bool_decide (fPath r = path)) f rs →
  (∀ r, fPath (f r) = fPath r ∧ fIsDeleted (f r) = false) →
  (∃ r0, r0 ∈ rs ∧ fPath r0 = path ∧ fileAtPath rs' path = Some (f r0)) ∨
  (∀ r0, r0 ∈ rs → fPath r0 ≠ path).
Proof.
  intros Hc Hc' Hp Hf.
  destruct (decide (Exists (λ r, fPath r = path) rs)) as [He|Hn].
  - left. apply Exists_exists in He as (r0 & Hin & Hr0). exists r0. split_and!; [done|done|].
    destruct (Hf r0) as [Hf1 Hf2]. apply fileAtPath_spec; [done|]. rewrite Hp. split.
    + apply elem_of_updateRows. exists r0. split; [done|]. by rewrite bool_decide_eq_true_2.
    + by rewrite Hf1.
  - right. intros r0 Hin Heq. apply Hn, Exists_exists. eauto.
Qed.

Lemma update_other_paths rs rs' path f q :
  constraintsOk rs → constraintsOk rs' →
  rs' ≡ₚ updateRows (λ r, bool_decide (fPath r = path)) f rs →
  (∀ r, fPath (f r) = fPath r) → q ≠ path → fileAtPath rs' q = fileAtPath rs q.
Proof.
  intros Hc Hc' Hp Hf Hq. apply fileAtPath_ext; [done..|]. intros r Hr _.
  rewrite Hp, elem_of_updateRows. split.
  - intros (r1 & Hin & ->). case_bool_decide; [|done]. rewrite Hf in Hr. congruence.
  - intros Hin. exists r. split; [done|]. by rewrite bool_decide_eq_false_2 by congruence.
Qed.

(** Updating the row of an id: [r0] becomes [f r0]. *)
Lemma update_by_id rs rs' id f r0 :
  constraintsOk rs → constraintsOk rs' →
  rs' ≡ₚ updateRows (λ r, bool_decide (fID r = id)) f rs →
  r0 ∈ rs → fID r0 = id →
  (∀ q, q ≠ fPath r0 → q ≠ fPath (f r0) → fileAtPath rs' q = fileAtPath rs q) ∧
  (fIsDeleted (f r0) = false → fileAtPath rs' (fPath (f r0)) = Some (f r0)) ∧
  (fPath (f r0) ≠ fPath r0 ∨ fIsDeleted (f r0) = true → fileAtPath rs' (fPath r0) = None).
Proof.
  intros Hc Hc' Hp Hin Hid. destruct (files_unique rs Hc) as [Hids Hpaths].
  assert (∀ r, r ∈ rs' ↔ r = f r0 ∨ (r ∈ rs ∧ r ≠ r0)) as Hel.
  { intros r. rewrite Hp, elem_of_updateRows. split.
    - intros (r1 & Hin1 & ->). case_bool_decide as Hb.
      + left. f_equal. apply (NoDup_key fID rs); congruence.
      + right. split; [done|]. congruence.
    - intros [->|[Hr Hne]].
      + exists r0. by rewrite bool_decide_eq_true_2.
      + exists r. split; [done|]. rewrite bool_decide_eq_false_2; [done|].
        intros ?. apply Hne, (NoDup_key fID rs); congruence. }
  split_and!.
  - intros q Hq1 Hq2. apply fileAtPath_ext; [done..|]. intros r Hr _. rewrite Hel.
    split; [naive_solver congruence|]. intros. right. split; [done|]. congruence.
  - intros Hd. apply fileAtPath_spec; [done|]. rewrite Hel. auto.
  - intros Hcase. apply eq_None_not_Some. intros [r Hr].
    apply fileAtPath_spec in Hr as (Hr & Hpr & Hdr); [|done]. apply Hel in Hr as [->|[Hr Hne]].
    + naive_solver congruence.
    + apply Hne, (NoDup_key fPath rs); congruence.
Qed.

(** ** Specifications of the file operations *)

Section file_specs.
Context {T : Type → Type} `{SqlLaws T}.
Implicit Types (w : DB T * Sys) (m : FileMetadata).

Definition fview (db : DB T) (p : string) : option FileMetadata := fileAtPath (rows (files db)) p.
Definition dbOk (db : DB T) : Prop := constraintsOk (rows (files db)).

(** The operation keeps the constraints, the files of the system and the
    metadata of every path not in [ps]. *)
Definition dbFrame (ps : string → Prop) w w' : Prop :=
  dbOk w.1 → dbOk w'.1 ∧ os w'.2 = os w.2 ∧ ∀ q, ¬ ps q → fview w'.1 q = fview w.1 q.

#[export] Instance dbFrame_preorder ps : PreOrder (dbFrame ps).
Proof.
  split; [by intros w ?|]. intros w1 w2 w3 H12 H23 Hok.
  destruct (H12 Hok) as (Hok2 & Ho2 & Hv2). destruct (H23 Hok2) as (Hok3 & Ho3 & Hv3).
  split_and!; [done|congruence|]. intros q Hq. by rewrite Hv3, Hv2.
Qed.

(** A statement on the files table, with its failures. *)
Lemma onFiles_cases {A} (op : T FileMetadata → res A * T FileMetadata) w :
  let '(r, w') := onFiles op w in
  os w'.2 = os w.2 ∧
  ((files w'.1 = files w.1 ∧ ∃ e, r = Err e) ∨
   (files w'.1 = (op (files w.1)).2 ∧ (r = (op (files w.1)).1 ∨ ∃ e, r = Err e))).
Proof.
  destruct w as [db s]. unfold onFiles, dbCall, faulty.
  destruct (net _); simpl; [|by eauto| |by eauto]; destruct (op (files db)) as [r t]; simpl; eauto 10.
Qed.

Lemma selectOne_frame ps p : steps (dbFrame ps) (onFiles (selectOne p)).
Proof.
  intros w Hok. pose proof (onFiles_cases (selectOne p) w) as Hc.
  destruct (onFiles _ w) as [r w']. destruct Hc as (Ho & Hc). simpl in *.
  assert (files w'.1 = files w.1) as Hf by naive_solver. unfold dbOk, fview in *. by rewrite Hf.
Qed.

Lemma file_get_spec path w :
  let '(r, w') := FileGetByPath path w in
  dbFrame (λ _, False) w w' ∧
  ∀ x, r = Ok x → x = fview w.1 (NormalizePath path).
Proof.
  unfold FileGetByPath, scanFileMetadata, wrapErr.
  pose proof (selectOne_frame (λ _, False) (fileLiveAt (NormalizePath path)) w) as Hf.
  pose proof (onFiles_cases (selectOne (fileLiveAt (NormalizePath path))) w) as Hc.
  destruct (onFiles _ w) as [r w']. split; [done|]. intros x Hx.
  destruct r as [y|]; simplify_eq/=. naive_solver.
Qed.

Lemma file_exists_spec path w :
  let '(r, w') := FileExists path w in
  dbFrame (λ _, False) w w' ∧
  ∀ b, r = Ok b → b = bool_decide (is_Some (fview w.1 (NormalizePath path))).
Proof.
  unfold FileExists, wrapErr, mbind, M_bind.
  match goal with |- context [onFiles ?op w] =>
    pose proof (onFiles_cases op w) as Hc; destruct (onFiles op w) as [r w'] end.
  destruct Hc as [Ho Hc]. simpl in *. assert (files w'.1 = files w.1) as Hf by naive_solver.
  assert (dbFrame (λ _, False) w w') as Hfr.
  { intros Hok. unfold dbOk, fview in *. by rewrite Hf. }
  destruct r as [n|e]; simpl; [|done]. split; [done|]. intros b [= <-].
  assert (n = length (filter (λ r, fileLiveAt (NormalizePath path) r = true)
    (rows (files w.1)))) as -> by naive_solver.
  unfold fview, fileAtPath. by destruct (filter _ _).
Qed.

(** The effect of one UPDATE or INSERT, whatever the fate of the call. *)
Lemma onFiles_exec (op : T FileMetadata → res unit * T FileMetadata)
    (effect : list FileMetadata → list FileMetadata → Prop) w :
  (∃ t', op (files w.1) = (Ok tt, t') ∧ effect (rows (files w.1)) (rows t')) ∨
  (∃ e, op (files w.1) = (Err e, files w.1)) →
  let '(r, w') := onFiles op w in
  os w'.2 = os w.2 ∧
  (files w'.1 = files w.1 ∧ r ≠ Ok tt ∨
   effect (rows (files w.1)) (rows (files w'.1))).
Proof.
  intros Hop. pose proof (onFiles_cases op w) as Hc. destruct (onFiles op w) as [r w'].
  destruct Hc as [Ho Hc]. split; [done|].
  destruct Hop as [(t' & Heq & He)|(e & Heq)]; rewrite Heq in Hc; simpl in Hc;
    destruct Hc as [[Hf [e' ->]]|[Hf Hr]]; [by left|right; by rewrite Hf|by left|].
  left. split; [done|]. by destruct Hr as [->|[? ->]].
Qed.

Lemma onFiles_update p f w :
  let '(r, w') := onFiles (UPDATE p f) w in
  os w'.2 = os w.2 ∧
  (files w'.1 = files w.1 ∧ r ≠ Ok tt ∨
   rows (files w'.1) ≡ₚ updateRows p f (rows (files w.1)) ∧ constraintsOk (rows (files w'.1))).
Proof.
  apply (onFiles_exec _ (λ rs rs', rs' ≡ₚ updateRows p f rs ∧ constraintsOk rs')).
  destruct (update_cases p f (files w.1)) as [(t' & ? & ? & ?)|(e & ? & _)]; eauto.
Qed.

Lemma onFiles_insert m w :
  let '(r, w') := onFiles (INSERT m) w in
  os w'.2 = os w.2 ∧
  (files w'.1 = files w.1 ∧ r ≠ Ok tt ∨
   rows (files w'.1) ≡ₚ m :: rows (files w.1) ∧ constraintsOk (rows (files w'.1))).
Proof.
  apply (onFiles_exec _ (λ rs rs', rs' ≡ₚ m :: rs ∧ constraintsOk rs')).
  destruct (insert_cases m (files w.1)) as [(t' & ? & ? & ?)|(e & ? & _)]; eauto.
Qed.

Lemma file_update_spec m r0 w :
  dbOk w.1 → fview w.1 (fPath r0) = Some r0 → fID r0 = fID m →
  let m' := MkFile (fID m) (fPath m) (fName m) (fSize m) (fHash m) (fStorageType m)
              (fStorageLocation m) (fCreatedAt r0) (fUpdatedAt m) (fIsDeleted m) in
  let '(r, w') := FileUpdate m w in
  dbFrame (λ q, q = fPath r0 ∨ q = fPath m) w w' ∧
  ((files w'.1 = files w.1 ∧ r ≠ Ok tt) ∨
   ((fIsDeleted m = false → fview w'.1 (fPath m) = Some m') ∧
    (fPath m ≠ fPath r0 ∨ fIsDeleted m = true → fview w'.1 (fPath r0) = None))).
Proof.
  intros Hok Hr0 Hid m'. unfold FileUpdate, wrapErr.
  match goal with |- context [UPDATE ?p ?f] => set (g := f); set (pr := p) end.
  pose proof (onFiles_update pr g w) as Hx.
  destruct (onFiles (UPDATE pr g) w) as [r w']. destruct Hx as [Ho Hx].
  apply fileAtPath_spec in Hr0 as (Hin & _ & Hd0); [|done].
  assert (g r0 = m') as Hg by (unfold g, m'; by rewrite Hid).
  destruct Hx as [[Hf Hr]|[Hp Hc']].
  - split; [|left; split; [done|by destruct r as [[]|]]].
    intros _. unfold dbOk, fview in *. by rewrite Hf.
  - destruct (update_by_id _ _ (fID m) g r0 Hok Hc' Hp Hin Hid) as (H1 & H2 & H3).
    rewrite Hg in H1, H2, H3. simpl in *. split; [|right; auto].
    intros _. split_and!; [done|done|]. intros q Hq. apply H1; naive_solver.
Qed.

Lemma file_remove_spec now r0 w :
  dbOk w.1 → fview w.1 (fPath r0) = Some r0 →
  let '(r, w') := FileRemove now (fID r0) w in
  dbFrame (λ q, q = fPath r0) w w' ∧
  ((files w'.1 = files w.1 ∧ r ≠ Ok tt) ∨ fview w'.1 (fPath r0) = None).
Proof.
  intros Hok Hr0. unfold FileRemove, wrapErr.
  match goal with |- context [UPDATE ?p ?f] => set (g := f); set (pr := p) end.
  pose proof (onFiles_update pr g w) as Hx.
  destruct (onFiles (UPDATE pr g) w) as [r w']. destruct Hx as [Ho Hx].
  apply fileAtPath_spec in Hr0 as (Hin & _ & Hd0); [|done].
  destruct Hx as [[Hf Hr]|[Hp Hc']].
  - split; [|left; split; [done|by destruct r as [[]|]]].
    intros _. unfold dbOk, fview in *. by rewrite Hf.
  - destruct (update_by_id _ _ (fID r0) g r0 Hok Hc' Hp Hin eq_refl) as (H1 & H2 & H3).
    simpl in *. split; [|right; auto].
    intros _. split_and!; [done|done|]. intros q Hq. by apply H1.
Qed.

(** The two branches of [FileCreate]. *)
Lemma create_insert m w :
  dbOk w.1 → fIsDeleted m = false →
  let '(r, w') := onFiles (INSERT (createdFile m)) w in
  dbFrame (λ q, q = NormalizePath (fPath m)) w w' ∧
  ((files w'.1 = files w.1 ∧ r ≠ Ok tt) ∨
   fview w'.1 (NormalizePath (fPath m)) = Some (createdFile m)).
Proof.
  intros Hok Hd. pose proof (onFiles_insert (createdFile m) w) as Hx.
  destruct (onFiles _ w) as [r w']. destruct Hx as [Ho [[Hf Hr]|[Hp Hc']]].
  - split; [|by left]. intros _. unfold dbOk, fview in *. by rewrite Hf.
  - destruct (insert_file _ _ (createdFile m) Hc' Hok Hp Hd) as [H1 H2].
    split; [|by right]. intros _. split_and!; [done|done|]. intros q Hq. by apply H2.
Qed.

Lemma create_revive m w r0 :
  dbOk w.1 → fIsDeleted m = false → r0 ∈ rows (files w.1) → fPath r0 = NormalizePath (fPath m) →
  let '(r, w') := onFiles (UPDATE (λ r, bool_decide (fPath r = NormalizePath (fPath m)))
       (λ r, MkFile (fID m) (fPath r) (fName m) (fSize m) (fHash m) (fStorageType m)
               (fStorageLocation m) (fCreatedAt m) (fUpdatedAt m) false)) w in
  dbFrame (λ q, q = NormalizePath (fPath m)) w w' ∧
  ((files w'.1 = files w.1 ∧ r ≠ Ok tt) ∨
   fview w'.1 (NormalizePath (fPath m)) = Some (createdFile m)).
Proof.
  intros Hok Hd Hin Hpath. match goal with |- context [UPDATE ?p ?f] => set (g := f); set (pr := p) end.
  pose proof (onFiles_update pr g w) as Hx.
  destruct (onFiles _ w) as [r w']. destruct Hx as [Ho [[Hf Hr]|[Hp Hc']]].
  - split; [|by left]. intros _. unfold dbOk, fview in *. by rewrite Hf.
  - split.
    + intros _. split_and!; [done|done|]. intros q Hq.
      by apply (update_other_paths _ _ (NormalizePath (fPath m)) g).
    + right. destruct (revive_file _ _ _ g Hok Hc' Hp) as [(r1 & _ & Hr1 & Hv)|Hno]; [done| |].
      * unfold fview. rewrite Hv. unfold g, createdFile. by rewrite Hr1, Hd.
      * by destruct (Hno r0).
Qed.

Lemma file_create_spec m w :
  dbOk w.1 → fIsDeleted m = false →
  let '(r, w') := FileCreate m w in
  dbFrame (λ q, q = NormalizePath (fPath m)) w w' ∧
  (r = Ok tt → fview w'.1 (NormalizePath (fPath m)) = Some (createdFile m)) ∧
  (fview w'.1 (NormalizePath (fPath m)) = fview w.1 (NormalizePath (fPath m)) ∨
   fview w'.1 (NormalizePath (fPath m)) = Some (createdFile m)).
Proof.
  intros Hok Hd. unfold FileCreate. cbv zeta. unfold mbind, M_bind, catch.
  set (path := NormalizePath (fPath m)).
  pose proof (selectOne_frame (λ q, q = path) (fileDeletedAt path) w) as Hfr.
  pose proof (onFiles_cases (selectOne (fileDeletedAt path)) w) as Hc.
  destruct (onFiles (selectOne (fileDeletedAt path)) w) as [r1 w1].
  destruct Hc as [_ Hc]. simpl in *. assert (files w1.1 = files w.1) as Hf by naive_solver.
  destruct (Hfr Hok) as (Hok1 & _).
  assert (fview w1.1 path = fview w.1 path) as Hv1 by (unfold fview; by rewrite Hf).
  assert (∀ r' w', dbFrame (λ q, q = path) w1 w' →
    (files w'.1 = files w1.1 ∧ r' ≠ Ok tt) ∨ fview w'.1 path = Some (createdFile m) →
    dbFrame (λ q, q = path) w w' ∧ (r' = Ok tt → fview w'.1 path = Some (createdFile m)) ∧
    (fview w'.1 path = fview w.1 path ∨ fview w'.1 path = Some (createdFile m))) as Hfin.
  { intros r' w' Hf1 Hcase. split; [by etrans|]. destruct Hcase as [[Hfs Hr]|Hs].
    - split; [done|]. left. unfold fview in *. by rewrite Hfs.
    - auto. }
  destruct r1 as [[r0|]|e]; simpl.
  - assert (r0 ∈ rows (files w1.1) ∧ fPath r0 = path) as [Hin Hp0].
    { assert (Some r0 = head (filter (λ r, fileDeletedAt path r = true) (rows (files w.1)))) as Hh
        by naive_solver.
      assert (r0 ∈ filter (λ r, fileDeletedAt path r = true) (rows (files w.1))) as Hin.
      { destruct (filter _ _); simplify_eq/=. by left. }
      apply list_elem_of_filter in Hin as [Hdel Hin]. rewrite Hf. split; [done|].
      unfold fileDeletedAt in Hdel. by bool_prop. }
    pose proof (create_revive m w1 r0 Hok1 Hd Hin Hp0) as Hx. unfold wrapErr.
    destruct (onFiles _ w1) as [r w']. destruct Hx as [Hx1 Hx2].
    apply Hfin in Hx2 as (? & ? & ?); [|done]. split_and!; auto. by destruct r as [[]|].
  - pose proof (create_insert m w1 Hok1 Hd) as Hx. unfold wrapErr. fold (createdFile m).
    unfold createdFile in Hx at 1. fold path in Hx.
    destruct (onFiles _ w1) as [r w']. destruct Hx as [Hx1 Hx2].
    apply Hfin in Hx2 as (? & ? & ?); [|done]. split_and!; auto. by destruct r as [[]|].
  - pose proof (create_insert m w1 Hok1 Hd) as Hx. unfold wrapErr.
    unfold createdFile in Hx at 1. fold path in Hx.
    destruct (onFiles _ w1) as [r w']. destruct Hx as [Hx1 Hx2].
    apply Hfin in Hx2 as (? & ? & ?); [|done]. split_and!; auto. by destruct r as [[]|].
Qed.

Lemma dbOk_by_dec (db : DB T) : bool_decide (constraintsOk (rows (files db))) = true → dbOk db.
Proof. apply bool_decide_eq_true_1. Qed.

End file_specs.

(** ** Listing *)

Lemma fileListed_prefix {T} `{SqlEngine T} dir r :
  fileListed dir r = true ↔
  fIsDeleted r = false ∧
  (dir = "" ∨ HasPrefix (foldString likeFold (fPath r)) (foldString likeFold dir) = true).
Proof.
  unfold fileListed. rewrite escapeLikePattern_once, LIKE_escape, LIKE_suffix_any, andb_true_r.
  rewrite andb_true_iff, orb_true_iff, negb_true_iff, bool_decide_eq_true. done.
Qed.

Lemma orderBy_perm {Row} (le : Row → Row → Prop) `{∀ a b, Decision (le a b)} desc rs :
  orderBy le desc rs ≡ₚ rs.
Proof. unfold orderBy. destruct desc; apply merge_sort_Permutation. Qed.

Lemma scanAll_null rs r :
  r ∈ rs → rLastUsedAt r = None → ∃ e, scanAll rs = Err e.
Proof.
  induction rs as [|r' rs IH]; [by intros ?%elem_of_nil|].
  intros [<-|Hin]%elem_of_cons Hn; simpl.
  - unfold scanListedKey, mbind, res_bind. rewrite Hn. simpl.
    destruct (scanString (rExpiresAt r)); simpl; eauto.
  - unfold mbind, res_bind. destruct (res_map_err _ _); [|eauto].
    destruct (IH Hin Hn) as [e ->]. eauto.
Qed.

(** Statements on the api_keys table. *)
Lemma onKeys_ok {T} `{SqlEngine T} {A} (op : T ApiKeyRow → res A * T ApiKeyRow) w a w' :
  onKeys op w = (Ok a, w') → op (api_keys w.1) = (Ok a, api_keys w'.1).
Proof.
  destruct w as [db s]. unfold onKeys, dbCall, faulty. destruct (net _).
  - destruct (op (api_keys db)) eqn:E. by intros [= -> <-].
  - done.
  - destruct (op (api_keys db)). done.
  - done.
Qed.

(** ** Properties *)

(** The files table implements a map from normalised paths to metadata. After
    a successful [Create] a lookup of any spelling of the path returns the record
    just created, and a lookup of any other path returns what it returned
    before. *)
Lemma file_create_get {T} `{SqlLaws T} (m : FileMetadata) (p : string) (w w1 w2 : DB T * Sys)
    (x : option FileMetadata) :
  dbOk w.1 → fIsDeleted m = false →
  FileCreate m w = (Ok tt, w1) → FileGetByPath p w1 = (Ok x, w2) →
  x = if decide (NormalizePath p = NormalizePath (fPath m)) then Some (createdFile m)
      else fview w.1 (NormalizePath p).
Proof.
  intros Hok Hd HC HG. pose proof (file_create_spec m w Hok Hd) as Hc. rewrite HC in Hc.
  destruct Hc as (Hfr & Hv & _). destruct (Hfr Hok) as (_ & _ & Hq).
  pose proof (file_get_spec p w1) as Hg. rewrite HG in Hg.
  destruct Hg as [_ Hg]. rewrite (Hg x eq_refl). case_decide as Heq.
  - rewrite Heq. auto.
  - auto.
Qed.

Definition emptyDB : DB list := MkDB [] [] [] [] [].
Definition someFile (id path hash : string) : FileMetadata :=
  MkFile id path "n" 3 hash "local" "" "t0" "t0" false.

(** Soft deletion. After a successful [Remove] of a live file its path has no
    metadata and every other path keeps its own; a later [Create] on that path
    takes the deleted row over instead of violating the unique path, and only the
    new record is visible. *)
Lemma file_soft_delete {T} `{SqlLaws T} (r0 m : FileMetadata) (now : string)
    (w w1 : DB T * Sys) :
  dbOk w.1 → fview w.1 (fPath r0) = Some r0 →
  NormalizePath (fPath m) = fPath r0 → fIsDeleted m = false →
  FileRemove now (fID r0) w = (Ok tt, w1) →
  fview w1.1 (fPath r0) = None ∧
  (∀ q, q ≠ fPath r0 → fview w1.1 q = fview w.1 q) ∧
  (∀ w2, FileCreate m w1 = (Ok tt, w2) →
     fview w2.1 (fPath r0) = Some (createdFile m) ∧
     ∀ q, q ≠ fPath r0 → fview w2.1 q = fview w.1 q).
Proof.
  intros Hok Hr0 Hp Hd HR. pose proof (file_remove_spec now r0 w Hok Hr0) as Hr. rewrite HR in Hr.
  destruct Hr as [Hfr Hcase]. destruct (Hfr Hok) as (Hok1 & _ & Hq).
  split_and!; [by destruct Hcase as [[_ ?]|?]|done|]. intros w2 HC.
  pose proof (file_create_spec m w1 Hok1 Hd) as Hc. rewrite HC, Hp in Hc.
  destruct Hc as (Hfr2 & Hv & _). destruct (Hfr2 Hok1) as (_ & _ & Hq2). split; [auto|].
  intros q Hne. rewrite Hq2 by done. auto.
Qed.

Definition oneFileDB : DB list := MkDB [someFile "1" "a/b" "h"] [] [] [] [].

(** The prefix listing is exact. The pattern built by [escapeLikePattern]
    from any string, wildcards and escape characters included, matches exactly
    the paths that start with that string (up to the engine's case folding);
    every row that [List] returns is a live row of the table with that prefix, and
    a page never has more rows than its size. *)
Lemma file_list_exact {T} `{SqlLaws T} (dir sortBy sortOrder : string) (page pageSize : Z)
    (w w' : DB T * Sys) (rs : list FileMetadata) :
  (∀ s, LIKE likeFold (escapeLikePattern dir +:+ "%") s =
        HasPrefix (foldString likeFold s) (foldString likeFold dir)) ∧
  ((0 ≤ pageSize)%Z → FileList dir sortBy sortOrder page pageSize w = (Ok rs, w') →
   (Z.of_nat (length rs) ≤ pageSize)%Z ∧
   ∀ r, r ∈ rs → r ∈ rows (files w.1) ∧ fIsDeleted r = false ∧
     (NormalizePath dir = "" ∨
      HasPrefix (foldString likeFold (fPath r)) (foldString likeFold (NormalizePath dir)) = true)).
Proof.
  split.
  { intros s. by rewrite escapeLikePattern_once, LIKE_escape, LIKE_suffix_any, andb_true_r. }
  intros Hsize HL. unfold FileList in HL. run_ok HL.
  match type of HL with onFiles ?op w = _ =>
    pose proof (onFiles_cases op w) as Hc; rewrite HL in Hc end.
  destruct Hc as [_ Hc]. simpl in Hc.
  match type of Hc with context [limitOffset T pageSize ?o ?l] =>
    assert (limitOffset T pageSize o l = Ok rs) as Hlim by naive_solver end.
  unfold limitOffset in Hlim. destruct (_ && _); [done|].
  rewrite (proj2 (Z.ltb_ge pageSize 0)) in Hlim by done. injection Hlim as <-. split.
  - rewrite length_take. lia.
  - intros r Hr%elem_of_page.
    rewrite orderBy_perm, list_elem_of_filter in Hr.
    destruct Hr as [Hl Hin]. split; [done|]. by apply fileListed_prefix.
Qed.

(** A directory listing by prefix is not confined to the directory: with a
    file in a sibling directory whose name extends the directory's name, [List]
    of the directory returns that file too. *)
Lemma file_list_leaks_sibling :
  let w := (MkDB [someFile "1" "docs2/secret" "h"] [] [] [] [] : DB list,
            MkSys (λ _, CallEnv 0 [] NoFault) 0 ∅) in
  (FileList "docs" "name" "asc" 1 10 w).1 = Ok [someFile "1" "docs2/secret" "h"].
Proof. vm_compute. reflexivity. Qed.

(** Listing the API keys fails as long as some listed key was never used:
    [List] scans the NULL of last_used_at into a plain string. After a successful
    [Create], a [List] whose page covers the table returns an error. *)
Lemma api_key_list_fails {T} `{SqlLaws T} (key : ApiKey) (pageSize : Z)
    (w w1 w2 : DB T * Sys) (r : res (list ApiKey)) :
  KeyCreate key w = (Ok tt, w1) →
  (Z.of_nat (length (rows (api_keys w1.1))) ≤ pageSize)%Z →
  KeyList false 1 pageSize w1 = (r, w2) → ∃ e, r = Err e.
Proof.
  intros HC Hsize HL. unfold KeyCreate in HC. run_ok HC. apply onKeys_ok in HC.
  match type of HC with INSERT ?x _ = _ => set (row := x) in HC end.
  assert (row ∈ rows (api_keys w1.1)) as Hin.
  { destruct (insert_cases row (api_keys w.1)) as [(t' & Heq & Hp & _)|(e & Heq & _)].
    - rewrite HC in Heq. simplify_eq. rewrite Hp. by left.
    - congruence. }
  destruct r as [ks|e]; [|by eauto]. exfalso. unfold KeyList in HL. run_ok HL.
  apply onKeys_ok in Hr. injection Hr as Hlim _. unfold limitOffset in Hlim.
  destruct (_ && _); [done|].
  change (pageOffset 1 pageSize) with (wrap64 (wrap64 0 * pageSize)) in Hlim.
  rewrite (wrap64_id 0), Z.mul_0_l, (wrap64_id 0) in Hlim by done.
  change (Z.to_nat 0) with 0%nat in Hlim. rewrite drop_0 in Hlim.
  rewrite (proj2 (Z.ltb_ge pageSize 0)) in Hlim by lia. injection Hlim as <-.
  match goal with Hs : scanAll ?l = Ok _ |- _ =>
    destruct (scanAll_null l row) as [e He]; [|done|congruence] end.
  rewrite take_ge.
  - by rewrite merge_sort_Permutation, list_elem_of_filter.
  - rewrite merge_sort_Permutation. etrans; [apply length_filter|]. lia.
Qed.

Definition someKey : ApiKey := MkKey "k1" "hash" "name" "" "read" "t0" "" "" true.

(** A key hash authenticates only a key that is active, that carries exactly
    this hash and that has no expiry or one not before the current time. *)
Lemma api_key_lookup_sound {T} `{SqlEngine T} (now keyHash : string) (w w' : DB T * Sys)
    (key : ApiKey) :
  KeyGetByKeyHash now keyHash w = (Ok (Some key), w') →
  (∃ r, r ∈ rows (api_keys w.1) ∧ key = scanApiKey r) ∧
  kKeyHash key = keyHash ∧ kIsActive key = true ∧
  (kExpiresAt key = "" ∨ String.ltb (kExpiresAt key) now = false).
Proof.
  unfold KeyGetByKeyHash. intros E. run_ok E. apply onKeys_ok in Hr. injection Hr as Hr _.
  destruct x as [r|]; simpl in E; [|by apply ret_ok in E as [? ?]].
  destruct (IsExpired now (scanApiKey r)) eqn:Ex; apply ret_ok in E as [Hk _]; [done|].
  simplify_eq.
  assert (r ∈ filter (λ r, bool_decide (rKeyHash r = keyHash) && rIsActive r = true)
            (rows (api_keys w.1))) as Hin.
  { destruct (filter _ _); simplify_eq/=. by left. }
  apply list_elem_of_filter in Hin as [Hp Hin]. bool_prop. simpl. split_and!; [eauto|done|done|].
  unfold IsExpired in Ex. case_bool_decide; [by left|by right].
Qed.

Lemma KeyGetByKeyHash_keeps {T} `{SqlEngine T} (now keyHash : string) (w : DB T * Sys) :
  (KeyGetByKeyHash now keyHash w).2 = (w.1, skip 1 w.2).
Proof.
  destruct w as [d s]. unfold KeyGetByKeyHash, mbind, M_bind, wrapErr, onKeys, dbCall, faulty, selectOne.
  simpl. destruct d; destruct (net _); simpl; try done.
  destruct (head _); simpl; [|done]. by destruct (IsExpired _ _).
Qed.
