(* ===== verification/FileList.v ===== *)
(** * internal/service/filelist: paged listing of files and directories

    One query over the files and the directories below a path, sorted, with one
    row more than the page holds to see whether there is a next page. *)

From S2P Require Export Metadata.
From Stdlib Require Import Ascii.

Local Open Scope go_scope.

Record FileListItem := MkItem {
  liID : string; liPath : string; liName : string; liSize : Z; liType : string;
  liCreatedAt : string
}.

Record FileListResult := MkListResult {
  Total : Z; Page : Z; PageSize : Z; HasMore : bool; Items : list FileListItem
}.

(** The columns a caller may sort by; any other name sorts by name. *)
Inductive listColumn := ByName | ByPath | BySize | ByCreatedAt | ByType.

Definition listColumnOf (sortBy : string) : listColumn :=
  if bool_decide (sortBy = "path") then ByPath
  else if bool_decide (sortBy = "size") then BySize
  else if bool_decide (sortBy = "created_at") then ByCreatedAt
  else if bool_decide (sortBy = "type") then ByType
  else ByName.

Definition itemLe (c : listColumn) (a b : FileListItem) : Prop :=
  match c with
  | ByName => strLe (liName a) (liName b)
  | ByPath => strLe (liPath a) (liPath b)
  | BySize => (liSize a ≤ liSize b)%Z
  | ByCreatedAt => strLe (liCreatedAt a) (liCreatedAt b)
  | ByType => strLe (liType a) (liType b)
  end.

#[export] Instance itemLe_dec c a b : Decision (itemLe c a b).
Proof. destruct c; simpl; apply _. Defined.

Section filelist.
Context {T : Type → Type} `{SqlEngine T}.

(** The condition on [path] in the WHERE clause. *)
Definition whereListed (path : string) (recursive : bool) (p : string) : bool :=
  if bool_decide (path = "") then recursive || negb (LIKE likeFold "%/%" p)
  else
    let escapedPrefix := escapeLikePattern (path +:+ "/") in
    LIKE likeFold (escapedPrefix +:+ "%") p &&
    (recursive || negb (LIKE likeFold (escapedPrefix +:+ "%/%") p)).

(** The two halves of the UNION ALL. *)
Definition fileItem (r : FileMetadata) : FileListItem :=
  MkItem (fID r) (fPath r) (fName r) (fSize r) "file" (fCreatedAt r).
Definition dirItem (r : DirectoryMetadata) : FileListItem :=
  MkItem (dID r) (dPath r) (dName r) 0 "directory" (dCreatedAt r).

Definition matching (path : string) (recursive : bool) (db : DB T) : list FileListItem :=
  (fileItem <$> filter (λ r, negb (fIsDeleted r) && whereListed path recursive (fPath r) = true)
                  (rows (files db))) ++
  (dirItem <$> filter (λ r, negb (dIsDeleted r) && whereListed path recursive (dPath r) = true)
                 (rows (directories db))).

Definition queryCount (f : DB T → Z) : M (DB T * Sys) Z := λ '(db, s),
  (match net (oracle s (tick s)) with
   | NoFault => Ok (f db)
   | Lost e | ReplyLost e => Err e
   | ShortRead _ => Err errIO
   end, (db, skip 1 s)).

Definition listFiles (path : string) (recursive : bool) (page pageSize : Z)
    (sortBy sortOrder : string) (includeTotal : bool) : M (DB T * Sys) FileListResult :=
  let path := NormalizePath path in
  let path := if bool_decide (path = ".") then "" else path in
  let page := if (page <? 1)%Z then 1%Z else page in
  let pageSize := if (pageSize <? 1)%Z then 20%Z else pageSize in
  let desc := EqualFold sortOrder "desc" in
  let fetchLimit := wrap64 (pageSize + 1) in
  let offset := wrap64 (wrap64 (page - 1) * pageSize) in
  items ← wrapErr "failed to list items" (queryRows (λ n db,
    limitOffset T fetchLimit offset
      (orderBy (itemLe (listColumnOf sortBy)) desc (deliver n (matching path recursive db)))));
  let hasMore := (pageSize <? Z.of_nat (length items))%Z in
  let items := if hasMore then take (Z.to_nat pageSize) items else items in
  total ← (if includeTotal then
             wrapErr "failed to count items"
               (queryCount (λ db, Z.of_nat (length (matching path recursive db))))
           else mret (-1)%Z);
  mret (MkListResult total page pageSize hasMore items).

Definition ListFiles (path : string) (recursive : bool) (page pageSize : Z)
    (sortBy sortOrder : string) : M (DB T * Sys) FileListResult :=
  listFiles path recursive page pageSize sortBy sortOrder false.

Definition ListFilesWithTotal (path : string) (recursive : bool) (page pageSize : Z)
    (sortBy sortOrder : string) : M (DB T * Sys) FileListResult :=
  listFiles path recursive page pageSize sortBy sortOrder true.

(** A client that asks for one page after the other while there are more. *)
Fixpoint walkPages (fuel : nat) (path : string) (recursive : bool) (page pageSize : Z)
    (sortBy sortOrder : string) : M (DB T * Sys) (list FileListItem) :=
  match fuel with
  | O => throw (ErrMsg "out of fuel")
  | S fuel =>
      r ← ListFiles path recursive page pageSize sortBy sortOrder;
      if HasMore r then
        rest ← walkPages fuel path recursive (page + 1) pageSize sortBy sortOrder;
        mret (Items r ++ rest)
      else mret (Items r)
  end.

End filelist.

(** ** What a listing selects *)

Section where_clause.
Context {T : Type → Type} `{SqlLaws T}.

(** The rest of a path below a directory ([""] being the root). *)
Definition inside (dir p rest : string) : Prop :=
  if decide (dir = "") then p = rest
  else HasPrefix (foldString likeFold p) (foldString likeFold (dir +:+ "/")) = true ∧
       rest = sdrop (slen (dir +:+ "/")) p.

Lemma whereListed_spec dir rec p :
  whereListed dir rec p = true ↔
  ∃ rest, inside dir p rest ∧ (rec = true ∨ sIn "/"%char rest = false).
Proof.
  unfold whereListed, inside. destruct (decide (dir = "")) as [->|Hd].
  - rewrite bool_decide_eq_true_2, LIKE_slash by eauto using likeFold_slash.
    rewrite orb_true_iff, negb_true_iff. naive_solver.
  - rewrite bool_decide_eq_false_2, escapeLikePattern_once, !LIKE_escape by done.
    rewrite LIKE_suffix_any, LIKE_slash, andb_true_r by eauto using likeFold_slash.
    rewrite andb_true_iff, orb_true_iff, negb_true_iff, andb_false_iff.
    split.
    + intros [Hp Hr]. eexists. split; [by split|]. destruct Hr as [?|[?|?]]; [by left|congruence|by right].
    + intros (rest & [Hp ->] & Hr). split; [done|]. destruct Hr; auto.
Qed.

Lemma matching_spec dir rec (db : DB T) i :
  i ∈ matching dir rec db ↔
  (∃ r, r ∈ rows (files db) ∧ i = fileItem r ∧ fIsDeleted r = false ∧
     ∃ rest, inside dir (fPath r) rest ∧ (rec = true ∨ sIn "/"%char rest = false)) ∨
  (∃ r, r ∈ rows (directories db) ∧ i = dirItem r ∧ dIsDeleted r = false ∧
     ∃ rest, inside dir (dPath r) rest ∧ (rec = true ∨ sIn "/"%char rest = false)).
Proof.
  unfold matching. rewrite elem_of_app, !list_elem_of_fmap.
  setoid_rewrite list_elem_of_filter. setoid_rewrite andb_true_iff.
  setoid_rewrite negb_true_iff. setoid_rewrite whereListed_spec. naive_solver.
Qed.
End where_clause.

(** ** Pages *)

(** The whole listing in the order the caller asked for, as query number [n] gets it. *)
Definition listedDir (path : string) : string :=
  if bool_decide (NormalizePath path = ".") then "" else NormalizePath path.

Definition listing {T} `{SqlEngine T} (path : string) (recursive : bool) (sortBy sortOrder : string)
    (n : nat) (db : DB T) : list FileListItem :=
  orderBy (itemLe (listColumnOf sortBy)) (EqualFold sortOrder "desc")
    (deliver n (matching (listedDir path) recursive db)).

(** What the column of a listing holds, and its order. *)
Definition itemKey (c : listColumn) (i : FileListItem) : Z * string :=
  match c with
  | ByName => (0, liName i)
  | ByPath => (0, liPath i)
  | BySize => (liSize i, "")
  | ByCreatedAt => (0, liCreatedAt i)
  | ByType => (0, liType i)
  end%Z.

Definition colLe (a b : Z * string) : Prop := (a.1 < b.1)%Z ∨ (a.1 = b.1 ∧ strLe a.2 b.2).

#[export] Instance colLe_anti : AntiSymm (=) colLe.
Proof.
  intros [a s] [b t] [?|[? Hs]] [?|[? Ht]]; simpl in *; try lia. f_equal; [done|].
  by apply strLe_anti.
Qed.

#[export] Instance colLe_trans : Transitive colLe.
Proof.
  intros [a s] [b t] [c u] [?|[? Hs]] [?|[? Ht]]; unfold colLe; simpl in *; [left; lia..|].
  right. split; [lia|]. by eapply strLe_trans.
Qed.

Lemma itemLe_key c a b : itemLe c a b ↔ colLe (itemKey c a) (itemKey c b).
Proof.
  unfold colLe. destruct c; simpl; [naive_solver lia..| |naive_solver lia|naive_solver lia].
  assert (strLe "" "") by done. split; [|naive_solver lia]. intros. destruct (decide (liSize a = liSize b)); [by right|left; lia].
Qed.

(** Sorted lists with the same rows have the same column. *)
Lemma orderBy_keys c desc l1 l2 :
  l1 ≡ₚ l2 →
  itemKey c <$> orderBy (itemLe c) desc l1 = itemKey c <$> orderBy (itemLe c) desc l2.
Proof.
  intros Hp.
  assert (base.Total (itemLe c)) as Htot.
  { intros a b. destruct c; simpl; try apply strLe_total. lia. }
  assert (base.Total (λ a b, itemLe c b a)) as Htot' by (intros a b; apply Htot).
  assert (itemKey c <$> orderBy (itemLe c) desc l1 ≡ₚ itemKey c <$> orderBy (itemLe c) desc l2) as Hk.
  { by rewrite !orderBy_perm, Hp. }
  assert (∀ (R : FileListItem → FileListItem → Prop) (K : Z * string → Z * string → Prop) l,
    (∀ a b, R a b → K (itemKey c a) (itemKey c b)) → Sorted R l → Sorted K (itemKey c <$> l)) as Hmap.
  { intros R K l HR Hs. induction Hs as [|a l Hs IH Hh]; [done|]. rewrite fmap_cons.
    constructor; [done|]. destruct Hh; constructor; auto. }
  destruct desc; unfold orderBy in *.
  - assert (AntiSymm (=) (flip colLe)) by (intros a b ? ?; by apply (anti_symm colLe)).
    assert (Transitive (flip colLe)) by (intros a b d ? ?; by apply (transitivity (y := b))).
    apply (Sorted_unique (flip colLe)); [..|exact Hk];
      (apply (Hmap (λ a b, itemLe c b a)); [intros a b; by apply itemLe_key|by apply Sorted_merge_sort]).
  - apply (Sorted_unique colLe); [..|exact Hk];
      (apply (Hmap (itemLe c)); [intros a b; by apply itemLe_key|by apply Sorted_merge_sort]).
Qed.

(** Without ties there is one sorted list. *)
Lemma no_ties_unique {A B} (key : A → B) (l1 l2 : list A) :
  NoDup (key <$> l1) → l1 ≡ₚ l2 → key <$> l1 = key <$> l2 → l1 = l2.
Proof.
  intros Hn Hp Hk. apply list_eq. intros i. apply (f_equal (.!! i)) in Hk as Hi.
  rewrite !list_lookup_fmap in Hi. destruct (l1 !! i) as [a|] eqn:E1, (l2 !! i) as [b|] eqn:E2;
    simpl in Hi; try done. f_equal. injection Hi as Hi.
  assert (b ∈ l1) as Hb by (rewrite Hp; by eapply list_elem_of_lookup_2).
  apply list_elem_of_lookup in Hb as [j Hj].
  assert (i = j) as ->; [|congruence].
  eapply NoDup_lookup; [exact Hn|..]; rewrite list_lookup_fmap; [by rewrite E1|].
  rewrite Hj. simpl. by f_equal.
Qed.

Section pages.
Context {T : Type → Type} `{SqlEngine T}.
Context (path : string) (recursive : bool) (sortBy sortOrder : string).
Notation listing := (listing (T := T) path recursive sortBy sortOrder).
Notation key := (itemKey (listColumnOf sortBy)).

Lemma fetch_page (ps off : nat) (l : list FileListItem) :
  let items := take (ps + 1) (drop off l) in
  let more := (Z.of_nat ps <? Z.of_nat (length items))%Z in
  more = bool_decide (off + ps < length l) ∧
  (if more then take (Z.to_nat (Z.of_nat ps)) items else items) = take ps (drop off l).
Proof.
  cbv zeta. rewrite length_take, length_drop.
  destruct (_ <? _)%Z eqn:E; bool_prop; (split; [|]).
  - rewrite bool_decide_eq_true_2; [done|]. lia.
  - rewrite Nat2Z.id, take_take. f_equal. lia.
  - rewrite bool_decide_eq_false_2; [done|]. lia.
  - rewrite !take_ge; rewrite ?length_drop; [done|lia..].
Qed.

(** The page of query [n]. *)
Definition pageAt (n page ps : nat) (db : DB T) : list FileListItem :=
  take ps (drop ((page - 1) * ps) (listing n db)).

Context `{!SqlLaws T}.

Lemma listing_matching n (db : DB T) : listing n db ≡ₚ matching (listedDir path) recursive db.
Proof. unfold FileList.listing. by rewrite orderBy_perm, deliver_perm. Qed.

Lemma listing_keys n m (db : DB T) : key <$> listing n db = key <$> listing m db.
Proof. apply orderBy_keys. by rewrite !deliver_perm. Qed.

Lemma listing_length n m (db : DB T) : length (listing n db) = length (listing m db).
Proof. apply Permutation_length. by rewrite !listing_matching. Qed.

Lemma listFiles_page (page ps : nat) tot (w : DB T * Sys) :
  (∀ n, net (oracle w.2 n) = NoFault) → (1 ≤ page)%nat → (1 ≤ ps)%nat →
  (Z.of_nat (page * ps) + 1 ≤ int64_max)%Z →
  let l := listing (tick w.2) w.1 in
  listFiles path recursive (Z.of_nat page) (Z.of_nat ps) sortBy sortOrder tot w =
  (Ok (MkListResult (if tot then Z.of_nat (length l) else (-1)%Z)
         (Z.of_nat page) (Z.of_nat ps) (bool_decide (page * ps < length l)%nat)
         (pageAt (tick w.2) page ps w.1)),
   (w.1, skip (if tot then 2 else 1) w.2)).
Proof.
  intros Hn Hp Hs Hb. destruct w as [db s]. unfold listFiles. cbv zeta.
  rewrite (proj2 (Z.ltb_ge (Z.of_nat page) 1)), (proj2 (Z.ltb_ge (Z.of_nat ps) 1)) by lia.
  rewrite (wrap64_id (Z.of_nat ps + 1)), (wrap64_id (Z.of_nat page - 1)),
    (wrap64_id ((Z.of_nat page - 1) * Z.of_nat ps))
    by (unfold in64, int64_min, int64_max in *; nia).
  unfold mbind, M_bind, wrapErr, queryRows. simpl. rewrite Hn.
  unfold limitOffset. rewrite (proj2 (Z.ltb_ge (Z.of_nat ps + 1) 0)) by lia.
  rewrite (proj2 (Z.ltb_ge ((Z.of_nat page - 1) * Z.of_nat ps) 0)) by nia.
  rewrite andb_false_r. simpl.
  match goal with |- context [drop ?a ?b] => set (l := b); replace a with ((page - 1) * ps)%nat by nia end.
  replace (Z.to_nat (Z.of_nat ps + 1)) with (ps + 1)%nat by lia.
  destruct (fetch_page ps ((page - 1) * ps) l) as [-> ->].
  fold (listedDir path) in l |- *.
  assert (length (matching (T := T) (listedDir path) recursive db) = length l) as Hlen.
  { apply Permutation_length. symmetry. apply listing_matching. }
  assert (listing (tick s) db = l) as Hl by done. unfold pageAt. rewrite Hl.
  assert (bool_decide ((page - 1) * ps + ps < length l)%nat = bool_decide (page * ps < length l)%nat) as ->
    by (apply bool_decide_ext; nia).
  destruct tot; simpl; [|done]. unfold queryCount. simpl. rewrite Hn. simpl. rewrite Hlen.
  unfold mret, M_ret, skip. simpl. do 3 f_equal. lia.
Qed.

(** What a walk has collected from the pages from [page] on, whatever the order of
    ties in each of its queries: the column of the sorted listing, and without ties
    that listing itself. *)
Definition collected (page ps : nat) (db : DB T) (l : list FileListItem) : Prop :=
  let rest := drop ((page - 1) * ps) (listing 0 db) in
  key <$> l = key <$> rest ∧ (∀ i, i ∈ l → i ∈ listing 0 db) ∧
  (NoDup (key <$> listing 0 db) → l = rest).

Lemma listing_no_ties n (db : DB T) : NoDup (key <$> listing 0 db) → listing n db = listing 0 db.
Proof.
  intros Hn. symmetry. apply (no_ties_unique key); [done| |apply listing_keys].
  by rewrite !listing_matching.
Qed.

Lemma walkPages_rest fuel (page ps : nat) (w : DB T * Sys) :
  (∀ n, net (oracle w.2 n) = NoFault) → (1 ≤ page)%nat → (1 ≤ ps)%nat →
  (Z.of_nat (length (listing 0 w.1) + 2 * ps) + 1 ≤ int64_max)%Z →
  ((page - 1) * ps ≤ length (listing 0 w.1))%nat →
  (length (listing 0 w.1) < fuel + (page - 1) * ps)%nat →
  ∃ k l, walkPages fuel path recursive (Z.of_nat page) (Z.of_nat ps) sortBy sortOrder w =
    (Ok l, (w.1, skip k w.2)) ∧ collected page ps w.1 l.
Proof.
  revert page w. induction fuel as [|fuel IH]; intros page w Hn Hp Hs Hb Hpg Hf; [lia|].
  cbn [walkPages]. unfold mbind, M_bind, ListFiles.
  rewrite listFiles_page by (done || nia). simpl.
  rewrite (listing_length (tick w.2) 0).
  assert (key <$> pageAt (tick w.2) page ps w.1 =
          take ps (key <$> drop ((page - 1) * ps) (listing 0 w.1))) as Hkeys.
  { unfold pageAt. by rewrite fmap_take, !fmap_drop, (listing_keys (tick w.2) 0). }
  assert (∀ i, i ∈ pageAt (tick w.2) page ps w.1 → i ∈ listing 0 w.1) as Hin.
  { unfold pageAt. intros i Hi.
    apply elem_of_take in Hi as (j & Hi & _). rewrite lookup_drop in Hi.
    apply list_elem_of_lookup_2 in Hi.
    by rewrite listing_matching in Hi |- *. }
  case_bool_decide as Hm.
  - replace (Z.of_nat page + 1)%Z with (Z.of_nat (S page)) by lia.
    destruct (IH (S page) (w.1, skip 1 w.2)) as (k & l & Hk & Hkl & Hil & Hul);
      [done|lia|done|done|simpl; nia|simpl; nia|].
    rewrite Hk. simpl in *. exists (1 + k)%nat, (pageAt (tick w.2) page ps w.1 ++ l).
    replace ((page - 0) * ps) with ((page - 1) * ps + ps) in * by nia.
    rewrite <-drop_drop in Hkl, Hul. split; [unfold mret, M_ret, skip; simpl; do 3 f_equal; lia|].
    split_and!.
    + by rewrite fmap_app, Hkeys, Hkl, <-fmap_take, <-fmap_app, take_drop.
    + intros i [?|?]%elem_of_app; auto.
    + intros Hnd. unfold pageAt. rewrite (listing_no_ties _ _ Hnd), (Hul Hnd). apply take_drop.
  - exists 1%nat, (pageAt (tick w.2) page ps w.1). split; [done|]. split_and!; [|done|].
    + rewrite Hkeys. apply take_ge. rewrite length_fmap, length_drop. nia.
    + intros Hnd. unfold pageAt. rewrite (listing_no_ties _ _ Hnd). apply take_ge.
      rewrite length_drop. nia.
Qed.
End pages.

(** ** Properties *)

(** What a listing of [path] must contain: the live files and directories
    below it, at any depth or only directly below. *)
Definition belongs {T} `{SqlLaws T} (path : string) (recursive : bool) (db : DB T)
    (i : FileListItem) : Prop :=
  let here p := ∃ rest, inside (listedDir path) p rest ∧
                        (recursive = true ∨ sIn "/"%char rest = false) in
  (∃ r, r ∈ rows (files db) ∧ fIsDeleted r = false ∧ here (fPath r) ∧ i = fileItem r) ∨
  (∃ r, r ∈ rows (directories db) ∧ dIsDeleted r = false ∧ here (dPath r) ∧ i = dirItem r).

(** C31: paging through a directory. The order of rows that tie in the sort column is
    the engine's and can differ from query to query. Whatever it is, each page is the
    slice of one sorted listing of exactly the live files and directories below the path
    (directly below it, unless the listing is recursive), [HasMore] says whether
    anything follows and [Total] counts all of it; and a client that asks for page after
    page while [HasMore] holds gets as many rows as there are, each of them listed, and
    in the sort column it reads what a sorted listing holds. When no two of them
    tie it gets each of them once; with ties it can get one twice and another not at all
    ([pages_miss_a_row]). *)
Theorem listing_pages {T} `{SqlLaws T} (path : string) (recursive : bool) (sortBy sortOrder : string)
    (ps fuel : nat) (w : DB T * Sys) :
  (∀ n, net (oracle w.2 n) = NoFault) → (1 ≤ ps)%nat →
  let l n := listing path recursive sortBy sortOrder n w.1 in
  let key := itemKey (listColumnOf sortBy) in
  (length (l 0%nat) < fuel)%nat → (Z.of_nat (length (l 0%nat) + 2 * ps) + 1 ≤ int64_max)%Z →
  (∃ r, (walkPages fuel path recursive 1 (Z.of_nat ps) sortBy sortOrder w).1 = Ok r ∧
     key <$> r = key <$> l 0%nat ∧ (∀ i, i ∈ r → belongs path recursive w.1 i) ∧
     (NoDup (key <$> l 0%nat) → r = l 0%nat)) ∧
  (∀ n, l n ≡ₚ l 0%nat ∧ key <$> l n = key <$> l 0%nat ∧ ∀ i, i ∈ l n ↔ belongs path recursive w.1 i) ∧
  (∀ page, (1 ≤ page)%nat → (Z.of_nat (page * ps) + 1 ≤ int64_max)%Z →
   ∃ r w', ListFilesWithTotal path recursive (Z.of_nat page) (Z.of_nat ps) sortBy sortOrder w = (Ok r, w') ∧
     Items r = take ps (drop ((page - 1) * ps) (l (tick w.2))) ∧
     HasMore r = bool_decide (page * ps < length (l 0%nat))%nat ∧ Total r = Z.of_nat (length (l 0%nat))).
Proof.
  intros Hn Hs l key Hf Hb.
  assert (∀ n i, i ∈ l n ↔ belongs path recursive w.1 i) as Hbel.
  { intros n i. unfold l, belongs. rewrite (listing_matching path recursive sortBy sortOrder n w.1), matching_spec. naive_solver. }
  split_and!.
  - destruct (walkPages_rest path recursive sortBy sortOrder fuel 1 ps w) as (k & r & Hk & Hc);
      [done|lia|done|done|lia|simpl; fold (l 0%nat); lia|].
    destruct Hc as (Hkey & Hin & Hu). exists r. change 1%Z with (Z.of_nat 1). rewrite Hk.
    split_and!; [done|done| |done]. intros i Hi. by apply (Hbel 0%nat), Hin.
  - intros n. split_and!; [|apply listing_keys, _|apply Hbel]. unfold l.
    etrans; [|symmetry]; apply listing_matching, _.
  - intros page Hp Hpb. unfold ListFilesWithTotal. rewrite listFiles_page by done.
    do 2 eexists. unfold l. rewrite (listing_length path recursive sortBy sortOrder 0%nat (tick w.2)).
    by split_and!.
Qed.

(** A page of one, and a deleted file and a nested one that do not show. *)
Definition listDemo : DB list :=
  MkDB [MkFile "1" "d/b" "b" 7 "" "local" "" "t" "t" false;
        MkFile "2" "d/gone" "gone" 7 "" "local" "" "t" "t" true;
        MkFile "3" "d/sub/x" "x" 7 "" "local" "" "t" "t" false]
    [MkDir "4" "d/sub" "sub" "t" "t" false; MkDir "5" "d" "d" "t" "t" false] [] [] [].

Definition listDemoWorld : DB list * Sys := (listDemo, MkSys (λ _, CallEnv 0 [] NoFault) 0 ∅).

Lemma listing_pages_witness :
  let l := [MkItem "1" "d/b" "b" 7 "file" "t"; MkItem "4" "d/sub" "sub" 0 "directory" "t"] in
  let key := itemKey ByName in
  (∃ r, (walkPages 3 "/d/" false 1 (Z.of_nat 1) "name" "asc" listDemoWorld).1 = Ok r ∧
     key <$> r = key <$> l ∧ (∀ i, i ∈ r → belongs "/d/" false listDemoWorld.1 i) ∧
     (NoDup (key <$> l) → r = l)) ∧
  (∀ n, listing "/d/" false "name" "asc" n listDemoWorld.1 ≡ₚ l ∧
     key <$> listing "/d/" false "name" "asc" n listDemoWorld.1 = key <$> l ∧
     ∀ i, i ∈ listing "/d/" false "name" "asc" n listDemoWorld.1 ↔
          belongs "/d/" false listDemoWorld.1 i) ∧
  (∀ page, (1 ≤ page)%nat → (Z.of_nat (page * 1) + 1 ≤ int64_max)%Z →
   ∃ r w', ListFilesWithTotal "/d/" false (Z.of_nat page) (Z.of_nat 1) "name" "asc" listDemoWorld = (Ok r, w') ∧
     Items r = take 1 (drop ((page - 1) * 1) l) ∧
     HasMore r = bool_decide (page * 1 < length l)%nat ∧ Total r = Z.of_nat (length l)).
Proof.
  cbv zeta. assert (listing "/d/" false "name" "asc" 0 listDemoWorld.1 =
    [MkItem "1" "d/b" "b" 7 "file" "t"; MkItem "4" "d/sub" "sub" 0 "directory" "t"]) as <-
    by (vm_compute; reflexivity).
  apply (listing_pages "/d/" false "name" "asc" 1 3 listDemoWorld);
    [done|lia|vm_compute; lia|vm_compute; done].
Defined.

(** Two files of the same name. The engine delivers ties in another order for the
    second page, and the client gets one file twice and never the other. *)
Lemma pages_miss_a_row :
  let db := MkDB [MkFile "1" "d/x/a" "a" 7 "" "local" "" "t" "t" false;
                  MkFile "2" "d/y/a" "a" 7 "" "local" "" "t" "t" false] [] [] [] [] in
  let w := (db, MkSys (λ _, CallEnv 0 [] NoFault) 0 ∅) in
  (@walkPages list ListEngine.folding 3 "d" true 1 1 "name" "asc" w).1 =
    Ok [MkItem "1" "d/x/a" "a" 7 "file" "t"; MkItem "1" "d/x/a" "a" 7 "file" "t"].
Proof. vm_compute. reflexivity. Qed.
