(* ===== verification/AuditWriter.v ===== *)
(** * internal/database/audit_writer.go: the asynchronous audit log

    Handlers submit entries to a buffered channel; a goroutine collects them and
    writes them in batches; Close cancels the goroutine, waits for it and writes
    what is left. The goroutine, the submitters and the closer interleave: the
    writer is a step relation over its channel and its pending batch. *)

From S2P Require Export Metadata.

Local Open Scope go_scope.

(** Where the goroutine is: in its loop, emptying the channel on the way out, or
    gone ([done] is closed). *)
Inductive loopState := Looping | Draining | Exited.

#[export] Instance loopState_eq_dec : EqDecision loopState.
Proof. solve_decision. Defined.

Record AuditWriter := MkWriter {
  batchSize : Z;
  ch : list AuditLog;          (* the channel, oldest first *)
  pending : list AuditLog;
  cancelled : bool;            (* the context of the goroutine *)
  loopAt : loopState
}.

Definition NewAuditWriter (batchSize : Z) : AuditWriter :=
  MkWriter (if (batchSize <=? 0)%Z then 100 else batchSize) [] [] false Looping.

Definition capacity (w : AuditWriter) : Z := (batchSize w * 4)%Z.

Definition setCh c (w : AuditWriter) :=
  MkWriter (batchSize w) c (pending w) (cancelled w) (loopAt w).
Definition setPending p (w : AuditWriter) :=
  MkWriter (batchSize w) (ch w) p (cancelled w) (loopAt w).
Definition setLoop l (w : AuditWriter) :=
  MkWriter (batchSize w) (ch w) (pending w) (cancelled w) l.
Definition cancelLoop (w : AuditWriter) :=
  MkWriter (batchSize w) (ch w) (pending w) true (loopAt w).

(** The error of a context whose deadline has passed. *)
Definition errDeadline : error := ErrMsg "context deadline exceeded".

Section writer.
Context {T : Type → Type} `{SqlEngine T}.

(** The writer with the database it writes to. [attempted] records the entries
    for which an INSERT was issued, in order, and [accepted] those that Submit took:
    neither is part of the program. *)
Record AuditState := MkAuditState {
  writer : AuditWriter; adb : DB T * Sys;
  attempted : list AuditLog; accepted : list AuditLog
}.

Definition onWriter (f : AuditWriter → AuditWriter) (s : AuditState) : AuditState :=
  MkAuditState (f (writer s)) (adb s) (attempted s) (accepted s).

(** One row after the other; a row that fails is logged and skipped. *)
Fixpoint writeBatch (batch : list AuditLog) (d : DB T * Sys) : DB T * Sys :=
  match batch with
  | [] => d
  | entry :: batch => writeBatch batch (AuditCreate entry d).2
  end.

Definition flushLocked (s : AuditState) : AuditState :=
  let batch := pending (writer s) in
  MkAuditState (setPending [] (writer s)) (writeBatch batch (adb s)) (attempted s ++ batch)
    (accepted s).

(** The select of Submit: a full channel drops the entry. *)
Definition Submit (entry : AuditLog) (s : AuditState) : AuditState :=
  if (Z.of_nat (length (ch (writer s))) <? capacity (writer s))%Z
  then MkAuditState (setCh (ch (writer s) ++ [entry]) (writer s)) (adb s) (attempted s)
         (accepted s ++ [entry])
  else s.

(** The case of a received entry, and of a tick. *)
Definition onEntry (entry : AuditLog) (rest : list AuditLog) (s : AuditState) : AuditState :=
  let s := onWriter (λ w, setPending (pending w ++ [entry]) (setCh rest w)) s in
  if (batchSize (writer s) <=? Z.of_nat (length (pending (writer s))))%Z
     && negb (cancelled (writer s))
  then flushLocked s else s.

Definition onTick (s : AuditState) : AuditState :=
  if negb (bool_decide (pending (writer s) = [])) && negb (cancelled (writer s))
  then flushLocked s else s.

(** The last part of Close, once the goroutine is gone. *)
Definition finalFlush (s : AuditState) : AuditState :=
  if bool_decide (pending (writer s) = []) then s else flushLocked s.

(** The steps of the goroutine, of the submitters and of Close. Each holds the
    mutex of the pending batch, or is one operation on the channel. *)
Inductive step : AuditState → AuditState → Prop :=
| step_submit entry s : step s (Submit entry s)
| step_entry entry rest s :
    loopAt (writer s) = Looping → ch (writer s) = entry :: rest → step s (onEntry entry rest s)
| step_tick s : loopAt (writer s) = Looping → step s (onTick s)
| step_cancel s : step s (onWriter cancelLoop s)
| step_done s :
    loopAt (writer s) = Looping → cancelled (writer s) = true →
    step s (onWriter (setLoop Draining) s)
| step_drain entry rest s :
    loopAt (writer s) = Draining → ch (writer s) = entry :: rest →
    step s (onWriter (λ w, setPending (pending w ++ [entry]) (setCh rest w)) s)
| step_exit s :
    loopAt (writer s) = Draining → ch (writer s) = [] → step s (onWriter (setLoop Exited) s)
| step_close s : loopAt (writer s) = Exited → step s (finalFlush s).

Definition initial (n : Z) (d : DB T * Sys) : AuditState :=
  MkAuditState (NewAuditWriter n) d [] [].

(** The goroutine, cancelled and with nobody else running, drains the channel and
    exits, and Close flushes. *)
Definition drainAll (s : AuditState) : AuditState :=
  onWriter (λ w, setPending (pending w ++ ch w) (setCh [] w)) s.

Definition closeDone (s : AuditState) : AuditState :=
  let s := onWriter cancelLoop s in
  let s := match loopAt (writer s) with
           | Exited => s
           | _ => onWriter (setLoop Exited) (drainAll (onWriter (setLoop Draining) s))
           end in
  finalFlush s.

(** Close at time [t], with a context that ends at [deadline]. The goroutine needs
    [exit] to end once it is cancelled; the select takes what is ready first, and
    [pick] decides when both are. When the context is first, Close returns without the
    flush. *)
Definition Close (deadline exit : Z) (pick : bool) : M (Z * AuditState) unit := λ '(t, s),
  let doneAt := match loopAt (writer s) with Exited => t | _ => (t + exit)%Z end in
  let ctxAt := Z.max t deadline in
  if (doneAt <? ctxAt)%Z || ((doneAt =? ctxAt)%Z && pick) then (Ok tt, (doneAt, closeDone s))
  else (Err errDeadline, (ctxAt, onWriter cancelLoop s)).

(** ** Invariants *)

Lemma flushLocked_all s :
  attempted (flushLocked s) ++ pending (writer (flushLocked s)) ++ ch (writer (flushLocked s))
  = attempted s ++ pending (writer s) ++ ch (writer s).
Proof. simpl. by rewrite <-app_assoc. Qed.

(** Every accepted entry is, in the order of acceptance, written, pending or in the
    channel. *)
Definition conserved (s : AuditState) : Prop :=
  accepted s = attempted s ++ pending (writer s) ++ ch (writer s).

Lemma flush_conserved s : conserved s → conserved (flushLocked s).
Proof. unfold conserved. by rewrite flushLocked_all. Qed.

Lemma take_conserved entry rest s :
  ch (writer s) = entry :: rest → conserved s →
  conserved (onWriter (λ w, setPending (pending w ++ [entry]) (setCh rest w)) s).
Proof. unfold conserved. simpl. intros -> ->. by rewrite <-(app_assoc _ [entry]). Qed.

Lemma step_conserved s s' : step s s' → conserved s → conserved s'.
Proof.
  intros [] Hc; try done.
  - unfold Submit. destruct (_ <? _)%Z; [|done]. unfold conserved in *. simpl.
    by rewrite Hc, <-!app_assoc.
  - unfold onEntry. case_match; [apply flush_conserved|]; by apply take_conserved.
  - unfold onTick. destruct (_ && _); [by apply flush_conserved|done].
  - by apply take_conserved.
  - unfold finalFlush. case_bool_decide; [done|by apply flush_conserved].
Qed.

(** The buffers are bounded, and an exited goroutine was cancelled. *)
Definition bounded (s : AuditState) : Prop :=
  (0 < batchSize (writer s))%Z ∧
  (Z.of_nat (length (ch (writer s))) ≤ capacity (writer s))%Z ∧
  (cancelled (writer s) = false → (Z.of_nat (length (pending (writer s))) < batchSize (writer s))%Z) ∧
  (loopAt (writer s) ≠ Looping → cancelled (writer s) = true).

Lemma take_bounded entry rest s (R := onWriter (λ w, setPending (pending w ++ [entry]) (setCh rest w)) s) :
  ch (writer s) = entry :: rest → bounded s →
  (0 < batchSize (writer R))%Z ∧ (Z.of_nat (length (ch (writer R))) ≤ capacity (writer R))%Z ∧
  (loopAt (writer R) ≠ Looping → cancelled (writer R) = true).
Proof.
  intros Hc (Hb & Hcap & _ & Hl). unfold capacity in *. simpl. rewrite Hc in Hcap. simpl in Hcap.
  split_and!; [done|lia|done].
Qed.

Lemma step_bounded s s' : step s s' → bounded s → bounded s'.
Proof.
  intros [entry s0|entry rest s0 Hl Hc|s0 Hl|s0|s0 Hl Hcan|entry rest s0 Hl Hc|s0 Hl Hc|s0 Hl] Hb;
    pose proof Hb as (Hpos & Hcap & Hpen & Hx).
  - unfold Submit. destruct (_ <? _)%Z eqn:E; [|done]. bool_prop. unfold bounded, capacity in *. simpl.
    rewrite length_app. simpl. split_and!; [done|lia|done|done].
  - pose proof (take_bounded _ _ _ Hc Hb) as (H1 & H2 & H3). unfold onEntry. cbv zeta.
    set (s1 := onWriter _ s0) in *. destruct (_ && _) eqn:E.
    + split_and!; [done|done| |done]. intros _. simpl in *. lia.
    + split_and!; [done|done| |done]. intros Hn. apply andb_false_iff in E as [E|E]; bool_prop; [lia|].
      simpl in *. congruence.
  - unfold onTick. destruct (_ && _); [|done]. split_and!; [done|done| |done]. intros _. simpl in *. lia.
  - split_and!; [done|done|done|]. done.
  - split_and!; [done|done|done|]. intros _. done.
  - pose proof (take_bounded _ _ _ Hc Hb) as (H1 & H2 & H3). split_and!; [done|done| |done].
    intros Hn. simpl in *. assert (cancelled (writer s0) = true) by (apply Hx; by rewrite Hl). congruence.
  - split_and!; [done|done|done|]. intros _. simpl. apply Hx. by rewrite Hl.
  - unfold finalFlush. case_bool_decide; [done|]. split_and!; [done|done| |done].
    intros _. simpl in *. lia.
Qed.

(** The database is the result of the attempts, in order. *)
Lemma writeBatch_app a b (d : DB T * Sys) : writeBatch (a ++ b) d = writeBatch b (writeBatch a d).
Proof. revert d. induction a as [|e a IH]; intros d; [done|]. simpl. apply IH. Qed.

Definition tracked (d : DB T * Sys) (s : AuditState) : Prop := adb s = writeBatch (attempted s) d.

Lemma flush_tracked d s : tracked d s → tracked d (flushLocked s).
Proof. unfold tracked. simpl. intros ->. by rewrite writeBatch_app. Qed.

Lemma step_tracked d s s' : step s s' → tracked d s → tracked d s'.
Proof.
  intros [] Ht; try done.
  - unfold Submit. by destruct (_ <? _)%Z.
  - unfold onEntry. case_match; [by apply flush_tracked|done].
  - unfold onTick. destruct (_ && _); [by apply flush_tracked|done].
  - unfold finalFlush. case_bool_decide; [done|by apply flush_tracked].
Qed.

Lemma reachable_invariants n d s :
  rtc step (initial n d) s → conserved s ∧ bounded s ∧ tracked d s.
Proof.
  intros Hr. remember (initial n d) as s0 eqn:E0.
  assert (conserved s0 ∧ bounded s0 ∧ tracked d s0) as Hi.
  { subst. split_and!; [done| |done]. unfold bounded, capacity. simpl.
    destruct (n <=? 0)%Z eqn:E; bool_prop; split_and!; lia || done. }
  clear E0. induction Hr as [|s1 s2 s3 Hs _ IH]; [done|]. destruct Hi as (? & ? & ?).
  apply IH. split_and!; [by eapply step_conserved|by eapply step_bounded|by eapply step_tracked].
Qed.

(** A Close that waits for the goroutine is a run of the steps. *)
Lemma drain_steps s :
  loopAt (writer s) = Draining → rtc step s (drainAll s).
Proof.
  remember (ch (writer s)) as c eqn:Ec. revert s Ec. induction c as [|e c IH]; intros s Ec Hl.
  - replace (drainAll s) with s; [done|]. destruct s as [[b c p x l] d a q]. simpl in *. subst.
    unfold drainAll, onWriter. simpl. by rewrite app_nil_r.
  - eapply rtc_l; [by eapply step_drain|].
    replace (drainAll s) with
      (drainAll (onWriter (λ w, setPending (pending w ++ [e]) (setCh c w)) s)); [by apply IH|].
    destruct s as [[b c' p x l] d a q]. simpl in *. subst. unfold drainAll, onWriter. simpl.
    by rewrite <-app_assoc.
Qed.

Lemma closeDone_steps s : bounded s → rtc step s (closeDone s).
Proof.
  intros (_ & _ & _ & Hx). eapply rtc_l; [apply step_cancel|]. unfold closeDone. cbv zeta.
  set (s1 := onWriter cancelLoop s). destruct (loopAt (writer s1)) eqn:El.
  - eapply rtc_l; [by apply step_done|]. etrans; [by apply drain_steps|].
    eapply rtc_l; [by apply step_exit|]. eapply rtc_once, step_close. done.
  - assert (onWriter (setLoop Draining) s1 = s1) as ->.
    { destruct s as [[b c p x l] d a q]. simpl in *. by subst. }
    etrans; [by apply drain_steps|].
    eapply rtc_l; [by apply step_exit|]. eapply rtc_once, step_close. done.
  - eapply rtc_once, step_close. done.
Qed.

Lemma closeDone_empties s :
  loopAt (writer s) ≠ Exited → pending (writer (closeDone s)) = [] ∧ ch (writer (closeDone s)) = [].
Proof.
  intros Hl. unfold closeDone. cbv zeta. unfold finalFlush.
  destruct (loopAt (writer (onWriter cancelLoop s))) eqn:E; [..|done];
    case_bool_decide; done.
Qed.

Lemma closeDone_accepted s : accepted (closeDone s) = accepted s.
Proof.
  unfold closeDone, finalFlush. cbv zeta.
  destruct (loopAt (writer (onWriter cancelLoop s))); by case_bool_decide.
Qed.

Lemma closeDone_attempts n d s :
  rtc step (initial n d) s → loopAt (writer s) ≠ Exited → attempted (closeDone s) = accepted s.
Proof.
  intros Hr Hl. destruct (reachable_invariants _ _ _ Hr) as (_ & Hb & _).
  destruct (reachable_invariants n d (closeDone s)) as (Hc & _ & _); [by etrans; [|apply closeDone_steps]|].
  unfold conserved in Hc. destruct (closeDone_empties s Hl) as [Hp Hch].
  by rewrite closeDone_accepted, Hp, Hch, !app_nil_r in Hc.
Qed.

(** The two ends of Close. *)
Lemma Close_cases deadline exit pick t s :
  loopAt (writer s) ≠ Exited →
  let '(r, (t', s')) := Close deadline exit pick (t, s) in
  (r = Ok tt ∧ t' = (t + exit)%Z ∧ (t' ≤ Z.max t deadline)%Z ∧ s' = closeDone s) ∨
  (r = Err errDeadline ∧ t' = Z.max t deadline ∧ (t' ≤ t + exit)%Z ∧ s' = onWriter cancelLoop s).
Proof.
  intros Hl. unfold Close.
  replace (match loopAt (writer s) with Exited => t | _ => (t + exit)%Z end) with (t + exit)%Z by by destruct (loopAt _).
  destruct (Z.ltb_spec (t + exit) (Z.max t deadline)); simpl; [left; split_and!; done || lia|].
  destruct (Z.eqb_spec (t + exit) (Z.max t deadline)), pick; simpl; [left|right..]; split_and!; done || lia.
Qed.

Lemma Close_in_time deadline exit pick t s :
  loopAt (writer s) ≠ Exited → (t + exit < deadline)%Z →
  Close deadline exit pick (t, s) = (Ok tt, ((t + exit)%Z, closeDone s)).
Proof.
  intros Hl Ht. unfold Close.
  replace (match loopAt (writer s) with Exited => t | _ => (t + exit)%Z end) with (t + exit)%Z by by destruct (loopAt _).
  by rewrite (proj2 (Z.ltb_lt (t + exit) (Z.max t deadline))) by lia.
Qed.

Lemma Close_steps deadline exit pick t s :
  bounded s → rtc step s (Close deadline exit pick (t, s)).2.2.
Proof.
  intros Hb. unfold Close. case_match; [by apply closeDone_steps|apply rtc_once, step_cancel].
Qed.

Lemma Close_bounded deadline exit pick t s :
  (0 ≤ exit)%Z → let t' := (Close deadline exit pick (t, s)).2.1 in (t ≤ t' ≤ Z.max t deadline)%Z.
Proof.
  intros He. unfold Close. set (doneAt := match loopAt (writer s) with Exited => t | _ => _ end).
  assert (t ≤ doneAt)%Z by (subst doneAt; destruct (loopAt _); lia).
  destruct (Z.ltb_spec doneAt (Z.max t deadline)), (Z.eqb_spec doneAt (Z.max t deadline)), pick; simpl; lia.
Qed.

(** Once the goroutine is cancelled, only a Close that finds it gone still writes. *)
Lemma cancelled_writes s s' :
  cancelled (writer s) = true → step s s' →
  cancelled (writer s') = true ∧
  (attempted s' = attempted s ∧ adb s' = adb s ∨ loopAt (writer s) = Exited ∧ s' = finalFlush s).
Proof.
  intros Hc Hs. revert Hc.
  destruct Hs as [entry s0|entry rest s0 Hl Hch|s0 Hl|s0|s0 Hl Hx|entry rest s0 Hl Hch|s0 Hl Hch|s0 Hl]; simpl; intros Hc; auto.
  - unfold Submit. destruct (_ <? _)%Z; simpl; auto.
  - unfold onEntry. simpl. rewrite Hc, andb_false_r. simpl. auto.
  - unfold onTick. rewrite Hc, andb_false_r. auto.
  - unfold finalFlush. case_bool_decide; auto.
Qed.

(** The steps without the flush of a Close. *)
Definition noFlush s s' : Prop := step s s' ∧ s' ≠ finalFlush s.

Lemma cancelled_silent s s' :
  cancelled (writer s) = true → rtc noFlush s s' → attempted s' = attempted s ∧ adb s' = adb s.
Proof.
  intros Hc Hs. induction Hs as [|x y z [Hxy Hne] _ IH]; [done|].
  destruct (cancelled_writes x y Hc Hxy) as [Hc' [[Ha Hd]|[_ Hx]]]; [|done].
  destruct (IH Hc') as [-> ->]. done.
Qed.

(** After the goroutine has gone, what is still submitted stays in the channel. *)
Lemma exited_stuck s s' :
  loopAt (writer s) = Exited → rtc step s s' →
  loopAt (writer s') = Exited ∧ ch (writer s) `prefix_of` ch (writer s').
Proof.
  intros Hl Hr. induction Hr as [|s1 s2 s3 Hs _ IH]; [done|].
  assert (loopAt (writer s2) = Exited ∧ ch (writer s1) `prefix_of` ch (writer s2)) as [Hl2 Hp].
  { destruct Hs; simpl in *; try congruence; try done.
    - unfold Submit. destruct (_ <? _)%Z; [|done]. simpl. split; [done|by apply prefix_app_r].
    - unfold finalFlush. by case_bool_decide. }
  destruct (IH Hl2) as [? ?]. split; [done|by etrans].
Qed.
End writer.
Arguments AuditState T : clear implicits.

Section rows.
Context {T : Type → Type} `{SqlLaws T}.

(** Without faults every row of a batch arrives. *)
Lemma writeBatch_rows batch (d : DB T * Sys) :
  (∀ n, net (oracle d.2 n) = NoFault) →
  NoDup (aID <$> (batch ++ rows (audit_log d.1))) →
  rows (audit_log (writeBatch batch d).1) ≡ₚ batch ++ rows (audit_log d.1).
Proof.
  revert d. induction batch as [|e batch IH]; intros [db s] Hn Hnd; [done|].
  simpl in *. unfold AuditCreate, wrapErr, onAudit, dbCall, faulty. rewrite Hn.
  destruct (insert_ok e (audit_log db)) as (t & -> & Ht).
  { unfold constraintsOk. simpl. constructor; [|constructor]. simpl.
    apply NoDup_cons in Hnd as [Hni Hnd]. rewrite fmap_app in Hni, Hnd. apply NoDup_app in Hnd as (_ & _ & ?).
    apply NoDup_cons. split; [|done]. intros Hin. apply Hni, elem_of_app. by right. }
  simpl. rewrite IH; simpl; [|done|].
  - rewrite Ht. by rewrite Permutation_middle.
  - rewrite Ht, <-Permutation_middle. exact Hnd.
Qed.
End rows.

(** ** Properties *)

(** C26: the audit writer loses and reorders nothing it has accepted, under every
    interleaving of submitters, goroutine and Close: the accepted entries are, in
    the order of acceptance, those written, those pending and those in the channel.
    The channel never exceeds its capacity and, until Close, the pending batch
    never its size. What is in the database is what the INSERTs of the written
    entries, in that order, leave. *)
Theorem audit_conserved {T} `{SqlEngine T} (n : Z) (d : DB T * Sys) (s : AuditState T) :
  rtc step (initial n d) s →
  accepted s = attempted s ++ pending (writer s) ++ ch (writer s) ∧
  (Z.of_nat (length (ch (writer s))) ≤ batchSize (writer s) * 4)%Z ∧
  (cancelled (writer s) = false →
   (Z.of_nat (length (pending (writer s))) < batchSize (writer s))%Z) ∧
  adb s = writeBatch (attempted s) d.
Proof.
  intros (Hc & (_ & Hcap & Hp & _) & Ht)%reachable_invariants. by split_and!.
Qed.

Definition anEntry (id : string) : AuditLog := MkAudit id "t" "upload" "/a" "u" "ip" "" true "".
Definition quietDB : DB list * Sys :=
  (emptyDB, MkSys (λ _, CallEnv 0 [] NoFault) 0 ∅).

Lemma audit_conserved_witness :
  let s1 := Submit (anEntry "1") (initial 1 quietDB) in
  let s2 := Submit (anEntry "2") (onEntry (anEntry "1") [] s1) in
  accepted s2 = attempted s2 ++ pending (writer s2) ++ ch (writer s2) ∧
  rows (audit_log (adb s2).1) = [anEntry "1"].
Proof.
  intros s1 s2. split; [|vm_compute; reflexivity].
  apply (audit_conserved 1 quietDB s2).
  eapply rtc_l; [apply (step_submit (anEntry "1"))|].
  eapply rtc_l; [by apply (step_entry (anEntry "1") [])|].
  apply rtc_once, step_submit.
Defined.

(** C27: Close writes everything, or says that it did not. Take any reachable state
    whose goroutine has not exited, a Close that runs by itself, identifiers that are
    new and distinct and a database that never fails. When the goroutine ends before the
    deadline Close succeeds; when Close succeeds, nothing is pending and the audit
    table holds the rows it held at the start and every accepted entry, each once.
    Otherwise Close returns, at the deadline, the context's error, has written nothing,
    and what was not written stays so until Close is called again. *)
Theorem audit_close_complete {T} `{SqlLaws T} (n : Z) (d : DB T * Sys) (s : AuditState T)
    (deadline exit : Z) (pick : bool) (t : Z) :
  rtc step (initial n d) s → loopAt (writer s) ≠ Exited →
  (∀ k, net (oracle d.2 k) = NoFault) →
  NoDup (aID <$> (accepted s ++ rows (audit_log d.1))) →
  let '(r, (t', s')) := Close deadline exit pick (t, s) in
  rtc step s s' ∧ accepted s' = accepted s ∧ ((t + exit < deadline)%Z → r = Ok tt) ∧
  match r with
  | Ok _ =>
      t' = (t + exit)%Z ∧ pending (writer s') = [] ∧ ch (writer s') = [] ∧
      rows (audit_log (adb s').1) ≡ₚ accepted s ++ rows (audit_log d.1)
  | Err e =>
      e = errDeadline ∧ t' = Z.max t deadline ∧ pending (writer s') = pending (writer s) ∧
      ∀ s1, rtc noFlush s' s1 → attempted s1 = attempted s ∧ adb s1 = adb s
  end.
Proof.
  intros Hr Hl Hn Hnd. destruct (reachable_invariants _ _ _ Hr) as (_ & Hb & _).
  pose proof (Close_steps deadline exit pick t s Hb) as Hst.
  pose proof (Close_cases deadline exit pick t s Hl) as Hc.
  pose proof (Close_in_time deadline exit pick t s Hl) as Hin.
  destruct (Close deadline exit pick (t, s)) as [r [t' s']]. cbn [fst snd] in Hst.
  assert ((t + exit < deadline)%Z → r = Ok tt) as Hok by (intros Ht; by injection (Hin Ht)).
  destruct Hc as [(-> & -> & _ & ->)|(-> & -> & _ & ->)]; (split; [done|]).
  - rewrite closeDone_accepted. destruct (closeDone_empties s Hl) as [Hp Hch].
    split_and!; [done..|]. destruct (reachable_invariants n d (closeDone s)) as (_ & _ & Ht); [by etrans|].
    unfold tracked in Ht. rewrite Ht, (closeDone_attempts _ _ _ Hr Hl). by apply writeBatch_rows.
  - split_and!; [done..|]. intros s1 H1. by apply cancelled_silent in H1.
Qed.

Lemma audit_close_complete_witness :
  let s := Submit (anEntry "2") (Submit (anEntry "1") (initial 10 quietDB)) in
  let late := Close 5 5 false (0%Z, s) in
  (Close 5 3 false (0%Z, s)).1 = Ok tt ∧
  rows (audit_log (adb (Close 5 3 false (0%Z, s)).2.2).1) ≡ₚ [anEntry "1"; anEntry "2"] ∧
  late.1 = Err errDeadline ∧ late.2.1 = 5%Z ∧
  ∀ s1, rtc noFlush late.2.2 s1 → adb s1 = quietDB.
Proof.
  intros s late. assert (rtc step (initial 10 quietDB) s) as Hr.
  { eapply rtc_l; [apply (step_submit (anEntry "1"))|apply rtc_once, step_submit]. }
  assert (NoDup (aID <$> (accepted s ++ rows (audit_log quietDB.1)))) as Hnd.
  { apply (bool_decide_unpack _); vm_compute; done. }
  assert (loopAt (writer s) ≠ Exited) as Hl by done.
  destruct (audit_close_complete 10 quietDB s 5 3 false 0 Hr Hl (λ _, eq_refl) Hnd) as (_ & _ & _ & _ & _ & _ & Hrows).
  destruct (audit_close_complete 10 quietDB s 5 5 false 0 Hr Hl (λ _, eq_refl) Hnd) as (_ & _ & _ & _ & _ & _ & Hs).
  split; [reflexivity|]. split; [exact Hrows|]. split; [reflexivity|]. split; [reflexivity|].
  intros s1 H1. exact (proj2 (Hs s1 H1)).
Defined.

(** Submit does not look whether the writer was closed: an entry that arrives after
    the goroutine has gone is accepted and never written. *)
Lemma submit_after_close :
  let s := Submit (anEntry "1") (closeDone (initial 10 quietDB)) in
  accepted s = [anEntry "1"] ∧
  ∀ s', rtc step s s' → anEntry "1" ∈ ch (writer s').
Proof.
  intros s. split; [reflexivity|]. intros s' Hr.
  destruct (exited_stuck s s' eq_refl Hr) as [_ [k Hk]]. rewrite Hk. left.
Qed.
