(* ===== verification/Sessions.v ===== *)
(** * internal/distributed/session.go: the session store

    The Go interface is the class [SessionStore]; [SessionLaws] states what the
    transfer service relies on. Values are encoded by encoding/json, given here
    by a codec whose decoder inverts its encoder. *)

From S2P Require Export Locks.
From Stdlib Require Import Ascii.

Local Open Scope Z_scope.

Class Codec (V : Type) := {
  marshal : V → res string;
  unmarshal : string → res V
}.

Class CodecLaws (V : Type) `{Codec V} :=
  unmarshal_marshal (v : V) (d : string) : marshal v = Ok d → unmarshal d = Ok v.

Class SessionStore (V St : Type) := {
  SSet : callEnv → string → string → V → Z → St → res unit * St;
  SGet : callEnv → string → string → St → res V * St;
  SDelete : callEnv → string → string → St → res unit * St;
  SExists : callEnv → string → string → St → res bool * St
}.

(** A prefix as the service uses them: without the separator. *)
Definition plainPrefix (p : string) : Prop := sIn ":"%char p = false.

(** [stored s p k t] is the value a [SGet] would find at time [t]. A value set for
    [ttl] lasts at least [ttl - sessionSlack]. *)
Class SessionLaws (V St : Type) `{SessionStore V St} := {
  stored : St → string → string → Z → option V;
  sessionSlack : Z;
  set_ok env p k v ttl s s' :
    SSet env p k v ttl s = (Ok tt, s') → 0 < ttl →
    ∀ t, now env ≤ t < now env + ttl - sessionSlack → stored s' p k t = Some v;
  set_other env p k v ttl s p' k' t :
    plainPrefix p → plainPrefix p' → (p, k) ≠ (p', k') → now env ≤ t →
    stored (SSet env p k v ttl s).2 p' k' t = stored s p' k' t;
  get_some env p k s v :
    net env = NoFault → stored s p k (now env) = Some v → (SGet env p k s).1 = Ok v;
  get_none env p k s :
    stored s p k (now env) = None → ∃ e, (SGet env p k s).1 = Err e;
  get_keeps env p k s p' k' t :
    now env ≤ t → stored (SGet env p k s).2 p' k' t = stored s p' k' t;
  delete_gone env p k s s' :
    SDelete env p k s = (Ok tt, s') → ∀ t, now env ≤ t → stored s' p k t = None;
  delete_other env p k s p' k' t :
    plainPrefix p → plainPrefix p' → (p, k) ≠ (p', k') → now env ≤ t →
    stored (SDelete env p k s).2 p' k' t = stored s p' k' t
}.

(** Keys of distinct sessions are distinct. *)
Lemma sessionKey_inj p k p' k' :
  plainPrefix p → plainPrefix p' →
  p +:+ ":" +:+ k = p' +:+ ":" +:+ k' → (p, k) = (p', k').
Proof.
  unfold plainPrefix. revert p'. induction p as [|c p IH]; intros [|c' p'] Hp Hp'.
  - rewrite !append_nil_l, !append_cons, !append_nil_l. congruence.
  - rewrite append_nil_l, !append_cons, append_nil_l. by intros [= <- _].
  - rewrite append_nil_l, !append_cons, append_nil_l. by intros [= -> _].
  - simpl in *. apply orb_false_iff in Hp as [_ Hp], Hp' as [_ Hp'].
    rewrite !(append_cons _ p), !(append_cons _ p'). intros [= -> Heq].
    specialize (IH p' Hp Hp' Heq). congruence.
Qed.

(** ** MemorySessionStore *)

Module Memory.
Section memory.
Context {V : Type} `{CodecLaws V}.

Record MemorySessionStore := MkMemory {
  data : gmap string string;
  ttls : gmap string Z
}.

Definition NewMemorySessionStore : MemorySessionStore := MkMemory ∅ ∅.

Definition storeKey (prefix key : string) : string := prefix +:+ ":" +:+ key.

Definition notFound : error := ErrMsg "session not found".

Definition MemSet (env : callEnv) (prefix key : string) (value : V) (ttl : Z)
    (s : MemorySessionStore) : res unit * MemorySessionStore :=
  match marshal value with
  | Err e => (Err (ErrWrap "failed to marshal session" e), s)
  | Ok d =>
      let k := storeKey prefix key in
      (Ok tt, MkMemory (<[k := d]> (data s))
                (if 0 <? ttl then <[k := now env + ttl]> (ttls s) else ttls s))
  end.

(** Under the read lock: is the entry there, and is it still valid? *)
Inductive lookupResult := Missing | Expired | Found (d : string).

Definition look (env : callEnv) (k : string) (s : MemorySessionStore) : lookupResult :=
  match data s !! k with
  | None => Missing
  | Some d => match ttls s !! k with
              | Some x => if x <? now env then Expired else Found d
              | None => Found d
              end
  end.

(** Under the write lock, taken after the read lock was released. *)
Definition drop_ (k : string) (s : MemorySessionStore) : MemorySessionStore :=
  MkMemory (delete k (data s)) (delete k (ttls s)).

Definition MemGet (env : callEnv) (prefix key : string) (s : MemorySessionStore)
    : res V * MemorySessionStore :=
  let k := storeKey prefix key in
  match look env k s with
  | Missing => (Err notFound, s)
  | Expired => (Err notFound, drop_ k s)
  | Found d => (res_map_err (ErrWrap "failed to unmarshal session") (unmarshal d), s)
  end.

Definition MemDelete (env : callEnv) (prefix key : string) (s : MemorySessionStore)
    : res unit * MemorySessionStore := (Ok tt, drop_ (storeKey prefix key) s).

Definition MemExists (env : callEnv) (prefix key : string) (s : MemorySessionStore)
    : res bool * MemorySessionStore :=
  let k := storeKey prefix key in
  match look env k s with
  | Missing => (Ok false, s)
  | Expired => (Ok false, drop_ k s)
  | Found _ => (Ok true, s)
  end.

#[global] Instance memory_store : SessionStore V MemorySessionStore :=
  {| SSet := MemSet; SGet := MemGet; SDelete := MemDelete; SExists := MemExists |}.

Definition liveBytes (s : MemorySessionStore) (k : string) (t : Z) : option string :=
  match data s !! k, ttls s !! k with
  | Some d, Some x => if x <? t then None else Some d
  | Some d, None => Some d
  | None, _ => None
  end.

Definition decoded (d : string) : option V :=
  match unmarshal d with Ok v => Some v | Err _ => None end.

Definition memStored (s : MemorySessionStore) (p k : string) (t : Z) : option V :=
  liveBytes s (storeKey p k) t ≫= decoded.

Lemma look_live env k s :
  liveBytes s k (now env) = match look env k s with Found d => Some d | _ => None end.
Proof. unfold liveBytes, look. by repeat case_match. Qed.

Lemma liveBytes_drop k s t : liveBytes (drop_ k s) k t = None.
Proof. unfold liveBytes, drop_. simpl. by rewrite lookup_delete_eq. Qed.

Lemma liveBytes_drop_ne k k' s t : k ≠ k' → liveBytes (drop_ k s) k' t = liveBytes s k' t.
Proof. intros. unfold liveBytes, drop_. simpl. by rewrite !lookup_delete_ne. Qed.

(** Dropping an expired entry changes nothing that can still be seen. *)
Lemma drop_expired env k s k' t :
  look env k s = Expired → now env ≤ t → liveBytes (drop_ k s) k' t = liveBytes s k' t.
Proof.
  intros Hl Ht. destruct (decide (k = k')) as [->|Hne]; [|by apply liveBytes_drop_ne].
  rewrite liveBytes_drop. unfold look in Hl. unfold liveBytes.
  destruct (data s !! k'); [|done]. destruct (ttls s !! k') as [x|]; [|done].
  destruct (x <? now env) eqn:E; [|done]. bool_prop. by rewrite (proj2 (Z.ltb_lt x t)) by lia.
Qed.

#[global] Instance memory_laws : SessionLaws V MemorySessionStore.
Proof.
  refine {| stored := memStored; sessionSlack := 0 |}; simpl.
  - intros env p k v ttl s s'. unfold MemSet. destruct (marshal v) as [d|] eqn:E; [|done].
    intros [= <-] Httl t Ht. unfold memStored, liveBytes. simpl.
    rewrite (proj2 (Z.ltb_lt 0 ttl)) by done. rewrite !lookup_insert_eq.
    rewrite (proj2 (Z.ltb_ge _ _)) by lia. simpl. unfold decoded.
    by rewrite (unmarshal_marshal v d E).
  - intros env p k v ttl s p' k' t Hp Hp' Hne _. unfold MemSet.
    destruct (marshal v) as [d|]; [|done]. unfold memStored, liveBytes. simpl.
    assert (storeKey p k ≠ storeKey p' k') as Hk by (intros Heq%sessionKey_inj; done).
    rewrite lookup_insert_ne by done. destruct (0 <? ttl); [|done]. by rewrite lookup_insert_ne.
  - intros env p k s v _. unfold memStored, MemGet. rewrite look_live.
    destruct (look env (storeKey p k) s); [done..|]. simpl. unfold decoded.
    by destruct (unmarshal d); intros; simplify_eq.
  - intros env p k s. unfold memStored, MemGet. rewrite look_live.
    destruct (look env (storeKey p k) s); simpl; [by eauto..|]. unfold decoded.
    destruct (unmarshal d); simpl; [done|by eauto].
  - intros env p k s p' k' t Ht. unfold memStored, MemGet.
    destruct (look env (storeKey p k) s) eqn:E; simpl; [done| |done].
    by rewrite (drop_expired env).
  - intros env p k s s' [= <-] t _. unfold memStored. by rewrite liveBytes_drop.
  - intros env p k s p' k' t Hp Hp' Hne _. unfold memStored. simpl.
    rewrite liveBytes_drop_ne; [done|]. intros Heq%sessionKey_inj; done.
Defined.

End memory.
End Memory.

(** ** RedisSessionStore *)

Module RedisStore.
Section redis.
Context {V : Type} `{CodecLaws V} {R : Type} `{RedisLaws R}.

(** The Redis server, as the state of this store. *)
Record RedisSessionStore := MkRedis { client : R }.

Definition redisKey (prefix key : string) : string :=
  "fsserver:session:" +:+ prefix +:+ ":" +:+ key.

Definition RSet (env : callEnv) (prefix key : string) (value : V) (ttl : Z)
    (s : RedisSessionStore) : res unit * RedisSessionStore :=
  match marshal value with
  | Err e => (Err (ErrWrap "failed to marshal session" e), s)
  | Ok d =>
      let '(r, c) := callRedis (net env)
        (λ r, (tt, rSET (now env) (redisKey prefix key) d (redisTTL ttl) r)) (client s) in
      (r, MkRedis c)
  end.

Definition RGet (env : callEnv) (prefix key : string) (s : RedisSessionStore)
    : res V * RedisSessionStore :=
  match callRedis (net env) (λ r, (rGET (now env) (redisKey prefix key) r, r)) (client s) with
  | (Err e, c) => (Err (ErrWrap "failed to get session" e), MkRedis c)
  | (Ok None, c) => (Err (ErrMsg "session not found"), MkRedis c)
  | (Ok (Some d), c) =>
      (res_map_err (ErrWrap "failed to unmarshal session") (unmarshal d), MkRedis c)
  end.

Definition RDelete (env : callEnv) (prefix key : string) (s : RedisSessionStore)
    : res unit * RedisSessionStore :=
  let '(r, c) := callRedis (net env) (rDEL (now env) (redisKey prefix key)) (client s) in
  (match r with Ok _ => Ok tt | Err e => Err e end, MkRedis c).

Definition RExists (env : callEnv) (prefix key : string) (s : RedisSessionStore)
    : res bool * RedisSessionStore :=
  match callRedis (net env)
          (λ r, (match rGET (now env) (redisKey prefix key) r with Some _ => 1 | None => 0 end, r))
          (client s) with
  | (Err e, c) => (Err e, MkRedis c)
  | (Ok n, c) => (Ok (0 <? n), MkRedis c)
  end.

#[global] Instance redis_store : SessionStore V RedisSessionStore :=
  {| SSet := RSet; SGet := RGet; SDelete := RDelete; SExists := RExists |}.

Definition redisStored (s : RedisSessionStore) (p k : string) (t : Z) : option V :=
  rGET t (redisKey p k) (client s) ≫= λ d,
  match unmarshal d with Ok v => Some v | Err _ => None end.

Lemma redisKey_ne p k p' k' :
  plainPrefix p → plainPrefix p' → (p, k) ≠ (p', k') → redisKey p k ≠ redisKey p' k'.
Proof. intros Hp Hp' Hne Heq%append_inj_l%sessionKey_inj; done. Qed.

#[global] Instance redis_laws : SessionLaws V RedisSessionStore.
Proof.
  refine {| stored := redisStored; sessionSlack := 2 * Millisecond |}; simpl.
  - intros env p k v ttl s s'. unfold RSet, callRedis.
    destruct (marshal v) as [d|] eqn:E; [|done]. destruct (net env); [|done..].
    intros [= <-] Httl t Ht. unfold redisStored. simpl.
    rewrite set_promised by (by apply redisTTL_promised). simpl.
    by rewrite (unmarshal_marshal v d E).
  - intros env p k v ttl s p' k' t Hp Hp' Hne Ht. unfold RSet, callRedis, redisStored.
    destruct (marshal v); [|done].
    destruct (net env); simpl; [|done| |done]; by rewrite set_frame by auto using redisKey_ne.
  - intros env p k s v Hn. unfold redisStored, RGet, callRedis. rewrite Hn.
    destruct (rGET _ _ _); simpl; [|done]. destruct (unmarshal _); intros; by simplify_eq/=.
  - intros env p k s. unfold redisStored, RGet, callRedis.
    destruct (net env); [|by eauto..]. destruct (rGET _ _ _); simpl; [|by eauto].
    destruct (unmarshal _); simpl; [done|by eauto].
  - intros env p k s p' k' t _. unfold redisStored, RGet, callRedis.
    destruct (net env); [|done..]. by destruct (rGET (now env) _ _).
  - intros env p k s s'. unfold RDelete, callRedis. destruct (net env); [|done| |done].
    + destruct (rDEL _ _ _) as [n c] eqn:E. intros [= <-] t Ht. unfold redisStored. simpl.
      pose proof (del_gone (client s) (now env) (redisKey p k) t Ht) as Hg.
      rewrite E in Hg. simpl in Hg. by rewrite Hg.
    + by destruct (rDEL _ _ _).
  - intros env p k s p' k' t Hp Hp' Hne Ht. unfold RDelete, callRedis, redisStored.
    pose proof (del_frame (client s) (now env) (redisKey p k) (redisKey p' k') t
      ltac:(auto using redisKey_ne) Ht) as Hf.
    destruct (net env); simpl; [|done| |done]; destruct (rDEL _ _ _); simpl in *; by rewrite Hf.
Defined.

End redis.
End RedisStore.

(** ** Properties *)

Section sequences.
Context {V St : Type} `{SessionLaws V St}.

(** Calls on other sessions. *)
Inductive sessionOp :=
| OpSet (env : callEnv) (p k : string) (v : V) (ttl : Z)
| OpGet (env : callEnv) (p k : string)
| OpDelete (env : callEnv) (p k : string).

Definition runSession (s : St) (o : sessionOp) : St :=
  match o with
  | OpSet env p k v ttl => (SSet env p k v ttl s).2
  | OpGet env p k => (SGet env p k s).2
  | OpDelete env p k => (SDelete env p k s).2
  end.

(** A call at or before [t] that does not change session [(p, k)]. *)
Definition harmless (p k : string) (t : Z) (o : sessionOp) : Prop :=
  match o with
  | OpSet env p' k' _ _ | OpDelete env p' k' =>
      plainPrefix p' ∧ (p', k') ≠ (p, k) ∧ now env ≤ t
  | OpGet env _ _ => now env ≤ t
  end.

Lemma harmless_keeps p k t os s :
  plainPrefix p → Forall (harmless p k t) os →
  stored (foldl runSession s os) p k t = stored s p k t.
Proof.
  intros Hp Hos. revert s. induction Hos as [|o os Ho Hos IH]; intros s; [done|]. simpl.
  rewrite IH. destruct o; simpl in *.
  - destruct Ho as (? & ? & ?). by apply set_other.
  - by apply get_keeps.
  - destruct Ho as (? & ? & ?). by apply delete_other.
Qed.
End sequences.
Arguments sessionOp : clear implicits.

(** A session survives. A session that was stored with a time to live is
    found again with the same value, at any time before it runs out and after any
    calls on other sessions and any reads; after it was deleted it is not found.
    It holds of every store that satisfies the laws: the in-memory one and the
    Redis one. *)
Lemma session_round_trip {V St : Type} `{SessionLaws V St} (env env2 env3 : callEnv)
    (p k : string) (v : V) (ttl : Z) (s s1 s3 : St) (os : list (sessionOp V)) :
  plainPrefix p → SSet env p k v ttl s = (Ok tt, s1) → 0 < ttl →
  now env ≤ now env2 < now env + ttl - sessionSlack → net env2 = NoFault →
  Forall (harmless p k (now env2)) os →
  (SGet env2 p k (foldl runSession s1 os)).1 = Ok v ∧
  (SDelete env2 p k (foldl runSession s1 os) = (Ok tt, s3) → now env2 ≤ now env3 →
   ∃ e, (SGet env3 p k s3).1 = Err e).
Proof.
  intros Hp HS Httl Ht Hn Hos. split.
  - apply get_some; [done|]. rewrite harmless_keeps by done. by eapply set_ok.
  - intros HD Ht3. apply get_none. by eapply delete_gone.
Qed.

#[export] Instance string_codec : Codec string := {| marshal := Ok; unmarshal := Ok |}.
#[export] Instance string_codec_laws : CodecLaws string.
Proof. intros v d [= <-]. done. Qed.

Definition at_ (t : Z) : callEnv := CallEnv t [] NoFault.

(** The in-memory store forgets a session that is stored again while an
    expired read is under way. [SGet] releases the read lock after it has seen the
    expired entry and deletes the entry under the write lock without looking
    again: a [Set] that runs in between succeeds and is lost. *)
Lemma memory_get_loses_set (V : Type) `{CodecLaws V} (env : callEnv) (p k : string) (v : V)
    (d : string) (ttl : Z) (s : Memory.MemorySessionStore) :
  let key := Memory.storeKey p k in
  marshal v = Ok d → Memory.look env key s = Memory.Expired → 0 < ttl →
  let s1 := (Memory.MemSet env p k v ttl s).2 in
  let s2 := Memory.drop_ key s1 in
  (Memory.MemGet (V := V) env p k s1).1 = Ok v ∧
  (Memory.MemGet (V := V) env p k s2).1 = Err Memory.notFound.
Proof.
  intros key Hd Hl Httl s1 s2. split.
  - unfold s1, Memory.MemSet, Memory.MemGet, Memory.look. rewrite Hd. simpl.
    rewrite (proj2 (Z.ltb_lt 0 ttl)) by done. rewrite !lookup_insert_eq.
    rewrite (proj2 (Z.ltb_ge _ _)) by lia. by rewrite (unmarshal_marshal v d Hd).
  - unfold s2, Memory.MemGet, Memory.look. fold key. simpl. by rewrite lookup_delete_eq.
Qed.

