(* ===== verification/Cache.v ===== *)
(** * internal/cache: the in-memory LRU cache and the Redis cache

    The cache keeps its entries twice, in a map by key and in a list by
    recency, and shares them: both hold pointers to the same mutable entries.
    The model has the entries in a heap, the map and the list as pointers into
    it, and shows that this implements the list of entries, most recent first,
    that an LRU cache is. *)

From S2P Require Export Sessions.

Local Open Scope Z_scope.

(** ** The cache *)

Section cache.
Context {V : Type}.

(** The element of the recency list that an entry points to is the one that
    points to the entry: both are the location of the entry. The zero time of
    an entry without expiry is [None]. *)
Record entry := Entry { eKey : string; eValue : V; eExpiresAt : option Z }.

Notation loc := nat (only parsing).

Record Cache := MkCache {
  heap : gmap loc entry;
  next : loc;
  items : gmap string loc;
  lru : list loc;
  ttl : Z;
  maxSize : Z
}.

Definition NewCache (ttl maxSize : Z) : Cache := MkCache ∅ 0%nat ∅ [] ttl maxSize.

(** [c.ttl > 0 && now.After(e.expiresAt)] *)
Definition isExpired (ttl now : Z) (e : entry) : bool :=
  (0 <? ttl) && match eExpiresAt e with None => true | Some x => x <? now end.

Definition expiryFor (ttl now : Z) : option Z :=
  if 0 <? ttl then Some (now + wrap64 (ttl * Second)) else None.

Definition unlink (l : loc) (ls : list loc) : list loc := filter (.≠ l) ls.

Definition moveToFront (l : loc) (ls : list loc) : list loc := l :: unlink l ls.

Definition withLists (its : gmap string loc) (ls : list loc) (c : Cache) : Cache :=
  MkCache (heap c) (next c) its ls (ttl c) (maxSize c).

Definition removeElement (l : loc) (e : entry) (c : Cache) : Cache :=
  withLists (delete (eKey e) (items c)) (unlink l (lru c)) c.

(** The entry of a key: its location and its fields. *)
Definition lookupEntry (key : string) (c : Cache) : option (loc * entry) :=
  match items c !! key with
  | Some l => match heap c !! l with Some e => Some (l, e) | None => None end
  | None => None
  end.

Definition CacheGet (now : Z) (key : string) (c : Cache) : option V * Cache :=
  match lookupEntry key c with
  | None => (None, c)
  | Some (l, e) =>
      if isExpired (ttl c) now e then (None, removeElement l e c)
      else (Some (eValue e), withLists (items c) (moveToFront l (lru c)) c)
  end.

(** Evict the back of the list when the cache is full. *)
Definition evict (c : Cache) : Cache :=
  if (0 <? maxSize c) && (maxSize c <=? Z.of_nat (size (items c))) then
    match last (lru c) with
    | Some l => match heap c !! l with Some e => removeElement l e c | None => c end
    | None => c
    end
  else c.

Definition CacheSet (now : Z) (key : string) (value : V) (c : Cache) : Cache :=
  match lookupEntry key c with
  | Some (l, e) =>
      MkCache (<[l := Entry (eKey e) value (expiryFor (ttl c) now)]> (heap c)) (next c) (items c)
        (moveToFront l (lru c)) (ttl c) (maxSize c)
  | None =>
      let c := evict c in
      MkCache (<[next c := Entry key value (expiryFor (ttl c) now)]> (heap c)) (S (next c))
        (<[key := next c]> (items c)) (next c :: lru c) (ttl c) (maxSize c)
  end.

Definition CacheDelete (key : string) (c : Cache) : Cache :=
  match lookupEntry key c with
  | Some (l, e) => removeElement l e c
  | None => c
  end.

Definition CacheClear (c : Cache) : Cache := withLists ∅ [] c.

Definition CacheSize (c : Cache) : nat := size (items c).

(** The scan of the map, in the order of [ks]. *)
Fixpoint cleanKeys (now : Z) (ks : list string) (c : Cache) : Cache :=
  match ks with
  | [] => c
  | k :: ks =>
      cleanKeys now ks
        match lookupEntry k c with
        | Some (l, e) => if isExpired (ttl c) now e then removeElement l e c else c
        | None => c
        end
  end.

Definition CacheCleanup (now : Z) (c : Cache) : Cache :=
  cleanKeys now (map_to_list (items c)).*1 c.

Definition CacheHas (now : Z) (key : string) (c : Cache) : bool :=
  match lookupEntry key c with
  | None => false
  | Some (_, e) => negb (isExpired (ttl c) now e)
  end.

Definition CacheExists : Z → string → Cache → bool := CacheHas.

(** ** The specification: entries, most recent first *)

Record spec := Spec { entries : list entry; sTtl : Z; sMax : Z }.

Definition onEntries (f : list entry → list entry) (s : spec) : spec :=
  Spec (f (entries s)) (sTtl s) (sMax s).

Definition has (k : string) (e : entry) : Prop := eKey e = k.
#[local] Instance has_dec k e : Decision (has k e).
Proof. unfold has. apply _. Defined.

Definition findKey (k : string) (es : list entry) : option entry := head (filter (has k) es).
Definition dropKey (k : string) (es : list entry) : list entry := filter (λ e, ¬ has k e) es.

Definition specGet (now : Z) (k : string) (s : spec) : option V * spec :=
  match findKey k (entries s) with
  | None => (None, s)
  | Some e =>
      if isExpired (sTtl s) now e then (None, onEntries (dropKey k) s)
      else (Some (eValue e), onEntries (λ es, e :: dropKey k es) s)
  end.

Definition specEvict (s : spec) (es : list entry) : list entry :=
  if (0 <? sMax s) && (sMax s <=? Z.of_nat (length es)) then removelast es else es.

Definition specSet (now : Z) (k : string) (v : V) (s : spec) : spec :=
  let e := Entry k v (expiryFor (sTtl s) now) in
  match findKey k (entries s) with
  | Some _ => onEntries (λ es, e :: dropKey k es) s
  | None => onEntries (λ es, e :: specEvict s es) s
  end.

Definition specDelete (k : string) (s : spec) : spec := onEntries (dropKey k) s.
Definition specClear (s : spec) : spec := onEntries (λ _, []) s.
Definition specCleanup (now : Z) (s : spec) : spec :=
  onEntries (filter (λ e, isExpired (sTtl s) now e = false)) s.
Definition specHas (now : Z) (k : string) (s : spec) : bool :=
  match findKey k (entries s) with
  | Some e => negb (isExpired (sTtl s) now e)
  | None => false
  end.

(** ** The calls and their outcomes *)

Inductive call :=
| GetC (now : Z) (k : string)
| SetC (now : Z) (k : string) (v : V)
| DeleteC (k : string)
| ClearC
| CleanupC (now : Z)
| HasC (now : Z) (k : string)
| SizeC.

Inductive reply := Value (v : option V) | Flag (b : bool) | Count (n : nat) | Done.

Definition runCall (o : call) (c : Cache) : reply * Cache :=
  match o with
  | GetC now k => let '(v, c) := CacheGet now k c in (Value v, c)
  | SetC now k v => (Done, CacheSet now k v c)
  | DeleteC k => (Done, CacheDelete k c)
  | ClearC => (Done, CacheClear c)
  | CleanupC now => (Done, CacheCleanup now c)
  | HasC now k => (Flag (CacheExists now k c), c)
  | SizeC => (Count (CacheSize c), c)
  end.

Definition specCall (o : call) (s : spec) : reply * spec :=
  match o with
  | GetC now k => let '(v, s) := specGet now k s in (Value v, s)
  | SetC now k v => (Done, specSet now k v s)
  | DeleteC k => (Done, specDelete k s)
  | ClearC => (Done, specClear s)
  | CleanupC now => (Done, specCleanup now s)
  | HasC now k => (Flag (specHas now k s), s)
  | SizeC => (Count (length (entries s)), s)
  end.

Fixpoint runCalls (os : list call) (c : Cache) : list reply * Cache :=
  match os with
  | [] => ([], c)
  | o :: os =>
      let '(r, c) := runCall o c in
      let '(rs, c) := runCalls os c in (r :: rs, c)
  end.

Fixpoint specCalls (os : list call) (s : spec) : list reply * spec :=
  match os with
  | [] => ([], s)
  | o :: os =>
      let '(r, s) := specCall o s in
      let '(rs, s) := specCalls os s in (r :: rs, s)
  end.

(** ** The invariant and the abstraction *)

(** The pairs [ps] of locations and entries are what the list, the heap and the
    map of [c] hold; keys and locations are distinct. *)
Definition holds (c : Cache) (ps : list (loc * entry)) : Prop :=
  lru c = ps.*1 ∧ NoDup ps.*1 ∧ NoDup (eKey <$> ps.*2) ∧
  (∀ l e, (l, e) ∈ ps → heap c !! l = Some e ∧ (l < next c)%nat) ∧
  (∀ k l, items c !! k = Some l ↔ ∃ e, (l, e) ∈ ps ∧ eKey e = k).

Definition refines (c : Cache) (s : spec) : Prop :=
  ∃ ps, holds c ps ∧ entries s = ps.*2 ∧ ttl c = sTtl s ∧ maxSize c = sMax s.

Implicit Types (c : Cache) (s : spec) (ps : list (loc * entry)).

Lemma holds_nil c : lru c = [] → items c = ∅ → holds c [].
Proof.
  intros Hl Hi. unfold holds. rewrite Hi. split_and!; [done|constructor..| |].
  - by intros l e ?%elem_of_nil.
  - intros k l. rewrite lookup_empty. split; [done|]. by intros (e & ?%elem_of_nil & _).
Qed.

Lemma findKey_some k es e : findKey k es = Some e → e ∈ es ∧ eKey e = k.
Proof.
  unfold findKey. intros Hf. assert (e ∈ filter (has k) es) as Hin.
  { destruct (filter _ _); simplify_eq/=. by left. }
  by apply list_elem_of_filter in Hin as [? ?].
Qed.

Lemma findKey_none k es : findKey k es = None → k ∉ eKey <$> es.
Proof.
  unfold findKey. intros Hf (x & -> & Hx)%list_elem_of_fmap.
  destruct (filter _ _) eqn:E; [|done]. assert (x ∈ filter (has (eKey x)) es) as Hin
    by (by apply list_elem_of_filter). rewrite E in Hin. by apply elem_of_nil in Hin.
Qed.

Lemma specEvict_in s es e : e ∈ specEvict s es → e ∈ es.
Proof.
  unfold specEvict. destruct (_ && _); [|done]. destruct es as [|x es _] using rev_ind; [done|].
  rewrite removelast_last. intros ?. apply elem_of_app. by left.
Qed.

Lemma pairs_key ps l l' e e' :
  NoDup (eKey <$> ps.*2) → (l, e) ∈ ps → (l', e') ∈ ps → eKey e = eKey e' → (l, e) = (l', e').
Proof.
  intros Hn Hp Hp' Hk. apply (NoDup_key (λ p, eKey p.2) ps); [|done..].
  by rewrite <-list_fmap_compose in Hn.
Qed.

Lemma pairs_loc ps l e e' : NoDup ps.*1 → (l, e) ∈ ps → (l, e') ∈ ps → e = e'.
Proof. intros Hn Hp Hp'. by apply (NoDup_key fst ps) with (1 := Hn) (2 := Hp) in Hp' as [= ?]. Qed.

Lemma lookupEntry_spec c ps k l e :
  holds c ps → lookupEntry k c = Some (l, e) ↔ (l, e) ∈ ps ∧ eKey e = k.
Proof.
  intros (_ & Hl & _ & Hh & Hi). unfold lookupEntry. split.
  - destruct (items c !! k) as [l'|] eqn:E; [|done]. apply Hi in E as (e' & Hp & Hk).
    destruct (Hh _ _ Hp) as [-> _]. by intros [= -> ->].
  - intros [Hp Hk]. assert (items c !! k = Some l) as -> by (apply Hi; eauto).
    by destruct (Hh _ _ Hp) as [-> _].
Qed.

Lemma lookupEntry_none c ps k :
  holds c ps → lookupEntry k c = None → ∀ l e, (l, e) ∈ ps → eKey e ≠ k.
Proof.
  intros Hc Hn l e Hp Hk. assert (lookupEntry k c = Some (l, e)) by (by eapply lookupEntry_spec).
  congruence.
Qed.

Lemma findKey_spec c ps k : holds c ps → findKey k ps.*2 = snd <$> lookupEntry k c.
Proof.
  intros Hc. pose proof Hc as (_ & _ & Hk & _). unfold findKey.
  destruct (lookupEntry k c) as [[l e]|] eqn:E; simpl.
  - apply (lookupEntry_spec _ ps) in E as [Hp He]; [|done]. apply head_filter.
    + intros y z Hy Hz Hy' Hz'. by apply (NoDup_key eKey ps.*2); [..|unfold has in *; congruence].
    + split; [|done]. apply list_elem_of_fmap. by exists (l, e).
  - destruct (filter (has k) ps.*2) as [|e es] eqn:Ef; [done|].
    assert (e ∈ filter (has k) ps.*2) as He by (rewrite Ef; by left).
    apply list_elem_of_filter in He as [He Hin]. apply list_elem_of_fmap in Hin as ([l e'] & -> & Hp).
    by destruct (lookupEntry_none c ps k Hc E l e' Hp).
Qed.

(** *** Removing an entry *)

Definition without (l : loc) ps : list (loc * entry) := filter (λ p, p.1 ≠ l) ps.

Lemma without_lru l ps : (without l ps).*1 = unlink l ps.*1.
Proof.
  unfold without, unlink. induction ps as [|[l' e] ps IH]; [done|].
  rewrite fmap_cons, !filter_cons. cbn [fst].
  destruct (decide (l' ≠ l)); [rewrite fmap_cons; by f_equal|done].
Qed.

Lemma without_entries l e ps :
  NoDup (eKey <$> ps.*2) → NoDup ps.*1 → (l, e) ∈ ps →
  (without l ps).*2 = dropKey (eKey e) ps.*2.
Proof.
  intros Hk Hl Hp. unfold without, dropKey, has.
  assert (∀ p, p ∈ ps → p.1 = l ↔ eKey p.2 = eKey e) as Hiff.
  { intros [l' e'] Hp'. simpl. split; [intros ->|].
    - by rewrite (pairs_loc ps l e' e Hl Hp' Hp).
    - intros Heq. by pose proof (pairs_key ps l' l e' e Hk Hp' Hp Heq) as [= -> _]. }
  clear Hk Hl Hp. induction ps as [|p ps IH]; [done|]. rewrite fmap_cons, !filter_cons.
  specialize (IH ltac:(intros; apply Hiff; by right)). specialize (Hiff p ltac:(left)).
  destruct (decide (p.1 ≠ l)), (decide (¬ eKey p.2 = eKey e)); [|tauto|tauto|done].
  rewrite fmap_cons. by f_equal.
Qed.

Lemma elem_of_without l p ps : p ∈ without l ps ↔ p ∈ ps ∧ p.1 ≠ l.
Proof. unfold without. rewrite list_elem_of_filter. tauto. Qed.

Lemma NoDup_filtered {A B} (f : A → B) (P : A → Prop) `{∀ x, Decision (P x)} (l : list A) :
  NoDup (f <$> l) → NoDup (f <$> filter P l).
Proof. intros Hn. eapply sublist_NoDup; [exact Hn|]. apply fmap_sublist, sublist_filter. Qed.

Lemma removeElement_holds c ps l e :
  holds c ps → (l, e) ∈ ps → holds (removeElement l e c) (without l ps).
Proof.
  intros (Hlru & Hl & Hk & Hh & Hi) Hp. unfold holds, removeElement, withLists. simpl.
  split_and!.
  - by rewrite Hlru, without_lru.
  - by apply NoDup_filtered.
  - rewrite <-list_fmap_compose in Hk |- *. by apply NoDup_filtered.
  - intros l' e' [Hp' _]%elem_of_without. by apply Hh.
  - intros k l'. rewrite lookup_delete_Some, Hi. setoid_rewrite elem_of_without. simpl. split.
    + intros (Hne & e' & Hp' & He'). exists e'. split; [|done]. split; [done|]. intros ->.
      apply Hne. by rewrite (pairs_loc ps l e e' Hl Hp Hp').
    + intros (e' & [Hp' Hne] & He'). split; [|by exists e']. intros Heq. apply Hne.
      by pose proof (pairs_key ps l' l e' e Hk Hp' Hp ltac:(congruence)) as [= -> _].
Qed.

(** *** Moving an entry to the front *)

Lemma moveToFront_holds c ps l e :
  holds c ps → (l, e) ∈ ps →
  holds (withLists (items c) (moveToFront l (lru c)) c) ((l, e) :: without l ps).
Proof.
  intros Hc Hp. destruct (removeElement_holds c ps l e Hc Hp) as (_ & Hl' & Hk' & Hh' & _).
  destruct Hc as (Hlru & Hl & Hk & Hh & Hi). unfold holds, withLists, moveToFront. simpl. split_and!.
  - by rewrite without_lru, Hlru.
  - apply NoDup_cons. split; [|done]. intros ([l' e'] & Heq & [_ Hne]%elem_of_without)%list_elem_of_fmap.
    by simpl in *.
  - apply NoDup_cons. split; [|done].
    intros (e' & Heq & Hin)%list_elem_of_fmap.
    apply list_elem_of_fmap in Hin as ([l' ?] & -> & [Hp' Hne]%elem_of_without).
    simpl in *. apply Hne. by pose proof (pairs_key ps l l' e _ Hk Hp Hp' Heq) as [= -> _].
  - intros l' e' [[= -> ->]|[Hp' _]%elem_of_without]%elem_of_cons; by apply Hh.
  - intros k l'. rewrite Hi. split.
    + intros (e' & Hp' & He'). exists e'. split; [|done]. destruct (decide (l' = l)) as [->|].
      * rewrite (pairs_loc ps l e' e) by done. by left.
      * right. by apply elem_of_without.
    + intros (e' & [[= -> ->]|[Hp' _]%elem_of_without]%elem_of_cons & He'); eauto.
Qed.

Lemma holds_set c ps l e e' :
  holds c ((l, e) :: ps) → eKey e' = eKey e →
  holds (MkCache (<[l := e']> (heap c)) (next c) (items c) (lru c) (ttl c) (maxSize c))
    ((l, e') :: ps).
Proof.
  intros (Hlru & Hl & Hk & Hh & Hi) He. unfold holds. simpl in *. rewrite He. split_and!; try done.
  - intros l' e'' [[= -> ->]|Hp]%elem_of_cons.
    + rewrite lookup_insert_eq. split; [done|]. by destruct (Hh l e ltac:(left)).
    + rewrite lookup_insert_ne; [apply Hh; by right|]. intros <-.
      apply NoDup_cons in Hl as [Hl _]. apply Hl, list_elem_of_fmap. by exists (l, e'').
  - intros k l'. rewrite Hi. split; intros (e'' & [[= -> ->]|Hp]%elem_of_cons & Hk').
    + exists e'. split; [by left|congruence].
    + exists e''. split; [by right|done].
    + exists e. split; [by left|congruence].
    + exists e''. split; [by right|done].
Qed.

(** *** The number of entries and eviction *)

Lemma holds_size c ps : holds c ps → size (items c) = length ps.
Proof.
  intros (_ & Hl & Hk & _ & Hi). rewrite <-list_fmap_compose in Hk.
  assert (items c = list_to_map ((λ p, (eKey p.2, p.1)) <$> ps)) as ->.
  { apply map_eq. intros k. apply option_eq. intros l. rewrite Hi.
    rewrite <-elem_of_list_to_map.
    - rewrite list_elem_of_fmap. split.
      + intros (e & Hp & <-). by exists (l, e).
      + intros ([l' e] & [= -> ->] & Hp). by exists e.
    - by rewrite <-list_fmap_compose. }
  rewrite map_size_list_to_map; [by rewrite length_fmap|].
  by rewrite <-list_fmap_compose.
Qed.

Lemma without_last ps l e :
  NoDup ((ps ++ [(l, e)]).*1) → without l (ps ++ [(l, e)]) = ps.
Proof.
  rewrite fmap_app, NoDup_app. intros (_ & Hn & _). unfold without.
  rewrite filter_app, filter_cons_False, filter_nil, app_nil_r by (simpl; tauto).
  apply filter_all, Forall_forall. intros p Hp Heq. apply (Hn p.1).
  - by apply list_elem_of_fmap_2.
  - rewrite Heq. by left.
Qed.

Lemma evict_spec c s :
  refines c s → refines (evict c) (Spec (specEvict s (entries s)) (sTtl s) (sMax s)).
Proof.
  intros (ps & Hc & He & Ht & Hm). unfold evict, specEvict.
  rewrite (holds_size _ _ Hc), Hm, He, length_fmap.
  destruct (_ && _); [|by exists ps]. pose proof Hc as (Hlru & Hl & _ & Hh & _).
  destruct ps as [|[l e] ps _] using rev_ind.
  { simpl in Hlru. rewrite Hlru. by exists []. }
  rewrite Hlru, fmap_app. simpl. rewrite last_snoc.
  destruct (Hh l e) as [-> _]; [apply elem_of_app; right; by left|].
  exists ps. pose proof (removeElement_holds c _ l e Hc) as Hr. rewrite without_last in Hr by done.
  split_and!; [apply Hr, elem_of_app; right; by left| |done|done].
  simpl. rewrite fmap_app. apply removelast_last.
Qed.

(** *** The operations *)

Lemma CacheGet_refines now k c s :
  refines c s →
  (CacheGet now k c).1 = (specGet now k s).1 ∧ refines (CacheGet now k c).2 (specGet now k s).2.
Proof.
  intros (ps & Hc & He & Ht & Hm). unfold CacheGet, specGet. rewrite He, (findKey_spec c) by done.
  destruct (lookupEntry k c) as [[l e]|] eqn:E; simpl; [|split; [done|by exists ps]].
  apply (lookupEntry_spec _ ps) in E as [Hp <-]; [|done]. pose proof Hc as (_ & Hl & Hk & _).
  rewrite Ht. destruct (isExpired _ _ _); simpl; split; try done.
  - exists (without l ps). split_and!; [by apply removeElement_holds| |done|done].
    simpl. by rewrite He, (without_entries l e).
  - exists ((l, e) :: without l ps). split_and!; [by apply moveToFront_holds| |done|done].
    simpl. by rewrite He, (without_entries l e).
Qed.

Lemma CacheSet_refines now k v c s : refines c s → refines (CacheSet now k v c) (specSet now k v s).
Proof.
  intros Hr. pose proof Hr as (ps & Hc & He & Ht & Hm). unfold CacheSet, specSet.
  rewrite He, (findKey_spec c) by done.
  destruct (lookupEntry k c) as [[l e]|] eqn:E; simpl.
  - apply (lookupEntry_spec _ ps) in E as [Hp <-]; [|done]. pose proof Hc as (_ & Hl & Hk & _).
    pose proof (moveToFront_holds c ps l e Hc Hp) as Hmv. exists ((l, Entry (eKey e) v (expiryFor (ttl c) now)) :: without l ps).
    split_and!; [|simpl; by rewrite He, Ht, (without_entries l e)|done|done].
    by apply (holds_set _ _ l e (Entry (eKey e) v (expiryFor (ttl c) now))) in Hmv.
  - apply evict_spec in Hr. destruct Hr as (qs & Hq & Heq & Htq & Hmq).
    cbn [entries sTtl sMax] in *. exists ((next (evict c), Entry k v (expiryFor (ttl (evict c)) now)) :: qs).
    split_and!; [|simpl; by rewrite Heq, Htq|done|done].
    assert (∀ l e, (l, e) ∈ qs → eKey e ≠ k) as Hfresh.
    { assert (∀ e, e ∈ qs.*2 → e ∈ ps.*2) as Hsub.
      { intros e. rewrite <-Heq, <-He. apply specEvict_in. }
      intros l e Hp. assert (e ∈ ps.*2) as Hin by (apply Hsub, list_elem_of_fmap; by exists (l, e)).
      apply list_elem_of_fmap in Hin as ([l' ?] & -> & Hp'). by eapply lookupEntry_none. }
    destruct Hq as (Hlru & Hl & Hk & Hh & Hi). unfold holds. simpl. split_and!.
    + by rewrite Hlru.
    + apply NoDup_cons. split; [|done]. intros ([l e] & Heq' & Hp)%list_elem_of_fmap.
      simpl in *. destruct (Hh _ _ Hp). lia.
    + apply NoDup_cons. split; [|done]. intros (e & Heq' & Hin)%list_elem_of_fmap.
      apply list_elem_of_fmap in Hin as ([l ?] & -> & Hp). by apply (Hfresh l _ Hp).
    + intros l e [[= -> ->]|Hp]%elem_of_cons; [by rewrite lookup_insert_eq; auto with lia|].
      destruct (Hh _ _ Hp). rewrite lookup_insert_ne by lia. auto with lia.
    + intros k' l. rewrite lookup_insert_Some, Hi. split.
      * intros [[<- <-]|[Hne (e & Hp & Hk')]]; [eexists; split; [by left|done]|].
        exists e. split; [by right|done].
      * intros (e & [[= -> ->]|Hp]%elem_of_cons & <-); [by left|]. right.
        split; [|eauto]. intros Heq'. by destruct (Hfresh l e Hp).
Qed.

Lemma CacheDelete_refines k c s : refines c s → refines (CacheDelete k c) (specDelete k s).
Proof.
  intros (ps & Hc & He & Ht & Hm). unfold CacheDelete, specDelete.
  destruct (lookupEntry k c) as [[l e]|] eqn:E.
  - apply (lookupEntry_spec _ ps) in E as [Hp <-]; [|done]. pose proof Hc as (_ & Hl & Hk & _).
    exists (without l ps). split_and!; [by apply removeElement_holds| |done|done].
    simpl. by rewrite He, (without_entries l e).
  - exists ps. split_and!; [done| |done|done]. simpl. rewrite He. apply filter_all, Forall_forall.
    intros e Hin. apply list_elem_of_fmap in Hin as ([l ?] & -> & Hp).
    by eapply lookupEntry_none.
Qed.

(** One key of the scan. *)
Definition stays (ttl now : Z) (ks : list string) (e : entry) : Prop :=
  ¬ (eKey e ∈ ks ∧ isExpired ttl now e = true).
#[local] Instance stays_dec ttl now ks e : Decision (stays ttl now ks e).
Proof. unfold stays. apply _. Defined.

Lemma cleanKey_refines now k c s :
  refines c s →
  refines
    match lookupEntry k c with
    | Some (l, e) => if isExpired (ttl c) now e then removeElement l e c else c
    | None => c
    end (onEntries (filter (stays (sTtl s) now [k])) s).
Proof.
  intros Hr. pose proof Hr as (ps & Hc & He & Ht & Hm).
  assert (∀ c' : Cache, (∀ e, e ∈ entries s → stays (sTtl s) now [k] e) → c' = c →
    refines c' (onEntries (filter (stays (sTtl s) now [k])) s)) as Hsame.
  { intros c' Hall ->. exists ps. split_and!; [done| |done|done]. simpl.
    by rewrite filter_all, He by (by apply Forall_forall). }
  destruct (lookupEntry k c) as [[l e]|] eqn:E.
  - apply (lookupEntry_spec _ ps) in E as [Hp Hk]; [|done]. pose proof Hc as (_ & Hl & Hks & _).
    destruct (isExpired (ttl c) now e) eqn:Ex.
    + exists (without l ps). split_and!; [by apply removeElement_holds| |done|done].
      simpl. rewrite He, (without_entries l e) by done. unfold dropKey.
      apply filter_ext_in. intros e' Hin. unfold stays, has. rewrite list_elem_of_singleton, Hk.
      split; [|tauto]. intros Hn Heq. apply Hn. split; [done|].
      apply list_elem_of_fmap in Hin as ([l' e''] & -> & Hp'). simpl in *.
      pose proof (pairs_key ps l' l e'' e Hks Hp' Hp ltac:(congruence)) as [= -> ->].
      by rewrite <-Ht.
    + apply Hsame; [|done]. intros e' Hin [Heq%list_elem_of_singleton Hex].
      rewrite He in Hin. apply list_elem_of_fmap in Hin as ([l' e''] & -> & Hp'). simpl in *.
      pose proof (pairs_key ps l' l e'' e Hks Hp' Hp ltac:(congruence)) as [= -> ->]. congruence.
  - apply Hsame; [|done]. intros e' Hin [Heq%list_elem_of_singleton _].
    rewrite He in Hin. apply list_elem_of_fmap in Hin as ([l' e''] & -> & Hp').
    by eapply lookupEntry_none.
Qed.

Lemma cleanKeys_refines now ks c s :
  refines c s → refines (cleanKeys now ks c) (onEntries (filter (stays (sTtl s) now ks)) s).
Proof.
  revert c s. induction ks as [|k ks IH]; intros c s Hr.
  - destruct Hr as (ps & Hc & He & Ht & Hm). exists ps. split_and!; [done| |done|done]. simpl.
    rewrite filter_all, He; [done|]. apply Forall_forall. intros e _ [Hn _].
    by apply elem_of_nil in Hn.
  - simpl. apply (cleanKey_refines now k), IH in Hr. unfold onEntries in *. simpl in Hr.
    rewrite list_filter_filter in Hr. erewrite list_filter_iff; [exact Hr|].
    intros e. unfold stays. rewrite elem_of_cons, list_elem_of_singleton. tauto.
Qed.

Lemma CacheCleanup_refines now c s : refines c s → refines (CacheCleanup now c) (specCleanup now s).
Proof.
  intros Hr. pose proof Hr as (ps & Hc & He & _). unfold CacheCleanup, specCleanup.
  apply (cleanKeys_refines now (map_to_list (items c)).*1) in Hr. unfold onEntries in *.
  erewrite filter_ext_in; [exact Hr|]. intros e Hin. rewrite He in Hin.
  apply list_elem_of_fmap in Hin as ([l e'] & -> & Hp). simpl. unfold stays.
  assert (eKey e' ∈ (map_to_list (items c)).*1) as Hk.
  { apply list_elem_of_fmap. exists (eKey e', l). split; [done|]. apply elem_of_map_to_list.
    destruct Hc as (_ & _ & _ & _ & Hi). apply Hi. eauto. }
  destruct (isExpired _ _ _); naive_solver.
Qed.

Lemma CacheHas_refines now k c s : refines c s → CacheHas now k c = specHas now k s.
Proof.
  intros (ps & Hc & He & Ht & Hm). unfold CacheHas, specHas. rewrite He, (findKey_spec c) by done.
  destruct (lookupEntry k c) as [[l e]|]; simpl; by rewrite ?Ht.
Qed.

Lemma runCall_refines o c s :
  refines c s →
  (runCall o c).1 = (specCall o s).1 ∧ refines (runCall o c).2 (specCall o s).2.
Proof.
  intros Hr. destruct o as [now k|now k v|k| |now|now k|]; simpl.
  - pose proof (CacheGet_refines now k c s Hr) as [Hv Hg].
    destruct (CacheGet now k c), (specGet now k s). simpl in *. by rewrite Hv.
  - split; [done|by apply CacheSet_refines].
  - split; [done|by apply CacheDelete_refines].
  - split; [done|]. destruct Hr as (ps & Hc & He & Ht & Hm). exists [].
    split_and!; [by apply holds_nil|done..].
  - split; [done|by apply CacheCleanup_refines].
  - split; [|done]. f_equal. by apply CacheHas_refines.
  - split; [|done]. destruct Hr as (ps & Hc & He & _). unfold CacheSize.
    by rewrite (holds_size c ps Hc), He, length_fmap.
Qed.

Lemma runCalls_refines os c s :
  refines c s →
  (runCalls os c).1 = (specCalls os s).1 ∧ refines (runCalls os c).2 (specCalls os s).2.
Proof.
  revert c s. induction os as [|o os IH]; intros c s Hr; [done|]. simpl.
  destruct (runCall_refines o c s Hr) as [Ho Hr'].
  destruct (runCall o c) as [r c'], (specCall o s) as [r' s']. simpl in *. subst r'.
  destruct (IH c' s' Hr') as [Hs Hr''].
  destruct (runCalls os c') as [rs c''], (specCalls os s') as [rs' s'']. simpl in *. by subst.
Qed.

Lemma new_refines ttl maxSize : refines (NewCache ttl maxSize) (Spec [] ttl maxSize).
Proof.
  exists []. split_and!; [by apply holds_nil|done..].
Qed.

(** ** How long an entry lives *)

Definition timeOf (o : call) : option Z :=
  match o with GetC now _ | SetC now _ _ | CleanupC now | HasC now _ => Some now | _ => None end.

(** The call leaves the entry of [k] alone: it neither replaces nor deletes it,
    and does not come after its expiry. *)
Definition spares (k : string) (ttl t : Z) (o : call) : Prop :=
  match o with
  | SetC _ k' _ | DeleteC k' => k' ≠ k
  | ClearC => False
  | _ => True
  end ∧ ∀ now, timeOf o = Some now → 0 < ttl → now ≤ t + wrap64 (ttl * Second).

(** The other keys that a call moves to the front. *)
Definition fronted (k : string) (o : call) : option string :=
  match o with
  | GetC _ k' | SetC _ k' _ => if decide (k' = k) then None else Some k'
  | _ => None
  end.

Definition frontedKeys (k : string) (os : list call) : gset string :=
  list_to_set (omap (fronted k) os).

(** The entry of [k], with only keys of [S] before it. *)
Definition placed (k : string) (v : V) (t : Z) (S : gset string) s : Prop :=
  ∃ pre e post, entries s = pre ++ e :: post ∧ NoDup (eKey <$> entries s) ∧
    e = Entry k v (expiryFor (sTtl s) t) ∧ (∀ x, x ∈ pre → eKey x ∈ S).

Lemma fresh_entry ttl t now k v :
  (0 < ttl → now ≤ t + wrap64 (ttl * Second)) →
  isExpired ttl now (Entry k v (expiryFor ttl t)) = false.
Proof.
  intros Hn. unfold isExpired, expiryFor. simpl. destruct (0 <? ttl) eqn:E; [|done]. bool_prop.
  simpl. apply Z.ltb_ge. by apply Hn.
Qed.

Lemma placed_find k v t S s : placed k v t S s → findKey k (entries s) = Some (Entry k v (expiryFor (sTtl s) t)).
Proof.
  intros (pre & e & post & He & Hn & -> & _). unfold findKey. apply head_filter.
  - intros y z Hy Hz. unfold has. intros. apply (NoDup_key eKey (entries s)); congruence.
  - rewrite He. split; [|done]. apply elem_of_app. right. by left.
Qed.

(** Dropping entries other than that of [k] keeps it placed. *)
Lemma placed_filter k v t S s (P : entry → Prop) `{∀ x, Decision (P x)} :
  P (Entry k v (expiryFor (sTtl s) t)) → placed k v t S s → placed k v t S (onEntries (filter P) s).
Proof.
  intros HP (pre & e & post & He & Hn & -> & Hpre).
  exists (filter P pre), (Entry k v (expiryFor (sTtl s) t)), (filter P post). simpl.
  split_and!; [|by apply NoDup_filtered|done|].
  - rewrite He, filter_app, filter_cons_True by done. done.
  - intros x [_ Hx]%list_elem_of_filter. by apply Hpre.
Qed.

(** An entry in front, and the entries that [es] kept. *)
Lemma placed_push k v t S s x es :
  placed k v t S (Spec es (sTtl s) (sMax s)) → eKey x ∉ eKey <$> es → eKey x ∈ S →
  placed k v t S (Spec (x :: es) (sTtl s) (sMax s)).
Proof.
  intros (pre & e & post & He & Hn & Heq & Hpre) Hx HS. simpl in *. exists (x :: pre), e, post.
  simpl. split_and!; [by rewrite He|by apply NoDup_cons|done|].
  intros y [->|Hy]%elem_of_cons; auto.
Qed.

Lemma dropKey_not_in k es : k ∉ eKey <$> dropKey k es.
Proof. intros (e & -> & [Hn _]%list_elem_of_filter)%list_elem_of_fmap. by apply Hn. Qed.

Lemma placed_dropKey k v t S s k' :
  k' ≠ k → placed k v t S s → placed k v t S (onEntries (dropKey k') s).
Proof. intros Hk. apply placed_filter. unfold has. simpl. congruence. Qed.

(** Evicting the last entry spares [k] while fewer than [sMax] other keys are in
    use. *)
Lemma placed_evict k v t (S : gset string) s k' :
  k' ∈ S → findKey k' (entries s) = None → (0 < sMax s → Z.of_nat (size S) < sMax s) →
  placed k v t S s → placed k v t S (Spec (specEvict s (entries s)) (sTtl s) (sMax s)).
Proof.
  intros Hk' Hf Hmax (pre & e & post & He & Hn & Heq & Hpre). unfold specEvict.
  destruct (_ && _) eqn:E; [|by exists pre, e, post]. bool_prop.
  apply findKey_none in Hf as Hk.
  destruct post as [|y post _] using rev_ind.
  - exfalso. assert (size (({[k']} ∪ list_to_set (eKey <$> pre)) : gset string) ≤ size S)%nat as Hs.
    { apply subseteq_size. intros x. rewrite elem_of_union, elem_of_singleton, elem_of_list_to_set.
      intros [->|(z & -> & Hz)%list_elem_of_fmap]; auto. }
    rewrite He, fmap_app, NoDup_app in Hn. rewrite He, fmap_app, not_elem_of_app in Hk.
    rewrite size_union, size_singleton, size_list_to_set, length_fmap in Hs; [|tauto|].
    + rewrite He, length_app in *. simpl in *. lia.
    + apply disjoint_singleton_l. rewrite elem_of_list_to_set. tauto.
  - exists pre, e, post. simpl. rewrite He, app_comm_cons, app_assoc in *.
    rewrite removelast_last. split_and!; [done| |done|done].
    rewrite fmap_app, NoDup_app in Hn. tauto.
Qed.

Lemma placed_step k v t S s o :
  spares k (sTtl s) t o → (∀ k', fronted k o = Some k' → k' ∈ S) →
  (0 < sMax s → Z.of_nat (size S) < sMax s) →
  placed k v t S s → placed k v t S (specCall o s).2.
Proof.
  intros [Hsp Htm] HS Hmax Hp. pose proof (placed_find k v t S s Hp) as Hk.
  destruct o as [now k'|now k' v'|k'| |now|now k'|]; simpl in *; try done.
  - unfold specGet. destruct (decide (k' = k)) as [->|Hne].
    + rewrite Hk, fresh_entry by auto. simpl. destruct Hp as (pre & e & post & He & Hn & Heq & Hpre).
      exists [], (Entry k v (expiryFor (sTtl s) t)), (dropKey k (entries s)). simpl. split_and!; [done| |done|].
      * apply NoDup_cons. split; [apply dropKey_not_in|by apply NoDup_filtered].
      * by intros x ?%elem_of_nil.
    + destruct (findKey k' (entries s)) as [e|] eqn:Ef; [|done].
      destruct (isExpired _ _ _); simpl; [by apply placed_dropKey|].
      apply placed_push; [by apply placed_dropKey|..].
      * apply findKey_some in Ef as [_ <-]. apply dropKey_not_in.
      * apply findKey_some in Ef as [_ ->]. by apply HS.
  - unfold specSet. destruct (decide (k' = k)) as [->|Hne]; [done|].
    assert (k' ∈ S) as HkS by (by apply HS).
    destruct (findKey k' (entries s)) as [e|] eqn:Ef; simpl; apply placed_push; try done.
    + by apply placed_dropKey.
    + apply dropKey_not_in.
    + by apply (placed_evict _ _ _ _ _ k').
    + intros (x & Heq & Hx%specEvict_in)%list_elem_of_fmap. apply findKey_none in Ef. apply Ef.
      simpl in Heq. rewrite Heq. by apply list_elem_of_fmap_2.
  - by apply placed_dropKey.
  - apply placed_filter; [|done]. apply fresh_entry. auto.
Qed.

Lemma specCall_config o s : sTtl (specCall o s).2 = sTtl s ∧ sMax (specCall o s).2 = sMax s.
Proof.
  destruct o; simpl; try done; unfold specGet, specSet; repeat case_match; simplify_eq/=; done.
Qed.

Lemma specCalls_config os s : sTtl (specCalls os s).2 = sTtl s ∧ sMax (specCalls os s).2 = sMax s.
Proof.
  revert s. induction os as [|o os IH]; intros s; [done|]. simpl.
  destruct (specCall_config o s) as [<- <-]. destruct (specCall o s) as [r s1].
  specialize (IH s1). by destruct (specCalls os s1).
Qed.

Lemma placed_steps k v t S os s :
  Forall (spares k (sTtl s) t) os → frontedKeys k os ⊆ S →
  (0 < sMax s → Z.of_nat (size S) < sMax s) →
  placed k v t S s → placed k v t S (specCalls os s).2.
Proof.
  revert s. induction os as [|o os IH]; intros s Hsp HS Hmax Hp; [done|].
  apply Forall_cons in Hsp as [Ho Hsp]. simpl. destruct (specCall_config o s) as [Ht Hm].
  assert (placed k v t S (specCall o s).2) as Hp'.
  { apply placed_step; [done| |done|done]. intros k' Hk'. apply HS.
    unfold frontedKeys. simpl. rewrite Hk'. set_solver. }
  assert (frontedKeys k os ⊆ S) as HS'.
  { unfold frontedKeys in *. simpl in HS. destruct (fronted k o); set_solver. }
  destruct (specCall o s) as [r s1]. simpl in *. rewrite <-Ht in Hsp. rewrite <-Hm in Hmax.
  specialize (IH s1 Hsp HS' Hmax Hp'). by destruct (specCalls os s1).
Qed.

Lemma placed_set k v t s :
  NoDup (eKey <$> entries s) → placed k v t ∅ (specSet t k v s).
Proof.
  intros Hn. unfold specSet. destruct (findKey k (entries s)) eqn:E;
    [exists [], (Entry k v (expiryFor (sTtl s) t)), (dropKey k (entries s))
    |exists [], (Entry k v (expiryFor (sTtl s) t)), (specEvict s (entries s))];
    simpl; (split_and!; [done| |done|by intros x ?%elem_of_nil]); apply NoDup_cons.
  - split; [apply dropKey_not_in|by apply NoDup_filtered].
  - split.
    + intros (x & Heq & Hx%specEvict_in)%list_elem_of_fmap. apply (findKey_none _ _ E).
      simpl in Heq. rewrite Heq. by apply list_elem_of_fmap_2.
    + unfold specEvict. destruct (_ && _); [|done].
      destruct (entries s) as [|x es _] using rev_ind; [constructor|].
      rewrite removelast_last. rewrite fmap_app, NoDup_app in Hn. tauto.
Qed.
End cache.

Arguments entry V : clear implicits.
Arguments Cache V : clear implicits.
Arguments spec V : clear implicits.
Arguments call V : clear implicits.

(** ** Properties *)

(** C28: the cache implements an LRU list. Its map and its list of pointers into
    shared entries answer every sequence of calls as the list of entries does
    that is kept in the order of use, evicts its last entry when it is full and
    drops an expired entry when it is read. *)
Theorem cache_refines {V : Type} (ttl maxSize : Z) (os : list (call V)) :
  let c := runCalls os (NewCache ttl maxSize) in
  let s := specCalls os (Spec [] ttl maxSize) in
  c.1 = s.1 ∧ refines c.2 s.2.
Proof. apply runCalls_refines, new_refines. Qed.

(** An entry survives as long as fewer than [maxSize] other keys are in use.
    From any state of the cache, a value that was set is found again after any
    calls that do not replace, delete or clear it, as long as it has not expired
    and the calls in between get or set fewer than [maxSize] other keys; without a
    limit, always. *)
Lemma cache_keeps_recent {V : Type} (ttl maxSize t t' : Z) (k : string) (v : V)
    (before after : list (call V)) :
  Forall (spares k ttl t) after → (0 < ttl → t' ≤ t + wrap64 (ttl * Second)) →
  (0 < maxSize → Z.of_nat (size (frontedKeys k after)) < maxSize) →
  let c := (runCalls before (NewCache ttl maxSize)).2 in
  (CacheGet t' k (runCalls after (CacheSet t k v c)).2).1 = Some v.
Proof.
  intros Hsp Ht' Hmax c.
  destruct (runCalls_refines before _ _ (new_refines (V := V) ttl maxSize)) as [_ Hr].
  fold c in Hr. set (s := (specCalls before (Spec [] ttl maxSize)).2) in *.
  destruct (specCalls_config before (Spec [] ttl maxSize)) as [Hts Hms]. fold s in Hts, Hms.
  simpl in Hts, Hms. clearbody c s. subst ttl maxSize.
  assert (NoDup (eKey <$> entries s)) as Hn by (by destruct Hr as (ps & (_ & _ & Hn & _) & -> & _)).
  apply (CacheSet_refines t k v) in Hr. pose proof (placed_set k v t s Hn) as Hp.
  destruct (specCall_config (SetC t k v) s) as [Ht Hm]. simpl in Ht, Hm.
  assert (placed k v t (frontedKeys k after) (specSet t k v s)) as Hp'.
  { destruct Hp as (pre & e & post & ? & ? & ? & Hpre). exists pre, e, post. split_and!; [done..|].
    intros x Hx. apply Hpre in Hx. set_solver. }
  rewrite <-Ht in Hsp, Ht'. rewrite <-Hm in Hmax.
  pose proof (placed_steps k v t _ after _ Hsp ltac:(done) Hmax Hp') as Hp2.
  destruct (specCalls_config after (specSet t k v s)) as [Ht2 _].
  destruct (runCalls_refines after _ _ Hr) as [_ Hr2].
  destruct (CacheGet_refines t' k _ _ Hr2) as [-> _]. unfold specGet.
  rewrite (placed_find _ _ _ _ _ Hp2), Ht2, fresh_entry by done. done.
Qed.

(** ** RedisCache

    The cache shared by the instances: the value of a key is its JSON, and a
    failing call is a miss. *)

Section redis_cache.
Context {V : Type} `{CodecLaws V} {R : Type} `{RedisLaws R}.

Record RedisCache := MkRedisCache { rcClient : R; rcTtl : Z }.

Definition NewRedisCache (client : R) (ttl : Z) : RedisCache :=
  MkRedisCache client (wrap64 (ttl * Second)).

Definition RedisCacheGet (env : callEnv) (key : string) (c : RedisCache) : option V :=
  match callRedis (net env) (λ r, (rGET (now env) key r, r)) (rcClient c) with
  | (Ok (Some val), _) => match unmarshal val with Ok v => Some v | Err _ => None end
  | _ => None
  end.

Definition RedisCacheSet (env : callEnv) (key : string) (value : V) (c : RedisCache) : RedisCache :=
  match marshal value with
  | Err _ => c
  | Ok data =>
      MkRedisCache (callRedis (net env)
        (λ r, (tt, rSET (now env) key data (redisTTL (rcTtl c)) r)) (rcClient c)).2 (rcTtl c)
  end.

Definition RedisCacheDelete (env : callEnv) (key : string) (c : RedisCache) : RedisCache :=
  MkRedisCache (callRedis (net env) (rDEL (now env) key) (rcClient c)).2 (rcTtl c).

Definition RedisCacheExists (env : callEnv) (key : string) (c : RedisCache) : bool :=
  match callRedis (net env)
          (λ r, (match rGET (now env) key r with Some _ => 1 | None => 0 end, r)) (rcClient c) with
  | (Ok val, _) => 0 <? val
  | (Err _, _) => false
  end.

(** A hit after a stored value is that value. *)
Lemma redis_cache_hit env env' k v v' c d :
  net env = NoFault → marshal v = Ok d → now env ≤ now env' →
  RedisCacheGet env' k (RedisCacheSet env k v c) = Some v' → v' = v.
Proof.
  intros Hn Hd Ht. unfold RedisCacheSet, RedisCacheGet. rewrite Hd, Hn. simpl.
  destruct (net env'); simpl; try done.
  destruct (rGET (now env') k _) as [x|] eqn:E; [|done].
  apply set_only in E as ->; [|done]. rewrite (unmarshal_marshal v d Hd). congruence.
Qed.

Lemma redis_cache_gone env env' k c :
  net env = NoFault → now env ≤ now env' → RedisCacheGet env' k (RedisCacheDelete env k c) = None.
Proof.
  intros Hn Ht. unfold RedisCacheDelete, RedisCacheGet. rewrite Hn. simpl.
  destruct (rDEL (now env) k (rcClient c)) as [n r] eqn:E.
  pose proof (del_gone (rcClient c) (now env) k (now env') Ht) as Hg. rewrite E in Hg. simpl in *.
  destruct (net env'); simpl; try done. by rewrite Hg.
Qed.
End redis_cache.
