(* ===== verification/Crypto.v ===== *)
(** * internal/crypto: encryption of file contents

    AES-GCM and scrypt are parameters: [AEAD] states what the code relies on,
    that opening inverts sealing. base64 and hex are defined here and in
    [GoString]. File contents are bytes; the conversions between Go strings and
    byte slices are the identity on them. *)

From S2P Require Export OS.

(** ** encoding/base64, StdEncoding *)

Definition bval (b : Byte.byte) : Z := Z.of_N (Byte.to_N b).
Definition byteOf (z : Z) : Byte.byte := default Byte.x00 (Byte.of_N (Z.to_N z)).

(** The character of a six-bit value, and back. *)
Definition enc64 (n : Z) : Byte.byte :=
  byteOf (if n <? 26 then n + 65 else if n <? 52 then n + 71
          else if n <? 62 then n - 4 else if n =? 62 then 43 else 47)%Z.

Definition dec64 (b : Byte.byte) : option Z :=
  let v := bval b in
  (if (65 <=? v) && (v <=? 90) then Some (v - 65)
   else if (97 <=? v) && (v <=? 122) then Some (v - 71)
   else if (48 <=? v) && (v <=? 57) then Some (v + 4)
   else if v =? 43 then Some 62
   else if v =? 47 then Some 63
   else None)%Z.

Definition pad64 : Byte.byte := Byte.x3d.

Fixpoint base64Encode (d : bytes) : bytes :=
  match d with
  | a :: b :: c :: d =>
      let '(a, b, c) := (bval a, bval b, bval c) in
      enc64 (a / 4)%Z :: enc64 (a mod 4 * 16 + b / 16)%Z
        :: enc64 (b mod 16 * 4 + c / 64)%Z :: enc64 (c mod 64)%Z :: base64Encode d
  | [a; b] =>
      let '(a, b) := (bval a, bval b) in
      [enc64 (a / 4); enc64 (a mod 4 * 16 + b / 16); enc64 (b mod 16 * 4); pad64]%Z
  | [a] => let a := bval a in [enc64 (a / 4); enc64 (a mod 4 * 16); pad64; pad64]%Z
  | [] => []
  end.

(** The bytes of a decoded group of four characters. *)
Definition byte1 (x y : Z) : Byte.byte := byteOf (x * 4 + y / 16)%Z.
Definition byte2 (y z : Z) : Byte.byte := byteOf (y mod 16 * 16 + z / 4)%Z.
Definition byte3 (z w : Z) : Byte.byte := byteOf (z mod 4 * 64 + w)%Z.

Fixpoint base64Groups (d : bytes) : option bytes :=
  match d with
  | [] => Some []
  | a :: b :: c :: e :: d =>
      x ← dec64 a;
      y ← dec64 b;
      match dec64 c, dec64 e with
      | Some z, Some w =>
          rest ← base64Groups d; Some (byte1 x y :: byte2 y z :: byte3 z w :: rest)
      | Some z, None =>
          if bool_decide (e = pad64 ∧ d = []) then Some [byte1 x y; byte2 y z] else None
      | None, _ =>
          if bool_decide (c = pad64 ∧ e = pad64 ∧ d = []) then Some [byte1 x y] else None
      end
  | _ => None
  end.

(** Line breaks are skipped. *)
Definition base64Decode (d : bytes) : option bytes :=
  base64Groups (filter (λ b, b ≠ Byte.x0a ∧ b ≠ Byte.x0d) d).

Section base64.
Local Open Scope Z_scope.

Lemma bval_range b : 0 ≤ bval b < 256.
Proof. unfold bval. pose proof (Byte.to_N_bounded b). lia. Qed.

Lemma byteOf_bval b : byteOf (bval b) = b.
Proof. unfold byteOf, bval. rewrite N2Z.id, Byte.of_to_N. done. Qed.

(** Six-bit values, checked one by one. *)
Definition sixBits : list Z := Z.of_nat <$> seq 0 64.

Lemma sixBits_spec n : 0 ≤ n < 64 → n ∈ sixBits.
Proof.
  intros Hn. apply list_elem_of_fmap. exists (Z.to_nat n). split; [lia|].
  apply elem_of_seq. lia.
Qed.

Lemma enc64_table :
  Forall (λ n, dec64 (enc64 n) = Some n ∧ enc64 n ≠ Byte.x0a ∧ enc64 n ≠ Byte.x0d) sixBits.
Proof. apply (bool_decide_eq_true_1 _). vm_compute. reflexivity. Qed.

Lemma dec_enc64 n : 0 ≤ n < 64 → dec64 (enc64 n) = Some n.
Proof.
  intros Hn%sixBits_spec. pose proof enc64_table as Ht. rewrite Forall_forall in Ht. by apply Ht.
Qed.

Lemma enc64_plain n : 0 ≤ n < 64 → enc64 n ≠ Byte.x0a ∧ enc64 n ≠ Byte.x0d.
Proof.
  intros Hn%sixBits_spec. pose proof enc64_table as Ht. rewrite Forall_forall in Ht. by apply Ht.
Qed.

Lemma six_ranges a b :
  0 ≤ a < 256 → 0 ≤ b < 256 →
  0 ≤ a / 4 < 64 ∧ 0 ≤ a mod 4 * 16 + b / 16 < 64 ∧ 0 ≤ a mod 16 * 4 + b / 64 < 64 ∧
  0 ≤ a mod 64 < 64 ∧ 0 ≤ a mod 4 * 16 < 64 ∧ 0 ≤ a mod 16 * 4 < 64.
Proof. intros. Z.to_euclidean_division_equations. lia. Qed.

Lemma group_bytes a b c :
  0 ≤ a < 256 → 0 ≤ b < 256 → 0 ≤ c < 256 →
  a / 4 * 4 + (a mod 4 * 16 + b / 16) / 16 = a ∧
  (a mod 4 * 16 + b / 16) mod 16 * 16 + (b mod 16 * 4 + c / 64) / 4 = b ∧
  (b mod 16 * 4 + c / 64) mod 4 * 64 + c mod 64 = c.
Proof. intros. Z.to_euclidean_division_equations. lia. Qed.
End base64.

(** Induction in steps of three bytes. *)
Lemma bytes_ind3 (P : bytes → Prop) :
  P [] → (∀ a, P [a]) → (∀ a b, P [a; b]) → (∀ a b c d, P d → P (a :: b :: c :: d)) →
  ∀ d, P d.
Proof.
  intros H0 H1 H2 H3. assert (∀ d, P d ∧ (∀ a, P (a :: d)) ∧ (∀ a b, P (a :: b :: d))) as H.
  { induction d as [|c d (IH1 & IH2 & IH3)]; [done|]. split_and!; auto. }
  intros d. apply H.
Qed.

Lemma base64_plain d : Forall (λ b, b ≠ Byte.x0a ∧ b ≠ Byte.x0d) (base64Encode d).
Proof.
  induction d as [|a|a b|a b c d IH] using bytes_ind3; simpl;
    repeat constructor; try done; try apply enc64_plain; auto;
    first [pose proof (bval_range a); pose proof (bval_range b); pose proof (bval_range c)
          |pose proof (bval_range a); pose proof (bval_range b)
          |pose proof (bval_range a)]; Z.to_euclidean_division_equations; lia.
Qed.

Lemma base64Groups_encode d : base64Groups (base64Encode d) = Some d.
Proof.
  induction d as [|a|a b|a b c d IH] using bytes_ind3; [done|..]; simpl;
    pose proof (bval_range a) as Ha.
  - destruct (six_ranges (bval a) 0 Ha ltac:(lia)) as (H1 & _ & _ & _ & H5 & _).
    rewrite !dec_enc64 by done. simpl. unfold byte1.
    destruct (group_bytes (bval a) 0 0 Ha ltac:(lia) ltac:(lia)) as (G1 & _).
    rewrite Z.div_0_l, Z.add_0_r in G1 by done. by rewrite G1, byteOf_bval.
  - pose proof (bval_range b) as Hb.
    destruct (six_ranges (bval a) (bval b) Ha Hb) as (H1 & H2 & _).
    destruct (six_ranges (bval b) 0 Hb ltac:(lia)) as (_ & _ & _ & _ & _ & H6).
    rewrite !dec_enc64 by done. simpl. unfold byte1, byte2.
    destruct (group_bytes (bval a) (bval b) 0 Ha Hb ltac:(lia)) as (G1 & G2 & _).
    rewrite Z.div_0_l, Z.add_0_r in G2 by done. by rewrite G1, G2, !byteOf_bval.
  - pose proof (bval_range b) as Hb. pose proof (bval_range c) as Hc.
    destruct (six_ranges (bval a) (bval b) Ha Hb) as (H1 & H2 & _).
    destruct (six_ranges (bval b) (bval c) Hb Hc) as (_ & _ & H3 & _).
    destruct (six_ranges (bval c) 0 Hc ltac:(lia)) as (_ & _ & _ & H4 & _).
    rewrite !dec_enc64 by done. simpl. rewrite IH. simpl. unfold byte1, byte2, byte3.
    destruct (group_bytes (bval a) (bval b) (bval c) Ha Hb Hc) as (G1 & G2 & G3).
    by rewrite G1, G2, G3, !byteOf_bval.
Qed.

Lemma base64_decode_encode d : base64Decode (base64Encode d) = Some d.
Proof.
  unfold base64Decode. rewrite filter_all by apply base64_plain. apply base64Groups_encode.
Qed.

(** ** The service *)

Class AEAD := {
  (** [gcm.Seal] and [gcm.Open] under a key, without additional data *)
  seal : bytes → bytes → bytes → bytes;
  open_ : bytes → bytes → bytes → option bytes;
  (** [scrypt.Key] with the fixed salt and parameters *)
  scryptKey : bytes → res bytes
}.

Class AEADLaws `{AEAD} := {
  open_seal key nonce d : open_ key nonce (seal key nonce d) = Some d;
  scrypt_len p k : scryptKey p = Ok k → length k = 32
}.

Definition nonceSize : nat := 12.

Section crypto.
Context `{AEAD}.

Record CryptoService := MkCrypto { key : bytes; enabled : bool }.

Definition NewCryptoService : CryptoService := MkCrypto [] false.

Definition stringBytes (s : string) : bytes :=
  (λ c, byteOf (Z.of_nat (Ascii.nat_of_ascii c))) <$> String.list_ascii_of_string s.

Definition Init (k : string) (cs : CryptoService) : res unit * CryptoService :=
  if bool_decide (k = "") then (Err (ErrMsg "encryption key cannot be empty"), cs)
  else
    match DecodeString k with
    | Some decoded =>
        if (length decoded =? 32)%nat then (Ok tt, MkCrypto decoded true)
        else match scryptKey (stringBytes k) with
             | Ok derived => (Ok tt, MkCrypto derived true)
             | Err e => (Err (ErrWrap "failed to derive encryption key" e), cs)
             end
    | None =>
        match scryptKey (stringBytes k) with
        | Ok derived => (Ok tt, MkCrypto derived true)
        | Err e => (Err (ErrWrap "failed to derive encryption key" e), cs)
        end
    end.

Definition IsEnabled (cs : CryptoService) : bool := enabled cs.

(** [aes.NewCipher] accepts keys of 16, 24 and 32 bytes. *)
Definition keyOk (k : bytes) : bool :=
  (length k =? 16)%nat || (length k =? 24)%nat || (length k =? 32)%nat.

(** [nonce] is what [rand.Reader] delivers. *)
Definition Encrypt (cs : CryptoService) (nonce plaintext : bytes) : res bytes :=
  if negb (enabled cs) then Ok plaintext
  else if negb (keyOk (key cs)) then Err (ErrMsg "failed to create cipher")
  else Ok (base64Encode (nonce ++ seal (key cs) nonce plaintext)).

Definition Decrypt (cs : CryptoService) (ciphertext : bytes) : res bytes :=
  if negb (enabled cs) then Ok ciphertext
  else
    match base64Decode ciphertext with
    | None => Err (ErrMsg "failed to decode base64")
    | Some data =>
        if negb (keyOk (key cs)) then Err (ErrMsg "failed to create cipher")
        else if (length data <? nonceSize)%nat then Err (ErrMsg "ciphertext too short")
        else match open_ (key cs) (take nonceSize data) (drop nonceSize data) with
             | None => Err (ErrMsg "failed to decrypt")
             | Some plaintext => Ok plaintext
             end
    end.

(** The nonce comes from the oracle: its first bytes, padded to the size. *)
Definition nonceOf (env : callEnv) : bytes := take nonceSize (padTo (rnd env) nonceSize).

Definition EncryptFile (cs : CryptoService) (inputPath outputPath : string) : M Sys unit :=
  (data ← wrapErr "failed to read input file" (osCall (osReadFile inputPath));
   env ← nextEnv;
   encrypted ← wrapErr "failed to encrypt file data" (lift (Encrypt cs (nonceOf env) data));
   wrapErr "failed to write output file" (osCall (osWriteFile outputPath encrypted)))%go.

Definition DecryptFile (cs : CryptoService) (inputPath outputPath : string) : M Sys unit :=
  (data ← wrapErr "failed to read input file" (osCall (osReadFile inputPath));
   decrypted ← wrapErr "failed to decrypt file data" (lift (Decrypt cs data));
   wrapErr "failed to write output file" (osCall (osWriteFile outputPath decrypted)))%go.

Definition DecryptFileStreaming (cs : CryptoService) (inputPath outputPath : string) : M Sys unit :=
  (wrapErr "failed to open input file" (osCall (osOpen inputPath)) ⨟
   encData ← wrapErr "failed to read encrypted file" (osCall (osReadFile inputPath));
   decrypted ← wrapErr "failed to decrypt file data" (lift (Decrypt cs encData));
   wrapErr "failed to write output file" (osCall (osWriteFile outputPath decrypted)))%go.

Definition GenerateKey (randomBytes : bytes) : string := EncodeToString randomBytes.

(** ** Properties of the service *)

Lemma length_nonceOf env : length (nonceOf env) = nonceSize.
Proof. unfold nonceOf. rewrite length_take, length_padTo. unfold nonceSize. lia. Qed.

Lemma decrypt_encrypt `{!AEADLaws} cs nonce d c :
  length nonce = nonceSize → Encrypt cs nonce d = Ok c → Decrypt cs c = Ok d.
Proof.
  intros Hn. unfold Encrypt, Decrypt. destruct (enabled cs); simpl; [|by intros [= ->]].
  destruct (keyOk (key cs)); simpl; [|done]. intros [= <-].
  rewrite base64_decode_encode, length_app, Hn.
  assert (¬ nonceSize + length (seal (key cs) nonce d) < nonceSize)%nat as Hlt by lia.
  rewrite (proj2 (Nat.ltb_ge _ _)) by lia.
  rewrite <-Hn, take_app_length, drop_app_length. by rewrite open_seal.
Qed.

(** What [Init] leaves behind can always encrypt. *)
Lemma init_keyOk `{!AEADLaws} k cs cs' :
  Init k cs = (Ok tt, cs') → enabled cs' = true ∧ length (key cs') = 32.
Proof.
  unfold Init. case_bool_decide; [done|]. destruct (DecodeString k) as [dec|].
  - destruct (length dec =? 32)%nat eqn:E.
    + intros [= <-]. simpl. bool_prop. apply Nat.eqb_eq in E. done.
    + destruct (scryptKey _) eqn:Es; [|done]. intros [= <-]. eauto using scrypt_len.
  - destruct (scryptKey _) eqn:Es; [|done]. intros [= <-]. eauto using scrypt_len.
Qed.

End crypto.

(** Encryption is reversible. After [Init] with any key or passphrase it
    accepts, every plaintext encrypts, and decrypting the result with the same
    service gives the plaintext back, byte for byte; the base64 layer on its own
    is reversible too. *)
Lemma encrypt_round_trip `{AEADLaws} (k : string) (cs0 cs : CryptoService)
    (nonce plaintext : bytes) :
  Init k cs0 = (Ok tt, cs) → length nonce = nonceSize →
  (∃ c, Encrypt cs nonce plaintext = Ok c ∧ Decrypt cs c = Ok plaintext) ∧
  base64Decode (base64Encode plaintext) = Some plaintext.
Proof.
  intros Hi Hn. split; [|apply base64_decode_encode].
  destruct (init_keyOk k cs0 cs Hi) as [He Hl].
  assert (∃ c, Encrypt cs nonce plaintext = Ok c) as [c Hc].
  { unfold Encrypt, keyOk. rewrite He, Hl. simpl. eauto. }
  exists c. split; [done|]. by eapply decrypt_encrypt.
Qed.

(** A toy cipher: the key length is a one byte tag. *)
Definition toyAEAD : AEAD := {|
  seal k n d := byteOf (Z.of_nat (length k)) :: d;
  open_ k n c := match c with
                 | t :: d => if bool_decide (t = byteOf (Z.of_nat (length k))) then Some d else None
                 | [] => None
                 end;
  scryptKey p := Ok (replicate 32 Byte.x01)
|}.

Lemma toyAEAD_laws : @AEADLaws toyAEAD.
Proof.
  split; simpl.
  - intros. by rewrite bool_decide_eq_true_2.
  - intros p k [= <-]. done.
Qed.
