(* ===== verification/Timestamp.v ===== *)
(** * Timestamps: FormatTimestamp and ParseTimestamp of internal/utils

    Instants are nanoseconds since 1970-01-01T00:00:00Z. The layout of the code,
    2006-01-02T15:04:05Z, in UTC and the proleptic Gregorian calendar. *)

From S2P Require Export Redis.
From Stdlib Require Import Ascii.

Local Open Scope Z_scope.

(** ** The calendar *)

Record civil := Civil { year : Z; month : Z; day : Z }.

Definition isLeap (y : Z) : bool :=
  (y mod 4 =? 0) && (negb (y mod 100 =? 0) || (y mod 400 =? 0)).

Definition monthLengths (y : Z) : list Z :=
  [31; if isLeap y then 29 else 28; 31; 30; 31; 30; 31; 31; 30; 31; 30; 31].

(** Days from 0000-01-01 to January 1 of year [y], and to 1970-01-01. *)
Definition daysBeforeYear (y : Z) : Z :=
  365 * y + (y + 3) / 4 - (y + 99) / 100 + (y + 399) / 400.

Definition epochDays : Z := 719528.

Definition sumZ (l : list Z) : Z := foldr Z.add 0 l.

(** Days since 1970-01-01 of a date. *)
Definition daysOfCivil (c : civil) : Z :=
  daysBeforeYear (year c) + sumZ (take (Z.to_nat (month c - 1)) (monthLengths (year c)))
  + (day c - 1) - epochDays.

(** The year of a day: an estimate that is off by at most one. *)
Definition yearOfDays (n : Z) : Z :=
  let y := (400 * n) / 146097 in
  if n <? daysBeforeYear y then y - 1
  else if daysBeforeYear (y + 1) <=? n then y + 1 else y.

Fixpoint monthScan (lens : list Z) (m d : Z) : Z * Z :=
  match lens with
  | [] => (m, d)
  | len :: lens => if d <? len then (m, d) else monthScan lens (m + 1) (d - len)
  end.

Definition civilOfDays (days : Z) : civil :=
  let n := days + epochDays in
  let y := yearOfDays n in
  let '(m, d) := monthScan (monthLengths y) 1 (n - daysBeforeYear y) in
  Civil y m (d + 1).

Definition validCivil (c : civil) : bool :=
  (1 <=? month c) && (month c <=? 12) && (1 <=? day c) &&
  (day c <=? default 0 (monthLengths (year c) !! Z.to_nat (month c - 1))).

Lemma daysBeforeYear_succ y :
  daysBeforeYear (y + 1) = daysBeforeYear y + sumZ (monthLengths y).
Proof.
  unfold daysBeforeYear, monthLengths, isLeap, sumZ. simpl.
  destruct (y mod 4 =? 0) eqn:E4, (y mod 100 =? 0) eqn:E100, (y mod 400 =? 0) eqn:E400;
    bool_prop; simpl; Z.to_euclidean_division_equations; lia.
Qed.

Lemma yearOfDays_spec n :
  daysBeforeYear (yearOfDays n) ≤ n < daysBeforeYear (yearOfDays n + 1).
Proof.
  unfold yearOfDays. set (y := 400 * n / 146097).
  assert (daysBeforeYear (y - 1) ≤ n < daysBeforeYear (y + 2)) as Hb.
  { unfold y, daysBeforeYear. Z.to_euclidean_division_equations. lia. }
  destruct (n <? daysBeforeYear y) eqn:E1; [|destruct (daysBeforeYear (y + 1) <=? n) eqn:E2];
    bool_prop.
  - replace (y - 1 + 1) with y by lia. lia.
  - replace (y + 1 + 1) with (y + 2) by lia. lia.
  - lia.
Qed.

Lemma monthScan_spec lens m d m' d' :
  0 ≤ d < sumZ lens → Forall (λ n, 0 < n) lens → monthScan lens m d = (m', d') →
  m ≤ m' < m + Z.of_nat (length lens) ∧
  sumZ (take (Z.to_nat (m' - m)) lens) + d' = d ∧
  0 ≤ d' < default 0 (lens !! Z.to_nat (m' - m)).
Proof.
  revert m d. induction lens as [|len lens IH]; intros m d; [simpl; lia|].
  intros Hd [Hlen Hpos]%Forall_cons. simpl. destruct (d <? len) eqn:E; bool_prop.
  - intros [= <- <-]. replace (m - m) with 0 by lia. simpl. lia.
  - intros Hs. simpl in Hd. apply IH in Hs as (Hm & Hsum & Hr); [|lia|done].
    replace (Z.to_nat (m' - m)) with (S (Z.to_nat (m' - (m + 1)))) by lia. simpl. lia.
Qed.

Lemma monthLengths_pos y : Forall (λ n, 0 < n) (monthLengths y).
Proof. unfold monthLengths. by destruct (isLeap y); repeat constructor. Qed.

Lemma civil_round_trip days :
  daysOfCivil (civilOfDays days) = days ∧ validCivil (civilOfDays days) = true.
Proof.
  unfold civilOfDays. cbv zeta. set (n := days + epochDays). set (y := yearOfDays n).
  pose proof (yearOfDays_spec n) as Hy. fold y in Hy. rewrite daysBeforeYear_succ in Hy.
  destruct (monthScan (monthLengths y) 1 (n - daysBeforeYear y)) as [m d] eqn:E.
  apply monthScan_spec in E as (Hm & Hs & Hd); [|lia|apply monthLengths_pos].
  unfold daysOfCivil, validCivil. simpl year. simpl month. simpl day. split; [lia|].
  change (Z.of_nat (length (monthLengths y))) with 12 in Hm.
  repeat (apply andb_true_iff; split); apply Z.leb_le; lia.
Qed.

(** ** Formatting *)

Definition digit (n : Z) : ascii := ascii_of_nat (48 + Z.to_nat n).

Definition two (n : Z) (s : string) : string :=
  String (digit (n / 10 mod 10)) (String (digit (n mod 10)) s).

Definition four (n : Z) (s : string) : string := two (n / 100) (two (n mod 100) s).

(** Years of four digits. *)
Definition formatSeconds (secs : Z) : string :=
  let c := civilOfDays (secs / 86400) in
  let s := secs mod 86400 in
  four (year c) (String "-" (two (month c) (String "-" (two (day c)
    (String "T" (two (s / 3600) (String ":" (two (s / 60 mod 60)
      (String ":" (two (s mod 60) "Z")))))))))).

Definition FormatTimestamp (t : Z) : string := formatSeconds (t / Second).

Definition GetCurrentTimestamp (now : Z) : string := FormatTimestamp now.

(** ** Parsing *)

Definition digitVal (c : ascii) : option Z :=
  let n := Z.of_nat (nat_of_ascii c) in
  if (48 <=? n) && (n <=? 57) then Some (n - 48) else None.

(** Two digits, then the rest. *)
Definition parseTwo (s : string) : option (Z * string) :=
  match s with
  | String a (String b s) => x ← digitVal a; y ← digitVal b; Some (10 * x + y, s)
  | _ => None
  end.

Definition parseFour (s : string) : option (Z * string) :=
  '(a, s) ← parseTwo s; '(b, s) ← parseTwo s; Some (100 * a + b, s).

Definition expect (c : ascii) (s : string) : option string :=
  match s with
  | String d s => if bool_decide (d = c) then Some s else None
  | EmptyString => None
  end.

(** A fraction after the seconds is accepted although the layout has none: up to
    nine digits count. *)
Fixpoint parseDigits (k : nat) (s : string) : Z * string :=
  match s with
  | String c s' =>
      match digitVal c with
      | Some x => let '(v, rest) := parseDigits (k - 1) s' in
                  ((if (0 <? k)%nat then x * 10 ^ (Z.of_nat k - 1) else 0) + v, rest)
      | None => (0, s)
      end
  | EmptyString => (0, s)
  end.

Definition parseFraction (s : string) : option (Z * string) :=
  match s with
  | String c s' =>
      if bool_decide (c = "."%char) || bool_decide (c = ","%char) then
        match s' with
        | String d _ => _ ← digitVal d; Some (parseDigits 9 s')
        | EmptyString => None
        end
      else Some (0, s)
  | EmptyString => Some (0, s)
  end.

(** [ParseTimestamp]: [None] is the error of [time.Parse]. *)
Definition ParseTimestamp (s : string) : option Z :=
  '(y, s) ← parseFour s; s ← expect "-" s;
  '(mo, s) ← parseTwo s; s ← expect "-" s;
  '(d, s) ← parseTwo s; s ← expect "T" s;
  '(h, s) ← parseTwo s; s ← expect ":" s;
  '(mi, s) ← parseTwo s; s ← expect ":" s;
  '(sec, s) ← parseTwo s;
  '(frac, s) ← parseFraction s;
  s ← expect "Z" s;
  let c := Civil y mo d in
  if bool_decide (s = "") && validCivil c && (h <? 24) && (mi <? 60) && (sec <? 60)
  then Some ((daysOfCivil c * 86400 + h * 3600 + mi * 60 + sec) * Second + frac)
  else None.

(** ** Parsing inverts formatting *)

Lemma digitVal_digit n : 0 ≤ n < 10 → digitVal (digit n) = Some n.
Proof.
  intros Hn. assert (n ∈ Z.of_nat <$> seq 0 10) as Hin.
  { apply list_elem_of_fmap. exists (Z.to_nat n). split; [lia|]. apply elem_of_seq. lia. }
  assert (Forall (λ n, digitVal (digit n) = Some n) (Z.of_nat <$> seq 0 10)) as Ht
    by (by repeat constructor).
  rewrite Forall_forall in Ht. by apply Ht.
Qed.

Lemma parseTwo_two n s : 0 ≤ n < 100 → parseTwo (two n s) = Some (n, s).
Proof.
  intros Hn. unfold two, parseTwo. rewrite !digitVal_digit by (apply Z.mod_pos_bound; lia).
  cbn [mbind option_bind].
  repeat f_equal. Z.to_euclidean_division_equations. lia.
Qed.

Lemma parseFour_four n s : 0 ≤ n < 10000 → parseFour (four n s) = Some (n, s).
Proof.
  intros Hn. unfold parseFour, four.
  rewrite parseTwo_two by (Z.to_euclidean_division_equations; lia). cbn [mbind option_bind].
  rewrite parseTwo_two by (Z.to_euclidean_division_equations; lia). cbn [mbind option_bind].
  repeat f_equal. Z.to_euclidean_division_equations. lia.
Qed.

Lemma expect_same c s : expect c (String c s) = Some s.
Proof. simpl. by rewrite bool_decide_eq_true_2. Qed.

Lemma parse_format secs :
  0 ≤ year (civilOfDays (secs / 86400)) < 10000 →
  ParseTimestamp (formatSeconds secs) = Some (secs * Second).
Proof.
  intros Hy. unfold ParseTimestamp, formatSeconds. cbv zeta.
  destruct (civil_round_trip (secs / 86400)) as [Hd Hv].
  set (c := civilOfDays (secs / 86400)) in *. set (s := secs mod 86400).
  assert (0 ≤ s < 86400) as Hs by (apply Z.mod_pos_bound; lia).
  assert (1 ≤ month c ≤ 12 ∧ 1 ≤ day c ≤ 31) as [Hm Hday].
  { unfold validCivil in Hv. bool_prop. split; [lia|].
    assert (default 0 (monthLengths (year c) !! Z.to_nat (month c - 1)) ≤ 31); [|lia].
    assert (Forall (λ n, n ≤ 31) (monthLengths (year c))) as Hall.
    { unfold monthLengths. by destruct (isLeap _); repeat constructor. }
    destruct (monthLengths (year c) !! _) eqn:El; simpl; [|lia].
    rewrite Forall_lookup in Hall. by eapply Hall. }
  rewrite parseFour_four by done. cbn [mbind option_bind]. rewrite expect_same. cbn [mbind option_bind].
  rewrite parseTwo_two by lia. cbn [mbind option_bind]. rewrite expect_same. cbn [mbind option_bind].
  rewrite parseTwo_two by lia. cbn [mbind option_bind]. rewrite expect_same. cbn [mbind option_bind].
  rewrite parseTwo_two by (Z.to_euclidean_division_equations; lia). cbn [mbind option_bind].
  rewrite expect_same. cbn [mbind option_bind].
  rewrite parseTwo_two by (Z.to_euclidean_division_equations; lia). cbn [mbind option_bind].
  rewrite expect_same. cbn [mbind option_bind].
  rewrite parseTwo_two by (Z.to_euclidean_division_equations; lia). cbn [mbind option_bind].
  replace (Civil (year c) (month c) (day c)) with c by (by destruct c).
  rewrite Hv, Hd. change (parseFraction "Z") with (Some (0, "Z")).
  cbn [mbind option_bind]. rewrite expect_same. cbn [mbind option_bind].
  rewrite bool_decide_eq_true_2 by done.
  rewrite !(proj2 (Z.ltb_lt _ _)) by (Z.to_euclidean_division_equations; lia).
  cbn [andb]. f_equal. rewrite Z.add_0_r. f_equal. unfold s.
  pose proof (Z.div_mod secs 86400 ltac:(lia)). Z.to_euclidean_division_equations. lia.
Qed.

Lemma year_range days :
  - epochDays ≤ days < 3652425 - epochDays → 0 ≤ year (civilOfDays days) < 10000.
Proof.
  intros Hd. unfold civilOfDays. cbv zeta. set (n := days + epochDays).
  pose proof (yearOfDays_spec n) as Hy. set (y := yearOfDays n) in *.
  destruct (monthScan _ _ _) as [m d]. simpl year.
  assert (0 ≤ n < 3652425) as Hn by (unfold n; lia). clearbody y n. clear Hd.
  unfold daysBeforeYear in Hy. Z.to_euclidean_division_equations. lia.
Qed.

(** A timestamp survives the round trip through its text. For every instant
    from year 0 to year 9999, [ParseTimestamp] accepts what [FormatTimestamp]
    wrote and returns the instant, cut to whole seconds. *)
Lemma timestamp_round_trip (t : Z) :
  -62167219200 * Second ≤ t < 253402300800 * Second →
  ParseTimestamp (FormatTimestamp t) = Some (t / Second * Second).
Proof.
  intros Ht. unfold FormatTimestamp. apply parse_format, year_range.
  unfold Second, Millisecond, epochDays in *. Z.to_euclidean_division_equations. lia.
Qed.

(** ** The order of timestamps as text *)

Definition inYears (t : Z) : Prop := -62167219200 * Second ≤ t < 253402300800 * Second.

(** The layout 2006-01-02 15:04:05. *)
Definition formatBlank (secs : Z) : string :=
  let c := civilOfDays (secs / 86400) in
  let s := secs mod 86400 in
  four (year c) (String "-" (two (month c) (String "-" (two (day c)
    (String " " (two (s / 3600) (String ":" (two (s / 60 mod 60)
      (String ":" (two (s mod 60) "")))))))))).

Lemma digit_mono a b s t :
  0 ≤ a < 10 → 0 ≤ b < 10 → a < b ∨ (a = b ∧ strLe s t) →
  strLe (String (digit a) s) (String (digit b) t).
Proof.
  intros Ha Hb Hab. rewrite strLe_cons. destruct Hab as [Hab|[-> ?]]; [left|by right].
  assert (∀ n, 0 ≤ n < 10 → N_of_ascii (digit n) = (48 + Z.to_N n)%N) as Hd.
  { intros n Hn. assert (n ∈ Z.of_nat <$> seq 0 10) as Hin.
    { apply list_elem_of_fmap. exists (Z.to_nat n). split; [lia|]. apply elem_of_seq. lia. }
    assert (Forall (λ n, N_of_ascii (digit n) = (48 + Z.to_N n)%N) (Z.of_nat <$> seq 0 10)) as Hall
      by (by repeat constructor).
    rewrite Forall_forall in Hall. by apply Hall. }
  rewrite !Hd by done. lia.
Qed.

Lemma two_mono a b s t :
  0 ≤ a < 100 → 0 ≤ b < 100 → a < b ∨ (a = b ∧ strLe s t) → strLe (two a s) (two b t).
Proof.
  intros Ha Hb Hab. unfold two.
  apply digit_mono; [apply Z.mod_pos_bound; lia..|].
  destruct (decide (a / 10 mod 10 = b / 10 mod 10)) as [Heq|Hne]; [right|left].
  - split; [done|]. apply digit_mono; [apply Z.mod_pos_bound; lia..|].
    destruct Hab as [?|[-> ?]]; [left|by right]. Z.to_euclidean_division_equations. lia.
  - destruct Hab as [?|[-> ?]]; [|done]. Z.to_euclidean_division_equations. lia.
Qed.

Lemma four_mono a b s t :
  0 ≤ a < 10000 → 0 ≤ b < 10000 → a < b ∨ (a = b ∧ strLe s t) → strLe (four a s) (four b t).
Proof.
  intros Ha Hb Hab. unfold four.
  apply two_mono; [Z.to_euclidean_division_equations; lia..|].
  destruct (decide (a / 100 = b / 100)) as [Heq|Hne]; [right|left].
  - split; [done|]. apply two_mono; [apply Z.mod_pos_bound; lia..|].
    destruct Hab as [?|[-> ?]]; [left|by right]. Z.to_euclidean_division_equations. lia.
  - destruct Hab as [?|[-> ?]]; [|done]. Z.to_euclidean_division_equations. lia.
Qed.

Lemma monthScan_mono lens m d d' :
  d ≤ d' → let '(a, x) := monthScan lens m d in let '(b, y) := monthScan lens m d' in
  a < b ∨ (a = b ∧ x ≤ y).
Proof.
  revert m d d'. induction lens as [|len lens IH]; intros m d d' Hd; simpl; [by right|].
  destruct (d <? len) eqn:E, (d' <? len) eqn:E'; bool_prop; [by right| |lia|apply IH; lia].
  assert (∀ l m d, m ≤ (monthScan l m d).1) as Hge.
  { clear. induction l as [|n l IH]; intros m d; simpl; [done|]. destruct (d <? n); simpl; [done|].
    specialize (IH (m + 1) (d - n)). lia. }
  specialize (Hge lens (m + 1) (d' - len)). destruct (monthScan _ _ _). simpl in *. left. lia.
Qed.

Lemma civil_mono n n' :
  n ≤ n' → let c := civilOfDays n in let c' := civilOfDays n' in
  year c < year c' ∨ (year c = year c' ∧
    (month c < month c' ∨ (month c = month c' ∧ day c ≤ day c'))).
Proof.
  intros Hn. unfold civilOfDays. cbv zeta.
  pose proof (yearOfDays_spec (n + epochDays)) as H1.
  pose proof (yearOfDays_spec (n' + epochDays)) as H2.
  set (y := yearOfDays (n + epochDays)) in *. set (y' := yearOfDays (n' + epochDays)) in *.
  assert (∀ a b, a ≤ b → daysBeforeYear a ≤ daysBeforeYear b) as Hm.
  { intros a b Hab. unfold daysBeforeYear. Z.to_euclidean_division_equations. lia. }
  assert (y ≤ y') as Hy.
  { destruct (decide (y ≤ y')) as [|Hlt]; [done|]. specialize (Hm (y' + 1) y ltac:(lia)). lia. }
  destruct (decide (y = y')) as [Heq|Hne].
  - rewrite <-Heq. pose proof (monthScan_mono (monthLengths y) 1 (n + epochDays - daysBeforeYear y)
      (n' + epochDays - daysBeforeYear y) ltac:(lia)) as Hs.
    destruct (monthScan _ _ _), (monthScan _ _ _). simpl. right. split; [done|]. lia.
  - destruct (monthScan _ _ _), (monthScan _ _ _). simpl. left. lia.
Qed.

(** A timestamp that is at or after [b] does not sort before it, the blank and the
    letter T notwithstanding. *)
Lemma formatBlank_le a b :
  inYears a → inYears b → b / Second ≤ a / Second →
  strLe (formatBlank (b / Second)) (FormatTimestamp a).
Proof.
  intros Ha Hb Hab. unfold FormatTimestamp, formatBlank, formatSeconds. cbv zeta.
  set (x := a / Second) in *. set (y := b / Second) in *.
  pose proof (civil_mono (y / 86400) (x / 86400) ltac:(apply Z.div_le_mono; lia)) as Hc.
  cbv zeta in Hc.
  assert (∀ t, inYears t → 0 ≤ year (civilOfDays (t / Second / 86400)) < 10000) as Hyr.
  { intros t Ht. apply year_range. unfold inYears, Second, Millisecond, epochDays in *.
    Z.to_euclidean_division_equations. lia. }
  assert (∀ n, 1 ≤ month (civilOfDays n) ≤ 12 ∧ 0 ≤ day (civilOfDays n) < 100) as Hmd.
  { intros n. destruct (civil_round_trip n) as [_ Hv]. unfold validCivil in Hv. bool_prop.
    split; [lia|]. set (c := civilOfDays n) in *.
    assert (default 0 (monthLengths (year c) !! Z.to_nat (month c - 1)) ≤ 31); [|lia].
    assert (Forall (λ n, n ≤ 31) (monthLengths (year c))) as Hall.
    { unfold monthLengths. by destruct (isLeap _); repeat constructor. }
    destruct (monthLengths (year c) !! _) eqn:El; simpl; [|lia].
    rewrite Forall_lookup in Hall. by eapply Hall. }
  pose proof (Hyr a Ha) as Hya. pose proof (Hyr b Hb) as Hyb. fold x in Hya. fold y in Hyb.
  destruct (Hmd (x / 86400)) as [Hmx Hdx], (Hmd (y / 86400)) as [Hmy Hdy].
  apply four_mono; [done..|]. destruct Hc as [?|[-> Hc]]; [by left|right]. split; [done|].
  apply strLe_cons. right. split; [done|].
  apply two_mono; [lia..|]. destruct Hc as [?|[-> Hc]]; [by left|right]. split; [done|].
  apply strLe_cons. right. split; [done|].
  apply two_mono; [lia..|]. destruct (decide (day (civilOfDays (y / 86400)) = day (civilOfDays (x / 86400)))) as [->|];
    [right|left; lia]. split; [done|]. apply strLe_cons. left. vm_compute. reflexivity.
Qed.

(** Two instants in order, compared as text. *)
Lemma text_before a b :
  inYears a → inYears b → String.ltb (FormatTimestamp a) (formatBlank (b / Second)) = true → a < b.
Proof.
  intros Ha Hb Hlt. destruct (decide (a < b)) as [|Hge]; [done|]. exfalso.
  assert (strLe (formatBlank (b / Second)) (FormatTimestamp a)) as Hle.
  { apply formatBlank_le; [done..|]. apply Z.div_le_mono; [done|lia]. }
  unfold strLe, String.leb, String.ltb in *. rewrite String.compare_antisym in Hle.
  by destruct (String.compare _ _).
Qed.
