(* ===== verification/Migration.v ===== *)
(** * internal/database/migration.go: versioned schema changes

    The registry of migrations and the run of the pending ones. What a migration
    does to the database is its own: an [Up] is any program on the rest of the
    database, of type [U] here. *)

From S2P Require Export Metadata Timestamp.
From stdpp Require Import pretty.

Local Open Scope go_scope.

(** A row of schema_migrations. *)
Record MigrationRow := MkMigrationRow { mrVersion : Z; mrName : string; mrAppliedAt : string }.

#[export] Instance schema_migrations : SqlRow MigrationRow :=
  {| uniqueCols := [λ r, pretty (mrVersion r)] |}.

Section migration.
Context {U : Type} {T : Type → Type} `{SqlEngine T}.

Record Migration := MkMigration { Version : Z; MName : string; Up : option (M U unit) }.

Record MigrationManager := MkManager { migrations : list Migration }.

Definition NewMigrationManager : MigrationManager := MkManager [].

Definition versionLe (a b : Migration) : Prop := (Version a ≤ Version b)%Z.
#[export] Instance versionLe_dec a b : Decision (versionLe a b).
Proof. unfold versionLe. apply _. Defined.

(** [sort.Slice] by the version. *)
Definition sortVersions (ms : list Migration) : list Migration := merge_sort versionLe ms.

(** The first entry with the same version is replaced. *)
Fixpoint replaceVersion (m : Migration) (ms : list Migration) : option (list Migration) :=
  match ms with
  | [] => None
  | e :: ms =>
      if (Version e =? Version m)%Z then Some (m :: ms)
      else cons e <$> replaceVersion m ms
  end.

Definition Register (m : Migration) (mm : MigrationManager) : MigrationManager :=
  match replaceVersion m (migrations mm) with
  | Some ms => MkManager (sortVersions ms)
  | None => MkManager (sortVersions (migrations mm ++ [m]))
  end.

(** The table, the environment and the rest of the database. *)
Record MigWorld := MkMigWorld { mTable : T MigrationRow; mSys : Sys; mState : U }.

Definition onTable {A} (op : T MigrationRow → res A * T MigrationRow) : M MigWorld A := λ w,
  let s := mSys w in
  let '(r, t) := faulty (net (oracle s (tick s))) op (mTable w) in
  (r, MkMigWorld t (skip 1 s) (mState w)).

Definition onState (up : M U unit) : M MigWorld unit := λ w,
  let '(r, u) := up (mState w) in (r, MkMigWorld (mTable w) (mSys w) u).

(** CREATE TABLE IF NOT EXISTS: the table is there, empty if it is new. *)
Definition Initialize : M MigWorld unit :=
  wrapErr "failed to create schema_migrations table" (onTable (λ t, (Ok tt, t))).

Definition getAppliedVersions : M MigWorld (list Z) :=
  wrapErr "failed to query applied migrations"
    (onTable (select (λ rs, Ok (merge_sort Z.le (mrVersion <$> rs))))).

Definition getPendingMigrations (mm : MigrationManager) : M MigWorld (list Migration) :=
  applied ← getAppliedVersions;
  mret (sortVersions (filter (λ m, Version m ∉ applied) (migrations mm))).

Definition recordMigration (version : Z) (name : string) : M MigWorld unit := λ w,
  wrapErr "failed to record migration"
    (onTable (INSERT (MkMigrationRow version name
       (FormatTimestamp (now (oracle (mSys w) (tick (mSys w)))))))) w.

Definition runOne (m : Migration) : M MigWorld unit :=
  match Up m with
  | None => throw (ErrMsg "migration has no Up function")
  | Some up =>
      wrapErr "migration failed" (onState up) ⨟
      wrapErr "failed to record migration" (recordMigration (Version m) (MName m))
  end.

Fixpoint runAll (ms : list Migration) : M MigWorld unit :=
  match ms with
  | [] => mret tt
  | m :: ms => runOne m ⨟ runAll ms
  end.

Definition RunMigrations (mm : MigrationManager) : M MigWorld unit :=
  Initialize ⨟
  pending ← getPendingMigrations mm;
  runAll pending.

Definition GetCurrentVersion : M MigWorld Z :=
  r ← catch getAppliedVersions;
  mret (match r with
        | Ok (v :: vs) => foldl Z.max v vs
        | _ => 0%Z
        end).

End migration.
Arguments Migration U : clear implicits.
Arguments MigrationManager U : clear implicits.
Arguments MigWorld U T : clear implicits.

(** ** The registry *)

Section registry.
Context {U : Type}.
Implicit Types ms : list (Migration U).

(** Ascending versions. *)
Definition ascending ms : Prop := StronglySorted (λ a b : Migration U, (Version a < Version b)%Z) ms.

Lemma ascending_nodup ms : ascending ms → NoDup (Version <$> ms).
Proof.
  induction 1 as [|m ms _ IH Hm]; [constructor|]. apply NoDup_cons. split; [|done].
  intros (x & Hx & Hin)%list_elem_of_fmap. rewrite Forall_forall in Hm. specialize (Hm x Hin). lia.
Qed.

#[local] Instance versionLe_total : Total (@versionLe U).
Proof. intros a b. unfold versionLe. lia. Qed.
#[local] Instance versionLe_trans : Transitive (@versionLe U).
Proof. intros a b c. unfold versionLe. lia. Qed.

Lemma sortVersions_ascending ms : NoDup (Version <$> ms) → ascending (sortVersions ms).
Proof.
  intros Hnd. unfold sortVersions.
  pose proof (StronglySorted_merge_sort versionLe ms) as Hs.
  assert (NoDup (Version <$> merge_sort versionLe ms)) as Hnd'
    by (by rewrite merge_sort_Permutation).
  unfold ascending. induction Hs as [|m l _ IH Hm]; [constructor|].
  apply NoDup_cons in Hnd' as [Hni Hnd']. constructor; [by apply IH|].
  rewrite Forall_forall in *. intros x Hx. specialize (Hm x Hx). unfold versionLe in Hm.
  assert (Version m ≠ Version x); [|lia]. intros Heq. apply Hni. rewrite Heq.
  by apply list_elem_of_fmap_2.
Qed.

Lemma replaceVersion_some m ms ms' :
  NoDup (Version <$> ms) → replaceVersion m ms = Some ms' →
  Version <$> ms' = Version <$> ms ∧
  ∀ x, x ∈ ms' ↔ x = m ∨ (x ∈ ms ∧ Version x ≠ Version m).
Proof.
  revert ms'. induction ms as [|e ms IH]; intros ms' Hnd; simpl; [done|].
  apply NoDup_cons in Hnd as [Hni Hnd]. destruct (Version e =? Version m)%Z eqn:E; bool_prop.
  - intros [= <-]. rewrite !fmap_cons, E. split; [done|]. intros x. rewrite !elem_of_cons. split.
    + intros [->|Hx]; [by left|]. right. split; [by right|]. rewrite <-E. intros Heq.
      apply Hni. rewrite <-Heq. by apply list_elem_of_fmap_2.
    + intros [->|[[->|Hx] Hne]]; [by left|congruence|by right].
  - destruct (replaceVersion m ms) as [l|] eqn:Er; [|done]. simpl. intros [= <-].
    destruct (IH l Hnd eq_refl) as [Hv Hin]. rewrite !fmap_cons, Hv. split; [done|].
    intros x. rewrite !elem_of_cons, Hin. split; [|tauto].
    intros [->|[->|[? ?]]]; [right; split; [by left|done]|by left|right; split; [by right|done]].
Qed.

Lemma replaceVersion_none m ms : replaceVersion m ms = None → Version m ∉ Version <$> ms.
Proof.
  induction ms as [|e ms IH]; simpl; [intros _ ?%elem_of_nil; done|].
  destruct (Version e =? Version m)%Z eqn:E; [done|]. bool_prop.
  destruct (replaceVersion m ms); [done|]. intros _ [Heq|Hin]%elem_of_cons; [congruence|by apply IH].
Qed.

(** Registering keeps the versions ascending and replaces a migration of the same
    version. *)
Lemma Register_spec m (mm : MigrationManager U) :
  ascending (migrations mm) →
  ascending (migrations (Register m mm)) ∧
  ∀ x, x ∈ migrations (Register m mm) ↔ x = m ∨ (x ∈ migrations mm ∧ Version x ≠ Version m).
Proof.
  intros Ha. apply ascending_nodup in Ha as Hnd. unfold Register.
  destruct (replaceVersion m (migrations mm)) as [ms|] eqn:E; simpl.
  - destruct (replaceVersion_some _ _ _ Hnd E) as [Hv Hin]. split.
    + apply sortVersions_ascending. by rewrite Hv.
    + intros x. unfold sortVersions. by rewrite merge_sort_Permutation.
  - apply replaceVersion_none in E. split.
    + apply sortVersions_ascending. rewrite fmap_app. apply NoDup_app. split_and!; [done| |].
      * by intros v Hv ->%list_elem_of_singleton.
      * apply NoDup_singleton.
    + intros x. unfold sortVersions. rewrite merge_sort_Permutation, elem_of_app, list_elem_of_singleton.
      split; [|tauto]. intros [Hx| ->]; [|by left]. right. split; [done|]. intros Heq.
      apply E. rewrite <-Heq. by apply list_elem_of_fmap_2.
Qed.
End registry.

(** ** A run *)

Section run.
Context {U : Type} {T : Type → Type} `{SqlLaws T}.
Notation World := (MigWorld U T).
Implicit Types w : World.

Definition versions w : list Z := mrVersion <$> rows (mTable w).

(** The registered migrations that are not recorded, in ascending order. *)
Definition pendingOf (mm : MigrationManager U) (vs : list Z) : list (Migration U) :=
  sortVersions (filter (λ m, Version m ∉ vs) (migrations mm)).

(** The effect of a list of migrations, when each of them succeeds. *)
Fixpoint ups (ms : list (Migration U)) (u : U) : option U :=
  match ms with
  | [] => Some u
  | m :: ms =>
      match Up m with
      | Some up => match up u with (Ok _, u') => ups ms u' | (Err _, _) => None end
      | None => None
      end
  end.

Lemma pretty_versions (rs : list MigrationRow) :
  constraintsOk rs ↔ NoDup (mrVersion <$> rs).
Proof.
  unfold constraintsOk. simpl. rewrite Forall_singleton.
  assert ((λ r : MigrationRow, pretty (mrVersion r)) <$> rs = pretty <$> (mrVersion <$> rs)) as ->
    by (by rewrite <-list_fmap_compose).
  split; [apply NoDup_fmap_1|]. apply NoDup_fmap_2, _.
Qed.

(** Recording a version that is not there. *)
Lemma recordMigration_spec v name w :
  NoDup (versions w) → v ∉ versions w →
  let '(r, w') := recordMigration v name w in
  mState w' = mState w ∧
  ((r ≠ Ok tt ∧ versions w' = versions w) ∨ versions w' ≡ₚ v :: versions w).
Proof.
  intros Hnd Hni. unfold recordMigration, wrapErr, onTable.
  set (row := MkMigrationRow v name _).
  destruct (insert_ok row (mTable w)) as (t & Hi & Hp).
  { apply pretty_versions. apply NoDup_cons. done. }
  unfold faulty. destruct (net _); rewrite ?Hi; simpl; (split; [done|]).
  - right. unfold versions. simpl. by rewrite Hp.
  - by left.
  - right. unfold versions. simpl. by rewrite Hp.
  - by left.
Qed.

Lemma runAll_spec ms w :
  NoDup (versions w) → NoDup (Version <$> ms) → (∀ m, m ∈ ms → Version m ∉ versions w) →
  let '(r, w') := runAll ms w in
  ∃ k u, versions w' ≡ₚ (Version <$> take k ms) ++ versions w ∧
    ups (take k ms) (mState w) = Some u ∧
    (r = Ok tt → k = length ms ∧ mState w' = u) ∧
    (mState w' = u ∨ ∃ m up, ms !! k = Some m ∧ Up m = Some up ∧ mState w' = (up u).2).
Proof.
  revert w. induction ms as [|m ms IH]; intros w Hnd Hms Hni.
  { exists 0, (mState w). simpl. auto. }
  apply NoDup_cons in Hms as [Hm Hms]. cbn [runAll]. unfold mbind at 1, M_bind at 1, runOne.
  destruct (Up m) as [up|] eqn:Eup.
  2:{ exists 0, (mState w). simpl. split_and!; auto. done. }
  unfold mbind, M_bind, wrapErr, onState. destruct (up (mState w)) as [[[]|e] u1] eqn:Eu; simpl.
  2:{ exists 0, (mState w). simpl. split_and!; [done|done|done|]. right. exists m, up. by rewrite Eu. }
  set (w1 := MkMigWorld (mTable w) (mSys w) u1).
  pose proof (recordMigration_spec (Version m) (MName m) w1 Hnd (Hni m ltac:(left))) as Hr.
  destruct (recordMigration _ _ w1) as [[[]|e] w2]; simpl; destruct Hr as [Hs Hv].
  - destruct Hv as [[? _]|Hv]; [done|].
    specialize (IH w2). destruct (runAll ms w2) as [r w'].
    destruct IH as (k & u & Hk & Hu & Hok & Hst); [|done|..].
    + rewrite Hv. apply NoDup_cons. split; [apply Hni; left|done].
    + intros x Hx. rewrite Hv, elem_of_cons. intros [Heq|Hin]; [|by apply (Hni x); [right|]].
      apply Hm. rewrite <-Heq. by apply list_elem_of_fmap_2.
    + exists (S k), u. simpl. rewrite Eup, Eu. rewrite Hs in Hu. simpl in Hu. split_and!.
      * by rewrite Hk, Hv, Permutation_middle.
      * done.
      * intros Hr. destruct (Hok Hr) as [-> ?]. done.
      * done.
  - destruct Hv as [[_ Hv]|Hv].
    + exists 0, (mState w). simpl. split_and!; [by rewrite Hv|done|done|]. right. exists m, up.
      rewrite Eu, Hs. done.
    + exists 1, u1. simpl. rewrite Eup, Eu. split_and!; [by rewrite Hv|done|done|by left].
Qed.

Lemma pendingOf_ascending mm vs : ascending (migrations mm) → ascending (pendingOf mm vs).
Proof.
  intros Ha. apply sortVersions_ascending. apply ascending_nodup in Ha.
  eapply sublist_NoDup; [exact Ha|]. apply fmap_sublist, sublist_filter.
Qed.

Lemma elem_of_pendingOf mm vs m : m ∈ pendingOf mm vs ↔ m ∈ migrations mm ∧ Version m ∉ vs.
Proof. unfold pendingOf, sortVersions. rewrite merge_sort_Permutation, list_elem_of_filter. tauto. Qed.

(** A run: one of the first two statements fails, or the pending ones run. *)
Lemma RunMigrations_cases mm w :
  (∃ e s, RunMigrations mm w = (Err e, MkMigWorld (mTable w) s (mState w))) ∨
  (∃ s, RunMigrations mm w =
     runAll (pendingOf mm (versions w)) (MkMigWorld (mTable w) s (mState w))).
Proof.
  unfold RunMigrations, Initialize, getPendingMigrations, getAppliedVersions.
  unfold mbind, M_bind, wrapErr, onTable, faulty, select.
  destruct (net _); simpl; [|by left; eauto..].
  destruct (net _); simpl; [|by left; eauto..].
  right. eexists. f_equal. unfold pendingOf. f_equal. apply Prelude.filter_ext_in. intros m _.
  by rewrite merge_sort_Permutation.
Qed.

Lemma runAll_pending mm w s :
  ascending (migrations mm) → NoDup (versions w) →
  let pending := pendingOf mm (versions w) in
  let '(r, w') := runAll pending (MkMigWorld (mTable w) s (mState w)) in
  ∃ k u, versions w' ≡ₚ (Version <$> take k pending) ++ versions w ∧
    ups (take k pending) (mState w) = Some u ∧
    (r = Ok tt → k = length pending ∧ mState w' = u) ∧
    (mState w' = u ∨ ∃ m up, pending !! k = Some m ∧ Up m = Some up ∧ mState w' = (up u).2).
Proof.
  intros Ha Hnd pending.
  apply (runAll_spec pending (MkMigWorld (mTable w) s (mState w))); [done| |].
  - by apply ascending_nodup, pendingOf_ascending.
  - by intros m [_ ?]%elem_of_pendingOf.
Qed.

Lemma take_versions_nodup mm vs k :
  ascending (migrations mm) → NoDup vs →
  NoDup ((Version <$> take k (pendingOf mm vs)) ++ vs).
Proof.
  intros Ha Hnd. apply NoDup_app. split_and!; [| |done].
  - eapply sublist_NoDup; [exact (ascending_nodup _ (pendingOf_ascending mm vs Ha))|].
    apply fmap_sublist, sublist_take.
  - intros v (m & -> & Hm)%list_elem_of_fmap.
    apply elem_of_take in Hm as (i & Hi%list_elem_of_lookup_2 & _).
    by apply elem_of_pendingOf in Hi as [_ ?].
Qed.
End run.

(** ** Properties *)

(** C36: running the migrations. Whatever fails, exactly a first part of the pending
    migrations (the registered versions that are not recorded, ascending) is
    recorded in addition, their effects are in the database in that order, and at
    most the next one has run without being recorded. Success means that all are
    recorded, and a further run then changes nothing. Registering keeps the versions
    ascending and unique. *)
Theorem migrations_run {U T} `{SqlLaws T} (m0 : Migration U) (mm0 : MigrationManager U)
    (w : MigWorld U T) :
  ascending (migrations mm0) → NoDup (versions w) →
  let mm := Register m0 mm0 in
  let pending := pendingOf mm (versions w) in
  let '(r, w') := RunMigrations mm w in
  ascending (migrations mm) ∧ ascending pending ∧ NoDup (versions w') ∧
  (∃ k u, versions w' ≡ₚ (Version <$> take k pending) ++ versions w ∧
    ups (take k pending) (mState w) = Some u ∧
    (mState w' = u ∨ ∃ m up, pending !! k = Some m ∧ Up m = Some up ∧ mState w' = (up u).2)) ∧
  (r = Ok tt →
    versions w' ≡ₚ (Version <$> pending) ++ versions w ∧
    ups pending (mState w) = Some (mState w') ∧
    pendingOf mm (versions w') = [] ∧ mState (RunMigrations mm w').2 = mState w').
Proof.
  intros Ha0 Hnd mm pending. destruct (Register_spec m0 mm0 Ha0) as [Ha _]. fold mm in Ha.
  assert (∀ w1 : MigWorld U T, pendingOf mm (versions w1) = [] →
    mState (RunMigrations mm w1).2 = mState w1) as Hidle.
  { intros w1 Hp. destruct (RunMigrations_cases mm w1) as [(e & s & ->)|(s & ->)]; [done|].
    by rewrite Hp. }
  destruct (RunMigrations_cases mm w) as [(e & s & ->)|(s & ->)].
  - split_and!; [done|by apply pendingOf_ascending|done| |done].
    exists 0, (mState w). auto.
  - pose proof (runAll_pending mm w s Ha Hnd) as Hr. fold pending in Hr |- *. cbv zeta in Hr.
    destruct (runAll pending _) as [r w']. destruct Hr as (k & u & Hv & Hu & Hok & Hst).
    split_and!; [done|by apply pendingOf_ascending| |by exists k, u|].
    + rewrite Hv. by apply take_versions_nodup.
    + intros Hr. destruct (Hok Hr) as [-> Hs]. rewrite firstn_all in Hv, Hu.
      assert (pendingOf mm (versions w') = []) as Hnone.
      { apply elem_of_nil_inv. intros m [Hm Hnv]%elem_of_pendingOf. apply Hnv.
        rewrite Hv, elem_of_app. destruct (decide (Version m ∈ versions w)); [by right|left].
        apply list_elem_of_fmap_2, elem_of_pendingOf. done. }
      split_and!; [done|congruence|done|by apply Hidle].
Qed.

Definition toyMigration (v : Z) : Migration (list Z) :=
  MkMigration v "m" (Some (λ u, (Ok tt, u ++ [v]))).
Definition toyManager : MigrationManager (list Z) := MkManager [toyMigration 1; toyMigration 3].
Definition toyMigWorld : MigWorld (list Z) list :=
  MkMigWorld [MkMigrationRow 1 "m" "t"] (MkSys (λ _, CallEnv 0 [] NoFault) 0 ∅) [1%Z].

Lemma migrations_run_witness :
  let x := RunMigrations (Register (toyMigration 2) toyManager) toyMigWorld in
  mState x.2 = [1; 2; 3]%Z ∧ NoDup (versions x.2).
Proof.
  intros x. split; [vm_compute; reflexivity|].
  pose proof (migrations_run (toyMigration 2) toyManager toyMigWorld) as Hr. cbv zeta in Hr.
  fold x in Hr. destruct x as [r w']. apply Hr.
  - unfold ascending, toyManager. repeat constructor.
  - apply (bool_decide_unpack _). vm_compute. done.
Defined.
