(* ===== verification/Jwt.v ===== *)
(** * internal/auth/jwt.go: token pairs

    The golang-jwt library is an interface: [SignedString] and
    [ParseWithClaims] with an HMAC key, and what its documentation says of a token
    that was signed with the key. [ToyJWT] satisfies the laws. *)

From S2P Require Export OS.
From Stdlib Require Import Ascii.

Local Open Scope go_scope.

(** The fields that GenerateTokenPair sets; a date is in nanoseconds. *)
Record Claims := MkClaims {
  cUserID : string; cRole : string; cTokenType : string; cID : string;
  cExpiresAt : option Z; cIssuedAt : option Z; cNotBefore : option Z;
  cIssuer : string; cSubject : string
}.

#[export] Instance Claims_eq_dec : EqDecision Claims.
Proof. solve_decision. Defined.

(** [jwt.NewNumericDate] drops the fraction of a second. *)
Definition NewNumericDate (t : Z) : option Z := Some (t / Second * Second)%Z.

(** The dates of a token at a time: [exp] and [nbf] where they are given. *)
Definition datesValid (now : Z) (c : Claims) : bool :=
  match cExpiresAt c with Some t => (now <? t)%Z | None => true end &&
  match cNotBefore c with Some t => (t <=? now)%Z | None => true end.

Fixpoint asciiOnly (s : string) : bool :=
  match s with
  | EmptyString => true
  | String c s => (nat_of_ascii c <? 128) && asciiOnly s
  end.

(** Dates in whole seconds: what a token carries. *)
Definition wholeSeconds (d : option Z) : bool :=
  match d with Some t => (t `mod` Second =? 0)%Z | None => true end.

(** Claims that JSON carries unchanged. *)
Definition encodable (c : Claims) : bool :=
  forallb asciiOnly [cUserID c; cRole c; cTokenType c; cID c; cIssuer c; cSubject c] &&
  forallb wholeSeconds [cExpiresAt c; cIssuedAt c; cNotBefore c].

Class JWTLib := {
  SignedString : string → Claims → res string;
  (** with a key function that accepts only HMAC and returns the key *)
  ParseWithClaims : string → Z → string → res Claims
}.

Class JWTLaws `{JWTLib} := {
  parse_signed k c t now :
    SignedString k c = Ok t → encodable c = true → datesValid now c = true →
    ParseWithClaims k now t = Ok c;
  parse_invalid k c t now :
    SignedString k c = Ok t → encodable c = true → datesValid now c = false →
    ∃ e, ParseWithClaims k now t = Err e;
  signed_not_empty k c t : SignedString k c = Ok t → t ≠ ""
}.

Record JWTService := MkJWT {
  secret : string; tokenExpiry : Z; refreshExpiry : Z; refreshBlacklist : gmap string Z
}.

Record TokenPair := MkPair { AccessToken : string; RefreshToken_ : string; ExpiresIn : Z }.

Definition NewJWTService (secret : string) (tokenExpiry refreshExpiry : Z) : JWTService :=
  MkJWT secret tokenExpiry refreshExpiry ∅.

Definition setBlacklist b (j : JWTService) : JWTService :=
  MkJWT (secret j) (tokenExpiry j) (refreshExpiry j) b.

Section jwt.
Context `{JWTLib}.
Notation World := (JWTService * Sys)%type.

(** [time.Now()] *)
Definition clock : M World Z := λ '(j, s), (Ok (now (oracle s (tick s))), (j, skip 1 s)).

(** [rand.Read] can fail. *)
Definition generateJTI : M World string := λ '(j, s),
  let env := oracle s (tick s) in
  (match net env with
   | NoFault => Ok (EncodeToString (rnd env))
   | Lost e | ReplyLost e => Err e
   | ShortRead _ => Err errIO
   end, (j, skip 1 s)).

Definition tokenClaims (userID role tokenType jti : string) (expiry now : Z) : Claims :=
  MkClaims userID role tokenType jti (NewNumericDate expiry) (NewNumericDate now)
    (NewNumericDate now) "fsserver" userID.

Definition GenerateTokenPair (userID role : string) : M World TokenPair :=
  now ← clock;
  j ← gets fst;
  accessJTI ← wrapErr "failed to generate access token ID" generateJTI;
  accessStr ← lift (SignedString (secret j)
    (tokenClaims userID role "access" accessJTI (now + tokenExpiry j) now));
  refreshJTI ← wrapErr "failed to generate refresh token ID" generateJTI;
  refreshStr ← lift (SignedString (secret j)
    (tokenClaims userID role "refresh" refreshJTI (now + refreshExpiry j) now));
  mret (MkPair accessStr refreshStr (tokenExpiry j `quot` Second)).

Definition ValidateToken (tokenStr : string) : M World Claims :=
  now ← clock;
  j ← gets fst;
  claims ← lift (ParseWithClaims (secret j) now tokenStr);
  guard (negb (bool_decide (cTokenType claims = "refresh") && negb (bool_decide (cID claims = ""))
               && bool_decide (is_Some (refreshBlacklist j !! cID claims))))
    (ErrMsg "refresh token has been revoked") ⨟
  mret claims.

(** The entries whose time has passed go. *)
Definition cleanupBlacklist : M World unit :=
  now ← clock;
  modify (λ '(j, s), (setBlacklist (filter (λ kv, (now ≤ kv.2)%Z) (refreshBlacklist j)) j, s)).

(** RefreshToken up to the point where the token has passed every check, and from
    there on: another call can run in between. *)
Definition refreshCheck (refreshTokenStr : string) : M World Claims :=
  claims ← ValidateToken refreshTokenStr;
  guard (negb (negb (bool_decide (cTokenType claims = ""))
               && negb (bool_decide (cTokenType claims = "refresh"))))
    (ErrMsg "not a refresh token") ⨟
  mret claims.

Definition refreshUse (claims : Claims) : M World TokenPair :=
  (if negb (bool_decide (cID claims = "")) then
     now ← clock;
     modify (λ '(j, s),
       (setBlacklist (<[cID claims := (now + refreshExpiry j)%Z]> (refreshBlacklist j)) j, s)) ⨟
     cleanupBlacklist
   else mret tt) ⨟
  GenerateTokenPair (cUserID claims) (cRole claims).

Definition RefreshToken (refreshTokenStr : string) : M World TokenPair :=
  claims ← refreshCheck refreshTokenStr;
  refreshUse claims.

(** What happens to a service: its calls, in sequence. *)
Inductive jwtOp :=
| OpGenerate (userID role : string)
| OpValidate (token : string)
| OpRefresh (token : string).

Definition runOp (op : jwtOp) : M World unit :=
  match op with
  | OpGenerate u r => ignore (GenerateTokenPair u r)
  | OpValidate t => ignore (ValidateToken t)
  | OpRefresh t => ignore (RefreshToken t)
  end.

Definition runOps (ops : list jwtOp) (w : World) : World :=
  foldl (λ w op, (runOp op w).2) w ops.
End jwt.

(** ** A concrete library: the key and the claims, printed in binary *)

Module ToyJWT.
#[global] Instance claims_countable : Countable Claims.
Proof.
  refine (inj_countable'
    (λ c, ((cUserID c, cRole c, cTokenType c, cID c), (cExpiresAt c, cIssuedAt c, cNotBefore c),
           (cIssuer c, cSubject c)))
    (λ x, let '((a, b, c, d), (e, f, g), (h, i)) := x in MkClaims a b c d e f g h i) _).
  by intros [].
Defined.

Fixpoint bits (p : positive) : string :=
  match p with
  | xH => ""
  | xO p => String "0" (bits p)
  | xI p => String "1" (bits p)
  end.

Fixpoint ofBits (s : string) : positive :=
  match s with
  | EmptyString => xH
  | String c s => if bool_decide (c = "0"%char) then xO (ofBits s) else xI (ofBits s)
  end.

Lemma ofBits_bits p : ofBits (bits p) = p.
Proof. induction p as [p IH|p IH|]; simpl; [by rewrite IH..|done]. Qed.

Definition print (k : string) (c : Claims) : string := String "." (bits (encode (k, c))).

#[global] Instance toy : JWTLib := {|
  SignedString k c := Ok (print k c);
  ParseWithClaims k now t :=
    match decode (A := string * Claims) (ofBits (sdrop 1 t)) with
    | Some (k', c) =>
        if bool_decide (k' = k) && datesValid now c then Ok c
        else Err (ErrMsg "token is invalid")
    | None => Err (ErrMsg "token is malformed")
    end
|}.

#[global] Instance toy_laws : JWTLaws.
Proof.
  split; simpl; [intros k c t now [= <-] _ Hv..|by intros k c t [= <-]];
    unfold print; simpl; rewrite ofBits_bits, decode_encode;
    rewrite bool_decide_eq_true_2 by done; rewrite Hv; simpl; eauto.
Qed.
End ToyJWT.

(** ** How the state evolves *)

Lemma asciiOnly_app a b : asciiOnly (a +:+ b) = asciiOnly a && asciiOnly b.
Proof. induction a as [|c a IH]; [done|]. rewrite append_cons. simpl. by rewrite IH, andb_assoc. Qed.

Lemma asciiOnly_hex bs : asciiOnly (EncodeToString bs) = true.
Proof.
  induction bs as [|b bs IH]; [done|]. simpl. rewrite asciiOnly_app, IH, andb_true_r.
  by destruct b.
Qed.

Lemma wholeSeconds_date t : wholeSeconds (NewNumericDate t) = true.
Proof. simpl. by rewrite Z.mod_mul. Qed.

Lemma encodable_claims u r ty jti e t :
  asciiOnly u = true → asciiOnly r = true → asciiOnly ty = true → asciiOnly jti = true →
  encodable (tokenClaims u r ty jti e t) = true.
Proof.
  intros Hu Hr Hty Hj. unfold encodable. cbn -[asciiOnly wholeSeconds NewNumericDate].
  rewrite !wholeSeconds_date, Hu, Hr, Hty, Hj. done.
Qed.

(** Only the blacklist changes, and calls happen. *)
Definition jwtLater (w w' : JWTService * Sys) : Prop :=
  secret w'.1 = secret w.1 ∧ tokenExpiry w'.1 = tokenExpiry w.1 ∧
  refreshExpiry w'.1 = refreshExpiry w.1 ∧ oracle w'.2 = oracle w.2 ∧ tick w.2 ≤ tick w'.2.

#[export] Instance jwtLater_preorder : PreOrder jwtLater.
Proof.
  split.
  - intros w. by repeat split.
  - intros w1 w2 w3 (?&?&?&?&?) (?&?&?&?&?). repeat split; [congruence..|lia].
Qed.

Lemma jwtLater_clock w w' :
  jwtLater w w' → monotoneClock w.2 → monotoneClock w'.2 ∧ (timeOf w.2 ≤ timeOf w'.2)%Z.
Proof.
  intros (_ & _ & _ & Ho & Ht) Hm. unfold monotoneClock, timeOf. rewrite Ho. auto.
Qed.

Section jwt_specs.
Context `{JWTLaws}.
Notation World := (JWTService * Sys)%type.
Implicit Types w : World.

Lemma clock_later : steps jwtLater clock.
Proof. intros [j s]. repeat split. simpl. lia. Qed.
Lemma generateJTI_later : steps jwtLater generateJTI.
Proof. intros [j s]. repeat split. simpl. lia. Qed.
Lemma setBlacklist_later f : steps jwtLater (modify (λ '(j, s), (setBlacklist (f j) j, s))).
Proof. intros [j s]. by repeat split. Qed.
Hint Resolve clock_later generateJTI_later setBlacklist_later : steps.

Lemma generate_later u r : steps jwtLater (GenerateTokenPair u r).
Proof. unfold GenerateTokenPair. steps_auto. Qed.
Lemma validate_later t : steps jwtLater (ValidateToken t).
Proof. unfold ValidateToken. steps_auto. Qed.
Hint Resolve generate_later validate_later : steps.
Lemma refresh_later t : steps jwtLater (RefreshToken t).
Proof.
  unfold RefreshToken, refreshCheck, refreshUse, cleanupBlacklist. steps_auto.
Qed.
Hint Resolve refresh_later : steps.

Lemma runOp_later op : steps jwtLater (runOp op).
Proof. destruct op; apply steps_ignore; auto with steps. Qed.

Lemma runOps_later ops w : jwtLater w (runOps ops w).
Proof.
  revert w. induction ops as [|op ops IH]; intros w; [reflexivity|]. simpl.
  etrans; [apply runOp_later|apply IH].
Qed.

(** The two tokens of a pair. *)
Lemma generate_ok u r w p w' :
  GenerateTokenPair u r w = (Ok p, w') →
  let t := timeOf w.2 in
  refreshBlacklist w'.1 = refreshBlacklist w.1 ∧
  ∃ a b,
    SignedString (secret w.1)
      (tokenClaims u r "access" (EncodeToString a) (t + tokenExpiry w.1) t) = Ok (AccessToken p) ∧
    SignedString (secret w.1)
      (tokenClaims u r "refresh" (EncodeToString b) (t + refreshExpiry w.1) t) = Ok (RefreshToken_ p) ∧
    b = rnd (oracle w.2 (tick w.2 + 2)).
Proof.
  destruct w as [j s]. unfold GenerateTokenPair. intros E. run_ok E. simplify_eq/=.
  repeat match goal with Hn : match net ?x with _ => _ end = Ok _ |- _ =>
    destruct (net x); simplify_eq end.
  split; [done|]. eexists _, _. split_and!; [eassumption| |done].
  replace (tick s + 2) with (tick s + 1 + 1) by lia. done.
Qed.

Definition revoked (j : JWTService) (c : Claims) : bool :=
  bool_decide (cTokenType c = "refresh") && negb (bool_decide (cID c = ""))
  && bool_decide (is_Some (refreshBlacklist j !! cID c)).

(** A signed token is valid within its dates, until it is revoked. *)
Lemma validate_signed c t w :
  SignedString (secret w.1) c = Ok t → encodable c = true →
  (ValidateToken t w).2 = (w.1, skip 1 w.2) ∧
  if datesValid (timeOf w.2) c && negb (revoked w.1 c)
  then (ValidateToken t w).1 = Ok c else ∃ e, (ValidateToken t w).1 = Err e.
Proof.
  destruct w as [j s]. simpl. intros Hs He.
  unfold ValidateToken, mbind, M_bind, clock, gets, lift. simpl. unfold timeOf.
  destruct (datesValid _ c) eqn:Hd; simpl.
  - rewrite (parse_signed _ _ _ _ Hs He Hd). unfold guard. fold (revoked j c).
    destruct (revoked j c); simpl; eauto.
  - destruct (parse_invalid _ _ _ _ Hs He Hd) as [e ->]. eauto.
Qed.

(** ** One-time use *)

(** The claims [c] can no longer pass: too late, or blacklisted for as long as they
    could. *)
Definition spent (c : Claims) (exp : Z) (w : World) : Prop :=
  monotoneClock w.2 ∧ (exp ≤ timeOf w.2 + refreshExpiry w.1)%Z ∧
  ((exp ≤ timeOf w.2)%Z ∨ ∃ e, refreshBlacklist w.1 !! cID c = Some e ∧ (exp ≤ e)%Z).

(** Time passes and the blacklist stays. *)
Lemma spent_later c exp w w' :
  spent c exp w → jwtLater w w' → refreshBlacklist w'.1 = refreshBlacklist w.1 → spent c exp w'.
Proof.
  intros (Hm & He & Hs) Hl Hb. destruct (jwtLater_clock _ _ Hl Hm) as [Hm' Ht].
  destruct Hl as (_ & _ & Hr & _). split_and!; [done|lia|].
  destruct Hs as [?|?]; [left; lia|right; by rewrite Hb].
Qed.

Lemma cleanup_spent c exp w : spent c exp w → spent c exp (cleanupBlacklist w).2.
Proof.
  destruct w as [j s]. intros (Hm & He & Hs).
  assert (timeOf s ≤ timeOf (skip 1 s))%Z as Ht by (apply Hm; simpl; lia).
  split_and!; [exact Hm|simpl in *; lia|]. simpl in *.
  destruct Hs as [?|(e & Hl & Hx)]; [left; lia|].
  destruct (decide (now (oracle s (tick s)) ≤ e)%Z) as [Hk|Hk].
  - right. exists e. split; [|done]. by apply map_lookup_filter_Some.
  - left. unfold timeOf in *. lia.
Qed.

(** A refresh blacklists the identifier it was used with for long enough. *)
Lemma blacklist_spent c exp id w (Hm : monotoneClock w.2) :
  (exp ≤ timeOf w.2 + refreshExpiry w.1)%Z → cID c = id ∨ spent c exp w →
  spent c exp ((now ← clock;
     modify (λ '(j, s), (setBlacklist (<[id := (now + refreshExpiry j)%Z]> (refreshBlacklist j)) j, s)) ⨟
     cleanupBlacklist) w).2.
Proof.
  destruct w as [j s]. cbn [fst snd] in *. intros He Hc.
  apply (cleanup_spent c exp (setBlacklist
    (<[id := (timeOf s + refreshExpiry j)%Z]> (refreshBlacklist j)) j, skip 1 s)).
  assert (timeOf s ≤ timeOf (skip 1 s))%Z as Ht by (apply Hm; simpl; lia).
  split_and!; cbn [fst snd refreshBlacklist setBlacklist refreshExpiry]; [exact Hm|lia|].
  destruct (decide (cID c = id)) as [<-|Hne].
  - right. eexists. split; [apply lookup_insert_eq|done].
  - destruct Hc as [?|(_ & _ & [?|?])]; cbn [fst snd] in *; [done|left; lia|].
    right. by rewrite lookup_insert_ne.
Qed.

Lemma generate_blacklist u r w :
  refreshBlacklist (GenerateTokenPair u r w).2.1 = refreshBlacklist w.1.
Proof.
  assert (steps (λ w w' : World, refreshBlacklist w'.1 = refreshBlacklist w.1) (GenerateTokenPair u r))
    as Hs; [|apply Hs].
  assert (PreOrder (λ w w' : World, refreshBlacklist w'.1 = refreshBlacklist w.1)) as Hp
    by (split; [done|intros ? ? ? ? ?; by etrans]).
  assert (steps (λ w w' : World, refreshBlacklist w'.1 = refreshBlacklist w.1) clock) by (by intros []).
  assert (steps (λ w w' : World, refreshBlacklist w'.1 = refreshBlacklist w.1) generateJTI)
    by (by intros []).
  unfold GenerateTokenPair. steps_auto; done.
Qed.

Lemma validate_state t w : (ValidateToken t w).2 = (w.1, skip 1 w.2).
Proof.
  destruct w as [j s]. unfold ValidateToken, mbind, M_bind, clock, gets, lift. simpl.
  destruct (ParseWithClaims _ _ _); [|done]. unfold guard. by destruct (negb _).
Qed.

Lemma refreshCheck_state t w : (refreshCheck t w).2 = (w.1, skip 1 w.2).
Proof.
  pose proof (validate_state t w) as Hv. unfold refreshCheck, mbind, M_bind.
  destruct (ValidateToken t w) as [[c|e] w']; simpl in *; [|done]. unfold guard.
  by destruct (negb _).
Qed.

Lemma refreshUse_spent c exp c' w :
  monotoneClock w.2 → (exp ≤ timeOf w.2 + refreshExpiry w.1)%Z →
  (cID c' ≠ "" ∧ cID c = cID c') ∨ spent c exp w → spent c exp (refreshUse c' w).2.
Proof.
  intros Hm He Hs. unfold refreshUse.
  match goal with |- context [mbind (M := M World) ?f ?m] => set (first := m); set (rest := f) end.
  assert (spent c exp (first w).2 ∧ (first w).1 = Ok tt) as [Hf Ho].
  { subst first. case_bool_decide as Hid; simpl.
    - destruct Hs as [[? _]|Hs]; [done|]. done.
    - split; [|by destruct w]. apply blacklist_spent; [done|done|]. naive_solver. }
  unfold mbind, M_bind. destruct (first w) as [r w1]. simpl in *. subst r rest. simpl.
  eapply spent_later; [done|apply generate_later|apply generate_blacklist].
Qed.

Lemma skip_spent c exp w : spent c exp w → spent c exp (w.1, skip 1 w.2).
Proof. destruct w. intros. eapply spent_later; [done|apply (clock_later (_, _))|done]. Qed.

Lemma runOp_spent c exp op w : spent c exp w → spent c exp (runOp op w).2.
Proof.
  intros Hs. destruct op as [u r|t|t]; simpl; unfold ignore.
  - pose proof (generate_later u r w) as Hl. pose proof (generate_blacklist u r w) as Hb.
    destruct (GenerateTokenPair u r w). by eapply spent_later.
  - pose proof (validate_state t w) as Hv. destruct (ValidateToken t w). simpl in *. subst.
    by apply skip_spent.
  - pose proof (refreshCheck_state t w) as Hv. unfold RefreshToken, mbind, M_bind.
    destruct (refreshCheck t w) as [[c'|e] w1]; simpl in *; subst; [|by apply skip_spent].
    apply skip_spent in Hs.
    assert (spent c exp (refreshUse c' (w.1, skip 1 w.2)).2) as Hu
      by (pose proof Hs as (? & ? & ?); apply refreshUse_spent; [done|done|by right]).
    by destruct (refreshUse c' _).
Qed.

Lemma runOps_spent c exp ops w : spent c exp w → spent c exp (runOps ops w).
Proof.
  revert w. induction ops as [|op ops IH]; intros w Hs; [done|]. apply IH. by apply runOp_spent.
Qed.

(** A spent refresh token is refused. *)
Lemma spent_refused c exp t w :
  SignedString (secret w.1) c = Ok t → encodable c = true → cTokenType c = "refresh" →
  cID c ≠ "" → cExpiresAt c = Some exp → spent c exp w → ∃ e, (ValidateToken t w).1 = Err e.
Proof.
  intros Hsig He Hty Hid Hexp (_ & _ & Hs). destruct (validate_signed c t w Hsig He) as [_ Hv].
  destruct (datesValid (timeOf w.2) c) eqn:Hd; simpl in Hv; [|done].
  destruct (revoked w.1 c) eqn:Hrv; simpl in Hv; [done|exfalso].
  unfold datesValid in Hd. rewrite Hexp in Hd. bool_prop.
  destruct Hs as [?|(e & Hl & _)]; [lia|]. unfold revoked in Hrv.
  rewrite Hty, Hl in Hrv. rewrite (bool_decide_eq_false_2 _ Hid) in Hrv. done.
Qed.

Lemma refresh_refused t w : (∃ e, (ValidateToken t w).1 = Err e) → ∃ e, (RefreshToken t w).1 = Err e.
Proof.
  intros [e He]. unfold RefreshToken, refreshCheck, mbind, M_bind.
  destruct (ValidateToken t w) as [r w']. simpl in He. subst r. eauto.
Qed.

(** Two refreshes that interleave: both pass the check before either has entered
    the token in the blacklist, and both get a new pair. *)
Lemma refresh_race c t w :
  SignedString (secret w.1) c = Ok t → encodable c = true → cTokenType c = "refresh" →
  refreshBlacklist w.1 !! cID c = None →
  datesValid (timeOf w.2) c = true → datesValid (timeOf (skip 1 w.2)) c = true →
  (c1 ← refreshCheck t; c2 ← refreshCheck t; refreshUse c1 ⨟ refreshUse c2) w =
  (refreshUse c ⨟ refreshUse c) (w.1, skip 2 w.2).
Proof.
  intros Hsig He Hty Hb Hd1 Hd2.
  assert (∀ w', w'.1 = w.1 → datesValid (timeOf w'.2) c = true →
    refreshCheck t w' = (Ok c, (w'.1, skip 1 w'.2))) as Hc.
  { intros w' Hj Hd. destruct (validate_signed c t w') as [Hs2 Hs1]; [by rewrite Hj|done|].
    assert (revoked w'.1 c = false) as Hr
      by (unfold revoked; rewrite Hj, Hb; apply andb_false_r).
    rewrite Hd, Hr in Hs1. simpl in Hs1. unfold refreshCheck, mbind, M_bind.
    rewrite (outcome _ _ Hs1), Hs2, Hty. done. }
  unfold mbind at 1, M_bind at 1. rewrite (Hc w eq_refl Hd1).
  unfold mbind at 1, M_bind at 1. rewrite (Hc (w.1, skip 1 w.2) eq_refl Hd2).
  cbn [fst snd]. by replace (skip 1 (skip 1 w.2)) with (skip 2 w.2)
    by (unfold skip; simpl; f_equal; lia).
Qed.
End jwt_specs.

(** ** Properties *)

(** The tokens of a pair. At every later time the access token is accepted, with
    the user and the role it was issued for, exactly until its expiry (in whole
    seconds). It can never be used to refresh, and the refresh token is never
    accepted as an access token. *)
Lemma token_pair_sound `{JWTLaws} (u r : string) (w w1 w2 : JWTService * Sys) (p : TokenPair) :
  monotoneClock w.2 → asciiOnly u = true → asciiOnly r = true →
  GenerateTokenPair u r w = (Ok p, w1) → jwtLater w1 w2 →
  let expiry := ((timeOf w.2 + tokenExpiry w.1) / Second * Second)%Z in
  (if (timeOf w2.2 <? expiry)%Z
   then ∃ c, (ValidateToken (AccessToken p) w2).1 = Ok c ∧
          cUserID c = u ∧ cRole c = r ∧ cTokenType c = "access"
   else ∃ e, (ValidateToken (AccessToken p) w2).1 = Err e) ∧
  (∃ e, (RefreshToken (AccessToken p) w2).1 = Err e) ∧
  (∀ c, (ValidateToken (RefreshToken_ p) w2).1 = Ok c →
     cTokenType c = "refresh" ∧ cUserID c = u ∧ cRole c = r).
Proof.
  intros Hm Hu Hr HG Hl expiry.
  assert (jwtLater w w2) as Hl2.
  { etrans; [|done]. pose proof (generate_later u r w) as Hx. by rewrite HG in Hx. }
  destruct (jwtLater_clock _ _ Hl2 Hm) as [_ Ht].
  destruct (generate_ok _ _ _ _ _ HG) as (_ & a & b & Ha & Hb & _).
  destruct Hl2 as (Hsec & _). rewrite <-Hsec in Ha, Hb.
  set (ca := tokenClaims u r "access" _ _ _) in Ha. set (cb := tokenClaims u r "refresh" _ _ _) in Hb.
  assert (encodable ca = true) as Hea by (apply encodable_claims; auto using asciiOnly_hex).
  assert (encodable cb = true) as Heb by (apply encodable_claims; auto using asciiOnly_hex).
  destruct (validate_signed _ _ _ Ha Hea) as [Hs Hva].
  assert (datesValid (timeOf w2.2) ca = (timeOf w2.2 <? expiry)%Z) as Hd.
  { unfold datesValid, ca, expiry. simpl.
    rewrite (proj2 (Z.leb_le (timeOf w.2 / Second * Second) (timeOf w2.2)));
      [by rewrite andb_true_r|].
    pose proof (Z.mul_div_le (timeOf w.2) Second). unfold Second, Millisecond in *. lia. }
  rewrite Hd, andb_true_r in Hva.
  split_and!.
  - destruct (_ <? _)%Z; [|done]. exists ca. done.
  - destruct (_ <? _)%Z.
    + unfold RefreshToken, refreshCheck, mbind, M_bind.
      rewrite (outcome _ _ Hva). simpl. eauto.
    + by apply refresh_refused.
  - intros c Hc. destruct (validate_signed _ _ _ Hb Heb) as [_ Hvb].
    destruct (datesValid _ cb && _).
    + rewrite Hvb in Hc. by injection Hc as <-.
    + destruct Hvb as [e Hvb]. congruence.
Qed.

Definition toyJWT : JWTService * Sys :=
  (NewJWTService "k" (2 * Second) (5 * Second),
   MkSys (λ n, CallEnv (Z.of_nat n * 1000 * Millisecond) [Byte.x01] NoFault) 0 ∅).

Lemma toyJWT_clock : monotoneClock toyJWT.2.
Proof. intros n m Hnm. simpl. unfold Millisecond. lia. Qed.

(** C23: a refresh token works once. Whatever calls come between and after, once a
    refresh token has been exchanged for a new pair it is refused for ever, as a
    refresh token and otherwise: its blacklist entry lasts as long as the token
    could. *)
Theorem refresh_once `{JWTLaws} (u r : string) (ops1 ops2 : list jwtOp)
    (w w1 w3 : JWTService * Sys) (p p2 : TokenPair) :
  monotoneClock w.2 → asciiOnly u = true → asciiOnly r = true →
  (∀ n, rnd (oracle w.2 n) ≠ []) →
  GenerateTokenPair u r w = (Ok p, w1) →
  RefreshToken (RefreshToken_ p) (runOps ops1 w1) = (Ok p2, w3) →
  let w4 := runOps ops2 w3 in
  (∃ e, (ValidateToken (RefreshToken_ p) w4).1 = Err e) ∧
  (∃ e, (RefreshToken (RefreshToken_ p) w4).1 = Err e).
Proof.
  intros Hm Hu Hr Hrnd HG HR w4. set (w2 := runOps ops1 w1) in *.
  assert (∃ e, (ValidateToken (RefreshToken_ p) w4).1 = Err e) as Hv; [|split; [done|by apply refresh_refused]].
  assert (jwtLater w w2) as Hl.
  { etrans; [|apply runOps_later]. pose proof (generate_later u r w) as Hx. by rewrite HG in Hx. }
  assert (jwtLater w2 w4) as Hl4.
  { etrans; [|apply runOps_later]. pose proof (refresh_later (RefreshToken_ p) w2) as Hx.
    by rewrite HR in Hx. }
  destruct (jwtLater_clock _ _ Hl Hm) as [Hm2 Ht2].
  destruct (generate_ok _ _ _ _ _ HG) as (_ & a & b & _ & Hb & Hbr).
  set (c := tokenClaims u r "refresh" _ _ _) in Hb.
  set (exp := ((timeOf w.2 + refreshExpiry w.1) / Second * Second)%Z).
  assert (encodable c = true) as He by (apply encodable_claims; auto using asciiOnly_hex).
  assert (cID c ≠ "") as Hid.
  { simpl. specialize (Hrnd (tick w.2 + 2)). rewrite <-Hbr in Hrnd. by destruct b. }
  destruct Hl as (Hsec & _ & Hre & _).
  apply (spent_refused c exp); [|done..|].
  { destruct Hl4 as (Hs4 & _). by rewrite Hs4, Hsec. }
  apply runOps_spent. unfold RefreshToken, mbind, M_bind in HR.
  pose proof (refreshCheck_state (RefreshToken_ p) w2) as Hst.
  destruct (refreshCheck (RefreshToken_ p) w2) as [[c'|e] w5] eqn:E; [|done].
  simpl in Hst. subst w5.
  assert (c' = c) as ->.
  { unfold refreshCheck in E. run_ok E. subst. 
    destruct (validate_signed c (RefreshToken_ p) w2) as [_ Hx]; [by rewrite Hsec|done|].
    destruct (_ && _) in Hx; rewrite Hr0 in Hx; [by injection Hx|by destruct Hx]. }
  assert (spent c exp (refreshUse c (w2.1, skip 1 w2.2)).2) as Hsp; [|by rewrite HR in Hsp].
  assert (exp ≤ timeOf w.2 + refreshExpiry w.1)%Z as Hexp.
  { unfold exp. pose proof (Z.mul_div_le (timeOf w.2 + refreshExpiry w.1) Second).
    unfold Second, Millisecond in *. lia. }
  apply refreshUse_spent; [exact Hm2| |by left].
  assert (timeOf w2.2 ≤ timeOf (skip 1 w2.2))%Z by (apply Hm2; simpl; lia). simpl. lia.
Qed.

Lemma refresh_once_witness :
  let p := MkPair (ToyJWT.print "k" (tokenClaims "u" "user" "access" "01" (2 * Second) 0))
                  (ToyJWT.print "k" (tokenClaims "u" "user" "refresh" "01" (5 * Second) 0)) 2 in
  let w1 := (GenerateTokenPair "u" "user" toyJWT).2 in
  let w3 := (RefreshToken (RefreshToken_ p) w1).2 in
  is_ok (RefreshToken (RefreshToken_ p) w1).1 = true ∧
  ∃ e, (RefreshToken (RefreshToken_ p) (runOps [OpValidate "x"] w3)).1 = Err e.
Proof.
  intros p w1 w3. split; [vm_compute; reflexivity|].
  eapply (refresh_once "u" "user" [] [OpValidate "x"] toyJWT w1 w3 p
    (MkPair (ToyJWT.print "k" (tokenClaims "u" "user" "access" "01" (8 * Second) (6 * Second)))
       (ToyJWT.print "k" (tokenClaims "u" "user" "refresh" "01" (11 * Second) (6 * Second))) 2));
    [apply toyJWT_clock|reflexivity|reflexivity|done|vm_compute; reflexivity|vm_compute; reflexivity].
Defined.
