(* ===== verification/Auth.v ===== *)
(** * internal/auth/auth.go: credentials, roles and the failure counter

    The service holds users in memory, a default key, the failures per client and
    an optional JWT service; keys created through the API are found in the
    database, through the lookup that cmd/fsserver registers. *)

From S2P Require Export Jwt Metadata Crypto Timestamp.
From Stdlib Require Import Ascii.

Local Open Scope go_scope.

Record User := MkUser {
  usID : string; usApiKeyHash : string; usName : string; usRole : string; usEnabled : bool
}.

Record AuthFailureRecord := MkFailure {
  frClientIP : string; frFailureCount : Z; frLastFailure : Z
}.

Record AuthService := MkAuth {
  users : gmap string User;
  authEnabled : bool;
  defaultApiKeyHash : string;
  authFailures : gmap string AuthFailureRecord;
  maxAuthFailures : Z;
  rateLimitSeconds : Z;
  jwtService : option JWTService;
  (** whether the database lookup is registered *)
  apiKeyLookupFn : bool
}.

Definition NewAuthService : AuthService := MkAuth ∅ false "" ∅ 10 300 None false.

Definition SetApiKeyLookup (a : AuthService) : AuthService :=
  MkAuth (users a) (authEnabled a) (defaultApiKeyHash a) (authFailures a) (maxAuthFailures a)
    (rateLimitSeconds a) (jwtService a) true.

Definition setUsers u (a : AuthService) : AuthService :=
  MkAuth u (authEnabled a) (defaultApiKeyHash a) (authFailures a) (maxAuthFailures a)
    (rateLimitSeconds a) (jwtService a) (apiKeyLookupFn a).
Definition setFailures f (a : AuthService) : AuthService :=
  MkAuth (users a) (authEnabled a) (defaultApiKeyHash a) f (maxAuthFailures a)
    (rateLimitSeconds a) (jwtService a) (apiKeyLookupFn a).
Definition setJWT j (a : AuthService) : AuthService :=
  MkAuth (users a) (authEnabled a) (defaultApiKeyHash a) (authFailures a) (maxAuthFailures a)
    (rateLimitSeconds a) j (apiKeyLookupFn a).

(** A key of the database is an administrator's when one of the comma-separated
    permissions is admin. *)
Definition roleOf (permissions : string) : string :=
  if bool_decide (permissions = "admin") then "admin"
  else if bool_decide (permissions = "") then "user"
  else if existsb (λ p, bool_decide (TrimSpace p = "admin")) (Split permissions ","%char)
  then "admin" else "user".

(** The check of HasPermission on a role. *)
Definition roleAllows (role resource action : string) : bool :=
  if bool_decide (role = "admin") then true
  else if bool_decide (role = "user") && bool_decide (resource = "files")
  then bool_decide (action = "read") || bool_decide (action = "write")
  else false.

(** [time.Since(t).Seconds() > float64(n)]: for a whole number of seconds the
    comparison of floats is the one of nanoseconds. *)
Definition longAgo (now t seconds : Z) : bool := (seconds * Second <? now - t)%Z.

Section auth.
Context {T : Type → Type} `{SqlEngine T} `{JWTLib}.
Context (sha256 : bytes → bytes) (uuid : nat → string).
(** The order in which Go ranges over the map of users: any. *)
Context (range : gmap string User → list (string * User)).

Record AuthWorld := MkAuthWorld { aSys : Sys; aDB : DB T; aAuth : AuthService }.

Definition onAuth (f : AuthService → AuthService) : M AuthWorld unit :=
  modify (λ w, MkAuthWorld (aSys w) (aDB w) (f (aAuth w))).

Definition timeNow : M AuthWorld Z := λ w,
  (Ok (now (oracle (aSys w) (tick (aSys w)))), MkAuthWorld (skip 1 (aSys w)) (aDB w) (aAuth w)).

Definition onKeysDB {A} (m : M (DB T * Sys) A) : M AuthWorld A := λ w,
  let '(r, (d, s)) := m (aDB w, aSys w) in (r, MkAuthWorld s d (aAuth w)).

(** A call of the JWT service, when there is one. *)
Definition onJWT {A} (m : M (JWTService * Sys) A) : M AuthWorld (option A) := λ w,
  match jwtService (aAuth w) with
  | None => (Ok None, w)
  | Some j =>
      let '(r, (j', s)) := m (j, aSys w) in
      (match r with Ok a => Ok (Some a) | Err e => Err e end,
       MkAuthWorld s (aDB w) (setJWT (Some j') (aAuth w)))
  end.

Definition hashApiKey (key : string) : string := EncodeToString (sha256 (stringBytes key)).

Definition Init (enabled : bool) (apiKey : string) (a : AuthService) : AuthService :=
  if enabled && negb (bool_decide (apiKey = "")) then
    MkAuth (users a) enabled (hashApiKey apiKey) (authFailures a) (maxAuthFailures a)
      (rateLimitSeconds a)
      (Some (NewJWTService (hashApiKey apiKey) (24 * 3600 * Second) (168 * 3600 * Second)))
      (apiKeyLookupFn a)
  else MkAuth (users a) enabled (defaultApiKeyHash a) (authFailures a) (maxAuthFailures a)
      (rateLimitSeconds a) (jwtService a) (apiKeyLookupFn a).

(** The claims of a credential that is a valid access token. *)
Definition accessClaims (token : string) : M AuthWorld (option Claims) :=
  r ← catch (onJWT (ValidateToken token));
  mret (match r with
        | Ok (Some claims) =>
            if bool_decide (cTokenType claims = "") || bool_decide (cTokenType claims = "access")
            then Some claims else None
        | _ => None
        end).

Definition claimsUser (c : Claims) : User := MkUser (cUserID c) "" (cUserID c) (cRole c) true.

(** The key in the database, if it is active; a failing lookup finds none. *)
Definition lookupKey (hashedKey : string) : M AuthWorld (option ApiKey) :=
  a ← gets aAuth;
  if apiKeyLookupFn a then
    t ← timeNow;
    r ← catch (onKeysDB (KeyGetByKeyHash (FormatTimestamp t) hashedKey));
    mret (match r with
          | Ok (Some key) => if kIsActive key then Some key else None
          | _ => None
          end)
  else mret None.

(** The enabled user with this key hash, in the order of the range. *)
Definition findUser (a : AuthService) (hashedKey : string) : option User :=
  snd <$> head (filter (λ kv, usEnabled kv.2 && bool_decide (usApiKeyHash kv.2 = hashedKey) = true)
                  (range (users a))).

Definition defaultMatches (a : AuthService) (hashedKey : string) : bool :=
  negb (bool_decide (defaultApiKeyHash a = "")) && bool_decide (hashedKey = defaultApiKeyHash a).

Definition ValidateApiKey (apiKey : string) : M AuthWorld bool :=
  a ← gets aAuth;
  if negb (authEnabled a) then mret true
  else if bool_decide (apiKey = "") then mret false
  else
    let hashedKey := hashApiKey apiKey in
    if defaultMatches a hashedKey then mret true
    else match findUser a hashedKey with
         | Some _ => mret true
         | None => key ← lookupKey hashedKey; mret (bool_decide (is_Some key))
         end.

Definition GetUserByApiKey (apiKey : string) : M AuthWorld (option User) :=
  a ← gets aAuth;
  if negb (authEnabled a) then mret None
  else if bool_decide (apiKey = "") then mret None
  else
    claims ← accessClaims apiKey;
    match claims with
    | Some c => mret (Some (claimsUser c))
    | None =>
        let hashedKey := hashApiKey apiKey in
        a ← gets aAuth;
        if defaultMatches a hashedKey then mret (Some (MkUser "default" "" "Default Admin" "admin" true))
        else match findUser a hashedKey with
             | Some u => mret (Some u)
             | None =>
                 key ← lookupKey hashedKey;
                 mret ((λ k, MkUser (kID k) "" (kName k) (roleOf (kPermissions k)) true) <$> key)
             end
    end.

Definition HasPermission (apiKey resource action : string) : M AuthWorld bool :=
  a ← gets aAuth;
  if negb (authEnabled a) then mret true
  else
    user ← GetUserByApiKey apiKey;
    match user with
    | Some u => if usEnabled u then mret (roleAllows (usRole u) resource action) else mret false
    | None => mret false
    end.

Definition GenerateApiKey (userId : string) : M AuthWorld string := λ w,
  (Ok (EncodeToString (sha256 (stringBytes (userId +:+ uuid (tick (aSys w)))))),
   MkAuthWorld (skip 1 (aSys w)) (aDB w) (aAuth w)).

(** ** The users *)

Definition CreateUser (u : User) : M AuthWorld unit :=
  guard (negb (bool_decide (usID u = ""))) (ErrMsg "user ID cannot be empty") ⨟
  a ← gets aAuth;
  guard (bool_decide (users a !! usID u = None)) (ErrMsg "user already exists") ⨟
  onAuth (setUsers (<[usID u := u]> (users a))).

Definition UpdateUser (u : User) : M AuthWorld unit :=
  guard (negb (bool_decide (usID u = ""))) (ErrMsg "user ID cannot be empty") ⨟
  a ← gets aAuth;
  guard (bool_decide (is_Some (users a !! usID u))) (ErrMsg "user not found") ⨟
  onAuth (setUsers (<[usID u := u]> (users a))).

Definition DeleteUser (userId : string) : M AuthWorld unit :=
  a ← gets aAuth;
  guard (bool_decide (is_Some (users a !! userId))) (ErrMsg "user not found") ⨟
  onAuth (setUsers (delete userId (users a))).

Definition GetUserById (userId : string) : M AuthWorld User :=
  a ← gets aAuth;
  match users a !! userId with
  | Some u => mret u
  | None => throw (ErrMsg "user not found")
  end.

(** ** The failure counter *)

Definition IsRateLimited (clientIP : string) : M AuthWorld bool :=
  a ← gets aAuth;
  match authFailures a !! clientIP with
  | None => mret false
  | Some record =>
      t ← timeNow;
      if longAgo t (frLastFailure record) (rateLimitSeconds a) then mret false
      else mret (maxAuthFailures a <=? frFailureCount record)%Z
  end.

(** More than 10000 clients: the old records go first. *)
Definition purgeFailures : M AuthWorld unit :=
  a ← gets aAuth;
  if (10000 <? size (authFailures a))%nat then
    t ← timeNow;
    onAuth (λ a, setFailures
      (filter (λ kv, longAgo t (frLastFailure kv.2) (rateLimitSeconds a) = false) (authFailures a)) a)
  else mret tt.

(** One more failure: from 1 again when the last was long ago. *)
Definition noteFailure (clientIP : string) : M AuthWorld unit :=
  a ← gets aAuth;
  match authFailures a !! clientIP with
  | None =>
      t ← timeNow;
      onAuth (λ a, setFailures (<[clientIP := MkFailure clientIP 1 t]> (authFailures a)) a)
  | Some record =>
      t ← timeNow;
      let count := if longAgo t (frLastFailure record) (rateLimitSeconds a) then 1%Z
                   else wrap64 (frFailureCount record + 1) in
      t' ← timeNow;
      onAuth (λ a, setFailures
        (<[clientIP := MkFailure (frClientIP record) count t']> (authFailures a)) a)
  end.

Definition RecordAuthFailure (clientIP : string) : M AuthWorld unit :=
  let clientIP := TrimSpace clientIP in
  purgeFailures ⨟ noteFailure clientIP.

Definition ClearAuthFailure (clientIP : string) : M AuthWorld unit :=
  onAuth (λ a, setFailures (delete clientIP (authFailures a)) a).

End auth.
Arguments AuthWorld T : clear implicits.
Arguments MkAuthWorld {T} aSys aDB aAuth.

(** ** Who a credential stands for *)

Section auth_specs.
Context {T : Type → Type} `{SqlEngine T} `{JWTLib}.
Context (sha256 : bytes → bytes) (range : gmap string User → list (string * User)).
Hypothesis range_perm : ∀ m, range m ≡ₚ map_to_list m.
Notation World := (AuthWorld T).
Implicit Types w : World.

Definition defaultAdmin : User := MkUser "default" "" "Default Admin" "admin" true.

(** The specification: a token the JWT library accepts as an access token, the
    configured key, the key of an enabled user, or a key of the database that is
    active and not expired when it is looked up. *)
Inductive authentic w (k : string) : User → Prop :=
| by_token j c n :
    jwtService (aAuth w) = Some j → tick (aSys w) ≤ n →
    ParseWithClaims (secret j) (now (oracle (aSys w) n)) k = Ok c →
    cTokenType c = "" ∨ cTokenType c = "access" → authentic w k (claimsUser c)
| by_default :
    defaultApiKeyHash (aAuth w) ≠ "" → hashApiKey sha256 k = defaultApiKeyHash (aAuth w) →
    authentic w k defaultAdmin
| by_user id u :
    users (aAuth w) !! id = Some u → usEnabled u = true →
    usApiKeyHash u = hashApiKey sha256 k → authentic w k u
| by_key r n :
    apiKeyLookupFn (aAuth w) = true → tick (aSys w) ≤ n → r ∈ rows (api_keys (aDB w)) →
    rKeyHash r = hashApiKey sha256 k → rIsActive r = true →
    IsExpired (FormatTimestamp (now (oracle (aSys w) n))) (scanApiKey r) = false →
    authentic w k (MkUser (rID r) "" (rName r) (roleOf (rPermissions r)) true).

Lemma authentic_enabled w k u : authentic w k u → usEnabled u = true.
Proof. by destruct 1. Qed.

(** Everything but the failures is the same, and later. *)
Definition sameKeys w w' : Prop :=
  (∃ f, aAuth w' = setFailures f (aAuth w)) ∧ aDB w' = aDB w ∧
  (oracle (aSys w') = oracle (aSys w) ∧ os (aSys w') = os (aSys w)) ∧ tick (aSys w) ≤ tick (aSys w').

#[export] Instance sameKeys_preorder : PreOrder sameKeys.
Proof.
  split.
  - intros w. split_and!; [|done..]. exists (authFailures (aAuth w)). by destruct (aAuth w).
  - intros w1 w2 w3 ([f1 E1] & ? & [? ?] & ?) ([f2 E2] & ? & [? ?] & ?). split_and!; [|congruence..|lia].
    exists f2. by rewrite E2, E1.
Qed.

Lemma authentic_back w w' k u : sameKeys w w' → authentic w' k u → authentic w k u.
Proof.
  intros ([f Ha] & Hd & [Ho _] & Ht). destruct 1; rewrite ?Ha, ?Hd, ?Ho in *; simpl in *.
  - eapply by_token; [done| |done|done]. lia.
  - by apply by_default.
  - by eapply by_user.
  - eapply by_key; [done| |done..]. lia.
Qed.

Lemma timeNow_same : steps sameKeys (timeNow (T := T)).
Proof.
  intros w. split_and!; simpl; [|done|done|done|lia]. exists (authFailures (aAuth w)). by destruct (aAuth w).
Qed.

Lemma setFailures_same f : steps sameKeys (onAuth (T := T) (λ a, setFailures (f a) a)).
Proof. intros w. split_and!; simpl; eauto. Qed.

Lemma accessClaims_same k : steps sameKeys (accessClaims (T := T) k).
Proof.
  intros w. unfold accessClaims, mbind, M_bind, catch, onJWT. cbn [mret M_ret].
  destruct (jwtService (aAuth w)) as [j|] eqn:Ej; [|simpl; reflexivity].
  pose proof (validate_state k (j, aSys w)) as Hv. destruct (ValidateToken k (j, aSys w)) as [r w'].
  simpl in Hv. subst w'. split_and!; simpl; [|done|done|done|lia].
  exists (authFailures (aAuth w)). destruct (aAuth w). simpl in *. by subst.
Qed.

Lemma lookupKey_same h : steps sameKeys (lookupKey (T := T) h).
Proof.
  intros w. unfold lookupKey, mbind, M_bind, gets, catch, onKeysDB. cbn [mret M_ret].
  destruct (apiKeyLookupFn (aAuth w)); [|simpl; reflexivity]. unfold timeNow. cbn [aDB aSys aAuth].
  match goal with |- context [KeyGetByKeyHash ?n h ?x] =>
    pose proof (KeyGetByKeyHash_keeps n h x) as Hk; destruct (KeyGetByKeyHash n h x) as [r w'] end.
  simpl in Hk. subst w'. split_and!; simpl; [|done|done|done|lia].
  exists (authFailures (aAuth w)). by destruct (aAuth w).
Qed.
Hint Resolve timeNow_same setFailures_same accessClaims_same lookupKey_same : steps.

Lemma ValidateApiKey_same k : steps sameKeys (ValidateApiKey sha256 range k).
Proof. unfold ValidateApiKey. steps_auto. Qed.
Lemma GetUserByApiKey_same k : steps sameKeys (GetUserByApiKey sha256 range k).
Proof. unfold GetUserByApiKey. steps_auto. Qed.
Lemma IsRateLimited_same ip : steps sameKeys (IsRateLimited (T := T) ip).
Proof. unfold IsRateLimited. steps_auto. Qed.
Lemma RecordAuthFailure_same ip : steps sameKeys (RecordAuthFailure (T := T) ip).
Proof.
  unfold RecordAuthFailure, purgeFailures, noteFailure. steps_auto;
    apply (setFailures_same (λ a, _)).
Qed.
Lemma ClearAuthFailure_same ip : steps sameKeys (ClearAuthFailure (T := T) ip).
Proof. unfold ClearAuthFailure. apply (setFailures_same (λ a, _)). Qed.

Lemma accessClaims_sound k w c w' :
  accessClaims (T := T) k w = (Ok (Some c), w') → authentic w k (claimsUser c).
Proof.
  unfold accessClaims, mbind, M_bind, catch, onJWT. cbn [mret M_ret].
  destruct (jwtService (aAuth w)) as [j|] eqn:Ej; [|by intros [=]].
  destruct (ValidateToken k (j, aSys w)) as [[c'|e] [j' s']] eqn:E; [|by intros [=]].
  destruct (_ || _) eqn:Ety; intros [= <- <-]. unfold ValidateToken in E. run_ok E. simplify_eq/=.
  eapply (by_token _ _ _ _ (tick (aSys w))); [exact Ej|done|eassumption|]. bool_prop. destruct Ety; bool_prop; auto.
Qed.

Lemma lookupKey_sound h w key w' :
  lookupKey (T := T) h w = (Ok (Some key), w') →
  ∃ r, key = scanApiKey r ∧ apiKeyLookupFn (aAuth w) = true ∧ r ∈ rows (api_keys (aDB w)) ∧
    rKeyHash r = h ∧ rIsActive r = true ∧
    IsExpired (FormatTimestamp (now (oracle (aSys w) (tick (aSys w))))) (scanApiKey r) = false.
Proof.
  unfold lookupKey, mbind, M_bind, gets, catch, onKeysDB. cbn [mret M_ret].
  destruct (apiKeyLookupFn (aAuth w)); [|by intros [=]]. unfold timeNow. cbn [aDB aSys aAuth].
  match goal with |- context [KeyGetByKeyHash ?n h ?x] =>
    destruct (KeyGetByKeyHash n h x) as [r [d s]] eqn:E end.
  destruct r as [[key0|]|e]; [|by intros [=]..].
  destruct (kIsActive key0) eqn:Ea; intros [= <- _].
  apply api_key_lookup_sound in E as ((r & Hin & ->) & Hh & _ & Hx). exists r.
  split_and!; [done|done|done|done|done|].
  unfold IsExpired. case_bool_decide; [done|]. by destruct Hx.
Qed.

Lemma findUser_sound w h u :
  findUser range (aAuth w) h = Some u →
  ∃ id, users (aAuth w) !! id = Some u ∧ usEnabled u = true ∧ usApiKeyHash u = h.
Proof.
  unfold findUser. destruct (filter _ _) as [|[id u'] l] eqn:E; [done|]. simpl. intros [= ->].
  assert ((id, u) ∈ filter (λ kv, usEnabled kv.2 && bool_decide (usApiKeyHash kv.2 = h) = true)
            (range (users (aAuth w)))) as Hin by (rewrite E; left).
  apply list_elem_of_filter in Hin as [Hp Hin]. simpl in Hp. bool_prop.
  rewrite range_perm, elem_of_map_to_list in Hin. eauto.
Qed.

Lemma GetUserByApiKey_sound k w u w' :
  GetUserByApiKey sha256 range k w = (Ok (Some u), w') → authentic w k u.
Proof.
  unfold GetUserByApiKey, mbind at 1, M_bind at 1, gets at 1.
  destruct (negb (authEnabled (aAuth w))); [by intros [=]|]. case_bool_decide; [by intros [=]|].
  unfold mbind at 1, M_bind at 1. pose proof (accessClaims_same k w) as Hs.
  destruct (accessClaims k w) as [[[c|]|e] w1] eqn:E; [|simpl in Hs|by intros [=]].
  { intros [= <- <-]. by eapply accessClaims_sound. }
  unfold mbind at 1, M_bind at 1, gets at 1.
  destruct (defaultMatches (aAuth w1) _) eqn:Ed.
  { intros [= <- <-]. apply (authentic_back _ w1 _ _ Hs).
    unfold defaultMatches in Ed. bool_prop. by apply by_default. }
  destruct (findUser range (aAuth w1) _) as [u0|] eqn:Ef.
  { intros [= <- <-]. apply (authentic_back _ w1 _ _ Hs). apply findUser_sound in Ef as (id & ? & ? & ?).
    by eapply by_user. }
  unfold mbind, M_bind. destruct (lookupKey _ w1) as [[[key|]|e] w2] eqn:El; [|by intros [=]..].
  intros [= <- <-]. apply (authentic_back _ w1 _ _ Hs).
  apply lookupKey_sound in El as (r & -> & ? & ? & ? & ? & ?). by eapply by_key.
Qed.

(** An empty key is good exactly when authentication is off. *)
Lemma ValidateApiKey_empty w :
  ValidateApiKey sha256 range "" w = (Ok (negb (authEnabled (aAuth w))), w).
Proof. unfold ValidateApiKey, mbind, M_bind, gets. by destruct (authEnabled (aAuth w)). Qed.

(** A key that is accepted stands for somebody. *)
Lemma ValidateApiKey_sound k w w' :
  authEnabled (aAuth w) = true → ValidateApiKey sha256 range k w = (Ok true, w') →
  k ≠ "" ∧ ∃ u, authentic w k u.
Proof.
  intros He. unfold ValidateApiKey, mbind at 1, M_bind at 1, gets at 1. rewrite He. simpl.
  case_bool_decide as Hk; [by intros [=]|]. intros E. split; [done|].
  destruct (defaultMatches (aAuth w) _) eqn:Ed.
  { exists defaultAdmin. unfold defaultMatches in Ed. bool_prop. by apply by_default. }
  destruct (findUser range (aAuth w) _) as [u0|] eqn:Ef.
  { exists u0. apply findUser_sound in Ef as (id & ? & ? & ?). by eapply by_user. }
  unfold mbind, M_bind in E. destruct (lookupKey _ w) as [[[key|]|e] w2] eqn:El; [|by simplify_eq/=..].
  apply lookupKey_sound in El as (r & -> & ? & ? & ? & ? & ?). eexists. by eapply by_key.
Qed.
End auth_specs.

(** An administrator among the permissions of a key: exactly an element of the
    list, spaces aside. *)
Lemma roleOf_admin p :
  roleOf p = "admin" ↔ ∃ x, x ∈ Split p ","%char ∧ TrimSpace x = "admin".
Proof.
  unfold roleOf. case_bool_decide as H1; [subst|].
  { split; [intros _|done]. exists "admin". split; [|vm_compute; reflexivity].
    apply (bool_decide_unpack _). vm_compute. done. }
  case_bool_decide as H2; [subst|].
  { split; [done|]. intros (x & Hx & Ht). change (x ∈ [""]) in Hx.
    apply list_elem_of_singleton in Hx as ->. vm_compute in Ht. done. }
  destruct (existsb _ _) eqn:E.
  - split; [intros _|done]. apply existsb_exists in E as (x & Hx & Ht). bool_prop.
    exists x. split; [by apply list_elem_of_In|done].
  - split; [done|]. intros (x & Hx & Ht). exfalso.
    assert (existsb (λ p, bool_decide (TrimSpace p = "admin")) (Split p ","%char) = true) as Hc.
    { apply existsb_exists. exists x. split; [by apply list_elem_of_In|]. by apply bool_decide_eq_true. }
    congruence.
Qed.

(** ** The failure counter *)

Section rate.
Context {T : Type → Type}.
Notation World := (AuthWorld T).
Implicit Types w : World.

(** What IsRateLimited answers at a time. *)
Definition limitedAt (a : AuthService) (ip : string) (t : Z) : bool :=
  match authFailures a !! ip with
  | Some r => negb (longAgo t (frLastFailure r) (rateLimitSeconds a))
              && (maxAuthFailures a <=? frFailureCount r)%Z
  | None => false
  end.

Lemma IsRateLimited_spec ip w :
  (IsRateLimited (T := T) ip w).1 = Ok (limitedAt (aAuth w) ip (timeOf (aSys w))).
Proof.
  unfold IsRateLimited, limitedAt, mbind, M_bind, gets.
  destruct (authFailures (aAuth w) !! ip) as [r|]; [|done]. unfold timeNow, timeOf.
  by destruct (longAgo _ _ _).
Qed.

(** Old records may go; they limit nobody. *)
Lemma purgeFailures_spec w :
  monotoneClock (aSys w) →
  let w' := (purgeFailures (T := T) w).2 in
  (purgeFailures w).1 = Ok tt ∧ sameKeys w w' ∧
  ∀ k, authFailures (aAuth w') !! k = authFailures (aAuth w) !! k ∨
    (authFailures (aAuth w') !! k = None ∧ ∃ r, authFailures (aAuth w) !! k = Some r ∧
       longAgo (timeOf (aSys w)) (frLastFailure r) (rateLimitSeconds (aAuth w)) = true).
Proof.
  intros Hm.
  assert (steps sameKeys (purgeFailures (T := T))) as Hs.
  { unfold purgeFailures. steps_auto; [apply timeNow_same|apply (setFailures_same (λ a, _))]. }
  specialize (Hs w). revert Hs. unfold purgeFailures, mbind, M_bind, gets.
  destruct (_ <? _); [|simpl; auto]. unfold timeNow, onAuth, modify.
  cbn [fst snd aAuth aSys aDB]. intros Hs. split_and!; [done|done|]. intros k.
  cbn [setFailures authFailures]. rewrite map_lookup_filter.
  destruct (authFailures (aAuth w) !! k) as [r|]; [|by left]. simpl.
  fold (timeOf (aSys w)). destruct (longAgo _ _ _) eqn:E; simpl; [right; eauto|by left].
Qed.

Lemma limitedAt_purged a a' ip t0 t :
  authFailures a' !! ip = authFailures a !! ip ∨
    (authFailures a' !! ip = None ∧ ∃ r, authFailures a !! ip = Some r ∧
       longAgo t0 (frLastFailure r) (rateLimitSeconds a) = true) →
  rateLimitSeconds a' = rateLimitSeconds a → maxAuthFailures a' = maxAuthFailures a →
  (t0 ≤ t)%Z → limitedAt a' ip t = limitedAt a ip t.
Proof.
  intros Hc Hr Hx Ht. unfold limitedAt. rewrite Hr, Hx.
  destruct Hc as [->|(-> & r & -> & Hl)]; [done|].
  unfold longAgo in *. bool_prop. rewrite (proj2 (Z.ltb_lt _ _)); [done|lia].
Qed.

(** The record that a failure leaves, given the one before. *)
Lemma noteFailure_spec key w :
  monotoneClock (aSys w) →
  let w' := (noteFailure (T := T) key w).2 in
  (timeOf (aSys w) ≤ timeOf (aSys w'))%Z ∧
  ∃ r, aAuth w' = setFailures (<[key := r]> (authFailures (aAuth w))) (aAuth w) ∧
    (timeOf (aSys w) ≤ frLastFailure r ≤ timeOf (aSys w'))%Z ∧
    frFailureCount r =
      match authFailures (aAuth w) !! key with
      | Some r0 =>
          if longAgo (timeOf (aSys w)) (frLastFailure r0) (rateLimitSeconds (aAuth w)) then 1%Z
          else wrap64 (frFailureCount r0 + 1)
      | None => 1%Z
      end.
Proof.
  intros Hm. unfold noteFailure, mbind, M_bind, gets.
  assert (∀ n, (timeOf (aSys w) ≤ timeOf (skip n (aSys w)))%Z) as Hskip
    by (intros n; apply Hm; simpl; lia).
  destruct (authFailures (aAuth w) !! key) as [r0|]; unfold timeNow, onAuth, modify;
    cbn [fst snd aAuth aSys aDB]; fold (timeOf (aSys w)).
  - replace (skip 1 (skip 1 (aSys w))) with (skip 2 (aSys w)) by (unfold skip; simpl; f_equal; lia).
    split; [apply Hskip|]. eexists. split; [done|]. cbn [frLastFailure frFailureCount].
    split; [|done]. fold (timeOf (skip 1 (aSys w))). split; [apply Hskip|]. apply Hm. simpl. lia.
  - split; [apply Hskip|]. eexists. split; [done|]. cbn [frLastFailure frFailureCount].
    split; [|done]. split; [lia|apply Hskip].
Qed.

Lemma RecordAuthFailure_spec ip w :
  monotoneClock (aSys w) →
  let w' := (RecordAuthFailure (T := T) ip w).2 in
  let key := TrimSpace ip in
  sameKeys w w' ∧
  (∃ r, authFailures (aAuth w') !! key = Some r ∧
     (timeOf (aSys w) ≤ frLastFailure r ≤ timeOf (aSys w'))%Z ∧
     (authFailures (aAuth w) !! key = None → frFailureCount r = 1%Z) ∧
     (∀ r0, authFailures (aAuth w) !! key = Some r0 →
       (timeOf (aSys w') - frLastFailure r0 ≤ rateLimitSeconds (aAuth w) * Second)%Z →
       frFailureCount r = wrap64 (frFailureCount r0 + 1))) ∧
  (∀ ip' t, ip' ≠ key → (timeOf (aSys w) ≤ t)%Z →
     limitedAt (aAuth w') ip' t = limitedAt (aAuth w) ip' t).
Proof.
  intros Hm w' key.
  split; [apply RecordAuthFailure_same|].
  destruct (purgeFailures_spec w Hm) as (Ho & S1 & Hp).
  set (w1 := (purgeFailures w).2) in *.
  assert (w' = (noteFailure key w1).2) as Hw'.
  { subst w' w1. unfold RecordAuthFailure, mbind, M_bind. destruct (purgeFailures w) as [r v].
    simpl in Ho. by subst r. }
  assert (monotoneClock (aSys w1) ∧ (timeOf (aSys w) ≤ timeOf (aSys w1))%Z) as [Hm1 Ht1].
  { destruct S1 as (_ & _ & [Ho1 _] & Hk1). unfold monotoneClock, timeOf. rewrite Ho1. auto. }
  assert (rateLimitSeconds (aAuth w1) = rateLimitSeconds (aAuth w) ∧
          maxAuthFailures (aAuth w1) = maxAuthFailures (aAuth w)) as [Hrl Hmx]
    by (destruct S1 as ([f ->] & _); done).
  destruct (noteFailure_spec key w1 Hm1) as (Ht2 & r & Ha & Hlast & Hcount). rewrite <-Hw' in *.
  split.
  - exists r. rewrite Ha. cbn [setFailures authFailures]. rewrite lookup_insert_eq.
    split_and!; [done|lia|lia| |].
    + intros Hn. destruct (Hp key) as [Hk|(Hk & _)]; rewrite Hk, ?Hn in Hcount; done.
    + intros r0 Hr0 Hw. destruct (Hp key) as [Hk|(Hk & r1 & Hr1 & Hl)].
      * rewrite Hk, Hr0 in Hcount. rewrite Hcount, Hrl. unfold longAgo.
        by rewrite (proj2 (Z.ltb_ge _ _)) by lia.
      * rewrite Hr0 in Hr1. injection Hr1 as <-. unfold longAgo in Hl. bool_prop. lia.
  - intros ip' t Hne Ht.
    rewrite <-(limitedAt_purged _ (aAuth w1) _ _ _ (Hp ip')) by done.
    rewrite Ha. unfold limitedAt. cbn [setFailures authFailures rateLimitSeconds maxAuthFailures].
    by rewrite lookup_insert_ne.
Qed.

(** [n] failures of one client, one after the other. *)
Definition failures (n : nat) (ip : string) (w : World) : World :=
  Nat.iter n (λ w, (RecordAuthFailure ip w).2) w.

Lemma sameKeys_clock w w' :
  sameKeys w w' → monotoneClock (aSys w) →
  monotoneClock (aSys w') ∧ (timeOf (aSys w) ≤ timeOf (aSys w'))%Z.
Proof.
  intros (_ & _ & [Ho _] & Ht) Hm. unfold monotoneClock, timeOf. rewrite Ho. auto.
Qed.

Lemma failures_spec n ip w :
  monotoneClock (aSys w) → TrimSpace ip = ip → authFailures (aAuth w) !! ip = None →
  (Z.of_nat (S n) ≤ int64_max)%Z →
  let w' := failures (S n) ip w in
  (timeOf (aSys w') - timeOf (aSys w) ≤ rateLimitSeconds (aAuth w) * Second)%Z →
  ∃ r, authFailures (aAuth w') !! ip = Some r ∧ frFailureCount r = Z.of_nat (S n) ∧
    (timeOf (aSys w) ≤ frLastFailure r ≤ timeOf (aSys w'))%Z.
Proof.
  intros Hm Htrim Hnone.
  assert (∀ k, sameKeys w (failures k ip w)) as Hs.
  { intros k. induction k as [|k IH]; [reflexivity|]. etrans; [exact IH|]. apply RecordAuthFailure_same. }
  induction n as [|n IH]; intros Hb w' Hw.
  - destruct (RecordAuthFailure_spec ip w Hm) as (_ & (r & Hr & Hl & H1 & _) & _).
    rewrite Htrim in *. exists r. auto.
  - set (w1 := failures (S n) ip w). assert (w' = (RecordAuthFailure ip w1).2) as Hw' by done.
    destruct (sameKeys_clock _ _ (Hs (S n)) Hm) as [Hm1 Ht1]. fold w1 in Hm1, Ht1.
    destruct (RecordAuthFailure_spec ip w1 Hm1) as (S2 & (r & Hr & Hl & _ & Hc) & _).
    rewrite <-Hw' in *. destruct (sameKeys_clock _ _ S2 Hm1) as [_ Ht2]. rewrite Htrim in *.
    destruct IH as (r0 & Hr0 & Hc0 & Hl0); [lia|fold w1; lia|]. fold w1 in Hr0, Hl0.
    exists r. split_and!; [done| |lia|lia].
    destruct (Hs (S n)) as ([f Hf] & _). rewrite (Hc r0 Hr0), Hc0.
    + rewrite wrap64_id; [lia|]. unfold in64, int64_min, int64_max in *. lia.
    + fold w1 in Hf. rewrite Hf. simpl. lia.
Qed.
End rate.

(** ** Properties *)

(** C33: rate limiting. After [n] failures of a client within the window, with no
    record before, the client is limited exactly when [n] has reached the maximum;
    the limit ends when the window has passed without a failure, and at once with
    [ClearAuthFailure]. Failures of one client never limit or free another. *)
Theorem rate_limit_exact {T} (n : nat) (ip : string) (w : AuthWorld T) :
  monotoneClock (aSys w) → TrimSpace ip = ip → authFailures (aAuth w) !! ip = None →
  (Z.of_nat (S n) ≤ int64_max)%Z →
  let w' := failures (S n) ip w in
  let window := (rateLimitSeconds (aAuth w) * Second)%Z in
  (timeOf (aSys w') - timeOf (aSys w) ≤ window)%Z →
  (IsRateLimited ip w').1 = Ok (maxAuthFailures (aAuth w) <=? Z.of_nat (S n))%Z ∧
  (∀ t, (timeOf (aSys w') + window < t)%Z → limitedAt (aAuth w') ip t = false) ∧
  (IsRateLimited ip (ClearAuthFailure ip w').2).1 = Ok false ∧
  (∀ ip' t, ip' ≠ ip → (timeOf (aSys w') ≤ t)%Z →
     limitedAt (aAuth w') ip' t = limitedAt (aAuth w) ip' t).
Proof.
  intros Hm Htrim Hnone Hb w' window Hw.
  destruct (failures_spec n ip w Hm Htrim Hnone Hb Hw) as (r & Hr & Hc & Hl). fold w' in Hr, Hl.
  assert (∀ k, sameKeys w (failures k ip w)) as Hs.
  { intros k. induction k as [|k IH]; [reflexivity|]. etrans; [exact IH|]. apply RecordAuthFailure_same. }
  assert (rateLimitSeconds (aAuth w') = rateLimitSeconds (aAuth w) ∧
          maxAuthFailures (aAuth w') = maxAuthFailures (aAuth w)) as [Hrl Hmx]
    by (destruct (Hs (S n)) as ([f Hf] & _); fold w' in Hf; by rewrite Hf).
  split_and!.
  - rewrite IsRateLimited_spec. unfold limitedAt, longAgo. rewrite Hr, Hrl, Hmx, Hc.
    by rewrite (proj2 (Z.ltb_ge _ _)) by lia.
  - intros t Ht. unfold limitedAt, longAgo. rewrite Hr, Hrl.
    by rewrite (proj2 (Z.ltb_lt _ _)) by lia.
  - rewrite IsRateLimited_spec. unfold limitedAt, ClearAuthFailure. simpl. by rewrite lookup_delete_eq.
  - clear Hw Hr Hl Hrl Hmx. subst w'. generalize (S n). intros k ip' t Hne.
    induction k as [|k IH]; intros Ht; [done|].
    destruct (sameKeys_clock _ _ (Hs k) Hm) as [Hmk _].
    destruct (RecordAuthFailure_spec ip (failures k ip w) Hmk) as (Sk & _ & Ho).
    destruct (sameKeys_clock _ _ Sk Hmk) as [_ Htk].
    change (failures (S k) ip w) with (RecordAuthFailure ip (failures k ip w)).2 in *.
    rewrite Ho; [apply IH; lia|by rewrite Htrim|lia].
Qed.

Lemma rate_limit_exact_witness :
  let w : AuthWorld list := MkAuthWorld
    (MkSys (λ n, CallEnv (Z.of_nat n * Second) [] NoFault) 0 ∅) emptyDB NewAuthService in
  (IsRateLimited "10.0.0.1" (failures 9 "10.0.0.1" w)).1 = Ok false ∧
  (IsRateLimited "10.0.0.1" (failures 10 "10.0.0.1" w)).1 = Ok true.
Proof.
  intros w.
  assert (monotoneClock (aSys w)) as Hm by (intros n m Hnm; simpl; unfold Second, Millisecond; lia).
  split.
  - destruct (rate_limit_exact 8 "10.0.0.1" w Hm) as [Hx _];
      [vm_compute; reflexivity|reflexivity|done|vm_compute; discriminate|exact Hx].
  - destruct (rate_limit_exact 9 "10.0.0.1" w Hm) as [Hx _];
      [vm_compute; reflexivity|reflexivity|done|vm_compute; discriminate|exact Hx].
Defined.
