(* ===== verification/Access.v ===== *)
(** * Access control at the two front ends

    authMiddleware, requirePermission and requireAdmin of internal/api/http, and
    authenticate, withUser and authorize of internal/api/grpc, over the
    authentication service. *)

From S2P Require Export Auth.

Local Open Scope go_scope.

(** What a handler sees of a request. *)
Record request := MkRequest {
  rqClientIP : string; rqAuthorization : string; rqApiKey : string
}.

(** [c.Next()] with the user in the context, or an error response. *)
Inductive verdict := Next (user : option User) | Abort (status : Z).

(** The credential in the headers. *)
Definition credentialOf (rq : request) : string :=
  if negb (bool_decide (rqApiKey rq = "")) then rqApiKey rq
  else if HasPrefix (rqAuthorization rq) "Bearer " then TrimPrefix (rqAuthorization rq) "Bearer "
  else if HasPrefix (rqAuthorization rq) "Api-Key " then TrimPrefix (rqAuthorization rq) "Api-Key "
  else "".

(** gRPC: the permission of each method. *)
Definition methodPermissions : list (string * (string * string)) :=
  [("/fsserver.FileService/UploadFile", ("files", "write"));
   ("/fsserver.FileService/DownloadFile", ("files", "read"));
   ("/fsserver.FileService/ListFiles", ("files", "read"));
   ("/fsserver.FileService/DeleteFile", ("files", "write"));
   ("/fsserver.FileService/RenameFile", ("files", "write"));
   ("/fsserver.FileService/CreateDirectory", ("files", "write"));
   ("/fsserver.FileService/DeleteDirectory", ("files", "write"));
   ("/fsserver.FileService/RenameDirectory", ("files", "write"));
   ("/fsserver.FileService/GetMetadata", ("files", "read"))].

Definition permissionOf (method : string) : option (string * string) :=
  snd <$> head (filter (λ kv, kv.1 = method) methodPermissions).

(** The metadata of a call: the values of x-api-key and of authorization. *)
Record callMD := MkMD { mdApiKeys : list string; mdAuthorization : list string }.

(** Whom a token is issued for and with which role (handleGenerateToken): the
    caller in the context, and the user and the role of the request. *)
Definition tokenGrant (caller : option User) (reqUserID reqRole : string) : res (string * string) :=
  let callerRole := match caller with Some u => usRole u | None => "user" end in
  let callerID :=
    match caller with
    | Some u =>
        if bool_decide (usRole u = "admin")
        then if bool_decide (reqUserID = "") then usID u else reqUserID
        else usID u
    | None => reqUserID
    end in
  if bool_decide (callerID = "") then Err (ErrMsg "user_id is required")
  else
    let grantRole :=
      if bool_decide (callerRole = "admin")
         && (bool_decide (reqRole = "admin") || bool_decide (reqRole = "user"))
      then reqRole else "user" in
    Ok (callerID, grantRole).

Section access.
Context {T : Type → Type} `{SqlEngine T} `{JWTLib}.
Context (sha256 : bytes → bytes) (range : gmap string User → list (string * User)).
Notation World := (AuthWorld T).
Notation ValidateApiKey := (ValidateApiKey sha256 range).
Notation GetUserByApiKey := (GetUserByApiKey sha256 range).

Definition authMiddleware (rq : request) : M World verdict :=
  limited ← IsRateLimited (rqClientIP rq);
  if (limited : bool) then mret (Abort 429)
  else
    off ← ValidateApiKey "";
    if (off : bool) then mret (Next None)
    else
      let apiKey := credentialOf rq in
      if bool_decide (apiKey = "") then
        RecordAuthFailure (rqClientIP rq) ⨟ mret (Abort 401)
      else
        ok ← ValidateApiKey apiKey;
        if negb ok then
          claims ← accessClaims apiKey;
          match claims with
          | Some c => ClearAuthFailure (rqClientIP rq) ⨟ mret (Next (Some (claimsUser c)))
          | None => RecordAuthFailure (rqClientIP rq) ⨟ mret (Abort 401)
          end
        else
          ClearAuthFailure (rqClientIP rq) ⨟
          user ← GetUserByApiKey apiKey;
          mret (Next user).

Definition requirePermission (resource action : string) (user : option User) : M World verdict :=
  off ← ValidateApiKey "";
  if negb off then
    match user with
    | None => mret (Abort 403)
    | Some u =>
        if bool_decide (usRole u = "admin") then mret (Next user)
        else if negb (bool_decide (usRole u = "user") && bool_decide (resource = "files")
                      && (bool_decide (action = "read") || bool_decide (action = "write")))
        then mret (Abort 403)
        else mret (Next user)
    end
  else mret (Next user).

Definition requireAdmin (user : option User) : M World verdict :=
  off ← ValidateApiKey "";
  if negb off then
    match user with
    | None => mret (Abort 403)
    | Some u => if bool_decide (usRole u = "admin") then mret (Next user) else mret (Abort 403)
    end
  else mret (Next user).

(** The chain of handlers of a route. *)
Definition route (check : option User → M World verdict) (rq : request) : M World verdict :=
  v ← authMiddleware rq;
  match v with
  | Next u => check u
  | Abort s => mret (Abort s)
  end.

(** ** gRPC *)

Definition withUser (apiKey : string) : M World (option User) := GetUserByApiKey apiKey.

(** The first authorization header of a known scheme decides. *)
Fixpoint authByHeader (authHeaders : list string) : M World (option User) :=
  match authHeaders with
  | [] =>
      off ← ValidateApiKey "";
      guard off (ErrMsg "authentication required") ⨟ mret None
  | ah :: rest =>
      if HasPrefix ah "Bearer " then
        let token := TrimPrefix ah "Bearer " in
        ok ← ValidateApiKey token;
        if (ok : bool) then withUser token
        else
          claims ← accessClaims token;
          match claims with
          | Some _ => withUser token
          | None => throw (ErrMsg "invalid token")
          end
      else if HasPrefix ah "Api-Key " then
        let key := TrimPrefix ah "Api-Key " in
        ok ← ValidateApiKey key;
        if (ok : bool) then withUser key else throw (ErrMsg "invalid API key")
      else authByHeader rest
  end.

Definition authenticate (md : option callMD) : M World (option User) :=
  match md with
  | None =>
      off ← ValidateApiKey "";
      guard off (ErrMsg "authentication required") ⨟ mret None
  | Some md =>
      match mdApiKeys md with
      | k :: _ =>
          if negb (bool_decide (k = "")) then
            ok ← ValidateApiKey k;
            if (ok : bool) then withUser k else throw (ErrMsg "invalid API key")
          else authByHeader (mdAuthorization md)
      | [] => authByHeader (mdAuthorization md)
      end
  end.

Definition authorize (method : string) (user : option User) : M World unit :=
  off ← ValidateApiKey "";
  if (off : bool) then mret tt
  else
    match permissionOf method with
    | None => mret tt
    | Some (resource, action) =>
        match user with
        | Some u =>
            guard (usEnabled u) (ErrMsg "permission denied: no authenticated user") ⨟
            if bool_decide (usRole u = "admin") then mret tt
            else if bool_decide (usRole u = "user") && bool_decide (resource = "files")
                    && (bool_decide (action = "read") || bool_decide (action = "write"))
            then mret tt
            else throw (ErrMsg "permission denied")
        | None => throw (ErrMsg "permission denied: no authenticated user")
        end
    end.

(** The interceptor, up to the call of the handler with the user it sees. *)
Definition authInterceptor (method : string) (md : option callMD) : M World (option User) :=
  u ← authenticate md;
  authorize method u ⨟
  mret u.

End access.

(** ** What passes *)

Section access_specs.
Context {T : Type → Type} `{SqlEngine T} `{JWTLib}.
Context (sha256 : bytes → bytes) (range : gmap string User → list (string * User)).
Context (range_perm : ∀ m, range m ≡ₚ map_to_list m).
Notation World := (AuthWorld T).
Implicit Types w : World.

Lemma sameKeys_enabled w w' : sameKeys w w' → authEnabled (aAuth w') = authEnabled (aAuth w).
Proof. intros ([f ->] & _). done. Qed.

(** The three checks of a role are one. *)
Lemma requirePermission_spec resource action u w :
  authEnabled (aAuth w) = true →
  requirePermission sha256 range resource action (Some u) w =
  (Ok (if roleAllows (usRole u) resource action then Next (Some u) else Abort 403), w).
Proof.
  intros He. unfold requirePermission, mbind, M_bind. rewrite ValidateApiKey_empty, He. simpl.
  unfold roleAllows. destruct (bool_decide (usRole u = "admin")); [done|].
  destruct (bool_decide (usRole u = "user") && bool_decide (resource = "files")); [|done].
  simpl. by destruct (_ || _).
Qed.

Lemma authorize_spec method resource action u w :
  authEnabled (aAuth w) = true → permissionOf method = Some (resource, action) →
  usEnabled u = true →
  authorize sha256 range method (Some u) w =
  (if roleAllows (usRole u) resource action then Ok tt else Err (ErrMsg "permission denied"), w).
Proof.
  intros He Hp Hu. unfold authorize, mbind at 1, M_bind at 1.
  rewrite ValidateApiKey_empty, He, Hp. simpl. rewrite Hu. unfold mbind, M_bind, guard. simpl.
  unfold roleAllows. destruct (bool_decide (usRole u = "admin")); [done|].
  destruct (bool_decide (usRole u = "user") && bool_decide (resource = "files")); [|done].
  simpl. by destruct (_ || _).
Qed.

Lemma HasPermission_spec k resource action u w w' :
  authEnabled (aAuth w) = true → GetUserByApiKey sha256 range k w = (Ok (Some u), w') →
  HasPermission sha256 range k resource action w = (Ok (roleAllows (usRole u) resource action), w').
Proof.
  intros He E. unfold HasPermission, mbind, M_bind, gets. rewrite He. simpl. rewrite E.
  apply GetUserByApiKey_sound in E; [|done]. by rewrite (authentic_enabled _ _ _ _ E).
Qed.

Lemma steps_run {A} (R : World → World → Prop) (m : M World A) w r w' :
  steps R m → m w = (r, w') → R w w'.
Proof. intros Hm E. specialize (Hm w). by rewrite E in Hm. Qed.

(** The middleware lets a request through with the user of its credential. *)
Lemma authMiddleware_sound rq w u w' :
  authEnabled (aAuth w) = true → authMiddleware sha256 range rq w = (Ok (Next u), w') →
  sameKeys w w' ∧ credentialOf rq ≠ "" ∧ (∃ usr, authentic sha256 w (credentialOf rq) usr) ∧
  (∀ usr, u = Some usr → authentic sha256 w (credentialOf rq) usr).
Proof.
  intros He. unfold authMiddleware, mbind at 1, M_bind at 1.
  destruct (IsRateLimited _ w) as [[lim|e] w1] eqn:E1; [|done].
  apply (steps_run sameKeys) in E1 as S1; [|apply IsRateLimited_same]. clear E1.
  destruct lim; [by intros [=]|].
  unfold mbind at 1, M_bind at 1. rewrite ValidateApiKey_empty, (sameKeys_enabled _ _ S1), He.
  simpl. case_bool_decide as Hne.
  { unfold mbind, M_bind. by destruct (RecordAuthFailure _ w1) as [[]]; intros [=]. }
  unfold mbind at 1, M_bind at 1.
  destruct (ValidateApiKey sha256 range (credentialOf rq) w1) as [[ok|e] w2] eqn:E2; [|done].
  apply (steps_run sameKeys) in E2 as S2; [|by apply ValidateApiKey_same].
  destruct ok; simpl.
  - apply ValidateApiKey_sound in E2 as (_ & u0 & Hu0); [|done|by rewrite (sameKeys_enabled _ _ S1)].
    unfold mbind at 1, M_bind at 1. destruct (ClearAuthFailure _ w2) as [[[]|e] w3] eqn:E3; [|done].
    apply (steps_run sameKeys) in E3 as S3; [|apply ClearAuthFailure_same].
    unfold mbind, M_bind. destruct (GetUserByApiKey _ _ _ w3) as [[usr|e] w4] eqn:E4; [|done].
    apply (steps_run sameKeys) in E4 as S4; [|by apply GetUserByApiKey_same].
    intros [= <- <-]. assert (sameKeys w w3) as S by (etrans; [done|by etrans]).
    split_and!; [by etrans|done|eauto using authentic_back|].
    intros u1 ->. apply GetUserByApiKey_sound in E4; [|done]. by eapply authentic_back.
  - unfold mbind at 1, M_bind at 1.
    destruct (accessClaims (credentialOf rq) w2) as [[[c|]|e] w3] eqn:E3; [| |done].
    + apply (steps_run sameKeys) in E3 as S3; [|apply accessClaims_same].
      unfold mbind, M_bind. destruct (ClearAuthFailure _ w3) as [[[]|e] w4] eqn:E4; [|done].
      apply (steps_run sameKeys) in E4 as S4; [|apply ClearAuthFailure_same].
      intros [= <- <-]. apply (accessClaims_sound sha256) in E3.
      assert (authentic sha256 w (credentialOf rq) (claimsUser c)) as Ha
        by (eapply authentic_back; [|done]; by etrans).
      split_and!; [by do 3 (etrans; [done|])|done|eauto|by intros ? [= <-]].
    + unfold mbind, M_bind. by destruct (RecordAuthFailure _ w3) as [[]]; intros [=].
Qed.

(** The credentials that a gRPC call presents. *)
Definition presented (md : option callMD) (k : string) : Prop :=
  ∃ m, md = Some m ∧
    (k ∈ mdApiKeys m ∨ ∃ h, h ∈ mdAuthorization m ∧
       (k = TrimPrefix h "Bearer " ∨ k = TrimPrefix h "Api-Key ")).

Lemma withUser_sound k w u w' :
  withUser sha256 range k w = (Ok u, w') →
  sameKeys w w' ∧ ∀ usr, u = Some usr → authentic sha256 w k usr.
Proof.
  intros E. split; [by eapply steps_run; [apply GetUserByApiKey_same|]|].
  intros usr ->. by eapply GetUserByApiKey_sound.
Qed.

Lemma keyed_sound k (e0 : error) w (u : option User) w' :
  (ok ← ValidateApiKey sha256 range k; if (ok : bool) then withUser sha256 range k else throw e0) w
    = (Ok u, w') →
  sameKeys w w' ∧ ∀ usr, u = Some usr → authentic sha256 w k usr.
Proof.
  unfold mbind, M_bind. destruct (ValidateApiKey sha256 range k w) as [[[]|e] w1] eqn:E1; [|done..].
  apply (steps_run sameKeys) in E1 as S1; [|by apply ValidateApiKey_same].
  intros (S2 & Hu)%withUser_sound. split; [by etrans|]. eauto using authentic_back.
Qed.

Lemma authByHeader_sound hs w u w' :
  authByHeader sha256 range hs w = (Ok u, w') →
  sameKeys w w' ∧ ∀ usr, u = Some usr →
    ∃ h k, h ∈ hs ∧ (k = TrimPrefix h "Bearer " ∨ k = TrimPrefix h "Api-Key ") ∧
      authentic sha256 w k usr.
Proof.
  induction hs as [|h hs IH]; cbn [authByHeader].
  - unfold mbind, M_bind. rewrite ValidateApiKey_empty. unfold guard. simpl.
    destruct (negb _); intros [= <- <-]. done.
  - destruct (HasPrefix h "Bearer ").
    + unfold mbind at 1, M_bind at 1.
      destruct (ValidateApiKey sha256 range _ w) as [[ok|e] w1] eqn:E1; [|done].
      apply (steps_run sameKeys) in E1 as S1; [|by apply ValidateApiKey_same]. destruct ok.
      * intros (S2 & Hu)%withUser_sound. split; [by etrans|].
        intros usr Hs. exists h, (TrimPrefix h "Bearer "). split_and!; [left|auto|].
        eauto using authentic_back.
      * unfold mbind, M_bind. destruct (accessClaims _ w1) as [[[c|]|e] w2] eqn:E2; [|done..].
        apply (steps_run sameKeys) in E2 as S2; [|apply accessClaims_same].
        intros (S3 & Hu)%withUser_sound. assert (sameKeys w w2) by (by etrans).
        split; [by etrans|]. intros usr Hs. exists h, (TrimPrefix h "Bearer ").
        split_and!; [left|auto|]. eauto using authentic_back.
    + destruct (HasPrefix h "Api-Key ").
      * intros (S & Hu)%keyed_sound. split; [done|].
        intros usr Hs. exists h, (TrimPrefix h "Api-Key "). split_and!; [left|auto|auto].
      * intros (S & Hu)%IH. split; [done|]. intros usr Hs.
        destruct (Hu usr Hs) as (h' & k & Hin & ? & ?). exists h', k. split; [by right|done].
Qed.

Lemma authenticate_sound md w u w' :
  authenticate sha256 range md w = (Ok u, w') →
  sameKeys w w' ∧ ∀ usr, u = Some usr → ∃ k, presented md k ∧ authentic sha256 w k usr.
Proof.
  destruct md as [m|]; unfold authenticate.
  - destruct (mdApiKeys m) as [|k ks] eqn:Ek; [|destruct (negb _)].
    + intros (S & Hu)%authByHeader_sound. split; [done|]. intros usr Hs.
      destruct (Hu usr Hs) as (h & k & ? & ? & ?). exists k. split; [|done].
      exists m. split; [done|]. right. eauto.
    + intros (S & Hu)%keyed_sound. split; [done|].
      intros usr Hs. exists k. split; [|auto]. exists m. split; [done|]. left. rewrite Ek. left.
    + intros (S & Hu)%authByHeader_sound. split; [done|]. intros usr Hs.
      destruct (Hu usr Hs) as (h & k' & ? & ? & ?). exists k'. split; [|done].
      exists m. split; [done|]. right. eauto.
  - unfold mbind, M_bind. rewrite ValidateApiKey_empty. unfold guard. simpl.
    destruct (negb _); intros [= <- <-]. done.
Qed.
End access_specs.

(** ** Tokens at the front end *)

Section token_specs.
Context {T : Type → Type} `{SqlEngine T} `{JWTLaws}.
Context (sha256 : bytes → bytes) (range : gmap string User → list (string * User)).
Notation World := (AuthWorld T).
Implicit Types w : World.

(** The checks before a token is parsed do not fail and read the clock at most
    three times. *)
Lemma lookupKey_runs h w :
  ∃ key, (lookupKey (T := T) h w).1 = Ok key ∧
    tick (aSys (lookupKey h w).2) ≤ tick (aSys w) + 2.
Proof.
  unfold lookupKey, mbind, M_bind, gets, catch, onKeysDB. cbn [mret M_ret].
  destruct (apiKeyLookupFn (aAuth w)); [|simpl; eauto with lia]. unfold timeNow. cbn [aDB aSys aAuth].
  match goal with |- context [KeyGetByKeyHash ?n h ?x] =>
    pose proof (KeyGetByKeyHash_keeps n h x) as Hk; destruct (KeyGetByKeyHash n h x) as [r w'] end.
  simpl in Hk. subst w'. simpl. eexists. split; [done|lia].
Qed.

Lemma ValidateApiKey_runs k w :
  ∃ b, (ValidateApiKey sha256 range k w).1 = Ok b ∧
    tick (aSys (ValidateApiKey sha256 range k w).2) ≤ tick (aSys w) + 2.
Proof.
  unfold ValidateApiKey, mbind at 1 3, M_bind at 1 3, gets.
  destruct (negb _); [simpl; eauto with lia|]. case_bool_decide; [simpl; eauto with lia|].
  destruct (defaultMatches _ _); [simpl; eauto with lia|].
  destruct (findUser _ _ _); [simpl; eauto with lia|].
  destruct (lookupKey_runs (hashApiKey sha256 k) w) as (key & Ho & Ht).
  unfold mbind, M_bind. destruct (lookupKey _ w) as [r w1]. simpl in *. subst r. eauto.
Qed.

Lemma IsRateLimited_tick ip w :
  tick (aSys (IsRateLimited (T := T) ip w).2) ≤ tick (aSys w) + 1.
Proof.
  unfold IsRateLimited, mbind, M_bind, gets. destruct (authFailures _ !! ip); [|simpl; lia].
  unfold timeNow. simpl. by destruct (longAgo _ _ _).
Qed.

Lemma accessClaims_signed j c t w :
  jwtService (aAuth w) = Some j → SignedString (secret j) c = Ok t → encodable c = true →
  datesValid (now (oracle (aSys w) (tick (aSys w)))) c = true → cTokenType c = "access" →
  (accessClaims (T := T) t w).1 = Ok (Some c).
Proof.
  intros Hj Hs He Hd Hty. unfold accessClaims, mbind, M_bind, catch, onJWT. rewrite Hj.
  destruct (validate_signed c t (j, aSys w) Hs He) as [Hv2 Hv1]. simpl in *. unfold timeOf in Hv1.
  assert (revoked j c = false) as Hr by (unfold revoked; by rewrite Hty). rewrite Hd, Hr in Hv1.
  simpl in Hv1. destruct (ValidateToken t (j, aSys w)) as [r [j' s']]. simpl in *. subst r.
  by rewrite Hty.
Qed.

(** A signed access token passes the middleware, with its user. *)
Lemma authMiddleware_token j c t ip w :
  authEnabled (aAuth w) = true → jwtService (aAuth w) = Some j →
  SignedString (secret j) c = Ok t → encodable c = true → cTokenType c = "access" →
  (∀ n, tick (aSys w) ≤ n ≤ tick (aSys w) + 3 → datesValid (now (oracle (aSys w) n)) c = true) →
  (IsRateLimited ip w).1 = Ok false →
  ∃ w', authMiddleware sha256 range (MkRequest ip ("Bearer " +:+ t) "") w
          = (Ok (Next (Some (claimsUser c))), w') ∧ sameKeys w w'.
Proof.
  intros He Hj Hs Hc Hty Hd Hl. unfold authMiddleware, mbind at 1, M_bind at 1.
  pose proof (IsRateLimited_tick ip w) as T1. pose proof (IsRateLimited_same ip w) as S1.
  cbn [rqClientIP]. destruct (IsRateLimited ip w) as [r1 w1]. simpl in Hl, T1, S1. subst r1.
  unfold mbind at 1, M_bind at 1. rewrite ValidateApiKey_empty, (sameKeys_enabled _ _ S1), He.
  cbn [negb]. change (credentialOf (MkRequest ip ("Bearer " +:+ t) "")) with t.
  assert (t ≠ "") as Hne by (by eapply signed_not_empty). rewrite (bool_decide_eq_false_2 _ Hne).
  unfold mbind at 1, M_bind at 1.
  destruct (ValidateApiKey_runs t w1) as (b & V1 & T2).
  pose proof (ValidateApiKey_same sha256 range t w1) as S2.
  destruct (ValidateApiKey sha256 range t w1) as [r2 w2]. simpl in V1, T2, S2. subst r2.
  assert (∀ w', sameKeys w2 w' → tick (aSys w') = tick (aSys w2) →
    (accessClaims t w').1 = Ok (Some c) ∧ sameKeys w' (accessClaims t w').2) as Ha.
  { intros w' S3 T3. assert (sameKeys w w') as S by (etrans; [done|by etrans]).
    split; [|apply accessClaims_same]. destruct S as ([f Ef] & _ & [Eo _] & _).
    apply (accessClaims_signed j); [by rewrite Ef|done|done| |done].
    rewrite Eo. apply Hd. destruct S1 as (_&_&_&?), S2 as (_&_&_&?). lia. }
  destruct b; cbn [negb].
  - unfold mbind at 1, M_bind at 1.
    destruct (Ha (ClearAuthFailure ip w2).2) as [Ho S4]; [apply ClearAuthFailure_same|done|].
    pose proof (ClearAuthFailure_same ip w2) as S3. unfold ClearAuthFailure, onAuth, modify in *.
    cbn [snd fst] in *. set (w3 := MkAuthWorld _ _ _) in *.
    unfold GetUserByApiKey. unfold mbind at 1 2, M_bind at 1 2, gets at 1.
    assert (sameKeys w w3) as S by (etrans; [done|by etrans]).
    rewrite (sameKeys_enabled _ _ S), He. cbn [negb]. rewrite (bool_decide_eq_false_2 _ Hne).
    unfold mbind, M_bind. destruct (accessClaims t w3) as [r4 w4]. simpl in Ho, S4. subst r4.
    exists w4. split; [done|by etrans].
  - unfold mbind at 1, M_bind at 1. destruct (Ha w2) as [Ho S4]; [reflexivity|done|].
    destruct (accessClaims t w2) as [r4 w4]. simpl in Ho, S4. subst r4.
    unfold mbind, M_bind, ClearAuthFailure, onAuth, modify. eexists. split; [done|].
    etrans; [exact S1|]. etrans; [exact S2|]. etrans; [exact S4|].
    apply (ClearAuthFailure_same ip w4).
Qed.
End token_specs.

(** Tokens do not raise the caller's role: an administrator's token goes only to an
    administrator, and anyone else gets a user token for their own identity. *)
Lemma tokenGrant_no_escalation caller reqUserID reqRole id role :
  tokenGrant caller reqUserID reqRole = Ok (id, role) →
  (role = "admin" → ∃ u, caller = Some u ∧ usRole u = "admin") ∧
  (∀ u, caller = Some u → usRole u ≠ "admin" → id = usID u ∧ role = "user").
Proof.
  unfold tokenGrant. destruct (bool_decide (_ = "")); [done|]. intros [= <- <-]. split.
  - destruct caller as [u|]; [|done]. case_bool_decide; [eauto|done].
  - intros u -> Hne. by rewrite (bool_decide_eq_false_2 _ Hne).
Qed.

(** Without a user in the context (the second lookup of a valid key failed) the
    caller names the user of the token. *)
Lemma tokenGrant_impersonates victim reqRole :
  victim ≠ "" → tokenGrant None victim reqRole = Ok (victim, "user").
Proof. intros Hv. unfold tokenGrant. by rewrite (bool_decide_eq_false_2 _ Hv). Qed.

(** Who passes a route with a permission, and one for administrators. *)
Lemma permission_sound {T} `{SqlEngine T} `{JWTLib} (sha256 : bytes → bytes)
    (range : gmap string User → list (string * User)) (w w' : AuthWorld T) u resource action rq :
  (∀ m, range m ≡ₚ map_to_list m) → authEnabled (aAuth w) = true →
  route sha256 range (requirePermission sha256 range resource action) rq w = (Ok (Next u), w') →
  ∃ usr, u = Some usr ∧ authentic sha256 w (credentialOf rq) usr ∧
    roleAllows (usRole usr) resource action = true.
Proof.
  intros Hr He E. unfold route, mbind, M_bind in E.
  destruct (authMiddleware sha256 range rq w) as [[[u1|s]|e] w1] eqn:E1; [|done..].
  apply authMiddleware_sound in E1 as (S & _ & _ & Hu); [|done..].
  assert (authEnabled (aAuth w1) = true) as He1 by (by rewrite (sameKeys_enabled _ _ S)).
  destruct u1 as [usr|].
  - rewrite requirePermission_spec in E by done. exists usr.
    destruct (roleAllows _ _ _) eqn:Ea; [|done]. injection E as <- <-. auto.
  - unfold requirePermission, mbind, M_bind in E. by rewrite ValidateApiKey_empty, He1 in E.
Qed.

Lemma admin_sound {T} `{SqlEngine T} `{JWTLib} (sha256 : bytes → bytes)
    (range : gmap string User → list (string * User)) (w w' : AuthWorld T) u rq :
  (∀ m, range m ≡ₚ map_to_list m) → authEnabled (aAuth w) = true →
  route sha256 range (requireAdmin sha256 range) rq w = (Ok (Next u), w') →
  ∃ usr, u = Some usr ∧ authentic sha256 w (credentialOf rq) usr ∧ usRole usr = "admin".
Proof.
  intros Hr He E. unfold route, mbind, M_bind in E.
  destruct (authMiddleware sha256 range rq w) as [[[u1|s]|e] w1] eqn:E1; [|done..].
  apply authMiddleware_sound in E1 as (S & _ & _ & Hu); [|done..].
  unfold requireAdmin, mbind, M_bind in E.
  rewrite ValidateApiKey_empty, (sameKeys_enabled _ _ S), He in E. simpl in E.
  destruct u1 as [usr|]; [|done]. case_bool_decide; [|done]. injection E as <- <-. eauto.
Qed.

(** ** Properties *)

(** Access control, with authentication on. A request reaches a handler behind
    [requirePermission] or [requireAdmin], and a call reaches a gRPC method with a
    permission, only with the user of a credential that it presents itself (a valid
    access token, the configured key, the key of an enabled user, or an active key
    of the database that has not expired), whose role allows the action; behind
    [requireAdmin] the role is admin. *)
Lemma access_control {T} `{SqlEngine T} `{JWTLib} (sha256 : bytes → bytes)
    (range : gmap string User → list (string * User)) (w w' : AuthWorld T) (u : option User) :
  (∀ m, range m ≡ₚ map_to_list m) → authEnabled (aAuth w) = true →
  (∀ resource action rq,
     route sha256 range (requirePermission sha256 range resource action) rq w = (Ok (Next u), w') →
     ∃ usr, u = Some usr ∧ authentic sha256 w (credentialOf rq) usr ∧
       roleAllows (usRole usr) resource action = true) ∧
  (∀ rq,
     route sha256 range (requireAdmin sha256 range) rq w = (Ok (Next u), w') →
     ∃ usr, u = Some usr ∧ authentic sha256 w (credentialOf rq) usr ∧ usRole usr = "admin") ∧
  (∀ method resource action md,
     permissionOf method = Some (resource, action) →
     authInterceptor sha256 range method md w = (Ok u, w') →
     ∃ usr k, u = Some usr ∧ presented md k ∧ authentic sha256 w k usr ∧
       roleAllows (usRole usr) resource action = true).
Proof.
  intros Hr He. split_and!.
  - intros resource action rq E. by eapply permission_sound.
  - intros rq E. by eapply admin_sound.
  - intros method resource action md Hp E. unfold authInterceptor, mbind, M_bind in E.
    destruct (authenticate sha256 range md w) as [[u1|e] w1] eqn:E1; [|done].
    apply authenticate_sound in E1 as (S & Hu); [|done].
    assert (authEnabled (aAuth w1) = true) as He1 by (by rewrite (sameKeys_enabled _ _ S)).
    destruct u1 as [usr|].
    + destruct (Hu usr eq_refl) as (k & Hk & Ha).
      rewrite (authorize_spec _ _ _ resource action) in E; [|done..|by eapply authentic_enabled].
      destruct (roleAllows _ _ _) eqn:Er; [|done]. injection E as <- <-. eauto 10.
    + unfold authorize, mbind, M_bind in E. rewrite ValidateApiKey_empty, He1, Hp in E. done.
Qed.

(** A service with one administrator key and one key in the database. *)
Definition toySHA (d : bytes) : bytes := d.
Definition toyKey : ApiKeyRow :=
  MkKeyRow "k1" (hashApiKey toySHA "reader") "reader" "" "files" "t0" None None true.
Definition toyAuth : AuthWorld list :=
  MkAuthWorld (MkSys (λ n, CallEnv (Z.of_nat n * Second) [Byte.x01] NoFault) 0 ∅)
    (MkDB [] [] [] [] [toyKey])
    (SetApiKeyLookup (Init toySHA true "secret" NewAuthService)).
Definition toyRequest (key : string) : request := MkRequest "10.0.0.1" "" key.

(** C32: a token works where its role does. Right after [GenerateTokenPair], and as
    long as the token has not expired, a request of a client that is not rate
    limited which carries the access token as a bearer token passes
    [requirePermission] exactly when the role it was issued for allows the action,
    and the handler sees the user it was issued for. *)
Theorem issued_token_grants {T} `{SqlEngine T} `{JWTLaws} (sha256 : bytes → bytes)
    (range : gmap string User → list (string * User)) (u r resource action ip : string)
    (j j' : JWTService) (s' : Sys) (p : TokenPair) (w : AuthWorld T) :
  authEnabled (aAuth w) = true → jwtService (aAuth w) = Some j →
  asciiOnly u = true → asciiOnly r = true → monotoneClock (aSys w) →
  GenerateTokenPair u r (j, aSys w) = (Ok p, (j', s')) →
  let w1 := MkAuthWorld s' (aDB w) (setJWT (Some j') (aAuth w)) in
  (∀ n, n ≤ tick s' + 3 →
     (now (oracle s' n) < (timeOf (aSys w) + tokenExpiry j) / Second * Second)%Z) →
  (IsRateLimited ip w1).1 = Ok false →
  (route sha256 range (requirePermission sha256 range resource action)
     (MkRequest ip ("Bearer " +:+ AccessToken p) "") w1).1 =
  Ok (if roleAllows r resource action then Next (Some (MkUser u "" u r true)) else Abort 403).
Proof.
  intros He Hj Hu Hr Hm HG w1 Htime Hl.
  destruct (generate_ok _ _ _ _ _ HG) as (_ & a & b & Ha & _). cbn [fst snd] in Ha.
  pose proof (generate_later u r (j, aSys w)) as Hlater. rewrite HG in Hlater.
  destruct Hlater as (Hsec & _ & _ & Ho & Ht). simpl in Hsec, Ho, Ht.
  set (c := tokenClaims u r "access" _ _ _) in Ha.
  destruct (authMiddleware_token sha256 range j' c (AccessToken p) ip w1) as (w2 & E & S);
    [done|done|by rewrite Hsec|by apply encodable_claims; auto using asciiOnly_hex|done| |done|].
  - intros n [Hn1 Hn2]. simpl in Hn1, Hn2. unfold datesValid. simpl. apply andb_true_iff. split.
    + apply Z.ltb_lt. by apply Htime.
    + apply Z.leb_le. rewrite Ho. unfold timeOf.
      pose proof (Hm (tick (aSys w)) n ltac:(lia)).
      pose proof (Z.mul_div_le (now (oracle (aSys w) (tick (aSys w)))) Second).
      unfold Second, Millisecond in *. lia.
  - unfold route, mbind, M_bind. rewrite E, requirePermission_spec; [done|].
    rewrite (sameKeys_enabled _ _ S). done.
Qed.

Lemma issued_token_grants_witness :
  let j := default (NewJWTService "" 0 0) (jwtService (aAuth toyAuth)) in
  let x := GenerateTokenPair "ann" "user" (j, aSys toyAuth) in
  let w1 := MkAuthWorld x.2.2 (aDB toyAuth) (setJWT (Some x.2.1) (aAuth toyAuth)) in
  let rq := MkRequest "10.0.0.1" ("Bearer " +:+ match x.1 with Ok p => AccessToken p | Err _ => "" end) "" in
  (route toySHA map_to_list (requirePermission toySHA map_to_list "files" "write") rq w1).1 =
  Ok (Next (Some (MkUser "ann" "" "ann" "user" true))).
Proof.
  intros j x w1 rq. destruct x.1 as [p|e] eqn:Ex; [|vm_compute in Ex; discriminate].
  apply (issued_token_grants toySHA map_to_list "ann" "user" "files" "write" "10.0.0.1" j x.2.1 x.2.2 p toyAuth);
    [reflexivity|reflexivity|reflexivity|reflexivity| | | |vm_compute; reflexivity].
  - intros n m Hnm. simpl. unfold Second, Millisecond. lia.
  - rewrite <-Ex, <-(surjective_pairing x.2), <-surjective_pairing. reflexivity.
  - intros n Hn. change (n ≤ 6) in Hn. apply Z.lt_le_trans with (7 * Second)%Z; [|vm_compute; discriminate].
    change (Z.of_nat n * Second < 7 * Second)%Z. unfold Second, Millisecond. lia.
Defined.
