(* ===== verification/Transfer.v ===== *)
(** * internal/service/transfer: upload, multipart upload and download sessions

    The service of service.go and multipart.go over a world that holds the
    system, the storage backend, the database, the lock service, the session
    store and the service's own maps. Each operation runs atomically. *)

From S2P Require Export Coverage Storage Metadata Sessions Crypto Timestamp.

Local Open Scope go_scope.

(** ** Data *)

(** An open handle is the path of its file. The state of a hash.Hash is what was
    written to it. *)
Record UploadSession := MkUpload {
  uSessionID : string; uFileID : string; uFilePath : string; uFileName : string;
  uTotalSize : Z; uUploadedSize : Z; uHash : string; uClientID : string;
  uStatus : string; uCreatedAt : string; uUpdatedAt : string;
  uChunkCount : Z; uTempFile : option string; uHashWriter : option bytes;
  uLastOffset : Z; uHashValid : bool; uClosed : bool
}.

Record DownloadSession := MkDownload {
  dlSessionID : string; dlFileID : string; dlFilePath : string; dlTotalSize : Z;
  dlDownloadedSize : Z; dlClientID : string; dlStatus : string; dlCreatedAt : string;
  dlUpdatedAt : string; dlChunkCount : Z; dlDecryptedTempPath : string;
  dlDecryptedFile : option string
}.

Record UploadPart := MkPart {
  PartNumber : Z; Offset : Z; Size : Z; UploadedSize : Z; PartHash : string; PartStatus : string
}.

Record MultipartUploadSession := MkMultipart {
  mSessionID : string; mFilePath : string; mFileName : string; mTotalSize : Z;
  mHash : string; mClientID : string; mStatus : string; mCreatedAt : string;
  mUpdatedAt : string; mTempFile : option string; mParts : gmap Z UploadPart;
  mUploadedSize : Z; mChunkCount : Z; mClosed : bool; mCoveredRanges : list byteRange
}.

(** What JSON keeps of a session: the exported fields. *)
Definition exportedUpload (s : UploadSession) : UploadSession :=
  MkUpload (uSessionID s) (uFileID s) (uFilePath s) (uFileName s) (uTotalSize s)
    (uUploadedSize s) (uHash s) (uClientID s) (uStatus s) (uCreatedAt s) (uUpdatedAt s)
    0 None None 0 false false.

Definition exportedDownload (s : DownloadSession) : DownloadSession :=
  MkDownload (dlSessionID s) (dlFileID s) (dlFilePath s) (dlTotalSize s) (dlDownloadedSize s)
    (dlClientID s) (dlStatus s) (dlCreatedAt s) (dlUpdatedAt s) 0 "" None.

(** The map that CreateMultipartUpload stores. *)
Record multipartInfo := MkMultipartInfo {
  session_id : string; file_path : string; file_name : string; total_size : Z;
  hash : string; client_id : string; status : string; created_at : string
}.

Inductive sessionValue :=
| SVUpload (s : UploadSession)
| SVDownload (s : DownloadSession)
| SVMultipart (m : multipartInfo).

Record FileTransferService := MkService {
  uploadSessions : gmap string UploadSession;
  downloadSessions : gmap string DownloadSession;
  multipartSessions : gmap string MultipartUploadSession;
  tempDir : string;
  cryptoSvc : option CryptoService;
  maxSessions : Z;
  sessionCount : Z
}.

Definition setUploads u (s : FileTransferService) :=
  MkService u (downloadSessions s) (multipartSessions s) (tempDir s) (cryptoSvc s)
    (maxSessions s) (sessionCount s).
Definition setDownloads d (s : FileTransferService) :=
  MkService (uploadSessions s) d (multipartSessions s) (tempDir s) (cryptoSvc s)
    (maxSessions s) (sessionCount s).
Definition setMultiparts m (s : FileTransferService) :=
  MkService (uploadSessions s) (downloadSessions s) m (tempDir s) (cryptoSvc s)
    (maxSessions s) (sessionCount s).
Definition addCount (n : Z) (s : FileTransferService) :=
  MkService (uploadSessions s) (downloadSessions s) (multipartSessions s) (tempDir s)
    (cryptoSvc s) (maxSessions s) (wrap64 (sessionCount s + n)).

Definition NewFileTransferService (tempDir : string) : FileTransferService :=
  MkService ∅ ∅ ∅ tempDir None 1000 0.

Definition SetCryptoService (c : CryptoService) (s : FileTransferService) : FileTransferService :=
  MkService (uploadSessions s) (downloadSessions s) (multipartSessions s) (tempDir s)
    (Some c) (maxSessions s) (sessionCount s).

(** ** Small parts *)

Definition suggestedPartSize (totalSize : Z) : Z :=
  if (totalSize <=? 100 * 1024 * 1024)%Z then 8 * 1024 * 1024
  else if (totalSize <=? 1024 * 1024 * 1024)%Z then 16 * 1024 * 1024
  else if (totalSize <=? 10 * 1024 * 1024 * 1024)%Z then 64 * 1024 * 1024
  else 128 * 1024 * 1024.

(** [offset+int64(len(data)) > session.TotalSize], in int64. *)
Definition beyondSize (offset : Z) (data : bytes) (totalSize : Z) : bool :=
  (totalSize <? wrap64 (offset + blen data))%Z.

(** Recording a chunk that was written. *)
Definition hashStep (offset : Z) (data : bytes) (s : UploadSession) : UploadSession :=
  let upd (w : option bytes) (last : Z) (valid : bool) :=
    MkUpload (uSessionID s) (uFileID s) (uFilePath s) (uFileName s) (uTotalSize s)
      (uUploadedSize s) (uHash s) (uClientID s) (uStatus s) (uCreatedAt s) (uUpdatedAt s)
      (uChunkCount s) (uTempFile s) w last valid (uClosed s) in
  match uHashWriter s with
  | Some h =>
      if uHashValid s then
        if (offset =? uLastOffset s)%Z
        then upd (Some (h ++ data)) (wrap64 (offset + blen data)) true
        else upd (Some h) (uLastOffset s) false
      else s
  | None => s
  end.

Definition countChunk (data : bytes) (s : UploadSession) : UploadSession :=
  MkUpload (uSessionID s) (uFileID s) (uFilePath s) (uFileName s) (uTotalSize s)
    (wrap64 (uUploadedSize s + blen data)) (uHash s) (uClientID s) (uStatus s) (uCreatedAt s)
    (uUpdatedAt s) (wrap64 (uChunkCount s + 1)) (uTempFile s) (uHashWriter s) (uLastOffset s)
    (uHashValid s) (uClosed s).

Definition touchUpload (now : string) (s : UploadSession) : UploadSession :=
  MkUpload (uSessionID s) (uFileID s) (uFilePath s) (uFileName s) (uTotalSize s)
    (uUploadedSize s) (uHash s) (uClientID s) (uStatus s) (uCreatedAt s) now
    (uChunkCount s) (uTempFile s) (uHashWriter s) (uLastOffset s) (uHashValid s) (uClosed s).

(** closed := 1 and tempFile := f *)
Definition closeUpload (f : option string) (s : UploadSession) : UploadSession :=
  MkUpload (uSessionID s) (uFileID s) (uFilePath s) (uFileName s) (uTotalSize s)
    (uUploadedSize s) (uHash s) (uClientID s) (uStatus s) (uCreatedAt s) (uUpdatedAt s)
    (uChunkCount s) f (uHashWriter s) (uLastOffset s) (uHashValid s) true.

(** A session read back from the session store. *)
Definition restoredUpload (f : option string) (s : UploadSession) : UploadSession :=
  MkUpload (uSessionID s) (uFileID s) (uFilePath s) (uFileName s) (uTotalSize s)
    (uUploadedSize s) (uHash s) (uClientID s) (uStatus s) (uCreatedAt s) (uUpdatedAt s)
    (uChunkCount s) f None (uLastOffset s) false (uClosed s).

Record CompleteUploadResult := MkCompleteResult {
  cFileID : string; HashProvided : bool; HashVerified : bool; cUploadedSize : Z;
  cStorageType : string
}.

Definition setPart (n : Z) (p : UploadPart) (ranges : list byteRange) (s : MultipartUploadSession) :=
  MkMultipart (mSessionID s) (mFilePath s) (mFileName s) (mTotalSize s) (mHash s) (mClientID s)
    (mStatus s) (mCreatedAt s) (mUpdatedAt s) (mTempFile s) (<[n := p]> (mParts s))
    (mUploadedSize s) (mChunkCount s) (mClosed s) ranges.

Definition countPart (data : bytes) (s : MultipartUploadSession) : MultipartUploadSession :=
  MkMultipart (mSessionID s) (mFilePath s) (mFileName s) (mTotalSize s) (mHash s) (mClientID s)
    (mStatus s) (mCreatedAt s) (mUpdatedAt s) (mTempFile s) (mParts s)
    (wrap64 (mUploadedSize s + blen data)) (wrap64 (mChunkCount s + 1)) (mClosed s)
    (mCoveredRanges s).

Definition touchMultipart (now : string) (s : MultipartUploadSession) : MultipartUploadSession :=
  MkMultipart (mSessionID s) (mFilePath s) (mFileName s) (mTotalSize s) (mHash s) (mClientID s)
    (mStatus s) (mCreatedAt s) now (mTempFile s) (mParts s) (mUploadedSize s) (mChunkCount s)
    (mClosed s) (mCoveredRanges s).

Definition closeMultipart (s : MultipartUploadSession) : MultipartUploadSession :=
  MkMultipart (mSessionID s) (mFilePath s) (mFileName s) (mTotalSize s) (mHash s) (mClientID s)
    (mStatus s) (mCreatedAt s) (mUpdatedAt s) (mTempFile s) (mParts s) (mUploadedSize s)
    (mChunkCount s) true (mCoveredRanges s).

(** The entry of [session.parts] after a write of part [n]. *)
Definition notePart (n offset : Z) (data : bytes) (hash : string) (old : option UploadPart)
    : UploadPart :=
  match old with
  | None => MkPart n offset (blen data) (blen data) hash "completed"
  | Some p =>
      let uploaded := wrap64 (UploadedSize p + blen data) in
      MkPart (PartNumber p) (Offset p) (Size p) uploaded hash
        (if (Size p <=? uploaded)%Z then "completed" else PartStatus p)
  end.

Definition allPartsCompleted (s : MultipartUploadSession) : bool :=
  forallb (λ kv, bool_decide (PartStatus kv.2 = "completed")) (map_to_list (mParts s)).

Definition countDownload (data : bytes) (s : DownloadSession) : DownloadSession :=
  MkDownload (dlSessionID s) (dlFileID s) (dlFilePath s) (dlTotalSize s)
    (wrap64 (dlDownloadedSize s + blen data)) (dlClientID s) (dlStatus s) (dlCreatedAt s)
    (dlUpdatedAt s) (wrap64 (dlChunkCount s + 1)) (dlDecryptedTempPath s) (dlDecryptedFile s).

Definition touchDownload (now : string) (s : DownloadSession) : DownloadSession :=
  MkDownload (dlSessionID s) (dlFileID s) (dlFilePath s) (dlTotalSize s)
    (dlDownloadedSize s) (dlClientID s) (dlStatus s) (dlCreatedAt s)
    now (dlChunkCount s) (dlDecryptedTempPath s) (dlDecryptedFile s).

Record DownloadSegment := MkSegment { sOffset : Z; sSize : Z }.

Record DownloadSegmentResult := MkSegmentResult {
  SegmentIndex : nat; rOffset : Z; Data : bytes; Error : option error
}.

(** [createdAt.Before(expiryTime)]; a timestamp that does not parse never expires. *)
Definition expired (expiryTime : Z) (createdAt : string) : bool :=
  match ParseTimestamp createdAt with
  | Some t => (t <? expiryTime)%Z
  | None => false
  end.

(** [time.Now().Add(-time.Duration(maxAgeSeconds) * time.Second)] *)
Definition expiryOf (now maxAgeSeconds : Z) : Z :=
  (now + wrap64 (wrap64 (- maxAgeSeconds) * Second))%Z.

(** ** The world and the operations *)

Section transfer.
Context {Sg L St : Type} {T : Type → Type}.
Context `{StorageAdapter Sg} `{DistributedLock L} `{SessionStore sessionValue St}.
Context `{SqlEngine T} `{AEAD}.
(** SHA-256, and the identifiers of google/uuid by the call that made them. *)
Context (sha256 : bytes → bytes) (uuid : nat → string).

Record World := MkWorld {
  sys : Sys; store : Sg; db : DB T; dlock : L; sess : St; svc : FileTransferService
}.

Definition onStore {A} (m : M (Sg * Sys) A) : M World A := λ w,
  let '(r, (g, s)) := m (store w, sys w) in
  (r, MkWorld s g (db w) (dlock w) (sess w) (svc w)).

Definition onDB {A} (m : M (DB T * Sys) A) : M World A := λ w,
  let '(r, (d, s)) := m (db w, sys w) in
  (r, MkWorld s (store w) d (dlock w) (sess w) (svc w)).

Definition onOS {A} (m : M Sys A) : M World A := λ w,
  let '(r, s) := m (sys w) in (r, MkWorld s (store w) (db w) (dlock w) (sess w) (svc w)).

Definition onSession {A} (op : callEnv → St → res A * St) : M World A := λ w,
  let s := sys w in
  let '(r, x) := op (oracle s (tick s)) (sess w) in
  (r, MkWorld (skip 1 s) (store w) (db w) (dlock w) x (svc w)).

Definition onService (f : FileTransferService → FileTransferService) : M World unit :=
  modify (λ w, MkWorld (sys w) (store w) (db w) (dlock w) (sess w) (f (svc w))).

Definition service : M World FileTransferService := gets svc.

(** A retry loop over the lock service: attempt [i] meets the [i]th environment
    from now on, and nobody else acts between the attempts. *)
Definition lockAttempt (s : Sys) (i : nat) : attempt L :=
  Attempt (oracle s (tick s + i)) (rnd (oracle s (tick s + i))) None (λ l, l).

Definition acquire (key : string) (ttl : Z) (retryCount : Z) (retryDelay : Z) : M World string := λ w,
  let s := sys w in
  let '(r, l, _) := AcquireLock (lockAttempt s) key ttl retryCount retryDelay (dlock w) in
  (r, MkWorld (skip (Z.to_nat retryCount) s) (store w) (db w) l (sess w) (svc w)).

Definition release (key token : string) : M World unit := λ w,
  let s := sys w in
  let '(r, l) := Unlock (oracle s (tick s)) key token (dlock w) in
  (r, MkWorld (skip 1 s) (store w) (db w) l (sess w) (svc w)).

Definition nowString : M World string := onOS (λ s,
  (Ok (GetCurrentTimestamp (now (oracle s (tick s)))), skip 1 s)).

Definition GenerateUUID : M World string := onOS (λ s, (Ok (uuid (tick s)), skip 1 s)).

Definition tempPathOf (svc : FileTransferService) (sessionID suffix : string) : string :=
  PathJoin [tempDir svc; sessionID +:+ suffix].

(** [os.Remove] with its error ignored. *)
Definition rm (p : string) : M World unit := ignore (onOS (osCall (osRemove p))).

Definition setUpload (id : string) (s : UploadSession) : M World unit :=
  onService (λ v, setUploads (<[id := s]> (uploadSessions v)) v).

Definition dropUpload (id : string) : M World unit :=
  onService (λ v, setUploads (delete id (uploadSessions v)) v).

Definition acquireSessionSlot : M World bool :=
  onService (addCount 1) ⨟
  v ← service;
  if (maxSessions v <? sessionCount v)%Z
  then onService (addCount (-1)) ⨟ mret false
  else mret true.

Definition releaseSessionSlot : M World unit := onService (addCount (-1)).

(** The loop around [file.Read] of SHA256File: an I/O error ends it like the end
    of the file, without a report. *)
Definition readLoop (p : string) : M Sys bytes := λ s,
  let d := default [] (fileAt (os s) p) in
  (Ok (match net (oracle s (tick s)) with ShortRead n => take n d | _ => d end), skip 1 s).

Definition SHA256File (p : string) : M World string :=
  wrapErr "failed to open file" (onOS (osCall (osOpen p))) ⨟
  d ← onOS (readLoop p);
  mret (EncodeToString (sha256 d)).

Definition twoHours : Z := 7200 * Second.

Definition storeUpload (s : UploadSession) : M World unit :=
  ignore (onSession (λ env, SSet env "upload" (uSessionID s) (SVUpload (exportedUpload s)) twoHours)).

Definition CreateUploadSession (filePath fileName : string) (totalSize : Z)
    (clientID hash : string) : M World string :=
  ok ← acquireSessionSlot;
  guard ok (ErrMsg "maximum number of concurrent upload sessions reached") ⨟
  let filePath := NormalizePath filePath in
  sessionID ← GenerateUUID;
  now ← nowString;
  v ← service;
  let tempPath := tempPathOf v sessionID ".tmp" in
  wrapErr "failed to create temp file"
    (onError (onOS (osCall (osCreate tempPath))) releaseSessionSlot) ⨟
  (if (0 <? totalSize)%Z then
     wrapErr "failed to pre-allocate temp file"
       (onError (onOS (osCall (fTruncate tempPath totalSize)))
          (rm tempPath ⨟ releaseSessionSlot))
   else mret tt) ⨟
  let hashed := negb (bool_decide (hash = "")) in
  let session := MkUpload sessionID "" filePath fileName totalSize 0 hash clientID "active"
                   now now 0 (Some tempPath) (if hashed then Some [] else None) 0 hashed false in
  setUpload sessionID session ⨟
  storeUpload session ⨟
  mret sessionID.

(** The lookup of a session that this instance may not have: from the session
    store, with the temp file opened again. *)
Definition loadUpload (sessionID : string) : M World (option UploadSession) :=
  v ← service;
  match uploadSessions v !! sessionID with
  | Some s => mret (Some s)
  | None =>
      r ← catch (onSession (λ env, SGet env "upload" sessionID));
      match r with
      | Ok (SVUpload s) =>
          let tempPath := tempPathOf v sessionID ".tmp" in
          f ← catch (onOS (osCall (osOpen tempPath)));
          let restored := restoredUpload (if is_ok f then Some tempPath else None) s in
          setUpload sessionID restored ⨟
          mret (Some restored)
      | _ => mret None
      end
  end.

Definition uploadNotFound : error := ErrMsg "upload session not found".

Definition writeChunk (sessionID : string) (session : UploadSession) (data : bytes) (offset : Z)
    : M World unit :=
  match uTempFile session with
  | Some f => wrapErr "failed to write chunk" (onOS (osCall (fWriteAt f data offset)))
  | None =>
      v ← service;
      let tempPath := tempPathOf v sessionID ".tmp" in
      wrapErr "failed to open temp file" (onOS (osCall (osOpen tempPath))) ⨟
      wrapErr "failed to write chunk" (onOS (osCall (fWriteAt tempPath data offset)))
  end.

Definition chunkBody (sessionID : string) (data : bytes) (offset : Z) (session : UploadSession)
    : M World unit :=
  guard (negb (uClosed session)) (ErrMsg "upload session is closed") ⨟
  guard (negb (offset <? 0)%Z) (ErrMsg "invalid offset") ⨟
  guard (negb (beyondSize offset data (uTotalSize session))) (ErrMsg "write beyond file size") ⨟
  writeChunk sessionID session data offset ⨟
  let session := countChunk data (hashStep offset data session) in
  if (Z.rem (uChunkCount session) 8 =? 0)%Z then
    now ← nowString;
    let session := touchUpload now session in
    setUpload sessionID session ⨟
    storeUpload session
  else setUpload sessionID session.

Definition UploadChunk (sessionID : string) (data : bytes) (offset : Z) : M World unit :=
  s ← loadUpload sessionID;
  match s with
  | None => throw uploadNotFound
  | Some session =>
      token ← wrapErr "failed to acquire session lock"
                (acquire ("upload:" +:+ sessionID) (10 * Second) 10 (100 * Millisecond));
      deferring (chunkBody sessionID data offset session)
        (release ("upload:" +:+ sessionID) token)
  end.

(** The session ends on an error: it leaves the map and gives its slot back. *)
Definition endUpload (id : string) : M World unit := dropUpload id ⨟ releaseSessionSlot.

(** The hash check; the result says whether the hash was verified. *)
Definition verifyUpload (id tempPath : string) (session : UploadSession) : M World bool :=
  if bool_decide (uHash session = "") then mret false
  else
    computed ←
      match uHashWriter session, uHashValid session with
      | Some h, true => mret (EncodeToString (sha256 h))
      | _, _ => wrapErr "failed to compute hash"
                  (onError (SHA256File tempPath) (rm tempPath ⨟ endUpload id))
      end;
    if bool_decide (computed = uHash session) then mret true
    else rm tempPath ⨟ endUpload id ⨟ throw (ErrMsg "hash mismatch").

(** Encryption of the temp file: the path to store and the hash to record. *)
Definition encryptTemp (cleanup : M World unit) (tempPath hash : string) : M World (string * string) :=
  v ← service;
  match cryptoSvc v with
  | Some cs =>
      if IsEnabled cs then
        let encTempPath := tempPath +:+ ".enc" in
        wrapErr "failed to encrypt file"
          (onError (onOS (EncryptFile cs tempPath encTempPath)) (rm tempPath ⨟ cleanup)) ⨟
        rm tempPath ⨟
        storageHash ← wrapErr "failed to compute encrypted hash"
          (onError (SHA256File encTempPath) (rm encTempPath ⨟ cleanup));
        mret (encTempPath, storageHash)
      else mret (tempPath, hash)
  | None => mret (tempPath, hash)
  end.

(** The metadata of the stored object: update or create, by the path. *)
Definition recordFile (filePath fileName : string) (totalSize : Z) (storageHash : string)
    (onUpdateErr onCreateErr : M World unit) : M World FileMetadata :=
  now ← nowString;
  existing ← catch (onDB (FileGetByPath filePath));
  match existing with
  | Ok (Some m) =>
      let m := MkFile (fID m) (fPath m) (fName m) totalSize storageHash (fStorageType m)
                 (fStorageLocation m) (fCreatedAt m) now false in
      wrapErr "failed to update file metadata" (onError (onDB (FileUpdate m)) onUpdateErr) ⨟
      mret m
  | _ =>
      id ← GenerateUUID;
      let m := MkFile id filePath fileName totalSize storageHash StorageType "" now now false in
      wrapErr "failed to create file metadata"
        (onError (onDB (FileCreate m))
           (ignore (onStore (Remove filePath)) ⨟ onCreateErr)) ⨟
      mret m
  end.

(** [File.Sync] and [File.Close]: they can fail; the contents are in place. *)
Definition fSync : M World unit := onOS (osCall (λ o, (Ok tt, o))).
Definition fClose : M World unit := onOS (osCall (λ o, (Ok tt, o))).

Definition closeTemp (id : string) (session : UploadSession) : M World unit :=
  match uTempFile session with
  | None => mret tt
  | Some f =>
      v ← service;
      wrapErr "failed to sync temp file"
        (onError fSync (rm (tempPathOf v id ".tmp") ⨟ endUpload id)) ⨟
      wrapErr "failed to close temp file" (onError fClose (endUpload id))
  end.

Definition CompleteUpload (sessionID : string) : M World CompleteUploadResult :=
  s ← loadUpload sessionID;
  match s with
  | None => throw uploadNotFound
  | Some session =>
      guard (uUploadedSize session =? uTotalSize session)%Z (ErrMsg "upload incomplete") ⨟
      setUpload sessionID (closeUpload (uTempFile session) session) ⨟
      closeTemp sessionID session ⨟
      setUpload sessionID (closeUpload None session) ⨟
      v ← service;
      let tempPath := tempPathOf v sessionID ".tmp" in
      verified ← verifyUpload sessionID tempPath session;
      enc ← encryptTemp (endUpload sessionID) tempPath (uHash session);
      let '(storageTempPath, storageHash) := enc in
      let lockKey := "file:" +:+ uFilePath session in
      token ← wrapErr "failed to acquire lock for file"
        (onError (acquire lockKey (10 * Second) 30 (50 * Millisecond))
           (rm storageTempPath ⨟ endUpload sessionID));
      deferring
        (wrapErr "failed to write file from temp"
           (onError (onStore (WriteFromTempFile (uFilePath session) storageTempPath))
              (rm storageTempPath ⨟ endUpload sessionID)) ⨟
         meta ← recordFile (uFilePath session) (uFileName session) (uTotalSize session)
                    storageHash (endUpload sessionID) (endUpload sessionID);
         endUpload sessionID ⨟
         rm storageTempPath ⨟
         ignore (onSession (λ env, SDelete env "upload" sessionID)) ⨟
         mret (MkCompleteResult (fID meta) (negb (bool_decide (uHash session = ""))) verified
                 (uTotalSize session) StorageType))
        (release lockKey token)
  end.

Definition AbortUpload (sessionID : string) : M World unit :=
  v ← service;
  match uploadSessions v !! sessionID with
  | None => throw uploadNotFound
  | Some _ =>
      endUpload sessionID ⨟
      rm (tempPathOf v sessionID ".tmp") ⨟
      ignore (onSession (λ env, SDelete env "upload" sessionID))
  end.

Definition GetUploadSession (sessionID : string) : M World UploadSession :=
  v ← service;
  match uploadSessions v !! sessionID with
  | Some s => mret s
  | None =>
      r ← catch (onSession (λ env, SGet env "upload" sessionID));
      match r with
      | Ok (SVUpload s) => mret s
      | _ => throw uploadNotFound
      end
  end.

Definition GetUploadProgress (sessionID : string) : M World Z :=
  v ← service;
  mret (match uploadSessions v !! sessionID with Some s => uUploadedSize s | None => 0%Z end).

(** ** Multipart uploads *)

Definition setMultipart (id : string) (s : MultipartUploadSession) : M World unit :=
  onService (λ v, setMultiparts (<[id := s]> (multipartSessions v)) v).

Definition endMultipart (id : string) : M World unit :=
  onService (λ v, setMultiparts (delete id (multipartSessions v)) v) ⨟ releaseSessionSlot.

Definition multipartNotFound : error := ErrMsg "multipart upload session not found".

Definition CreateMultipartUpload (filePath fileName : string) (totalSize : Z)
    (clientID hash : string) : M World (string * Z) :=
  ok ← acquireSessionSlot;
  guard ok (ErrMsg "maximum number of concurrent upload sessions reached") ⨟
  let filePath := NormalizePath filePath in
  sessionID ← GenerateUUID;
  now ← nowString;
  v ← service;
  let tempPath := tempPathOf v sessionID ".tmp" in
  wrapErr "failed to create temp file"
    (onError (onOS (osCall (osCreate tempPath))) releaseSessionSlot) ⨟
  wrapErr "failed to pre-allocate temp file"
    (onError (onOS (osCall (fTruncate tempPath totalSize)))
       (rm tempPath ⨟ releaseSessionSlot)) ⨟
  let partSize := suggestedPartSize totalSize in
  setMultipart sessionID
    (MkMultipart sessionID filePath fileName totalSize hash clientID "active" now now
       (Some tempPath) ∅ 0 0 false []) ⨟
  ignore (onSession (λ env, SSet env "multipart_upload" sessionID
    (SVMultipart (MkMultipartInfo sessionID filePath fileName totalSize hash clientID "active" now))
    twoHours)) ⨟
  mret (sessionID, partSize).

Definition UploadPartData (sessionID : string) (partNumber offset : Z) (data : bytes)
    : M World unit :=
  v ← service;
  match multipartSessions v !! sessionID with
  | None => throw multipartNotFound
  | Some session =>
      guard (negb (mClosed session)) (ErrMsg "multipart upload session is closed") ⨟
      guard (bool_decide (mStatus session = "active"))
        (ErrMsg "multipart upload session is not active") ⨟
      guard (negb (10000 <? partNumber)%Z) (ErrMsg "part number too large") ⨟
      guard (negb (offset <? 0)%Z) (ErrMsg "invalid offset") ⨟
      guard (negb (beyondSize offset data (mTotalSize session)))
        (ErrMsg "write beyond file size") ⨟
      wrapErr "failed to write part data"
        (match mTempFile session with
         | Some f => onOS (osCall (fWriteAt f data offset))
         | None => throw (ErrMsg "invalid argument")
         end) ⨟
      let part := notePart partNumber offset data (EncodeToString (sha256 data))
                    (mParts session !! partNumber) in
      let ranges := addCoveredRange (mCoveredRanges session) offset (wrap64 (offset + blen data)) in
      let session := countPart data (setPart partNumber part ranges session) in
      if (Z.rem (mChunkCount session) 8 =? 0)%Z then
        now ← nowString; setMultipart sessionID (touchMultipart now session)
      else setMultipart sessionID session
  end.

Definition verifyMultipart (id tempPath hash : string) : M World unit :=
  if bool_decide (hash = "") then mret tt
  else
    computed ← wrapErr "failed to compute hash"
      (onError (SHA256File tempPath) (rm tempPath ⨟ endMultipart id));
    if bool_decide (computed = hash) then mret tt
    else rm tempPath ⨟ endMultipart id ⨟ throw (ErrMsg "hash mismatch").

Definition CompleteMultipartUpload (sessionID : string) : M World unit :=
  v ← service;
  match multipartSessions v !! sessionID with
  | None => throw multipartNotFound
  | Some session =>
      let tempPath := tempPathOf v sessionID ".tmp" in
      let fail := rm tempPath ⨟ endMultipart sessionID in
      guard (mUploadedSize session =? mTotalSize session)%Z (ErrMsg "upload incomplete") ⨟
      guard (isFullyCovered (mCoveredRanges session) (mTotalSize session))
        (ErrMsg "upload incomplete: byte range coverage has gaps or overlaps") ⨟
      guard (allPartsCompleted session) (ErrMsg "part is not completed") ⨟
      setMultipart sessionID (closeMultipart session) ⨟
      wrapErr "failed to sync temp file" (onError fSync fail) ⨟
      wrapErr "failed to close temp file" (onError fClose fail) ⨟
      verifyMultipart sessionID tempPath (mHash session) ⨟
      enc ← encryptTemp (endMultipart sessionID) tempPath (mHash session);
      let '(storageTempPath, storageHash) := enc in
      let fail := rm storageTempPath ⨟ endMultipart sessionID in
      let lockKey := "file:" +:+ mFilePath session in
      token ← wrapErr "failed to acquire lock for file"
        (onError (acquire lockKey (10 * Second) 30 (50 * Millisecond)) fail);
      deferring
        (wrapErr "failed to write file from temp"
           (onError (onStore (WriteFromTempFile (mFilePath session) storageTempPath)) fail) ⨟
         recordFile (mFilePath session) (mFileName session) (mTotalSize session)
           storageHash fail fail ⨟
         endMultipart sessionID ⨟
         rm storageTempPath ⨟
         ignore (onSession (λ env, SDelete env "multipart_upload" sessionID)))
        (release lockKey token)
  end.

Definition AbortMultipartUpload (sessionID : string) : M World unit :=
  v ← service;
  match multipartSessions v !! sessionID with
  | None => throw multipartNotFound
  | Some _ =>
      endMultipart sessionID ⨟
      rm (tempPathOf v sessionID ".tmp") ⨟
      ignore (onSession (λ env, SDelete env "multipart_upload" sessionID))
  end.

Definition GetMultipartUploadSession (sessionID : string) : M World MultipartUploadSession :=
  v ← service;
  match multipartSessions v !! sessionID with
  | None => throw multipartNotFound
  | Some session => mret session
  end.

Definition GetMultipartUploadProgress (sessionID : string) : M World (Z * Z * nat) :=
  v ← service;
  match multipartSessions v !! sessionID with
  | None => mret (0%Z, 0%Z, 0%nat)
  | Some s =>
      mret (mUploadedSize s, mTotalSize s,
            length (filter (λ kv, PartStatus kv.2 = "completed") (map_to_list (mParts s))))
  end.

(** ** Downloads *)

Definition setDownload (id : string) (s : DownloadSession) : M World unit :=
  onService (λ v, setDownloads (<[id := s]> (downloadSessions v)) v).

Definition dropDownload (id : string) : M World unit :=
  onService (λ v, setDownloads (delete id (downloadSessions v)) v).

Definition storeDownload (s : DownloadSession) : M World unit :=
  ignore (onSession (λ env, SSet env "download" (dlSessionID s) (SVDownload (exportedDownload s))
    twoHours)).

(** The plaintext of an encrypted object, in a temp file: its path and size. *)
Definition decryptTemp (cs : CryptoService) (filePath encTempPath decTempPath : string)
    : M World (option Z) :=
  wrapErr "failed to create temp file for encrypted data" (onOS (osCall (osCreate encTempPath))) ⨟
  d ← wrapErr "failed to open encrypted file from storage"
    (onError (onStore (OpenReader filePath)) (rm encTempPath));
  wrapErr "failed to stream encrypted file"
    (onError (onOS (osCall (osWriteFile encTempPath d))) (rm encTempPath)) ⨟
  wrapErr "failed to decrypt file"
    (onError (onOS (DecryptFileStreaming cs encTempPath decTempPath)) (rm encTempPath)) ⨟
  rm encTempPath ⨟
  wrapErr "failed to open decrypted temp file"
    (onError (onOS (osCall (osOpen decTempPath))) (rm decTempPath)) ⨟
  r ← catch (onOS (osCall (osReadFile decTempPath)));
  mret (match r with Ok d => Some (blen d) | Err _ => None end).

Definition CreateDownloadSession (filePath clientID : string) : M World string :=
  let filePath := NormalizePath filePath in
  m ← wrapErr "failed to get file metadata" (onDB (FileGetByPath filePath));
  match m with
  | None => throw (ErrMsg "file not found")
  | Some meta =>
      sessionID ← GenerateUUID;
      now ← nowString;
      v ← service;
      let plain total path file :=
        MkDownload sessionID (fID meta) filePath total 0 clientID "active" now now 0 path file in
      session ←
        match cryptoSvc v with
        | Some cs =>
            if IsEnabled cs then
              let encTempPath := tempPathOf v sessionID ".enc" in
              let decTempPath := tempPathOf v sessionID ".dec" in
              size ← decryptTemp cs filePath encTempPath decTempPath;
              mret (plain (default (fSize meta) size) decTempPath (Some decTempPath))
            else mret (plain (fSize meta) "" None)
        | None => mret (plain (fSize meta) "" None)
        end;
      setDownload sessionID session ⨟
      storeDownload session ⨟
      mret sessionID
  end.

Definition downloadNotFound : error := ErrMsg "download session not found".

Definition loadDownload (sessionID : string) : M World (option DownloadSession) :=
  v ← service;
  match downloadSessions v !! sessionID with
  | Some s => mret (Some s)
  | None =>
      r ← catch (onSession (λ env, SGet env "download" sessionID));
      match r with
      | Ok (SVDownload s) => setDownload sessionID s ⨟ mret (Some s)
      | _ => mret None
      end
  end.

Definition DownloadChunk (sessionID : string) (size offset : Z) : M World bytes :=
  s ← loadDownload sessionID;
  match s with
  | None => throw downloadNotFound
  | Some session =>
      guard (negb (offset <? 0)%Z) (ErrMsg "invalid offset") ⨟
      guard (negb (dlTotalSize session <=? offset)%Z) (ErrMsg "offset beyond file size") ⨟
      data ←
        match dlDecryptedFile session with
        | Some f =>
            (* make([]byte, size) panics *)
            guard (negb (size <? 0)%Z) (ErrMsg "panic: makeslice: len out of range") ⨟
            wrapErr "failed to read decrypted chunk"
              (onOS (osCall (fReadAt f (Z.to_nat size) offset)))
        | None => wrapErr "failed to read file chunk"
                    (onStore (ReadAt (dlFilePath session) size offset))
        end;
      let session := countDownload data session in
      (if (Z.rem (dlChunkCount session) 8 =? 0)%Z then
         now ← nowString;
         let session := touchDownload now session in
         setDownload sessionID session ⨟
         storeDownload session
       else setDownload sessionID session) ⨟
      mret data
  end.

(** CompleteDownload and AbortDownload, but for the status of the dropped session. *)
Definition endDownload (sessionID : string) : M World unit :=
  v ← service;
  match downloadSessions v !! sessionID with
  | None => throw downloadNotFound
  | Some session =>
      (if bool_decide (dlDecryptedTempPath session = "") then mret tt
       else rm (dlDecryptedTempPath session)) ⨟
      dropDownload sessionID ⨟
      ignore (onSession (λ env, SDelete env "download" sessionID))
  end.

Definition CompleteDownload : string → M World unit := endDownload.
Definition AbortDownload : string → M World unit := endDownload.

(** The goroutines of the segments run their DownloadChunk in the order
    [schedule]; each stores its result at its own index. *)
Definition downloadSegment (sessionID : string) (segments : list DownloadSegment)
    (results : list (option DownloadSegmentResult)) (idx : nat)
    : M World (list (option DownloadSegmentResult)) :=
  match segments !! idx with
  | None => mret results
  | Some seg =>
      r ← catch (DownloadChunk sessionID (sSize seg) (sOffset seg));
      let '(data, err) := match r with Ok d => (d, None) | Err e => ([], Some e) end in
      mret (<[idx := Some (MkSegmentResult idx (sOffset seg) data err)]> results)
  end.

Fixpoint runSegments (sessionID : string) (segments : list DownloadSegment)
    (schedule : list nat) (results : list (option DownloadSegmentResult))
    : M World (list (option DownloadSegmentResult)) :=
  match schedule with
  | [] => mret results
  | idx :: schedule =>
      results ← downloadSegment sessionID segments results idx;
      runSegments sessionID segments schedule results
  end.

Definition ParallelDownloadChunks (sessionID : string) (segments : list DownloadSegment)
    (schedule : list nat) : M World (list (option DownloadSegmentResult)) :=
  runSegments sessionID segments schedule (replicate (length segments) None).

(** ** Expiry *)

Fixpoint forEach {A} (f : A → M World unit) (l : list A) : M World unit :=
  match l with
  | [] => mret tt
  | x :: l => f x ⨟ forEach f l
  end.

Definition expireUpload (expiryTime : Z) (kv : string * UploadSession) : M World unit :=
  if expired expiryTime (uCreatedAt kv.2) then
    v ← service;
    rm (tempPathOf v kv.1 ".tmp") ⨟
    endUpload kv.1 ⨟
    ignore (onSession (λ env, SDelete env "upload" kv.1))
  else mret tt.

Definition expireDownload (expiryTime : Z) (kv : string * DownloadSession) : M World unit :=
  if expired expiryTime (dlCreatedAt kv.2) then
    (if bool_decide (dlDecryptedTempPath kv.2 = "") then mret tt
     else rm (dlDecryptedTempPath kv.2)) ⨟
    dropDownload kv.1 ⨟
    ignore (onSession (λ env, SDelete env "download" kv.1))
  else mret tt.

Definition expireMultipart (expiryTime : Z) (kv : string * MultipartUploadSession)
    : M World unit :=
  if expired expiryTime (mCreatedAt kv.2) then
    v ← service;
    rm (tempPathOf v kv.1 ".tmp") ⨟
    endMultipart kv.1 ⨟
    ignore (onSession (λ env, SDelete env "multipart_upload" kv.1))
  else mret tt.

Definition CleanupExpiredSessions (maxAgeSeconds : Z) : M World unit :=
  env ← onOS nextEnv;
  let expiryTime := expiryOf (now env) maxAgeSeconds in
  v ← service;
  forEach (expireUpload expiryTime) (map_to_list (uploadSessions v)) ⨟
  forEach (expireDownload expiryTime) (map_to_list (downloadSessions v)) ⨟
  forEach (expireMultipart expiryTime) (map_to_list (multipartSessions v)).

Definition SetTempDir (dir : string) : M World unit :=
  if bool_decide (dir = "") then mret tt
  else
    wrapErr "failed to create configured temp directory" (onOS (osCall (osMkdirAll dir))) ⨟
    onService (λ v, MkService (uploadSessions v) (downloadSessions v) (multipartSessions v) dir
                      (cryptoSvc v) (maxSessions v) (sessionCount v)).

End transfer.
Arguments World : clear implicits.
#[global] Arguments PathJoin : simpl never.

(** ** What the parts of an operation leave alone *)

Section effects.
Context {Sg L St : Type} {T : Type → Type}.
Context `{StorageAdapter Sg} `{DistributedLock L} `{SessionStore sessionValue St}.
Context `{SqlEngine T} `{AEAD}.
Notation World := (World Sg L St T).

(** Only the files in [P] and the tables of sessions can change. *)
Definition mild (P : string → Prop) (w w' : World) : Prop :=
  store w' = store w ∧ db w' = db w ∧
  (tempDir (svc w') = tempDir (svc w) ∧ oracle (sys w') = oracle (sys w)) ∧
  cryptoSvc (svc w') = cryptoSvc (svc w) ∧
  ∀ q, ¬ P q → fileAt (os (sys w')) q = fileAt (os (sys w)) q.

(** Moreover the tables of sessions stay. *)
Definition calm (P : string → Prop) (w w' : World) : Prop := mild P w w' ∧ svc w' = svc w.

#[export] Instance mild_preorder P : PreOrder (mild P).
Proof.
  split; [intros w; unfold mild; by split_and!|]. intros w1 w2 w3 (? & ? & [? ?] & ? & H12) (? & ? & [? ?] & ? & H23).
  split_and!; [congruence..|]. intros q Hq. by rewrite H23, H12.
Qed.

#[export] Instance calm_preorder P : PreOrder (calm P).
Proof.
  split; [by split|]. intros w1 w2 w3 [? ?] [? ?]. split; [by etrans|congruence].
Qed.

Lemma calm_mild {A} P (m : M World A) : steps (calm P) m → steps (mild P) m.
Proof. intros Hm w. apply Hm. Qed.

Lemma mild_mono (P Q : string → Prop) w w' : (∀ q, P q → Q q) → mild P w w' → mild Q w w'.
Proof. intros HPQ (? & ? & [? ?] & ? & Hf). split_and!; [done..|]. intros q Hq. apply Hf. auto. Qed.

Lemma calm_none {A} P (m : M World A) : steps (calm none) m → steps (calm P) m.
Proof. intros Hm w. destruct (Hm w). split; [|done]. eapply mild_mono; [|done]. done. Qed.

Lemma calm_osCall {A} P (op : OS → res A * OS) :
  (∀ o q, ¬ P q → fileAt (op o).2 q = fileAt o q) → steps (calm P) (onOS (osCall op)).
Proof.
  intros Hop w. unfold onOS. pose proof (osCall_os op (sys w)) as Ho.
  pose proof (osCall_oracle op (sys w)) as Hor.
  destruct (osCall op (sys w)) as [r s]. simpl in *. split; [|done]. split_and!; [done..|].
  intros q Hq. simpl. destruct Ho as [->| ->]; auto.
Qed.

Lemma calm_onSession {A} P (op : callEnv → St → res A * St) : steps (calm P) (onSession op).
Proof. intros w. unfold onSession. destruct (op _ _). by split. Qed.

Lemma calm_acquire P key ttl n delay : steps (calm P) (acquire key ttl n delay).
Proof.
  intros w. unfold acquire. destruct (AcquireLock _ _ _ _ _ _) as [[? ?] ?]. by split.
Qed.

Lemma calm_release P key token : steps (calm P) (release key token).
Proof. intros w. unfold release. destruct (Unlock _ _ _ _). by split. Qed.

Lemma calm_nowString P : steps (calm P) nowString.
Proof. intros w. by split. Qed.

Lemma calm_uuid P uuid : steps (calm P) (GenerateUUID uuid).
Proof. intros w. by split. Qed.

Lemma calm_service P : steps (calm P) service.
Proof. intros w. by split. Qed.

Lemma calm_rm (P : string → Prop) p : P p → steps (calm P) (rm p).
Proof.
  intros HP. apply steps_ignore, calm_osCall. intros o q Hq.
  apply fileAt_remove. by intros ->.
Qed.

Lemma calm_sync P : steps (calm P) fSync.
Proof. apply calm_osCall. done. Qed.

Lemma calm_close P : steps (calm P) fClose.
Proof. apply calm_osCall. done. Qed.

Lemma calm_nextEnv P : steps (calm P) (onOS nextEnv).
Proof. intros w. by split. Qed.

Lemma mild_onService P f :
  (∀ v, tempDir (f v) = tempDir v ∧ cryptoSvc (f v) = cryptoSvc v) →
  steps (mild P) (onService f).
Proof. intros Hf w. destruct (Hf (svc w)). unfold mild. by split_and!. Qed.

Lemma onOS_bind {A B} (m : M Sys A) (f : A → M Sys B) (w : World) :
  onOS (m ≫= f) w = (onOS m ≫= λ a, onOS (f a)) w.
Proof. unfold onOS, mbind, M_bind. by destruct (m (sys w)) as [[a|e] s]. Qed.

Lemma onOS_wrapErr {A} msg (m : M Sys A) (w : World) :
  onOS (wrapErr msg m) w = wrapErr msg (onOS m) w.
Proof. unfold onOS, wrapErr. by destruct (m (sys w)). Qed.

Lemma steps_ext {A} (R : World → World → Prop) (m m' : M World A) :
  (∀ w, m w = m' w) → steps R m' → steps R m.
Proof. intros He Hm w. rewrite He. apply Hm. Qed.

Definition osOnly (P : string → Prop) (s s' : Sys) : Prop :=
  oracle s' = oracle s ∧ ∀ q, ¬ P q → fileAt (os s') q = fileAt (os s) q.

#[export] Instance osOnly_preorder P : PreOrder (osOnly P).
Proof.
  split; [by intros s|]. intros s1 s2 s3 [? H12] [? H23]. split; [congruence|].
  intros q Hq. by rewrite H23, H12.
Qed.

Lemma calm_osStep {A} P (m : M Sys A) : steps (osOnly P) m → steps (calm P) (onOS m).
Proof.
  intros Hm w. unfold onOS. specialize (Hm (sys w)). destruct (m (sys w)) as [r s].
  destruct Hm as [? Hf]. split; [|done]. split_and!; [done..|]. apply Hf.
Qed.

Lemma osOnly_osCall {A} P (op : OS → res A * OS) :
  (∀ o q, ¬ P q → fileAt (op o).2 q = fileAt o q) → steps (osOnly P) (osCall op).
Proof.
  intros Hop s. split; [apply osCall_oracle|]. intros q Hq.
  destruct (osCall_os op s) as [->| ->]; auto.
Qed.

Lemma osOnly_nextEnv P : steps (osOnly P) nextEnv.
Proof. by intros s. Qed.

Lemma calm_readLoop P p : steps (calm P) (onOS (readLoop p)).
Proof. by apply calm_osStep. Qed.

Lemma calm_EncryptFile (P : string → Prop) cs p q : P q → steps (calm P) (onOS (EncryptFile cs p q)).
Proof.
  intros HP. apply calm_osStep. apply (steps_bind (osOnly P)).
  { apply steps_wrapErr, osOnly_osCall. done. }
  intros d. apply (steps_bind (osOnly P)); [apply osOnly_nextEnv|]. intros env.
  apply (steps_bind (osOnly P)); [apply steps_wrapErr, steps_lift, _|]. intros e.
  apply steps_wrapErr, osOnly_osCall. intros o q' Hq'. apply fileAt_writeFile. by intros ->.
Qed.

Lemma calm_DecryptFileStreaming (P : string → Prop) cs p q :
  P q → steps (calm P) (onOS (DecryptFileStreaming cs p q)).
Proof.
  intros HP. apply calm_osStep. apply (steps_bind (osOnly P)).
  { apply steps_wrapErr, osOnly_osCall. done. }
  intros _. apply (steps_bind (osOnly P)); [apply steps_wrapErr, osOnly_osCall; done|].
  intros d. apply (steps_bind (osOnly P)); [apply steps_wrapErr, steps_lift, _|].
  intros e. apply steps_wrapErr, osOnly_osCall. intros o q' Hq'.
  apply fileAt_writeFile. by intros ->.
Qed.
End effects.

#[export] Hint Resolve calm_onSession calm_acquire calm_release calm_nowString calm_uuid
  calm_service calm_sync calm_close calm_nextEnv calm_readLoop : steps.
