(* ===== verification/Commit.v ===== *)
(** * Committing an upload: from the temp file to the object and its metadata

    CompleteUpload and CompleteMultipartUpload end in the same way: encrypt the
    temp file, store it under the file's path, record the metadata, clean up.
    The lemmas here follow the bytes through these steps. *)

From S2P Require Export Transfer.

Local Open Scope go_scope.

Lemma safe_normal k : safe k → NormalizePath k = k.
Proof. intros (segs & Hne & Ho & ->). by apply Normalize_Join. Qed.

Section commit.
Context {Sg L St : Type} {T : Type → Type}.
Context `{StorageLaws Sg} `{DistributedLock L} `{SessionStore sessionValue St}.
Context `{SqlLaws T} `{AEADLaws}.
Context (sha256 : bytes → bytes) (uuid : nat → string).
Notation World := (World Sg L St T).

(** No read of a local file breaks off. *)
Definition wholeReads (w : World) : Prop := ∀ n k, net (oracle (sys w) n) ≠ ShortRead k.

(** The temp file [p] holds [d], in a world where the components are intact. *)
Definition held (cs : option CryptoService) (p : string) (d : bytes) (w : World) : Prop :=
  storeInv (store w) ∧ dbOk (db w) ∧ outside (store w) p ∧ (cryptoSvc (svc w) = cs ∧ wholeReads w) ∧
  fileAt (os (sys w)) p = Some d.

Lemma wholeReads_mild P w w' : mild P w w' → wholeReads w → wholeReads w'.
Proof. intros (_ & _ & [_ Hor] & _). unfold wholeReads. by rewrite Hor. Qed.

Lemma held_mild cs P p d w w' : ¬ P p → mild P w w' → held cs p d w → held cs p d w'.
Proof.
  intros HP Hm (? & ? & ? & [? Hw] & ?). apply (wholeReads_mild _ _ _ Hm) in Hw.
  destruct Hm as (Hst & Hdb & _ & Hc & Hf).
  unfold held. rewrite Hst, Hdb, Hc, Hf by done. by split_and!.
Qed.

Lemma hoare_held {A} cs P p d (m : M World A) :
  ¬ P p → steps (mild P) m → hoare (held cs p d) m (λ _, held cs p d).
Proof. intros HP Hm. eapply hoare_steps; [done|]. intros w w' Hw Hr. by eapply held_mild. Qed.

(** The bytes [e] and the hash [h'] that stand for the plaintext [d] of an upload
    with hash [h]. *)
Definition storedAs (cs : option CryptoService) (d : bytes) (h : string) (e : bytes) (h' : string)
    : Prop :=
  match cs with
  | Some c => if IsEnabled c then Decrypt c e = Ok d ∧ h' = EncodeToString (sha256 e)
              else e = d ∧ h' = h
  | None => e = d ∧ h' = h
  end.

Lemma onOS_ok {A} (m : M Sys A) (w : World) r w' :
  onOS m w = (r, w') →
  ∃ s, m (sys w) = (r, s) ∧ w' = MkWorld s (store w) (db w) (dlock w) (sess w) (svc w).
Proof. unfold onOS. destruct (m (sys w)) as [r' s]. intros [= -> <-]. eauto. Qed.

Lemma onOS_osCall_ok {A} (op : OS → res A * OS) (w : World) a w' :
  onOS (osCall op) w = (Ok a, w') → op (os (sys w)) = (Ok a, os (sys w')).
Proof. intros (s & Hs & ->)%onOS_ok. by apply osCall_ok. Qed.

Lemma SHA256File_ok cs p (w : World) x w' d :
  held cs p d w → SHA256File sha256 p w = (Ok x, w') → x = EncodeToString (sha256 d).
Proof.
  intros Hh Hr. unfold SHA256File in Hr. run_ok Hr. subst.
  eapply (hoare_held cs none p d) in Hr0; [|done|by apply calm_mild, calm_osCall|done].
  destruct Hr0 as (_ & _ & _ & [_ Hw] & Hf). apply onOS_ok in Hr1 as (s & [= <- _] & _).
  rewrite Hf. simpl. by destruct (net _) eqn:En; [..|by destruct (Hw _ _ En)].
Qed.

Lemma SHA256File_calm P p : steps (calm P) (SHA256File (Sg := Sg) (L := L) (St := St) (T := T) sha256 p).
Proof. unfold SHA256File. steps_auto. by apply calm_osCall. Qed.

(** Encryption writes a file from which decryption recovers the plaintext. *)
Lemma EncryptFile_ok cs p q d (s s' : Sys) :
  fileAt (os s) p = Some d → EncryptFile cs p q s = (Ok tt, s') →
  ∃ e, fileAt (os s') q = Some e ∧ Decrypt cs e = Ok d.
Proof.
  intros Hd Hr. unfold EncryptFile in Hr. run_ok Hr. subst.
  apply osCall_ok in Hr0, Hr. unfold osReadFile in Hr0. unfold fileAt in Hd.
  destruct (os s !! p) as [[]|]; simplify_eq. apply osWriteFile_ok in Hr.
  eexists. split; [exact Hr|]. eapply decrypt_encrypt; [apply length_nonceOf|done].
Qed.

Lemma hash_enc_ne (p : string) : p ≠ p +:+ ".enc".
Proof.
  intros Heq. apply (f_equal slen) in Heq. rewrite slen_append in Heq. simpl in Heq. lia.
Qed.

Lemma encryptTemp_spec cs p d h cleanup :
  hoare (λ w, held cs p d w ∧ outside (store w) (p +:+ ".enc"))
    (encryptTemp sha256 cleanup p h)
    (λ x w, ∃ e, held cs x.1 e w ∧ storedAs cs d h e x.2).
Proof.
  intros w x w' [Hh Hout] Hr. unfold encryptTemp in Hr.
  apply bind_ok in Hr as (v & w1 & Hv & Hr). unfold service in Hv. run_ok Hv. subst.
  destruct Hh as (Hi & Hdb & Ho & [Hc Hw] & Hf). rewrite Hc in Hr. unfold storedAs.
  destruct cs as [c|]; [destruct (IsEnabled c) eqn:Ee|];
    [|run_ok Hr; subst; exists d; by repeat split..].
  run_ok Hr. subst. simpl.
  pose proof (calm_EncryptFile (eq (p +:+ ".enc")) c p (p +:+ ".enc") eq_refl w)
    as [(_ & _ & [_ Hor] & _) _]. rewrite Hr0 in Hor.
  apply onOS_ok in Hr0 as (s & Hs & ->). destruct x0.
  destruct (EncryptFile_ok c p (p +:+ ".enc") d (sys w) s Hf Hs) as (e & He & Hdec).
  eapply (hoare_held (Some c) (eq p) (p +:+ ".enc") e (rm p)) in Hr1;
    [|apply hash_enc_ne|by apply calm_mild, calm_rm|].
  2: { simpl in Hor. unfold held, wholeReads. simpl. rewrite Hor. by split_and!. }
  exists e. split; [|split; [done|]].
  - eapply (hoare_held (Some c) none); [done| |done|exact Hr2].
    apply calm_mild, SHA256File_calm.
  - by eapply SHA256File_ok.
Qed.

(** The object under [fp] is [e]; the temp file [p] no longer matters. *)
Definition kept (fp p : string) (e : bytes) (w : World) : Prop :=
  storeInv (store w) ∧ dbOk (db w) ∧ outside (store w) p ∧
  object (store w) (os (sys w)) fp = Some e.

(** The metadata [m] of [fp] says so. *)
Definition recordedAs (fp : string) (total : Z) (h : string) (m : FileMetadata) (w : World) : Prop :=
  fview (db w) fp = Some m ∧ fPath m = fp ∧ fSize m = total ∧ fHash m = h.

Definition recorded (fp : string) (total : Z) (h id : string) (w : World) : Prop :=
  ∃ m, recordedAs fp total h m w ∧ fID m = id.

Lemma kept_mild fp p e w w' : safe fp → mild (eq p) w w' → kept fp p e w → kept fp p e w'.
Proof.
  intros Hs (Hst & Hdb & _ & _ & Hf) (? & ? & Ho & Hob). unfold kept. rewrite Hst, Hdb.
  split_and!; [done..|]. rewrite (object_local _ (os (sys w))); [done..|].
  intros q Hq. apply Hf. by intros <-.
Qed.

Lemma recordedAs_mild P fp total h m w w' :
  mild P w w' → recordedAs fp total h m w → recordedAs fp total h m w'.
Proof. intros (_ & Hdb & _). unfold recordedAs. by rewrite Hdb. Qed.

Lemma store_temp cs fp p e :
  safe fp → hoare (held cs p e) (onStore (WriteFromTempFile fp p)) (λ _, kept fp p e).
Proof.
  intros Hs w [] w' (Hi & Hdb & Ho & _ & Hf) Hr. unfold onStore in Hr.
  pose proof (write_temp_spec fp p e (store w, sys w) Hi Hs Ho Hf) as Hw.
  destruct (WriteFromTempFile _ _ _) as [r [g s]]. injection Hr as -> <-.
  destruct Hw as [(Hi' & Hout & _) Hob]. simpl in *. unfold kept; simpl. rewrite Hout.
  split_and!; auto.
Qed.

Lemma onDB_ok {A} (m : M (DB T * Sys) A) (w : World) r w' :
  onDB m w = (r, w') →
  ∃ d s, m (db w, sys w) = (r, (d, s)) ∧ w' = MkWorld s (store w) d (dlock w) (sess w) (svc w).
Proof. unfold onDB. destruct (m (db w, sys w)) as [r' [d s]]. intros [= -> <-]. eauto. Qed.

(** A statement that keeps the constraints keeps the object. *)
Lemma kept_db ps fp p e w d s :
  dbFrame ps (db w, sys w) (d, s) → kept fp p e w →
  kept fp p e (MkWorld s (store w) d (dlock w) (sess w) (svc w)).
Proof.
  intros Hf (Hi & Hdb & Ho & Hob). destruct (Hf Hdb) as (? & Hos & _). simpl in *.
  unfold kept; simpl. by rewrite Hos.
Qed.

Lemma recordFile_create fp p e name total h now id w d s :
  safe fp → kept fp p e w →
  let m := MkFile id fp name total h StorageType "" now now false in
  FileCreate m (db w, sys w) = (Ok tt, (d, s)) →
  let w' := MkWorld s (store w) d (dlock w) (sess w) (svc w) in
  kept fp p e w' ∧ recordedAs fp total h m w'.
Proof.
  intros Hs Hk m Hr.
  pose proof (file_create_spec (MkFile id fp name total h StorageType "" now now false)
    (db w, sys w) (proj1 (proj2 Hk)) eq_refl) as Hc.
  fold m in Hc. rewrite Hr in Hc. destruct Hc as (Hf & Hv & _). split; [by eapply kept_db|].
  specialize (Hv eq_refl). unfold createdFile in Hv. simpl in Hv.
  rewrite (safe_normal fp) in Hv by done. split; [exact Hv|done].
Qed.

Lemma recordFile_update fp p e total h now m w d s :
  kept fp p e w → fview (db w) fp = Some m →
  let m' := MkFile (fID m) (fPath m) (fName m) total h (fStorageType m)
              (fStorageLocation m) (fCreatedAt m) now false in
  FileUpdate m' (db w, sys w) = (Ok tt, (d, s)) →
  let w' := MkWorld s (store w) d (dlock w) (sess w) (svc w) in
  kept fp p e w' ∧ recordedAs fp total h m' w'.
Proof.
  intros Hk Hv m' Hr. assert (fPath m = fp) as <-.
  { apply fileAtPath_spec in Hv as (_ & ? & _); [done|apply Hk]. }
  pose proof (file_update_spec m' m (db w, sys w) (proj1 (proj2 Hk)) Hv eq_refl) as Hu.
  rewrite Hr in Hu. destruct Hu as (Hf & [[_ Hn]|[Hu _]]); [done|].
  split; [by eapply kept_db|]. specialize (Hu eq_refl). simpl in Hu. split; [exact Hu|done].
Qed.

Lemma recordFile_spec fp p e name total h onU onC :
  safe fp →
  hoare (kept fp p e) (recordFile uuid fp name total h onU onC)
    (λ m w, kept fp p e w ∧ recordedAs fp total h m w).
Proof.
  intros Hs w m' w' Hk Hr. unfold recordFile in Hr.
  apply bind_ok in Hr as (now & w1 & Hn & Hr).
  eapply (hoare_steps (mild (eq p)) (kept fp p e)) in Hn; [|apply calm_mild, calm_nowString
    |by intros; eapply kept_mild|done].
  apply bind_ok in Hr as (x & w2 & Hg & Hr). apply catch_ok, onDB_ok in Hg as (d & s & Hg & ->).
  pose proof (file_get_spec fp (db w1, sys w1)) as Hgs. rewrite Hg in Hgs.
  destruct Hgs as [Hf Hx]. pose proof (Hf (proj1 (proj2 Hn))) as (Hok & _ & Hvs).
  eapply kept_db in Hn; [|done]. rewrite (safe_normal fp) in Hx by done.
  assert (fview d fp = fview (db w1) fp) as Hsame by (apply Hvs; by intros []).
  simpl in Hx, Hsame. destruct x as [[m|]|e0].
  - run_ok Hr. subst. destruct x. apply onDB_ok in Hr0 as (d2 & s2 & Hu & ->).
    eapply (recordFile_update fp p e) in Hu; [done|done|]. simpl. rewrite Hsame.
    symmetry. by apply Hx.
  - apply bind_ok in Hr as (i & w3 & Hi & Hr).
    eapply (hoare_steps (mild (eq p)) (kept fp p e)) in Hi; [|apply calm_mild, calm_uuid
      |by intros; eapply kept_mild|done].
    run_ok Hr. subst. destruct x. apply onDB_ok in Hr0 as (d2 & s2 & Hu & ->).
    by eapply (recordFile_create fp p e).
  - apply bind_ok in Hr as (i & w3 & Hi & Hr).
    eapply (hoare_steps (mild (eq p)) (kept fp p e)) in Hi; [|apply calm_mild, calm_uuid
      |by intros; eapply kept_mild|done].
    run_ok Hr. subst. destruct x. apply onDB_ok in Hr0 as (d2 & s2 & Hu & ->).
    by eapply (recordFile_create fp p e).
Qed.

(** The whole commit, under the lock of the file. *)
Lemma commit_spec {A} cs fp p e name total h (c0 c1 c2 c3 : M World unit) lockKey ttl n delay
    msg0 msg1 (k : FileMetadata → M World A) (Q : FileMetadata → A → Prop) :
  safe fp → (∀ m, steps (mild (eq p)) (k m)) →
  (∀ m w a w', k m w = (Ok a, w') → Q m a) →
  hoare (held cs p e)
    (token ← wrapErr msg0 (onError (acquire lockKey ttl n delay) c0);
     deferring
       (wrapErr msg1 (onError (onStore (WriteFromTempFile fp p)) c1) ⨟
        m ← recordFile uuid fp name total h c2 c3;
        k m)
       (release lockKey token))
    (λ a w, kept fp p e w ∧ ∃ m, recordedAs fp total h m w ∧ Q m a).
Proof.
  intros Hs Hk HQ. eapply hoare_bind.
  { apply hoare_wrapErr, hoare_onError, (hoare_held cs none); [done|].
    apply calm_mild, calm_acquire. }
  intros token w a w' Hw Hr. apply deferring_ok in Hr as (w1 & Hr & ->).
  run_ok Hr. destruct x. eapply store_temp in Hr0; [|done..].
  eapply recordFile_spec in Hr1 as [Hk1 Hrec]; [|done..].
  pose proof (Hk x0 w2) as Hm. rewrite Hr in Hm. simpl in Hm.
  pose proof (calm_mild _ _ (calm_release (eq p) lockKey token) w1) as Hm2.
  assert (mild (eq p) w2 (release lockKey token w1).2) as Hm3 by (by etrans).
  split; [by eapply kept_mild|]. exists x0. split; [by eapply recordedAs_mild|]. by eapply HQ.
Qed.

End commit.
