(* ===== verification/Demo.v ===== *)
(** * A concrete world for the examples

    The local storage backend, the in-process lock, the list engine for SQL, a
    map for the session store, and toy versions of SHA-256 and of the
    identifiers. *)

From S2P Require Export Transfer.

Local Open Scope go_scope.

(** The session store, as a map from prefix and key. *)
#[export] Instance mapSessions : SessionStore sessionValue (gmap (string * string) sessionValue) := {|
  SSet env p k v ttl s := (Ok tt, <[(p, k) := v]> s);
  SGet env p k s := (match s !! (p, k) with Some v => Ok v | None => Err (ErrMsg "not found") end, s);
  SDelete env p k s := (Ok tt, delete (p, k) s);
  SExists env p k s := (Ok (bool_decide (is_Some (s !! (p, k)))), s)
|}.

#[export] Existing Instance toyAEAD.
#[export] Existing Instance toyAEAD_laws.

Notation demoWorld :=
  (World LocalFS.LocalStorage Local.LocalDistributedLock (gmap (string * string) sessionValue) list).

(** The identifier made at each tick of the clock. *)
Definition demoUUID (n : nat) : string :=
  "id" +:+ String (Ascii.ascii_of_nat (65 + n `div` 26))
             (String (Ascii.ascii_of_nat (65 + n `mod` 26)) "").

(** A hash that is its input. *)
Definition demoSHA (d : bytes) : bytes := d.

Definition demoDirs : OS :=
  list_to_map [("/data", DirN); ("/tmp", DirN); ("/tmp/up", DirN)].

Definition demoWith (fault : nat → fault) (v : FileTransferService) : demoWorld :=
  MkWorld (MkSys (λ n, CallEnv 0 [Byte.x01] (fault n)) 0 demoDirs) localDisk.1 emptyDB
    Local.NewLocalDistributedLock ∅ v.

Definition demo : demoWorld := demoWith (λ _, NoFault) (NewFileTransferService "/tmp/up").

(** The temp directory is outside the storage root. *)
Lemma demo_outside p : HasPrefix p "/tmp" = true → outside (StorageLaws := LocalFS.laws) localDisk.1 p.
Proof.
  intros [t ->]%HasPrefix_spec k (segs & Hk) Heq.
  rewrite (LocalFS.full_safe _ ["data"] k segs) in Heq; [|by repeat constructor|done|done].
  destruct Hk as (Hne & _ & _). by destruct segs.
Qed.

Definition ab : bytes := [Byte.x61; Byte.x62].
Definition cd : bytes := [Byte.x63; Byte.x64].

(** The same world with one file, of four bytes. *)
Definition demoFile : demoWorld :=
  MkWorld (MkSys (λ _, CallEnv 0 [Byte.x01] NoFault) 0
             (<["/data/a" := DirN]> (<["/data/a/b" := FileN (ab ++ cd)]> demoDirs))) localDisk.1
    (MkDB [MkFile "1" "a/b" "b" 4 "61626364" "local" "" "t" "t" false] [] [] [] [])
    Local.NewLocalDistributedLock ∅ (NewFileTransferService "/tmp/up").
