(* ===== verification/Upload.v ===== *)
(** * Sequential uploads: internal/service/transfer/service.go

    What CreateUploadSession, UploadChunk and CompleteUpload do together. The
    session of interest is followed from its creation to its completion while
    other requests run in between; [keeps] is what those may do to it. *)

From S2P Require Export Commit Demo.

Local Open Scope go_scope.

Section upload.
Context {Sg L St : Type} {T : Type → Type}.
Context `{StorageLaws Sg} `{DistributedLock L} `{SessionStore sessionValue St}.
Context `{SqlLaws T} `{AEADLaws}.
Context (sha256 : bytes → bytes) (uuid : nat → string).
Notation World := (World Sg L St T).

(** ** One chunk *)

Lemma loadUpload_in id s (w : World) :
  uploadSessions (svc w) !! id = Some s → loadUpload id w = (Ok (Some s), w).
Proof. intros Hs. unfold loadUpload, service, mbind, M_bind. simpl. by rewrite Hs. Qed.

(** Up to its write a chunk changes nothing but the temp file. *)
Definition chunkHead (id : string) (data : bytes) (offset : Z) (session : UploadSession)
    : M World unit :=
  guard (negb (uClosed session)) (ErrMsg "upload session is closed") ⨟
  guard (negb (offset <? 0)%Z) (ErrMsg "invalid offset") ⨟
  guard (negb (beyondSize offset data (uTotalSize session))) (ErrMsg "write beyond file size") ⨟
  writeChunk id session data offset.

Definition chunkTail (id : string) (data : bytes) (offset : Z) (session : UploadSession)
    : M World unit :=
  let session := countChunk data (hashStep offset data session) in
  if (Z.rem (uChunkCount session) 8 =? 0)%Z then
    now ← nowString;
    let session := touchUpload now session in
    setUpload id session ⨟ storeUpload session
  else setUpload id session.

Lemma chunkBody_split id data off s (w : World) :
  chunkBody id data off s w = (chunkHead id data off s ⨟ chunkTail id data off s) w.
Proof.
  unfold chunkBody, chunkHead, chunkTail, guard, mbind, M_bind, mret, M_ret, throw.
  by repeat case_match; simplify_eq/=.
Qed.

Lemma chunkHead_calm id data off s f :
  uTempFile s = Some f → steps (calm (eq f)) (chunkHead id data off s).
Proof.
  intros Hf. unfold chunkHead, writeChunk. rewrite Hf.
  assert (steps (calm (Sg := Sg) (L := L) (St := St) (T := T) (eq f))
            (onOS (osCall (fWriteAt f data off)))) as Hw.
  { apply calm_osCall. intros o q Hq. by apply fileAt_fWriteAt. }
  steps_auto.
Qed.

Lemma chunkTail_runs id data off s (w : World) :
  ∃ now w', chunkTail id data off s w = (Ok tt, w') ∧
    let s' := touchUpload now (countChunk data (hashStep off data s)) in
    store w' = store w ∧ db w' = db w ∧ os (sys w') = os (sys w) ∧
    svc w' = setUploads (<[id := s']> (uploadSessions (svc w))) (svc w).
Proof.
  unfold chunkTail. set (s1 := countChunk data (hashStep off data s)). cbv zeta.
  destruct (_ =? 0)%Z.
  - exists (GetCurrentTimestamp (now (oracle (sys w) (tick (sys w))))).
    unfold storeUpload, nowString, onOS, setUpload, onService, modify, ignore, onSession, mbind, M_bind.
    simpl. destruct (SSet _ _ _ _ _ _). eexists. by split_and!.
  - exists (uUpdatedAt s1). eexists. by split_and!.
Qed.

(** A chunk that is accepted. *)
Lemma UploadChunk_ok id data off s f d (w w' : World) :
  uploadSessions (svc w) !! id = Some s → uTempFile s = Some f →
  fileAt (os (sys w)) f = Some d → in64 off →
  UploadChunk id data off w = (Ok tt, w') →
  (0 ≤ off)%Z ∧ (off + blen data ≤ int64_max)%Z ∧ (off + blen data ≤ uTotalSize s)%Z ∧
  store w' = store w ∧ db w' = db w ∧
  fileAt (os (sys w')) f = Some (writeAt d (Z.to_nat off) data) ∧
  ∃ now, svc w' = setUploads
    (<[id := touchUpload now (countChunk data (hashStep off data s))]> (uploadSessions (svc w)))
    (svc w).
Proof.
  intros Hs Hf Hd Hoff Hrun. unfold UploadChunk in Hrun.
  apply bind_ok in Hrun as (r & w1 & Hl & Hrun). rewrite (loadUpload_in _ s) in Hl by done.
  injection Hl as <- <-. apply bind_ok in Hrun as (tok & w1 & Ha & Hrun).
  pose proof (steps_wrapErr _ "failed to acquire session lock" _
    (calm_acquire none ("upload:" +:+ id) (10 * Second) 10 (100 * Millisecond)) w) as Hc1.
  rewrite Ha in Hc1. destruct Hc1 as [(Hst1 & Hdb1 & _ & _ & Hfs1) Hsv1]. simpl in *.
  apply deferring_ok in Hrun as (w2 & Hrun & ->).
  pose proof (calm_release none ("upload:" +:+ id) tok w2) as [(Hst3 & Hdb3 & _ & _ & Hfs3) Hsv3].
  rewrite chunkBody_split in Hrun. apply bind_ok in Hrun as ([] & w3 & Hh & Ht).
  destruct (chunkTail_runs id data off s w3) as (now & w4 & Ht' & Hst4 & Hdb4 & Ho4 & Hsv4).
  rewrite Ht' in Ht. injection Ht as ->.
  pose proof (chunkHead_calm id data off s f Hf w1) as Hc2. rewrite Hh in Hc2.
  destruct Hc2 as [(Hst2 & Hdb2 & _ & _ & _) Hsv2].
  unfold chunkHead, writeChunk in Hh. rewrite Hf in Hh. run_ok Hh. subst.
  unfold onOS in Hh. destruct (osCall _ _) as [r s'] eqn:E in Hh. injection Hh as -> <-.
  apply osCall_ok in E. rewrite <-(Hfs1 f) in Hd by done. unfold fWriteAt in E.
  unfold fileAt in Hd. bool_prop. destruct (off <? 0)%Z eqn:E0; [done|].
  destruct (int64_max <? off + blen data)%Z eqn:E1; [done|].
  destruct (os (sys w1) !! f) as [[d'|]|]; simplify_eq/=. apply Z.ltb_ge in E0, E1.
  unfold beyondSize in *. rewrite wrap64_id in * by (unfold in64, int64_min, blen in *; lia).
  rewrite Z.ltb_ge in *. split_and!; [done..|congruence|congruence| |].
  - rewrite Hfs3, Ho4 by done. simpl. rewrite <-E. apply fileAt_insert.
  - exists now. rewrite Hsv3, Hsv4. simpl. by rewrite Hsv1.
Qed.

(** A chunk that is refused leaves every session as it was. *)
Lemma UploadChunk_err id data off s f e (w w' : World) :
  uploadSessions (svc w) !! id = Some s → uTempFile s = Some f →
  UploadChunk id data off w = (Err e, w') → calm (eq f) w w'.
Proof.
  intros Hs Hf Hrun. unfold UploadChunk, mbind, M_bind in Hrun.
  rewrite (loadUpload_in _ s) in Hrun by done.
  pose proof (steps_wrapErr _ "failed to acquire session lock" _
    (calm_acquire (eq f) ("upload:" +:+ id) (10 * Second) 10 (100 * Millisecond)) w) as Hc1.
  destruct (wrapErr _ _ w) as [[tok|e1] w1]; [|by simplify_eq/=].
  etrans; [exact Hc1|]. simpl in *. unfold deferring in Hrun.
  destruct (chunkBody id data off s w1) as [r w2] eqn:Hb.
  pose proof (calm_release (eq f) ("upload:" +:+ id) tok w2) as Hc2.
  destruct (release _ _ w2) as [r3 w3]. injection Hrun as -> ->. etrans; [|exact Hc2].
  rewrite chunkBody_split in Hb. pose proof (chunkHead_calm id data off s f Hf w1) as Hh.
  unfold mbind, M_bind in Hb. destruct (chunkHead id data off s w1) as [[[]|e2] w4];
    [|by simplify_eq/=].
  destruct (chunkTail_runs id data off s w4) as (now & w5 & Ht & _). congruence.
Qed.

(** ** A session, from its creation on *)

Definition contentOf (total : Z) (ws : list (bytes * Z)) : bytes :=
  foldl (λ d c, writeAt d (Z.to_nat c.2) c.1) (replicate (Z.to_nat total) Byte.x00) ws.

(** What the components promise, as far as the session [id] is concerned. *)
Definition intact (td : string) (cs : option CryptoService) (id : string) (w : World) : Prop :=
  let tmp := PathJoin [td; id +:+ ".tmp"] in
  storeInv (store w) ∧ dbOk (db w) ∧ tempDir (svc w) = td ∧ cryptoSvc (svc w) = cs ∧
  outside (store w) tmp ∧ outside (store w) (tmp +:+ ".enc").

(** The incremental hash, while it is valid, has seen a prefix of the file. *)
Definition hashOk (s : UploadSession) (d : bytes) : Prop :=
  uHashValid s = true →
  ∃ h, uHashWriter s = Some h ∧ uLastOffset s = blen h ∧ uUploadedSize s = blen h ∧
    take (length h) d = h.

Definition tracked (td : string) (cs : option CryptoService) (id path hash : string) (total : Z)
    (ws : list (bytes * Z)) (w : World) : Prop :=
  let tmp := PathJoin [td; id +:+ ".tmp"] in
  intact td cs id w ∧ length (contentOf total ws) = Z.to_nat total ∧
  fileAt (os (sys w)) tmp = Some (contentOf total ws) ∧
  ∃ s, uploadSessions (svc w) !! id = Some s ∧ uTempFile s = Some tmp ∧
    uFilePath s = path ∧ uHash s = hash ∧ uTotalSize s = total ∧
    (total < 0 → uUploadedSize s = 0)%Z ∧ hashOk s (contentOf total ws).

Lemma hashStep_ok s d data off :
  hashOk s d → (0 ≤ off)%Z → (Z.to_nat off + length data ≤ length d)%nat →
  (blen d ≤ int64_max)%Z →
  hashOk (countChunk data (hashStep off data s)) (writeAt d (Z.to_nat off) data).
Proof.
  intros Hh Hoff Hlen Hmax Hv. unfold hashStep in *. destruct (uHashWriter s) as [h|] eqn:Ew.
  2: { destruct (Hh Hv) as (h & ? & _). simplify_eq. }
  destruct (uHashValid s) eqn:Ev; [|by simpl in Hv; rewrite Ev in Hv].
  destruct (Z.eqb_spec off (uLastOffset s)) as [->|]; [|by simpl in Hv].
  destruct (Hh Ev) as (h' & ? & Hl & Hu & Hp). simplify_eq/=. rewrite Hl in *.
  assert (Z.to_nat (blen h) = length h) as Hn by (unfold blen; lia). rewrite Hn in *.
  exists (h ++ data). unfold blen in *. rewrite length_app. split; [done|].
  rewrite Hu, !wrap64_id by (unfold in64, int64_min; lia).
  split_and!; [lia..|]. rewrite take_writeAt_append by done. by rewrite Hp.
Qed.

Lemma hashStep_static s data off :
  uTempFile (hashStep off data s) = uTempFile s ∧
  uFilePath (hashStep off data s) = uFilePath s ∧
  uHash (hashStep off data s) = uHash s ∧ uTotalSize (hashStep off data s) = uTotalSize s.
Proof. unfold hashStep. by repeat case_match. Qed.

Lemma contentOf_snoc total ws data off :
  contentOf total (ws ++ [(data, off)]) = writeAt (contentOf total ws) (Z.to_nat off) data.
Proof. unfold contentOf. by rewrite foldl_snoc. Qed.

Lemma length_contentOf total ws :
  Forall (λ c, Z.to_nat c.2 + length c.1 ≤ Z.to_nat total)%nat ws →
  length (contentOf total ws) = Z.to_nat total.
Proof.
  induction ws as [|[data off] ws IH] using rev_ind; [intros _; apply length_replicate|].
  rewrite Forall_app, Forall_singleton. intros [Hws Hc].
  rewrite contentOf_snoc, length_writeAt; [auto|]. rewrite IH by done. done.
Qed.

Lemma chunk_step td cs id path hash total ws data off w w' :
  in64 total → in64 off → tracked td cs id path hash total ws w →
  UploadChunk id data off w = (Ok tt, w') →
  tracked td cs id path hash total (ws ++ [(data, off)]) w'.
Proof.
  intros Ht Ho (Hi & Hlen & Hf & s & Hs & Htmp & Hp & Hh & Htot & _ & Hok) Hr.
  destruct (UploadChunk_ok id data off s _ _ w w' Hs Htmp Hf Ho Hr)
    as (Hpos & Hm & Hle & Hst & Hdb & Hf' & now & Hsv).
  rewrite Htot in Hle. unfold in64 in *. unfold blen in *. rewrite <-contentOf_snoc in Hf'.
  assert (Z.to_nat off + length data ≤ length (contentOf total ws))%nat as Hfit by lia.
  unfold tracked. cbv zeta. rewrite Hsv, Hf'. split_and!.
  - destruct Hi as (? & ? & ? & ? & ? & ?). unfold intact. rewrite Hst, Hdb, Hsv. by split_and!.
  - rewrite contentOf_snoc, length_writeAt by done. done.
  - done.
  - eexists. split; [apply lookup_insert_eq|].
    destruct (hashStep_static s data off) as (? & ? & ? & ?). simpl.
    split_and!; [congruence..|lia|]. rewrite contentOf_snoc.
    apply (hashStep_ok s _ data off); [done..|]. unfold blen. lia.
Qed.

Lemma intact_mild td cs id P w w' : mild P w w' → intact td cs id w → intact td cs id w'.
Proof.
  intros (Hst & Hdb & [Ht _] & Hc & _). unfold intact. rewrite Hst, Hdb, Ht, Hc. done.
Qed.

Lemma acquireSessionSlot_mild : steps (mild none) (acquireSessionSlot (Sg := Sg) (L := L) (St := St) (T := T)).
Proof.
  unfold acquireSessionSlot. steps_auto; try by apply mild_onService.
  apply calm_mild, calm_service.
Qed.

(** The temp file of a new session has its final size. *)
Lemma allocate_ok tmp total (w w' : World) x :
  ((wrapErr "failed to create temp file"
      (onError (onOS (osCall (osCreate tmp))) releaseSessionSlot)) ⨟
   (if (0 <? total)%Z then
     wrapErr "failed to pre-allocate temp file"
       (onError (onOS (osCall (fTruncate tmp total))) (rm tmp ⨟ releaseSessionSlot))
    else mret tt)) w = (Ok x, w') →
  calm (eq tmp) w w' ∧
  fileAt (os (sys w')) tmp = Some (replicate (Z.to_nat total) Byte.x00).
Proof.
  intros Hr. run_ok Hr. destruct x0.
  pose proof (calm_osCall (eq tmp) (osCreate tmp) (λ o q Hq, fileAt_writeFile tmp [] o q Hq) w) as Hc.
  rewrite Hr0 in Hc. apply onOS_osCall_ok in Hr0. unfold osCreate in Hr0.
  apply osWriteFile_ok in Hr0. destruct (Z.ltb_spec 0 total).
  - apply wrapErr_ok, onError_ok in Hr.
    pose proof (calm_osCall (eq tmp) (fTruncate tmp total)
      (λ o q Hq, fileAt_fTruncate tmp total o q Hq) w0) as Hc2. rewrite Hr in Hc2.
    split; [by etrans|]. apply onOS_osCall_ok in Hr. unfold fTruncate in Hr. unfold fileAt in Hr0.
    destruct (total <? 0)%Z; [done|]. destruct (os (sys w0) !! tmp) as [[d|]|]; try done.
    injection Hr0 as ->. injection Hr as _ Ho. rewrite <-Ho, fileAt_insert. f_equal.
    unfold truncateTo, padTo. simpl. rewrite Nat.sub_0_r. apply take_ge. by rewrite length_replicate.
  - run_ok Hr. subst. split; [done|]. rewrite Hr0. by replace (Z.to_nat total) with 0%nat by lia.
Qed.

Lemma create_tracked td cs id path name total client hash w w' :
  in64 total → intact td cs id w →
  CreateUploadSession uuid path name total client hash w = (Ok id, w') →
  tracked td cs id (NormalizePath path) hash total [] w'.
Proof.
  intros Ht Hint Hr. unfold CreateUploadSession in Hr.
  apply bind_ok in Hr as (b & w1 & Hb & Hr). apply bind_ok in Hr as ([] & w2 & Hg & Hr).
  apply guard_ok in Hg as [-> ->].
  apply bind_ok in Hr as (i & w2 & Hu & Hr). apply bind_ok in Hr as (now & w3 & Hn & Hr).
  apply bind_ok in Hr as (v & w4 & Hv & Hr). apply gets_ok in Hv as [-> ->].
  assert (i = id) as -> by (clear -Hr; run_ok Hr; by subst).
  pose proof (acquireSessionSlot_mild w) as Hm1. rewrite Hb in Hm1.
  pose proof (calm_mild _ _ (calm_uuid none uuid) w1) as Hm2. rewrite Hu in Hm2.
  pose proof (calm_mild _ _ (calm_nowString none) w2) as Hm3. rewrite Hn in Hm3.
  simpl in Hm1, Hm2, Hm3.
  assert (mild none w w3) as Hm by (do 2 (etrans; [|done]); done).
  set (tmp := tempPathOf (svc w3) id ".tmp") in *.
  assert (tmp = PathJoin [td; id +:+ ".tmp"]) as Htmp.
  { unfold tmp, tempPathOf. f_equal. f_equal.
    by destruct (intact_mild td cs id none _ _ Hm Hint) as (_ & _ & ? & _). }
  apply bind_ok in Hr as ([] & w4 & Hc & Hr). apply bind_ok in Hr as ([] & w5 & Htr & Hr).
  destruct (allocate_ok tmp total w3 w5 tt) as [[Hm5 Hsv5] Hf5].
  { unfold mbind, M_bind. rewrite Hc. exact Htr. }
  run_ok Hr. subst. pose proof (calm_onSession (T := T) (Sg := Sg) (L := L) none (λ env, SSet env "upload" id
    (SVUpload (exportedUpload (MkUpload id "" (NormalizePath path) name total 0 hash client "active"
       now now 0 (Some tmp) (if negb (bool_decide (hash = "")) then Some [] else None) 0
       (negb (bool_decide (hash = ""))) false))) twoHours)) as Hs.
  unfold setUpload, onService, modify in Hr0. injection Hr0 as <-. 
  unfold storeUpload in Hr1. apply ignore_ok in Hr1. subst.
  match goal with |- context [onSession ?f ?ww] => destruct (Hs ww) as [(Hst6 & Hdb6 & [Htd6 _] & Hcs6 & Hf6) Hsv6] end.
  unfold tracked. cbv zeta. rewrite <-Htmp.
  assert (intact td cs id w5) as Hi5.
  { eapply (intact_mild td cs id); [exact Hm5|]. eapply (intact_mild td cs id); [exact Hm|]. exact Hint. }
  split_and!.
  - unfold intact in *. cbv zeta in *. simpl in *. rewrite Hst6, Hdb6, Htd6, Hcs6. done.
  - unfold contentOf. simpl. apply length_replicate.
  - simpl in *. rewrite Hf6 by done. done.
  - eexists. simpl in *. rewrite Hsv6. simpl. split; [apply lookup_insert_eq|].
    split_and!; try done. intros Hv. simpl in Hv. exists []. simpl. by rewrite Hv.
Qed.

(** ** Completion *)

Lemma endUpload_mild P id : steps (mild P) (endUpload (Sg := Sg) (L := L) (St := St) (T := T) id).
Proof. unfold endUpload, dropUpload, releaseSessionSlot. steps_auto; by apply mild_onService. Qed.

Lemma setUpload_mild P id s : steps (mild P) (setUpload (Sg := Sg) (L := L) (St := St) (T := T) id s).
Proof. by apply mild_onService. Qed.

(** A complete upload whose hash is still valid was hashed as a whole. *)
Lemma hashed_whole s d h :
  hashOk s d → uUploadedSize s = uTotalSize s → blen d = uTotalSize s →
  uHashValid s = true → uHashWriter s = Some h → h = d.
Proof.
  intros Hok Hu Hl Hv Hw. destruct (Hok Hv) as (h' & ? & _ & Hs & Hp). simplify_eq.
  rewrite <-Hp. apply take_ge. unfold blen in *. lia.
Qed.

Lemma verify_spec cs tmp d id s :
  hashOk s d → uUploadedSize s = uTotalSize s → blen d = uTotalSize s →
  hoare (held cs tmp d) (verifyUpload (L := L) (St := St) sha256 id tmp s)
    (λ b w, held cs tmp d w ∧ b = negb (bool_decide (uHash s = "")) ∧
       (uHash s ≠ "" → uHash s = EncodeToString (sha256 d))).
Proof.
  intros Hok Hu Hl w b w' Hh Hr. unfold verifyUpload in Hr.
  destruct (decide (uHash s = "")) as [He|He].
  { rewrite bool_decide_eq_true_2 in * by done. run_ok Hr. by subst. }
  rewrite bool_decide_eq_false_2 in * by done.
  apply bind_ok in Hr as (c & w1 & Hc & Hr).
  assert (c = EncodeToString (sha256 d) ∧ held cs tmp d w1) as [-> Hh1].
  { destruct (uHashWriter s) as [h|] eqn:Ew; [destruct (uHashValid s) eqn:Ev|].
    - run_ok Hc. subst. by rewrite (hashed_whole s d h).
    - run_ok Hc. split; [by eapply SHA256File_ok|].
      eapply (hoare_held cs none) in Hc; [done|done|apply calm_mild, SHA256File_calm|done].
    - run_ok Hc. split; [by eapply SHA256File_ok|].
      eapply (hoare_held cs none) in Hc; [done|done|apply calm_mild, SHA256File_calm|done]. }
  case_bool_decide as Heq; run_ok Hr. by subst.
Qed.

Lemma verify_mild id tmp s :
  steps (mild (eq tmp)) (verifyUpload (Sg := Sg) (L := L) (St := St) (T := T) sha256 id tmp s).
Proof.
  unfold verifyUpload. steps_auto; auto using endUpload_mild;
    apply calm_mild; auto using SHA256File_calm, calm_rm.
Qed.

Lemma closeTemp_spec id s tmp w w' x :
  closeTemp id s w = (Ok x, w') → mild (Sg := Sg) (L := L) (St := St) (T := T) (eq tmp) w w' ∧
  fileAt (os (sys w')) tmp = fileAt (os (sys w)) tmp.
Proof.
  unfold closeTemp. destruct (uTempFile s) as [f|]; intros Hr; [|run_ok Hr; by subst].
  apply bind_ok in Hr as (v & w1 & Hv & Hr). apply gets_ok in Hv as [-> ->].
  apply bind_ok in Hr as ([] & w1 & Hr1%wrapErr_ok%onError_ok & Hr%wrapErr_ok%onError_ok).
  pose proof (calm_mild _ _ (calm_sync none) w) as Hm1. rewrite Hr1 in Hm1.
  pose proof (calm_mild _ _ (calm_close none) w1) as Hm2. rewrite Hr in Hm2.
  simpl in *. assert (mild none w w') as Hm by (by etrans).
  split; [eapply mild_mono; [|exact Hm]; by intros q []|]. by apply Hm.
Qed.

(** Up to the commit: the temp file is closed, verified and encrypted. *)
Definition completeHead (id : string) (session : UploadSession) : M World (bool * (string * string)) :=
  setUpload id (closeUpload (uTempFile session) session) ⨟
  closeTemp id session ⨟
  setUpload id (closeUpload None session) ⨟
  v ← service;
  let tempPath := tempPathOf v id ".tmp" in
  verified ← verifyUpload sha256 id tempPath session;
  enc ← encryptTemp sha256 (endUpload id) tempPath (uHash session);
  mret (verified, enc).

Definition completeTail (id : string) (session : UploadSession) (x : bool * (string * string))
    : M World CompleteUploadResult :=
  let '(verified, (storageTempPath, storageHash)) := x in
  let lockKey := "file:" +:+ uFilePath session in
  token ← wrapErr "failed to acquire lock for file"
    (onError (acquire lockKey (10 * Second) 30 (50 * Millisecond))
       (rm storageTempPath ⨟ endUpload id));
  deferring
    (wrapErr "failed to write file from temp"
       (onError (onStore (WriteFromTempFile (uFilePath session) storageTempPath))
          (rm storageTempPath ⨟ endUpload id)) ⨟
     meta ← recordFile uuid (uFilePath session) (uFileName session) (uTotalSize session)
                storageHash (endUpload id) (endUpload id);
     endUpload id ⨟
     rm storageTempPath ⨟
     ignore (onSession (λ env, SDelete env "upload" id)) ⨟
     mret (MkCompleteResult (fID meta) (negb (bool_decide (uHash session = ""))) verified
             (uTotalSize session) StorageType))
    (release lockKey token).

Lemma CompleteUpload_split id s (w : World) :
  uploadSessions (svc w) !! id = Some s →
  CompleteUpload sha256 uuid id w =
  (guard (uUploadedSize s =? uTotalSize s)%Z (ErrMsg "upload incomplete") ⨟
   completeHead id s ≫= completeTail id s) w.
Proof.
  intros Hs. unfold CompleteUpload, mbind at 1, M_bind at 1. rewrite (loadUpload_in id s w Hs).
  apply bind_ext. intros [] w1. unfold completeHead.
  repeat (rewrite bind_assoc; apply bind_ext; intros ? ?). by case_match.
Qed.

(** The file to store, and the verdict on the hash. *)
Lemma completeHead_spec td cs id path hash total ws s w w' x :
  tracked td cs id path hash total ws w → wholeReads w → uploadSessions (svc w) !! id = Some s →
  uUploadedSize s = uTotalSize s → completeHead id s w = (Ok x, w') →
  let d := contentOf total ws in
  blen d = total ∧ (hash ≠ "" → hash = EncodeToString (sha256 d)) ∧
  x.1 = negb (bool_decide (hash = "")) ∧
  ∃ e, held cs x.2.1 e w' ∧ storedAs sha256 cs d hash e x.2.2.
Proof.
  intros (Hi & Hlen & Hf & s0 & Hsess & Htmp & Hp & Hh & Htot & Hneg & Hok) Hw Hs Hg Hr d.
  assert (s0 = s) as -> by congruence. subst path hash total.
  assert (blen d = uTotalSize s) as Hd by (unfold blen, d; lia).
  unfold completeHead in Hr.
  apply bind_ok in Hr as ([] & w1 & Hu1 & Hr). apply bind_ok in Hr as ([] & w2 & Hc & Hr).
  apply bind_ok in Hr as ([] & w3 & Hu2 & Hr). apply bind_ok in Hr as (v & w4 & Hv & Hr).
  apply gets_ok in Hv as [-> ->].
  set (tmp := PathJoin [td; id +:+ ".tmp"]) in *.
  pose proof (setUpload_mild none id (closeUpload (uTempFile s) s) w) as Hm1.
  rewrite Hu1 in Hm1. destruct (closeTemp_spec id s tmp w1 w2 tt Hc) as [Hm2 Hf2].
  pose proof (setUpload_mild none id (closeUpload None s) w2) as Hm3. rewrite Hu2 in Hm3.
  simpl in Hm1, Hm3.
  assert (intact td cs id w3) as Hi3 by (do 3 (eapply intact_mild; [done|]); done).
  assert (wholeReads w3) as Hw3 by (do 3 (eapply wholeReads_mild; [done|]); done).
  assert (fileAt (os (sys w3)) tmp = Some d) as Hf3.
  { destruct Hm3 as (_ & _ & _ & _ & ->); [|done]. rewrite Hf2.
    by destruct Hm1 as (_ & _ & _ & _ & ->). }
  destruct Hi3 as (? & ? & Htd3 & ? & Hout & Houte). cbv zeta in Hr.
  replace (tempPathOf (svc w3) id ".tmp") with tmp in Hr by (by unfold tempPathOf; rewrite Htd3).
  apply bind_ok in Hr as (b & w4 & Hv & Hr). apply bind_ok in Hr as (y & w5 & He & Hr).
  apply ret_ok in Hr as [-> ->]. pose proof Hv as Hv0.
  eapply (verify_spec cs tmp d id s) in Hv as (Hh4 & -> & Hhash); [|done|done|done|by unfold held].
  split_and!; [done..|]. eapply (encryptTemp_spec sha256 cs tmp d); [|exact He]. split; [done|].
  pose proof (verify_mild id tmp s w3) as (Hst & _). rewrite Hv0 in Hst. simpl in Hst. by rewrite Hst.
Qed.

(** A completed upload stores the bytes of its temp file. *)
Lemma complete_spec td cs id path hash total ws w w' res :
  safe path → tracked td cs id path hash total ws w → wholeReads w →
  CompleteUpload sha256 uuid id w = (Ok res, w') →
  let d := contentOf total ws in
  blen d = total ∧ (hash ≠ "" → hash = EncodeToString (sha256 d)) ∧
  HashVerified res = negb (bool_decide (hash = "")) ∧ (storeInv (store w') ∧ dbOk (db w')) ∧
  ∃ e h, storedAs sha256 cs d hash e h ∧
    object (store w') (os (sys w')) path = Some e ∧ recorded path total h (cFileID res) w'.
Proof.
  intros Hsafe Htr Hw Hr d. pose proof Htr as (_ & _ & _ & s & Hs & _ & <- & <- & <- & _).
  rewrite (CompleteUpload_split id s w Hs) in Hr.
  apply bind_ok in Hr as ([] & w1 & Hg & Hr). apply guard_ok in Hg as [Hg ->]. apply Z.eqb_eq in Hg.
  apply bind_ok in Hr as (x & w1 & Hhead & Hr).
  destruct (completeHead_spec td cs id _ _ _ ws s w w1 x Htr Hw Hs Hg Hhead) as (Hd & Hhash & Hx & e & Hh & Hsa).
  destruct x as [b [p h]]. simpl in *.
  eapply (commit_spec uuid cs (uFilePath s) p e (uFileName s) (uTotalSize s) h _ _ _ _ _ _ _ _ _ _
    (λ m, endUpload id ⨟ rm p ⨟ ignore (onSession (λ env, SDelete env "upload" id)) ⨟
       mret (MkCompleteResult (fID m) (negb (bool_decide (uHash s = ""))) b (uTotalSize s) StorageType))
    (λ m r, cFileID r = fID m ∧ HashVerified r = b))
    in Hr as [Hk (fid & Hrec & Hid & Hver)]; [|done| | |done].
  - rewrite Hid, Hver. split_and!; [done..|apply Hk|apply Hk|].
    exists e, h. split_and!; [done|apply Hk|by eexists].
  - intros m. steps_auto; [apply endUpload_mild|..]; apply calm_mild; auto with steps.
    by apply calm_rm.
  - intros m ? ? ? Hk. run_ok Hk. by subst.
Qed.

(** ** Interference *)

(** What other requests do to the session [id]: they keep the components intact
    and leave the session and its temp file alone. *)
Definition keeps (id : string) (w w' : World) : Prop :=
  ∀ td cs, intact td cs id w →
  intact td cs id w' ∧ uploadSessions (svc w') !! id = uploadSessions (svc w) !! id ∧
  fileAt (os (sys w')) (PathJoin [td; id +:+ ".tmp"]) =
    fileAt (os (sys w)) (PathJoin [td; id +:+ ".tmp"]).

(** Requests for the session [id], and others in between. [chunks id w ws w']:
    the chunks [ws] were accepted, in this order; a refused chunk did not reach
    the temp file. *)
Inductive chunks (id : string) : World → list (bytes * Z) → World → Prop :=
| chunks_none w : chunks id w [] w
| chunks_other w ws w1 w2 : chunks id w ws w1 → keeps id w1 w2 → chunks id w ws w2
| chunks_ok w ws data off w1 w2 :
    chunks id w ws w1 → in64 off → UploadChunk id data off w1 = (Ok tt, w2) →
    chunks id w (ws ++ [(data, off)]) w2
| chunks_err w ws data off e w1 w2 :
    chunks id w ws w1 → UploadChunk id data off w1 = (Err e, w2) →
    fileAt (os (sys w2)) (tempPathOf (svc w1) id ".tmp") =
      fileAt (os (sys w1)) (tempPathOf (svc w1) id ".tmp") →
    chunks id w ws w2.

Lemma tracked_keeps td cs id path hash total ws w w' :
  keeps id w w' → tracked td cs id path hash total ws w →
  tracked td cs id path hash total ws w'.
Proof.
  intros Hk (Hi & Hl & Hf & Hs). destruct (Hk td cs Hi) as (Hi' & Hs' & Hf').
  unfold tracked. cbv zeta. rewrite Hs', Hf'. done.
Qed.

Lemma tracked_refused td cs id path hash total ws data off e w w' :
  tracked td cs id path hash total ws w → UploadChunk id data off w = (Err e, w') →
  fileAt (os (sys w')) (tempPathOf (svc w) id ".tmp") =
    fileAt (os (sys w)) (tempPathOf (svc w) id ".tmp") →
  tracked td cs id path hash total ws w'.
Proof.
  intros (Hi & Hl & Hf & s & Hs & Htmp & Hrest) Hr Hsame.
  destruct (UploadChunk_err id data off s _ e w w' Hs Htmp Hr) as [Hm Hsv].
  pose proof Hi as (_ & _ & Htd & _). unfold tempPathOf in Hsame. rewrite Htd in Hsame.
  unfold tracked. cbv zeta. rewrite Hsv, Hsame. split; [by eapply intact_mild|].
  split; [done|]. split; [done|]. exists s. by rewrite Hs, Htmp.
Qed.

Lemma chunks_tracked td cs id path hash total ws w w' :
  in64 total → chunks id w ws w' → tracked td cs id path hash total [] w →
  tracked td cs id path hash total ws w'.
Proof.
  intros Ht Hc. induction Hc; intros Htr; auto.
  - eapply tracked_keeps; eauto.
  - eapply chunk_step; eauto.
  - eapply tracked_refused; eauto.
Qed.

(** ** Chunks of other sessions *)

(** Each session writes to the temp file named after it. *)
Definition ownTemp (id : string) (w : World) : Prop :=
  ∀ s f, uploadSessions (svc w) !! id = Some s → uTempFile s = Some f →
  f = tempPathOf (svc w) id ".tmp".

Lemma keeps_calm id P w w' :
  ¬ P (tempPathOf (svc w) id ".tmp") → calm P w w' → keeps id w w'.
Proof.
  intros HP [Hm Hsv] td cs Hi. rewrite Hsv. split; [by eapply intact_mild|]. split; [done|].
  destruct Hi as (_ & _ & <- & _). by apply Hm.
Qed.

Lemma keeps_trans id w1 w2 w3 : keeps id w1 w2 → keeps id w2 w3 → keeps id w1 w3.
Proof.
  intros H12 H23 td cs Hi. destruct (H12 td cs Hi) as (Hi2 & Hs2 & Hf2).
  destruct (H23 td cs Hi2) as (Hi3 & -> & ->). done.
Qed.

Lemma keeps_setUpload id id' s w :
  id ≠ id' → keeps id w (setUpload id' s w).2.
Proof.
  intros Hne td cs Hi. simpl. split; [exact Hi|]. by rewrite lookup_insert_ne.
Qed.

(** The session a chunk finds writes to its own temp file. *)
Lemma loadUpload_keeps id id' w r w' :
  id ≠ id' → ownTemp id' w → loadUpload id' w = (r, w') →
  keeps id w w' ∧ tempDir (svc w') = tempDir (svc w) ∧
  ∀ s, r = Ok (Some s) → ∀ f, uTempFile s = Some f → f = tempPathOf (svc w) id' ".tmp".
Proof.
  intros Hne Hown Hl. unfold loadUpload, service, mbind, M_bind in Hl. simpl in Hl.
  destruct (uploadSessions (svc w) !! id') as [s|] eqn:Es.
  { injection Hl as <- <-. split; [by apply (keeps_calm id none)|]. split; [done|].
    intros s0 [= <-] f. by apply Hown. }
  pose proof (steps_catch _ _ (calm_onSession (Sg := Sg) (L := L) (T := T) none (λ env, SGet env "upload" id')) w) as Hc1.
  destruct (catch (onSession _) w) as [r1 w1]. simpl in Hc1.
  assert (keeps id w w1) as Hk1 by (by eapply keeps_calm; [|exact Hc1]).
  assert (tempDir (svc w1) = tempDir (svc w)) as Ht1 by (by destruct Hc1 as [_ ->]).
  destruct r1 as [[[s|?|?]|?]|?]; simplify_eq/=;
    [|try injection Hl as <- <-; split; [done|split; [done|intros ? [=]]]..].
  pose proof (steps_catch _ _ (calm_osCall (Sg := Sg) (L := L) (St := St) (T := T) none
    (osOpen (tempPathOf (svc w) id' ".tmp")) (λ o q _, eq_refl)) w1) as Hc2.
  destruct (catch (onOS _) w1) as [[f|e] w2]; simpl in Hc2; injection Hl as <- <-.
  - split; [|split].
    + eapply keeps_trans; [exact Hk1|]. eapply keeps_trans; [by eapply keeps_calm; [|exact Hc2]|].
      apply (keeps_setUpload id id'). done.
    + simpl. destruct Hc2 as [_ ->]. done.
    + intros s0 [= <-] f0. simpl. by destruct (is_ok f); intros [= <-].
  - split; [eapply keeps_trans; [exact Hk1|by eapply keeps_calm; [|exact Hc2]]|].
    split; [by destruct Hc2 as [_ ->]|]. by intros s0 [=].
Qed.

Lemma chunkBody_keeps id id' data off s w :
  id ≠ id' → tempPathOf (svc w) id' ".tmp" ≠ tempPathOf (svc w) id ".tmp" →
  (∀ f, uTempFile s = Some f → f = tempPathOf (svc w) id' ".tmp") →
  keeps id w (chunkBody id' data off s w).2.
Proof.
  intros Hne Htmp Hf. rewrite chunkBody_split.
  assert (calm (eq (tempPathOf (svc w) id' ".tmp")) w (chunkHead id' data off s w).2) as Hc.
  { destruct (uTempFile s) as [f|] eqn:E.
    - rewrite <-(Hf f eq_refl). by apply chunkHead_calm.
    - unfold chunkHead, writeChunk. rewrite E.
      assert (∀ v, v = svc w → steps (calm (Sg := Sg) (L := L) (St := St) (T := T) (eq (tempPathOf v id' ".tmp")))
        (wrapErr "failed to open temp file" (onOS (osCall (osOpen (tempPathOf v id' ".tmp")))) ⨟
         wrapErr "failed to write chunk" (onOS (osCall (fWriteAt (tempPathOf v id' ".tmp") data off))))) as Hs.
      { intros v _. steps_auto; apply calm_osCall; [done|]. intros. by apply fileAt_fWriteAt. }
      unfold guard. repeat case_match; try done; apply (Hs (svc w) eq_refl w). }
  unfold mbind, M_bind. destruct (chunkHead id' data off s w) as [[[]|e] w1]; simpl in *.
  - destruct (chunkTail_runs id' data off s w1) as (now & w2 & -> & Hst & Hdb & Ho & Hsv). simpl.
    eapply keeps_trans; [by eapply keeps_calm; [|exact Hc]|]. intros td cs Hi.
    rewrite Hsv, Ho. simpl. rewrite lookup_insert_ne by done. split; [|done].
    unfold intact in *. by rewrite Hst, Hdb, Hsv.
  - by eapply keeps_calm; [|exact Hc].
Qed.

Lemma UploadChunk_keeps id id' data off w :
  id ≠ id' → tempPathOf (svc w) id' ".tmp" ≠ tempPathOf (svc w) id ".tmp" → ownTemp id' w →
  keeps id w (UploadChunk id' data off w).2.
Proof.
  intros Hne Htmp Hown. unfold UploadChunk. unfold mbind at 1, M_bind at 1.
  destruct (loadUpload id' w) as [r w1] eqn:Hl.
  destruct (loadUpload_keeps id id' w r w1 Hne Hown Hl) as (Hk & Ht & Hf).
  destruct r as [[s|]|e]; [|done..]. unfold mbind, M_bind.
  pose proof (steps_wrapErr _ "failed to acquire session lock" _ (calm_acquire none ("upload:" +:+ id')
    (10 * Second) 10 (100 * Millisecond)) w1) as Ha.
  destruct (wrapErr _ _ w1) as [[tok|e] w2]; simpl in Ha; eapply keeps_trans; try exact Hk;
    [|by eapply keeps_calm; [|exact Ha]].
  eapply keeps_trans; [by eapply keeps_calm; [|exact Ha]|].
  unfold deferring. pose proof (chunkBody_keeps id id' data off s w2 Hne) as Hb.
  assert (tempDir (svc w2) = tempDir (svc w)) as Ht2 by (destruct Ha as [_ ->]; done).
  unfold tempPathOf in *. rewrite Ht2 in Hb. specialize (Hb Htmp (Hf s eq_refl)).
  destruct (chunkBody id' data off s w2) as [r3 w3]. simpl in Hb.
  pose proof (calm_release none ("upload:" +:+ id') tok w3) as Hc.
  destruct (release _ _ w3) as [r4 w4]. simpl in *. eapply keeps_trans; [exact Hb|].
  by eapply keeps_calm; [|exact Hc].
Qed.

End upload.

(** ** Properties *)

(** C1: a completed sequential upload stores exactly the bytes of its accepted
    chunks. From the creation of a session to its completion, with any other
    requests in between, the stored object is the pre-allocated file with the
    accepted chunks written in their order (its encryption, when encryption is
    on); its size is the declared size; when the client gave a hash, it is the
    SHA-256 of these bytes, also when the hash was computed incrementally; and
    the metadata of the path records this size and hash under the returned
    identifier. Reads of local files do not break off during the completion. *)
Theorem upload_correct {Sg L St T} `{StorageLaws Sg} `{DistributedLock L}
    `{SessionStore sessionValue St} `{SqlLaws T} `{AEADLaws}
    (sha256 : bytes → bytes) (uuid : nat → string) (td : string) (cs : option CryptoService)
    (id path name client hash : string) (total : Z) (ws : list (bytes * Z))
    (w0 w1 w2 w3 : World Sg L St T) (res : CompleteUploadResult) :
  in64 total → IsValidFilePath path = true → intact td cs id w0 →
  CreateUploadSession uuid path name total client hash w0 = (Ok id, w1) →
  chunks id w1 ws w2 → wholeReads w2 →
  CompleteUpload sha256 uuid id w2 = (Ok res, w3) →
  let d := contentOf total ws in
  blen d = total ∧ (hash ≠ "" → hash = EncodeToString (sha256 d)) ∧
  HashVerified res = negb (bool_decide (hash = "")) ∧
  ∃ e h, storedAs sha256 cs d hash e h ∧
    object (store w3) (os (sys w3)) (NormalizePath path) = Some e ∧
    recorded (NormalizePath path) total h (cFileID res) w3.
Proof.
  intros Ht Hv Hi Hc Hws Hw Hd d.
  assert (safe (NormalizePath path)) as Hp by (eexists; by apply valid_path_safeKey).
  assert (tracked td cs id (NormalizePath path) hash total ws w2) as Htr
    by (eapply chunks_tracked; [done..|]; by eapply create_tracked).
  by destruct (complete_spec sha256 uuid td cs id _ hash total ws w2 w3 res Hp Htr Hw Hd)
    as (? & ? & ? & _ & ?).
Qed.

(** The start and the end of an example: two chunks, in order, with a hash. *)
Notation demoCreated :=
  (CreateUploadSession demoUUID "/dir/f.txt" "f.txt" 4 "c" "61626364" demo).2.
Notation demoChunk data off w := (UploadChunk (T := list) "idAA" data off w).2.
Notation demoUploaded := (demoChunk cd 2 (demoChunk ab 0 demoCreated)).

Lemma demo_intact : intact "/tmp/up" None "idAA" demo.
Proof.
  unfold intact. split_and!; [apply localDisk_rooted|by apply dbOk_by_dec|done|done|..];
    apply demo_outside; vm_compute; reflexivity.
Qed.

Lemma upload_correct_witness :
  let r := CompleteUpload demoSHA demoUUID "idAA" demoUploaded in
  (blen (ab ++ cd) = 4%Z ∧ ("61626364" ≠ "" → "61626364" = EncodeToString (demoSHA (ab ++ cd))) ∧
   true = negb (bool_decide ("61626364" = "")) ∧
   ∃ e h, storedAs demoSHA None (ab ++ cd) "61626364" e h ∧
     object (store r.2) (os (sys r.2)) (NormalizePath "/dir/f.txt") = Some e ∧
     recorded (NormalizePath "/dir/f.txt") 4 h "idCO" r.2).
Proof.
  apply (upload_correct demoSHA demoUUID "/tmp/up" None "idAA" "/dir/f.txt" "f.txt" "c" "61626364" 4
    [(ab, 0%Z); (cd, 2%Z)] demo demoCreated demoUploaded
    (CompleteUpload demoSHA demoUUID "idAA" demoUploaded).2
    (MkCompleteResult "idCO" true true 4 StorageType));
    [split; vm_compute; done|vm_compute; reflexivity|apply demo_intact
    |apply outcome; vm_compute; reflexivity| |intros n k; vm_compute; done
    |apply outcome; vm_compute; reflexivity].
  apply (chunks_ok "idAA" _ [(ab, 0%Z)] cd 2 (demoChunk ab 0 demoCreated));
    [|split; vm_compute; done|apply outcome; vm_compute; reflexivity].
  apply (chunks_ok "idAA" _ [] ab 0 demoCreated);
    [apply chunks_none|split; vm_compute; done|apply outcome; vm_compute; reflexivity].
Defined.

(** Identifiers without a slash name distinct temp files. *)
Lemma tmp_ordinary id : sIn slash id = false → ordinary (id +:+ ".tmp").
Proof.
  intros Hs. assert (slen (id +:+ ".tmp") ≥ 4)%nat as Hl by (rewrite slen_append; simpl; lia).
  repeat split; try (intros Heq; rewrite Heq in Hl; simpl in Hl; lia).
  by rewrite sIn_append, Hs.
Qed.

Lemma tempPath_inj l id id' v :
  Forall ordinary l → tempDir v = absPath l → sIn slash id = false → sIn slash id' = false →
  tempPathOf v id ".tmp" = tempPathOf v id' ".tmp" → id = id'.
Proof.
  intros Hl Ht Hi%tmp_ordinary Hi'%tmp_ordinary. unfold tempPathOf. rewrite Ht.
  assert (∀ x, ordinary x → PathJoin [absPath l; x] = absPath (l ++ [x])) as HJ.
  { intros x Hx. apply (PathJoin_absPath l [x]); [done|by constructor]. }
  rewrite !HJ by done.
  intros Heq%absPath_inj; [|apply Forall_app; split; [done|by constructor]..].
  apply app_inj_2 in Heq as [_ [= Heq]]; [|done]. apply (f_equal (λ s, stake (slen s - 4) s)) in Heq.
  rewrite !slen_append in Heq. simpl in Heq.
  rewrite !Nat.add_sub, !stake_append in Heq. done.
Qed.

(** Concurrent uploads are isolated. A chunk sent to one session, whether it
    is accepted, refused or makes the service restore the session from the
    session store, leaves every other session and the bytes of its temp file
    as they are. *)
Lemma uploads_isolated {Sg L St T} `{StorageLaws Sg} `{DistributedLock L}
    `{SessionStore sessionValue St} `{SqlLaws T} `{AEADLaws}
    (l : list string) (id id' : string) (data : bytes) (off : Z) (w : World Sg L St T) :
  Forall ordinary l → tempDir (svc w) = absPath l →
  sIn slash id = false → sIn slash id' = false → id ≠ id' → ownTemp id' w →
  keeps id w (UploadChunk id' data off w).2.
Proof.
  intros Hl Ht Hi Hi' Hne Hown. apply UploadChunk_keeps; [done| |done].
  intros Heq. apply Hne. symmetry. by eapply tempPath_inj.
Qed.

(** The size counter does not detect a gap. The same two bytes sent twice
    to a session of four bytes without a hash make it complete: the stored file
    ends in two zero bytes that no client sent. *)
Lemma upload_gap_stored :
  let w := (CreateUploadSession demoUUID "/dir/f.txt" "f.txt" 4 "c" "" demo).2 in
  let w := demoChunk ab 0 (demoChunk ab 0 w) in
  let r := CompleteUpload demoSHA demoUUID "idAA" w in
  is_ok r.1 = true ∧
  object (store r.2) (os (sys r.2)) "dir/f.txt" = Some (ab ++ [Byte.x00; Byte.x00]).
Proof. vm_compute. split; reflexivity. Qed.

(** A temp directory outside the system's, which [SetTempDir] accepts and its
    comment recommends for several instances, makes every completion fail: the
    storage refuses the temp file, and the uploaded bytes are removed. *)
Lemma shared_temp_dir_refused :
  let set := SetTempDir (T := list) "/mnt/shared" demo in
  let w := (CreateUploadSession demoUUID "/dir/f.txt" "f.txt" 4 "c" "" set.2).2 in
  let w := (UploadChunk (T := list) "idAB" cd 2 (UploadChunk (T := list) "idAB" ab 0 w).2).2 in
  let r := CompleteUpload demoSHA demoUUID "idAB" w in
  is_ok set.1 = true ∧
  fileAt (os (sys w)) "/mnt/shared/idAB.tmp" = Some (ab ++ cd) ∧
  r.1 = Err (ErrWrap "failed to write file from temp"
               (ErrMsg "temp file must be in system temp directory")) ∧
  fileAt (os (sys r.2)) "/mnt/shared/idAB.tmp" = None.
Proof. vm_compute. split_and!; reflexivity. Qed.

(** A write that fails after it took effect defeats the incremental hash. A
    chunk is overwritten by a request that is answered with an error; the hash
    of the session still stands for the bytes before it, so the upload completes
    as verified although the stored bytes do not have the client's hash. *)
Lemma failed_write_defeats_hash :
  let fault n := if (n =? 27)%nat then ReplyLost (ErrMsg "input/output error") else NoFault in
  let w := demoWith fault (NewFileTransferService "/tmp/up") in
  let w := (CreateUploadSession demoUUID "/dir/f.txt" "f.txt" 4 "c" "61626364" w).2 in
  let w := demoChunk ab 0 w in
  let bad := UploadChunk (T := list) "idAA" cd 0 w in
  let w := demoChunk cd 2 bad.2 in
  let r := CompleteUpload demoSHA demoUUID "idAA" w in
  is_ok bad.1 = false ∧ (HashVerified <$> match r.1 with Ok x => Some x | Err _ => None end) = Some true ∧
  object (store r.2) (os (sys r.2)) "dir/f.txt" = Some (cd ++ cd) ∧
  EncodeToString (demoSHA (cd ++ cd)) ≠ "61626364".
Proof. vm_compute. split_and!; done. Qed.

(** An I/O error while the stored bytes are hashed goes unnoticed: SHA256File
    takes it for the end of the file. Under encryption the upload succeeds and
    the metadata records the hash of nothing. *)
Lemma short_read_wrong_hash :
  let fault n := if (n =? 24)%nat then ShortRead 0 else NoFault in
  let crypto := (Init "passphrase" NewCryptoService).2 in
  let w := demoWith fault (SetCryptoService crypto (NewFileTransferService "/tmp/up")) in
  let w := (CreateUploadSession demoUUID "/dir/f.txt" "f.txt" 2 "c" "" w).2 in
  let r := CompleteUpload demoSHA demoUUID "idAA" (demoChunk ab 0 w) in
  is_ok r.1 = true ∧ (fHash <$> fview (db r.2) "dir/f.txt") = Some (EncodeToString (demoSHA [])) ∧
  ∃ d, object (store r.2) (os (sys r.2)) "dir/f.txt" = Some d ∧ d ≠ [].
Proof. vm_compute. split_and!; [done..|]. eexists. by split. Qed.
