(* ===== verification/Multipart.v ===== *)
(** * Multipart uploads: internal/service/transfer/multipart.go

    Parts may arrive in any order and concurrently. Completion checks the number
    of bytes and the covered ranges; together these leave no gap and no overlap. *)

From S2P Require Export Upload.

Local Open Scope go_scope.

(** ** Counting the parts that cover a byte *)

Section parts.
Implicit Types (ws : list (bytes * Z)).

Definition covering (i : nat) (c : bytes * Z) : Prop :=
  (Z.to_nat c.2 ≤ i < Z.to_nat c.2 + length c.1)%nat.

#[export] Instance covering_dec i c : Decision (covering i c).
Proof. unfold covering. apply _. Defined.

Definition mult ws (i : nat) : nat := length (filter (covering i) ws).

(** The part lies within a file of [n] bytes. *)
Definition within (n : nat) (c : bytes * Z) : Prop := (Z.to_nat c.2 + length c.1 ≤ n)%nat.

Lemma sum_const {A} (f : A → nat) l c :
  (∀ x, x ∈ l → f x = c) → sum_list_with f l = (c * length l)%nat.
Proof.
  induction l as [|a l IH]; simpl; [lia|]. intros Hf.
  rewrite IH, (Hf a) by (intros; try apply Hf; set_solver). lia.
Qed.

Lemma sum_ext {A} (f g : A → nat) l :
  (∀ x, f x = g x) → sum_list_with f l = sum_list_with g l.
Proof. intros Hfg. induction l; simpl; congruence. Qed.

Lemma sum_add {A} (f g : A → nat) l :
  sum_list_with (λ x, f x + g x)%nat l = (sum_list_with f l + sum_list_with g l)%nat.
Proof. induction l; simpl; lia. Qed.

(** Values of at least one that add up to the number of terms are all one. *)
Lemma sum_tight {A} (f : A → nat) l :
  (∀ x, x ∈ l → 1 ≤ f x)%nat → sum_list_with f l = length l → ∀ x, x ∈ l → f x = 1%nat.
Proof.
  induction l as [|a l IH]; [by intros _ _ x ?%elem_of_nil|]. intros Hf Hs. simpl in Hs.
  assert (length l ≤ sum_list_with f l)%nat as Hge.
  { clear -Hf. induction l as [|b l IH]; simpl; [lia|].
    pose proof (Hf b ltac:(set_solver)).
    assert (∀ x, x ∈ a :: l → 1 ≤ f x)%nat as Hf' by (intros; apply Hf; set_solver).
    specialize (IH Hf'). lia. }
  pose proof (Hf a ltac:(set_solver)).
  intros x [->|Hx]%elem_of_cons; [lia|]. apply IH; [intros; apply Hf; set_solver|lia|done].
Qed.

Lemma sum_covering c n :
  within n c →
  sum_list_with (λ i, if decide (covering i c) then 1 else 0)%nat (seq 0 n) = length c.1.
Proof.
  unfold within. set (a := Z.to_nat c.2). set (m := length c.1). intros Hle.
  replace n with (a + (m + (n - a - m)))%nat by lia.
  rewrite !seq_app, !sum_list_with_app. simpl.
  rewrite (sum_const _ (seq 0 a) 0%nat), (sum_const _ (seq a m) 1%nat),
    (sum_const _ (seq (a + m) _) 0%nat), !length_seq; [lia|..];
    intros x Hx%elem_of_seq; case_decide as Hc; unfold covering in Hc; fold a m in Hc; lia.
Qed.

Definition sizes ws : nat := sum_list_with (λ c, length c.1) ws.

Lemma sum_mult ws n : Forall (within n) ws → sum_list_with (mult ws) (seq 0 n) = sizes ws.
Proof.
  induction 1 as [|c ws Hc _ IH]; [rewrite (sum_const _ _ 0%nat); done|].
  unfold sizes in *. simpl. rewrite <-IH, <-(sum_covering c n Hc), <-sum_add.
  apply sum_ext. intros i. unfold mult. rewrite filter_cons. by case_decide.
Qed.

(** Parts that cover the file and have its size in total do not overlap. *)
Lemma no_overlap ws n :
  Forall (within n) ws → (∀ i, i < n → ∃ c, c ∈ ws ∧ covering i c)%nat → sizes ws = n →
  ∀ i, (i < n)%nat → mult ws i = 1%nat.
Proof.
  intros Hin Hcov Hsum i Hi.
  apply (sum_tight (mult ws) (seq 0 n)); [|rewrite sum_mult, length_seq by done; done
    |apply elem_of_seq; lia].
  intros x Hx%elem_of_seq. destruct (Hcov x ltac:(lia)) as (c & Hc & Hx').
  assert (c ∈ filter (covering x) ws) as Hf by (by apply list_elem_of_filter).
  unfold mult. destruct (filter _ ws); [by apply elem_of_nil in Hf|]. simpl. lia.
Qed.

(** A byte covered once holds what its part holds. *)
Lemma content_lookup total ws c i :
  Forall (within (Z.to_nat total)) ws → c ∈ ws → covering i c → mult ws i = 1%nat →
  contentOf total ws !! i = c.1 !! (i - Z.to_nat c.2)%nat.
Proof.
  induction ws as [|[x off] ws IH] using rev_ind; [by intros _ ?%elem_of_nil|].
  rewrite Forall_app, Forall_singleton. intros [Hws Hx] Hc Hcov Hm.
  assert (length (contentOf total ws) = Z.to_nat total) as Hlen by (by apply length_contentOf).
  rewrite contentOf_snoc, lookup_writeAt by (unfold within in Hx; simpl in Hx; lia).
  unfold mult in Hm. rewrite filter_app, length_app in Hm.
  apply elem_of_app in Hc as [Hc|Hc%list_elem_of_singleton].
  - assert (c ∈ filter (covering i) ws) as Hf by (by apply list_elem_of_filter).
    assert (1 ≤ length (filter (covering i) ws))%nat as Hge
      by (destruct (filter _ ws); [by apply elem_of_nil in Hf|simpl; lia]).
    rewrite filter_cons, filter_nil in Hm. case_decide as Hcx; [simpl in Hm; lia|].
    rewrite decide_False by done. apply IH; auto. unfold mult. simpl in Hm. lia.
  - subst c. simpl. by rewrite decide_True.
Qed.

End parts.

Definition rangeOf (c : bytes * Z) : Z * Z := (c.2, c.2 + blen c.1)%Z.

Section multipart.
Context {Sg L St : Type} {T : Type → Type}.
Context `{StorageLaws Sg} `{DistributedLock L} `{SessionStore sessionValue St}.
Context `{SqlLaws T} `{AEADLaws}.
Context (sha256 : bytes → bytes) (uuid : nat → string).
Notation World := (World Sg L St T).

(** The part lies within [0, total). *)
Definition partIn (total : Z) (c : bytes * Z) : Prop := (0 ≤ c.2 ∧ c.2 + blen c.1 ≤ total)%Z.

Definition mtracked (td : string) (cs : option CryptoService) (id path hash : string) (total : Z)
    (ws : list (bytes * Z)) (w : World) : Prop :=
  let tmp := PathJoin [td; id +:+ ".tmp"] in
  intact td cs id w ∧ (0 ≤ total)%Z ∧ Forall (partIn total) ws ∧
  fileAt (os (sys w)) tmp = Some (contentOf total ws) ∧
  ∃ s, multipartSessions (svc w) !! id = Some s ∧ mTempFile s = Some tmp ∧
    mFilePath s = path ∧ mHash s = hash ∧ mTotalSize s = total ∧
    mUploadedSize s = wrap64 (Z.of_nat (sizes ws)) ∧
    mCoveredRanges s = recordAll [] (rangeOf <$> ws).

Lemma partIn_within total c : partIn total c → within (Z.to_nat total) c.
Proof. unfold partIn, within, blen. lia. Qed.

Lemma sizes_snoc ws data off : sizes (ws ++ [(data, off)]) = (sizes ws + length data)%nat.
Proof. unfold sizes. rewrite sum_list_with_app. simpl. lia. Qed.

(** A part that is accepted. *)
Lemma UploadPartData_ok id n data off s f d (w w' : World) :
  multipartSessions (svc w) !! id = Some s → mTempFile s = Some f →
  fileAt (os (sys w)) f = Some d → in64 off →
  UploadPartData sha256 id n off data w = (Ok tt, w') →
  (n ≤ 10000)%Z ∧ partIn (mTotalSize s) (data, off) ∧
  store w' = store w ∧ db w' = db w ∧
  fileAt (os (sys w')) f = Some (writeAt d (Z.to_nat off) data) ∧
  ∃ p now, svc w' = setMultiparts
    (<[id := touchMultipart now (countPart data (setPart n p
        (addCoveredRange (mCoveredRanges s) off (off + blen data)) s))]> (multipartSessions (svc w)))
    (svc w).
Proof.
  intros Hs Hf Hd Hoff Hr. unfold UploadPartData in Hr.
  apply bind_ok in Hr as (v & w1 & Hv & Hr). apply gets_ok in Hv as [-> ->].
  rewrite Hs, Hf in Hr.
  do 5 (apply bind_ok in Hr as ([] & w1 & Hg & Hr); apply guard_ok in Hg as [? ->]).
  apply bind_ok in Hr as ([] & w1 & Hw%wrapErr_ok & Hr). bool_prop.
  pose proof Hw as Hw0. apply onOS_ok in Hw as (s1 & _ & ->). apply onOS_osCall_ok in Hw0.
  unfold fWriteAt in Hw0. simpl in Hw0. unfold fileAt in Hd.
  destruct (off <? 0)%Z eqn:E0; [done|].
  destruct (int64_max <? off + blen data)%Z eqn:E1; [done|].
  destruct (os (sys w) !! f) as [[d'|]|]; simplify_eq/=. apply Z.ltb_ge in E0, E1.
  unfold beyondSize in *. rewrite (wrap64_id (off + blen data)) in * by (unfold in64, int64_min, blen in *; lia).
  rewrite Z.ltb_ge in *. split; [lia|]. split; [done|].
  set (part := notePart _ _ _ _ _) in Hr. set (s2 := countPart _ _) in Hr.
  assert (∃ now, store w' = store w ∧ db w' = db w ∧ os (sys w') = os s1 ∧
    svc w' = setMultiparts (<[id := touchMultipart now s2]> (multipartSessions (svc w))) (svc w))
    as (now & ? & ? & Ho & Hsv).
  { destruct (_ =? 0)%Z; [|injection Hr as <-; by exists (mUpdatedAt s2)].
    injection Hr as <-. eexists. by split_and!. }
  split_and!; [done..| |by exists part, now]. rewrite Ho, <-Hw0. apply fileAt_insert.
Qed.

Lemma UploadPartData_err id n data off s f e (w w' : World) :
  multipartSessions (svc w) !! id = Some s → mTempFile s = Some f →
  UploadPartData sha256 id n off data w = (Err e, w') → calm (eq f) w w'.
Proof.
  intros Hs Hf Hr. unfold UploadPartData in Hr.
  apply bind_err in Hr as [[=]|(v & w1 & Hv & Hr)]. apply gets_ok in Hv as [-> ->].
  rewrite Hs, Hf in Hr.
  do 5 (apply bind_err in Hr as [->%guard_err|([] & w1 & Hg & Hr)]; [done|];
        apply guard_ok in Hg as [_ ->]).
  pose proof (steps_wrapErr _ "failed to write part data" _ (calm_osCall (Sg := Sg) (L := L)
    (St := St) (T := T) (eq f) (fWriteAt f data off) (λ o q Hq, fileAt_fWriteAt f data off o q Hq)) w) as Hc.
  apply bind_err in Hr as [Hw|([] & w1 & Hw & Hr)]; [by rewrite Hw in Hc|].
  simpl in Hr. by destruct (_ =? 0)%Z.
Qed.

Lemma part_step td cs id path hash total ws n data off w w' :
  in64 total → in64 off → mtracked td cs id path hash total ws w →
  UploadPartData sha256 id n off data w = (Ok tt, w') →
  mtracked td cs id path hash total (ws ++ [(data, off)]) w'.
Proof.
  intros Ht Ho (Hi & Hpos & Hws & Hf & s & Hs & Htmp & Hp & Hh & Htot & Hu & Hc) Hr.
  destruct (UploadPartData_ok id n data off s _ _ w w' Hs Htmp Hf Ho Hr)
    as (_ & Hin & Hst & Hdb & Hf' & part & now & Hsv). rewrite Htot in Hin.
  unfold mtracked. cbv zeta. rewrite Hsv, Hf', contentOf_snoc. split_and!.
  - destruct Hi as (? & ? & ? & ? & ? & ?). unfold intact. rewrite Hst, Hdb, Hsv. by split_and!.
  - done.
  - apply Forall_app. split; [done|by constructor].
  - done.
  - eexists. split; [apply lookup_insert_eq|]. simpl. split_and!; try done.
    + rewrite Hu, wrap64_add_l, sizes_snoc. unfold blen. f_equal. lia.
    + rewrite Hc, fmap_app. unfold recordAll. rewrite foldl_app. done.
Qed.

Lemma preallocate_ok tmp total (w w' : World) x :
  ((wrapErr "failed to create temp file"
      (onError (onOS (osCall (osCreate tmp))) releaseSessionSlot)) ⨟
   wrapErr "failed to pre-allocate temp file"
     (onError (onOS (osCall (fTruncate tmp total))) (rm tmp ⨟ releaseSessionSlot))) w =
    (Ok x, w') →
  calm (eq tmp) w w' ∧
  fileAt (os (sys w')) tmp = Some (replicate (Z.to_nat total) Byte.x00).
Proof.
  intros Hr. destruct (decide (0 < total)%Z) as [Hp|Hp].
  { apply (allocate_ok tmp total w w' x). by rewrite (proj2 (Z.ltb_lt 0 total)). }
  apply bind_ok in Hr as ([] & w1 & Hc & Htr%wrapErr_ok%onError_ok).
  destruct (allocate_ok tmp total w w1 tt) as [Hm Hf].
  { unfold mbind, M_bind. rewrite Hc. by rewrite (proj2 (Z.ltb_ge 0 total)) by lia. }
  pose proof (calm_osCall (eq tmp) (fTruncate tmp total)
    (λ o q Hq, fileAt_fTruncate tmp total o q Hq) w1) as Hc2. rewrite Htr in Hc2.
  split; [by etrans|]. apply onOS_osCall_ok in Htr. unfold fTruncate in Htr. unfold fileAt in Hf.
  destruct (total <? 0)%Z eqn:E; [done|]. destruct (os (sys w1) !! tmp) as [[d|]|]; try done.
  injection Hf as ->. injection Htr as _ Ho. rewrite <-Ho, fileAt_insert.
  apply Z.ltb_ge in E. by replace total with 0%Z by lia.
Qed.

Lemma create_mtracked td cs id size path name total client hash w w' :
  intact td cs id w →
  CreateMultipartUpload uuid path name total client hash w = (Ok (id, size), w') →
  mtracked td cs id (NormalizePath path) hash total [] w' ∧ size = suggestedPartSize total.
Proof.
  intros Hint Hr. unfold CreateMultipartUpload in Hr.
  apply bind_ok in Hr as (b & w1 & Hb & Hr). apply bind_ok in Hr as ([] & w2 & Hg & Hr).
  apply guard_ok in Hg as [-> ->].
  apply bind_ok in Hr as (i & w2 & Hu & Hr). apply bind_ok in Hr as (now & w3 & Hn & Hr).
  apply bind_ok in Hr as (v & w4 & Hv & Hr). apply gets_ok in Hv as [-> ->].
  assert (i = id ∧ size = suggestedPartSize total) as [-> ->].
  { clear -Hr. run_ok Hr. by simplify_eq. }
  pose proof (acquireSessionSlot_mild w) as Hm1. rewrite Hb in Hm1.
  pose proof (calm_mild _ _ (calm_uuid none uuid) w1) as Hm2. rewrite Hu in Hm2.
  pose proof (calm_mild _ _ (calm_nowString none) w2) as Hm3. rewrite Hn in Hm3.
  simpl in Hm1, Hm2, Hm3.
  assert (mild none w w3) as Hm by (do 2 (etrans; [|done]); done).
  assert (intact td cs id w3) as Hi3 by (by eapply intact_mild).
  set (tmp := tempPathOf (svc w3) id ".tmp") in *.
  assert (tmp = PathJoin [td; id +:+ ".tmp"]) as Htmp.
  { unfold tmp, tempPathOf. by destruct Hi3 as (_ & _ & -> & _). }
  apply bind_ok in Hr as ([] & w4 & Hc & Hr). apply bind_ok in Hr as ([] & w5 & Htr & Hr).
  assert (0 ≤ total)%Z as Hpos.
  { apply wrapErr_ok, onError_ok, onOS_osCall_ok in Htr. unfold fTruncate in Htr.
    destruct (Z.ltb_spec total 0); [done|lia]. }
  destruct (preallocate_ok tmp total w3 w5 tt) as [[Hm5 Hsv5] Hf5].
  { unfold mbind, M_bind. rewrite Hc. exact Htr. }
  split; [|done]. assert (intact td cs id w5) as Hi5 by (by eapply intact_mild).
  apply bind_ok in Hr as ([] & w6 & Hset & Hr). injection Hset as <-.
  apply bind_ok in Hr as ([] & w6 & Hig & Hr). apply ret_ok in Hr as [_ ->].
  apply ignore_ok in Hig. subst w6.
  match goal with |- context [onSession ?f ?ww] =>
    destruct (calm_onSession (T := T) (Sg := Sg) (L := L) none f ww)
      as [(Hst6 & Hdb6 & [Htd6 _] & Hcs6 & Hf6) Hsv6] end.
  unfold mtracked. cbv zeta. rewrite <-Htmp. split_and!.
  - unfold intact in *. cbv zeta in *. simpl in *. rewrite Hst6, Hdb6, Htd6, Hcs6. done.
  - done.
  - constructor.
  - rewrite Hf6 by done. done.
  - rewrite Hsv6. eexists. split; [apply lookup_insert_eq|]. by split_and!.
Qed.

Lemma endMultipart_mild P id :
  steps (mild P) (endMultipart (Sg := Sg) (L := L) (St := St) (T := T) id).
Proof. unfold endMultipart, releaseSessionSlot. steps_auto; by apply mild_onService. Qed.

Lemma verifyMultipart_mild id tmp hash :
  steps (mild (eq tmp)) (verifyMultipart (Sg := Sg) (L := L) (St := St) (T := T) sha256 id tmp hash).
Proof.
  unfold verifyMultipart. steps_auto; auto using endMultipart_mild;
    apply calm_mild; auto using SHA256File_calm, calm_rm.
Qed.

Lemma verifyMultipart_spec cs tmp d id hash :
  hoare (held cs tmp d) (verifyMultipart (L := L) (St := St) sha256 id tmp hash)
    (λ _ w, held cs tmp d w ∧ (hash ≠ "" → hash = EncodeToString (sha256 d))).
Proof.
  intros w [] w' Hh Hr. unfold verifyMultipart in Hr. case_bool_decide as He.
  { run_ok Hr. by subst. }
  apply bind_ok in Hr as (c & w1 & Hc%wrapErr_ok%onError_ok & Hr).
  assert (c = EncodeToString (sha256 d)) as -> by (by eapply SHA256File_ok).
  eapply (hoare_held cs none) in Hc; [|done|apply calm_mild, SHA256File_calm|done].
  case_bool_decide; run_ok Hr. by subst.
Qed.

(** What the checks of CompleteMultipartUpload guarantee. *)
Lemma complete_checks total ws s :
  mTotalSize s = total → (0 ≤ total)%Z → Forall (partIn total) ws →
  mUploadedSize s = wrap64 (Z.of_nat (sizes ws)) →
  mCoveredRanges s = recordAll [] (rangeOf <$> ws) → in64 (Z.of_nat (sizes ws)) →
  (mUploadedSize s =? mTotalSize s)%Z = true →
  isFullyCovered (mCoveredRanges s) (mTotalSize s) = true →
  sizes ws = Z.to_nat total ∧ ∀ i, (i < Z.to_nat total)%nat → ∃ c, c ∈ ws ∧ covering i c.
Proof.
  intros Ht Hpos Hws Hu Hc Hin Hsize%Z.eqb_eq Hcov. rewrite Hu, wrap64_id in Hsize by done.
  split; [lia|]. intros i Hi. assert (wfRanges []) as Hwf by (split; constructor).
  rewrite Hc, Ht in Hcov. rewrite isFullyCovered_spec in Hcov by (done || by apply recordAll_wf).
  pose proof (proj2 (Hcov (Z.of_nat i)) ltac:(lia)) as Hcv.
  rewrite recordAll_covers in Hcv by done.
  destruct Hcv as [?%covers_nil|(x & Hx & Hxi)]; [done|].
  apply list_elem_of_fmap in Hx as (c & -> & Hcw). exists c. split; [done|].
  rewrite Forall_forall in Hws. destruct (Hws c Hcw). unfold covering, rangeOf, blen in *.
  simpl in *. lia.
Qed.

Lemma complete_multipart td cs id path hash total ws w w' :
  safe path → in64 (Z.of_nat (sizes ws)) → mtracked td cs id path hash total ws w → wholeReads w →
  CompleteMultipartUpload sha256 uuid id w = (Ok tt, w') →
  let d := contentOf total ws in
  sizes ws = Z.to_nat total ∧ (∀ i, (i < Z.to_nat total)%nat → ∃ c, c ∈ ws ∧ covering i c) ∧
  (hash ≠ "" → hash = EncodeToString (sha256 d)) ∧
  ∃ e h fid, storedAs sha256 cs d hash e h ∧
    object (store w') (os (sys w')) path = Some e ∧ recorded path total h fid w'.
Proof.
  intros Hs Hin (Hi & Hpos & Hws & Hf & s & Hsess & Htmp & Hp & Hh & Htot & Hu & Hc) Hw Hr d.
  unfold CompleteMultipartUpload in Hr. apply bind_ok in Hr as (v & w1 & Hv & Hr).
  apply gets_ok in Hv as [-> ->]. rewrite Hsess in Hr. cbv zeta in Hr.
  set (tmp := PathJoin [td; id +:+ ".tmp"]) in *.
  replace (tempPathOf (svc w) id ".tmp") with tmp in Hr
    by (unfold tempPathOf; by destruct Hi as (_ & _ & -> & _)).
  apply bind_ok in Hr as ([] & w1 & Hg & Hr). apply guard_ok in Hg as [Hg1 ->].
  apply bind_ok in Hr as ([] & w1 & Hg & Hr). apply guard_ok in Hg as [Hg2 ->].
  apply bind_ok in Hr as ([] & w1 & Hg & Hr). apply guard_ok in Hg as [_ ->].
  destruct (complete_checks total ws s Htot Hpos Hws Hu Hc Hin Hg1 Hg2) as [Hsz Hcov].
  apply bind_ok in Hr as ([] & w1 & Hset & Hr).
  apply bind_ok in Hr as ([] & w2 & Hsy%wrapErr_ok%onError_ok & Hr).
  apply bind_ok in Hr as ([] & w3 & Hcl%wrapErr_ok%onError_ok & Hr).
  assert (mild none w w3) as Hm.
  { trans w1; [by injection Hset as <-|]. trans w2.
    - pose proof (calm_mild _ _ (calm_sync none) w1) as Hm. by rewrite Hsy in Hm.
    - pose proof (calm_mild _ _ (calm_close none) w2) as Hm. by rewrite Hcl in Hm. }
  destruct (intact_mild td cs id none _ _ Hm Hi) as (? & ? & ? & ? & Hout & Houte).
  assert (held cs tmp d w3) as Hh3.
  { pose proof (wholeReads_mild _ _ _ Hm Hw). destruct Hm as (_ & _ & _ & _ & Hf3).
    unfold held. rewrite Hf3 by done. by split_and!. }
  apply bind_ok in Hr as ([] & w4 & Hv & Hr).
  pose proof (verifyMultipart_mild id tmp (mHash s) w3) as (Hst4 & _). rewrite Hv in Hst4.
  simpl in Hst4.
  eapply verifyMultipart_spec in Hv as [Hh4 Hhash]; [|done].
  apply bind_ok in Hr as ([p h] & w5 & He & Hr).
  eapply (encryptTemp_spec sha256 cs tmp d) in He as (e & Hh5 & Hsa);
    [|split; [done|]; by rewrite Hst4].
  simpl in Hh5, Hsa, Hr. rewrite Hp in Hr.
  eapply (commit_spec uuid cs path p e (mFileName s) (mTotalSize s) h _ _ _ _ _ _ _ _ _ _
    (λ _, endMultipart id ⨟ rm p ⨟ ignore (onSession (λ env, SDelete env "multipart_upload" id)))
    (λ _ _, True)) in Hr as [Hk (fid & Hrec & _)]; [|done| |done|done].
  - rewrite <-Htot, <-Hh. split_and!; [congruence|by rewrite Htot|done|]. exists e, h, (fID fid).
    split_and!; [done|apply Hk|by eexists].
  - intros fid. steps_auto; [apply endMultipart_mild|..]; apply calm_mild; auto with steps.
    by apply calm_rm.
Qed.

(** ** Interference *)

Definition mkeeps (id : string) (w w' : World) : Prop :=
  ∀ td cs, intact td cs id w →
  intact td cs id w' ∧ multipartSessions (svc w') !! id = multipartSessions (svc w) !! id ∧
  fileAt (os (sys w')) (PathJoin [td; id +:+ ".tmp"]) =
    fileAt (os (sys w)) (PathJoin [td; id +:+ ".tmp"]).

(** [parts id w ws w']: the parts [ws] were accepted, in this order, with other
    requests in between; a refused part did not reach the temp file. *)
Inductive parts (id : string) : World → list (bytes * Z) → World → Prop :=
| parts_none w : parts id w [] w
| parts_other w ws w1 w2 : parts id w ws w1 → mkeeps id w1 w2 → parts id w ws w2
| parts_ok w ws n data off w1 w2 :
    parts id w ws w1 → in64 off → UploadPartData sha256 id n off data w1 = (Ok tt, w2) →
    parts id w (ws ++ [(data, off)]) w2
| parts_err w ws n data off e w1 w2 :
    parts id w ws w1 → UploadPartData sha256 id n off data w1 = (Err e, w2) →
    fileAt (os (sys w2)) (tempPathOf (svc w1) id ".tmp") =
      fileAt (os (sys w1)) (tempPathOf (svc w1) id ".tmp") →
    parts id w ws w2.

Lemma parts_tracked td cs id path hash total ws w w' :
  in64 total → parts id w ws w' → mtracked td cs id path hash total [] w →
  mtracked td cs id path hash total ws w'.
Proof.
  intros Ht Hc. induction Hc as [|w ws w1 w2 Hc IH Hk|w ws n data off w1 w2 Hc IH Ho Hr
    |w ws n data off e w1 w2 Hc IH Hr Hsame]; intros Htr; [done|specialize (IH Htr)..].
  - destruct IH as (Hi & ? & ? & Hf & Hs). destruct (Hk td cs Hi) as (Hi' & Hs' & Hf').
    unfold mtracked. cbv zeta. rewrite Hs', Hf'. by split_and!.
  - by eapply part_step.
  - destruct IH as (Hi & ? & ? & Hf & s & Hs & Htmp & Hrest).
    destruct (UploadPartData_err id n data off s _ e w1 w2 Hs Htmp Hr) as [Hm Hsv].
    pose proof Hi as (_ & _ & Htd & _). unfold tempPathOf in Hsame. rewrite Htd in Hsame.
    unfold mtracked. cbv zeta. rewrite Hsv, Hsame. split; [by eapply intact_mild|].
    do 3 (split; [done|]). exists s. by rewrite Hs, Htmp.
Qed.

End multipart.

(** ** The bytes of a complete set of parts *)

Section complete.
Context (total : Z) (ws : list (bytes * Z)).
Context (Hws : Forall (within (Z.to_nat total)) ws) (Hsz : sizes ws = Z.to_nat total).
Context (Hcov : ∀ i, (i < Z.to_nat total)%nat → ∃ c, c ∈ ws ∧ covering i c).

Lemma part_in_place c : c ∈ ws → readAt (contentOf total ws) (Z.to_nat c.2) (length c.1) = c.1.
Proof.
  intros Hc. rewrite Forall_forall in Hws. pose proof (Hws c Hc) as Hin. unfold within in Hin.
  apply list_eq. intros i. unfold readAt. destruct (decide (i < length c.1)%nat) as [Hi|Hi].
  - rewrite lookup_take_lt, lookup_drop by done.
    rewrite (content_lookup total ws c); [f_equal; lia|by apply Forall_forall|done|..].
    + unfold covering. lia.
    + apply (no_overlap ws (Z.to_nat total)); [by apply Forall_forall|done|done|lia].
  - rewrite lookup_take_ge by lia. symmetry. apply lookup_ge_None. lia.
Qed.

Lemma mult_perm ws' i : ws ≡ₚ ws' → mult ws i = mult ws' i.
Proof. intros Hp. unfold mult. by rewrite Hp. Qed.

Lemma content_perm ws' : ws ≡ₚ ws' → contentOf total ws = contentOf total ws'.
Proof.
  intros Hp. assert (Forall (within (Z.to_nat total)) ws') as Hws' by (by rewrite <-Hp).
  apply list_eq. intros i. destruct (decide (i < Z.to_nat total)%nat) as [Hi|Hi].
  - destruct (Hcov i Hi) as (c & Hc & Hci).
    assert (mult ws i = 1%nat) as Hm by (by apply (no_overlap ws (Z.to_nat total))).
    rewrite (content_lookup total ws c), (content_lookup total ws' c); try done.
    + by rewrite <-Hp.
    + by rewrite <-(mult_perm ws').
  - rewrite !lookup_ge_None_2; [done|rewrite length_contentOf; [lia|done]..].
Qed.
End complete.

(** ** Properties *)

(** C5: a completed multipart upload stores every part in its place, without a
    gap and without an overlap. From the creation of a session to its
    completion, with any other requests in between and the parts in any order,
    the stored object (its encryption, when encryption is on) holds each
    accepted part at its offset and nothing else; it would be the same for any
    other order of arrival; a given hash is the SHA-256 of these bytes, and the
    metadata of the path records the size and the hash. Reads of local files do
    not break off during the completion. *)
Theorem multipart_correct {Sg L St T} `{StorageLaws Sg} `{DistributedLock L}
    `{SessionStore sessionValue St} `{SqlLaws T} `{AEADLaws}
    (sha256 : bytes → bytes) (uuid : nat → string) (td : string) (cs : option CryptoService)
    (id path name client hash : string) (total size : Z) (ws : list (bytes * Z))
    (w0 w1 w2 w3 : World Sg L St T) :
  in64 total → in64 (Z.of_nat (sizes ws)) → IsValidFilePath path = true → intact td cs id w0 →
  CreateMultipartUpload uuid path name total client hash w0 = (Ok (id, size), w1) →
  parts sha256 id w1 ws w2 → wholeReads w2 →
  CompleteMultipartUpload sha256 uuid id w2 = (Ok tt, w3) →
  ∃ d e h fid, storedAs sha256 cs d hash e h ∧
    object (store w3) (os (sys w3)) (NormalizePath path) = Some e ∧
    recorded (NormalizePath path) total h fid w3 ∧
    blen d = total ∧ (hash ≠ "" → hash = EncodeToString (sha256 d)) ∧
    (∀ c, c ∈ ws → readAt d (Z.to_nat c.2) (length c.1) = c.1) ∧
    (∀ i, (i < Z.to_nat total)%nat → mult ws i = 1%nat) ∧
    (∀ ws', ws ≡ₚ ws' → contentOf total ws' = d).
Proof.
  intros Ht Hin Hv Hi Hc Hws Hw Hd.
  destruct (create_mtracked uuid td cs id size path name total client hash w0 w1 Hi Hc) as [Htr _].
  pose proof (parts_tracked sha256 td cs id _ hash total ws w1 w2 Ht Hws Htr) as Htr2.
  pose proof Htr2 as (_ & Hpos & Hparts & _).
  assert (Forall (within (Z.to_nat total)) ws) as Hwi
    by (eapply Forall_impl; [done|]; apply partIn_within).
  destruct (complete_multipart sha256 uuid td cs id _ hash total ws w2 w3
    (ex_intro _ _ (valid_path_safeKey path Hv)) Hin Htr2 Hw Hd)
    as (Hsz & Hcov & Hhash & e & h & fid & Hsa & Hob & Hrec).
  exists (contentOf total ws), e, h, fid. split_and!; try done.
  - unfold blen. rewrite length_contentOf by done. lia.
  - by apply part_in_place.
  - by apply no_overlap.
  - intros ws' Hp. symmetry. by apply content_perm.
Qed.

Notation demoMultipart := (CreateMultipartUpload demoUUID "f.txt" "f.txt" 4 "c" "61626364" demo).2.
Notation demoPart n off data w := (UploadPartData (T := list) demoSHA "idAA" n off data w).2.

Lemma multipart_correct_witness :
  let w2 := demoPart 1 0 ab (demoPart 2 2 cd demoMultipart) in
  let w3 := (CompleteMultipartUpload demoSHA demoUUID "idAA" w2).2 in
  let ws := [(cd, 2%Z); (ab, 0%Z)] in
  ∃ d e h fid, storedAs demoSHA None d "61626364" e h ∧
    object (store w3) (os (sys w3)) (NormalizePath "f.txt") = Some e ∧
    recorded (NormalizePath "f.txt") 4 h fid w3 ∧
    blen d = 4%Z ∧ ("61626364" ≠ "" → "61626364" = EncodeToString (demoSHA d)) ∧
    (∀ c, c ∈ ws → readAt d (Z.to_nat c.2) (length c.1) = c.1) ∧
    (∀ i, (i < Z.to_nat 4)%nat → mult ws i = 1%nat) ∧
    (∀ ws', ws ≡ₚ ws' → contentOf 4 ws' = d).
Proof.
  apply (multipart_correct demoSHA demoUUID "/tmp/up" None "idAA" "f.txt" "f.txt" "c" "61626364" 4
    8388608 [(cd, 2%Z); (ab, 0%Z)] demo demoMultipart
    (demoPart 1 0 ab (demoPart 2 2 cd demoMultipart))
    (CompleteMultipartUpload demoSHA demoUUID "idAA"
      (demoPart 1 0 ab (demoPart 2 2 cd demoMultipart))).2);
    [split; vm_compute; done|split; vm_compute; done|vm_compute; reflexivity|apply demo_intact
    |apply outcome; vm_compute; reflexivity| |intros n k; vm_compute; done
    |apply outcome; vm_compute; reflexivity].
  apply (parts_ok demoSHA "idAA" _ [(cd, 2%Z)] 1 ab 0 (demoPart 2 2 cd demoMultipart));
    [|split; vm_compute; done|apply outcome; vm_compute; reflexivity].
  apply (parts_ok demoSHA "idAA" _ [] 2 cd 2 demoMultipart);
    [apply parts_none|split; vm_compute; done|apply outcome; vm_compute; reflexivity].
Defined.

(** A part that a client sends again, as after a lost reply, makes the upload
    impossible to complete: the byte counter exceeds the size for good, and every
    completion is refused although all bytes are in place. *)
Lemma multipart_retry_blocks :
  let w := demoPart 2 2 cd (demoPart 1 0 ab (demoPart 1 0 ab demoMultipart)) in
  (∃ s, multipartSessions (svc w) !! "idAA" = Some s ∧
    isFullyCovered (mCoveredRanges s) (mTotalSize s) = true ∧ mUploadedSize s = 6%Z) ∧
  fileAt (os (sys w)) "/tmp/up/idAA.tmp" = Some (ab ++ cd) ∧
  (CompleteMultipartUpload demoSHA demoUUID "idAA" w).1 = Err (ErrMsg "upload incomplete").
Proof.
  cbv zeta. split; [|vm_compute; split; reflexivity].
  eexists. split; [vm_compute; reflexivity|]. split; vm_compute; reflexivity.
Qed.

(** With the suggested part size an upload fits in the 10000 part numbers
    that UploadPartData accepts exactly up to a size of 1250 GiB
    (10000 parts of 128 MiB); a larger file needs a part that is refused. *)
Lemma part_count_fits (totalSize : Z) :
  (0 ≤ totalSize)%Z →
  let count := ((totalSize + suggestedPartSize totalSize - 1) / suggestedPartSize totalSize)%Z in
  (count ≤ 10000 ↔ totalSize ≤ 10000 * (128 * 1024 * 1024))%Z ∧
  (totalSize ≤ count * suggestedPartSize totalSize)%Z.
Proof.
  intros Hpos. unfold suggestedPartSize. cbv zeta.
  assert (∀ p, 0 < p → (((totalSize + p - 1) / p ≤ 10000 ↔ totalSize ≤ 10000 * p) ∧
    totalSize ≤ (totalSize + p - 1) / p * p))%Z as Hdiv.
  { intros p Hp. pose proof (Z.div_mod (totalSize + p - 1) p ltac:(lia)) as Hdm.
    pose proof (Z.mod_pos_bound (totalSize + p - 1) p Hp) as Hb.
    set (q := ((totalSize + p - 1) / p)%Z) in *. nia. }
  repeat case_match; repeat match goal with H : (_ <=? _)%Z = _ |- _ =>
    first [apply Z.leb_le in H|apply Z.leb_gt in H] end;
    match goal with |- context [(_ / ?p)%Z] => destruct (Hdiv p ltac:(lia)) as [Hc Hn] end;
    (split; [rewrite Hc; lia|exact Hn]).
Qed.

Lemma part_count_fits_witness :
  let count := ((1073741824 + suggestedPartSize 1073741824 - 1) / suggestedPartSize 1073741824)%Z in
  (count ≤ 10000 ↔ 1073741824 ≤ 10000 * (128 * 1024 * 1024))%Z ∧
  (1073741824 ≤ count * suggestedPartSize 1073741824)%Z.
Proof. apply (part_count_fits 1073741824). lia. Defined.
