(* ===== verification/Slots.v ===== *)
(** * The limit on concurrent upload sessions

    [sessionCount] counts the sessions of the two tables of uploads: each
    operation that adds a session takes a slot and each one that removes it
    gives it back, on every path. *)

From S2P Require Export Multipart.

Local Open Scope go_scope.

Section slots.
Context {Sg L St : Type} {T : Type → Type}.
Context `{StorageAdapter Sg} `{DistributedLock L} `{SessionStore sessionValue St}.
Context `{SqlEngine T} `{AEAD}.
Context (sha256 : bytes → bytes) (uuid : nat → string).
Notation World := (World Sg L St T).

(** ** The invariant *)

Definition sessions (v : FileTransferService) : Z :=
  Z.of_nat (size (uploadSessions v)) + Z.of_nat (size (multipartSessions v)).

(** The count is the number of sessions plus [k] slots taken in advance, within a
    sensible limit. *)
Definition held_slots (k : Z) (v : FileTransferService) : Prop :=
  (sessionCount v = sessions v + k ∧ sessionCount v ≤ maxSessions v ∧
   0 ≤ maxSessions v < int64_max)%Z.

Definition balanced (w : World) : Prop := held_slots 0 (svc w).
Definition reserved (w : World) : Prop := held_slots 1 (svc w).
Definition uploading (id : string) (w : World) : Prop :=
  balanced w ∧ is_Some (uploadSessions (svc w) !! id).
Definition uploadingParts (id : string) (w : World) : Prop :=
  balanced w ∧ is_Some (multipartSessions (svc w) !! id).

Definition sameSvc (w w' : World) : Prop := svc w' = svc w.

#[export] Instance sameSvc_preorder : PreOrder sameSvc.
Proof. split; [done|]. unfold sameSvc. congruence. Qed.

(** A call into another component leaves the service alone. *)
Lemma same_onStore {A} (m : M (Sg * Sys) A) : steps sameSvc (onStore m).
Proof. intros w. unfold onStore. by destruct (m _) as [r [g s]]. Qed.

Lemma same_onDB {A} (m : M (DB T * Sys) A) : steps sameSvc (onDB m).
Proof. intros w. unfold onDB. by destruct (m _) as [r [d s]]. Qed.

Lemma same_onOS {A} (m : M Sys A) : steps sameSvc (onOS m).
Proof. intros w. unfold onOS. by destruct (m _) as [r s]. Qed.

Lemma same_onSession {A} (op : callEnv → St → res A * St) : steps sameSvc (onSession op).
Proof. intros w. unfold onSession. by destruct (op _ _). Qed.

Lemma same_acquire key ttl n delay : steps sameSvc (acquire key ttl n delay).
Proof. intros w. apply (calm_acquire none). Qed.

Lemma same_release key token : steps sameSvc (release key token).
Proof. intros w. apply (calm_release none). Qed.

Lemma same_rm p : steps sameSvc (rm p).
Proof. apply steps_ignore, same_onOS. Qed.

Lemma triple_same {A} (P : FileTransferService → Prop) (m : M World A) :
  steps sameSvc m → triple (λ w, P (svc w)) m (λ _ w, P (svc w)) (λ w, P (svc w)).
Proof. intros Hm. eapply triple_steps; [done|]. intros w w' HP Hs. by rewrite Hs. Qed.

(** A call, then the rest. *)
Lemma slot_call {A B} (P : FileTransferService → Prop) (m : M World A) (f : A → M World B) Q E :
  steps sameSvc m → (∀ w, P (svc w) → E w) → (∀ a, triple (λ w, P (svc w)) (f a) Q E) →
  triple (λ w, P (svc w)) (m ≫= f) Q E.
Proof.
  intros Hm HE Hf. eapply triple_bind; [|exact Hf].
  eapply triple_conseq; [by apply (triple_same P)|auto..].
Qed.

(** A call that cannot fail, then the rest. *)
Definition sure {A} (m : M World A) : Prop := ∀ w, is_ok (m w).1 = true.

Lemma slot_sure {A B} (P : FileTransferService → Prop) (m : M World A) (f : A → M World B) Q E :
  steps sameSvc m → sure m → (∀ a, triple (λ w, P (svc w)) (f a) Q E) →
  triple (λ w, P (svc w)) (m ≫= f) Q E.
Proof.
  intros Hm Hs Hf w Hw. specialize (Hm w). specialize (Hs w). unfold mbind, M_bind.
  destruct (m w) as [[a|e] w1]; [|done]. apply Hf. unfold sameSvc in Hm. simpl in Hm. by rewrite Hm.
Qed.

Lemma sure_ignore {A} (m : M World A) : sure (ignore m).
Proof. intros w. unfold ignore. by destruct (m w). Qed.

Lemma sure_catch {A} (m : M World A) : sure (catch m).
Proof. intros w. unfold catch. by destruct (m w). Qed.

Lemma sure_now : sure nowString.
Proof. done. Qed.

Lemma sure_uuid : sure (GenerateUUID uuid).
Proof. done. Qed.

Lemma sure_service : sure service.
Proof. done. Qed.

Lemma same_service : steps sameSvc service.
Proof. done. Qed.

(** A call whose failure is cleaned up, then the rest. *)
Lemma slot_cleanup {A B C} (P : FileTransferService → Prop) msg (m : M World A) (c : M World C)
    (f : A → M World B) Q E :
  steps sameSvc m → triple (λ w, P (svc w)) c (λ _, E) E →
  (∀ a, triple (λ w, P (svc w)) (f a) Q E) →
  triple (λ w, P (svc w)) (wrapErr msg (onError m c) ≫= f) Q E.
Proof.
  intros Hm Hc Hf. eapply triple_bind; [|exact Hf].
  apply triple_wrapErr. eapply triple_onError; [by apply (triple_same P)|done].
Qed.

(** ** Taking and giving back slots *)

Lemma release_slot : triple reserved releaseSessionSlot (λ _, balanced) balanced.
Proof.
  apply triple_modify. intros w (Hc & Hm & Hr). unfold balanced, held_slots, sessions in *. simpl.
  rewrite wrap64_id by (unfold in64, int64_min, int64_max in *; lia). lia.
Qed.

Lemma acquire_slot :
  triple balanced acquireSessionSlot (λ b w, if b then reserved w else balanced w) balanced.
Proof.
  intros w (Hc & Hm & Hr). unfold acquireSessionSlot, mbind, M_bind. simpl.
  assert (wrap64 (sessionCount (svc w) + 1) = sessionCount (svc w) + 1)%Z as Hw.
  { apply wrap64_id. unfold in64, int64_min, int64_max, sessions in *. lia. }
  rewrite Hw. destruct (Z.ltb_spec (maxSessions (svc w)) (sessionCount (svc w) + 1)); simpl.
  - unfold balanced, held_slots, sessions in *. simpl.
    rewrite Hw, wrap64_id by (unfold in64, int64_min, int64_max in *; lia). lia.
  - unfold reserved, held_slots, sessions in *. simpl. rewrite Hw. lia.
Qed.

Lemma end_upload id : triple (uploading id) (endUpload id) (λ _, balanced) balanced.
Proof.
  intros w [(Hc & Hm & Hr) [s Hs]]. simpl. unfold balanced, held_slots, sessions in *. simpl.
  rewrite map_size_delete_Some by done.
  assert (size (uploadSessions (svc w)) ≠ 0)%nat as Hne.
  { intros Hz%map_size_empty_inv. by rewrite Hz, lookup_empty in Hs. }
  rewrite wrap64_id by (unfold in64, int64_min, int64_max in *; lia). lia.
Qed.

Lemma end_multipart id : triple (uploadingParts id) (endMultipart id) (λ _, balanced) balanced.
Proof.
  intros w [(Hc & Hm & Hr) [s Hs]]. simpl. unfold balanced, held_slots, sessions in *. simpl.
  rewrite map_size_delete_Some by done.
  assert (size (multipartSessions (svc w)) ≠ 0)%nat as Hne.
  { intros Hz%map_size_empty_inv. by rewrite Hz, lookup_empty in Hs. }
  rewrite wrap64_id by (unfold in64, int64_min, int64_max in *; lia). lia.
Qed.

Lemma update_upload id s E : triple (uploading id) (setUpload id s) (λ _, uploading id) E.
Proof.
  apply triple_modify. intros w [Hb [s0 Hs0]]. unfold uploading, balanced, held_slots, sessions in *.
  simpl. rewrite map_size_insert_Some, lookup_insert_eq by eauto. split; [done|eauto].
Qed.

Lemma update_multipart id s E :
  triple (uploadingParts id) (setMultipart id s) (λ _, uploadingParts id) E.
Proof.
  apply triple_modify. intros w [Hb [s0 Hs0]].
  unfold uploadingParts, balanced, held_slots, sessions in *.
  simpl. rewrite map_size_insert_Some, lookup_insert_eq by eauto. split; [done|eauto].
Qed.

Lemma add_upload id s E :
  triple (λ w, reserved w ∧ uploadSessions (svc w) !! id = None) (setUpload id s) (λ _, balanced) E.
Proof.
  apply triple_modify. intros w [Hb Hn]. unfold balanced, reserved, held_slots, sessions in *.
  simpl. rewrite map_size_insert_None by done. lia.
Qed.

Lemma add_multipart id s E :
  triple (λ w, reserved w ∧ multipartSessions (svc w) !! id = None) (setMultipart id s)
    (λ _, balanced) E.
Proof.
  apply triple_modify. intros w [Hb Hn]. unfold balanced, reserved, held_slots, sessions in *.
  simpl. rewrite map_size_insert_None by done. lia.
Qed.

(** ** The operations *)

Definition upl (id : string) (v : FileTransferService) : Prop :=
  held_slots 0 v ∧ is_Some (uploadSessions v !! id).
Definition prt (id : string) (v : FileTransferService) : Prop :=
  held_slots 0 v ∧ is_Some (multipartSessions v !! id).
Definition newUpl (id : string) (v : FileTransferService) : Prop :=
  held_slots 1 v ∧ uploadSessions v !! id = None.
Definition newPrt (id : string) (v : FileTransferService) : Prop :=
  held_slots 1 v ∧ multipartSessions v !! id = None.

Lemma upl_balanced id w : upl id (svc w) → balanced w.
Proof. by intros [? _]. Qed.

Lemma prt_balanced id w : prt id (svc w) → balanced w.
Proof. by intros [? _]. Qed.

(** Cleanup on the way out: remove the temp file, then the session. *)
Lemma rm_end_upload p id :
  triple (uploading id) (rm p ⨟ endUpload id) (λ _, balanced) balanced.
Proof.
  eapply (slot_call (upl id)); [apply same_rm|apply upl_balanced|intros _; apply end_upload].
Qed.

Lemma rm_end_multipart p id :
  triple (uploadingParts id) (rm p ⨟ endMultipart id) (λ _, balanced) balanced.
Proof.
  eapply (slot_call (prt id)); [apply same_rm|apply prt_balanced|intros _; apply end_multipart].
Qed.

Lemma rm_release_slot p : triple reserved (rm p ⨟ releaseSessionSlot) (λ _, balanced) balanced.
Proof.
  eapply (slot_sure (held_slots 1)); [apply same_rm|apply sure_ignore|intros _; apply release_slot].
Qed.

Lemma acquire_frame (w : World) :
  let w' := (acquireSessionSlot w).2 in
  sys w' = sys w ∧ uploadSessions (svc w') = uploadSessions (svc w) ∧
  multipartSessions (svc w') = multipartSessions (svc w).
Proof. unfold acquireSessionSlot, mbind, M_bind. simpl. by destruct (_ <? _)%Z. Qed.

Lemma new_uuid (P : string → FileTransferService → Prop) E :
  triple (λ w : World, P (uuid (tick (sys w))) (svc w)) (GenerateUUID uuid) (λ id w, P id (svc w)) E.
Proof. by intros w HP. Qed.

Lemma CreateUploadSession_slots path name total client hash :
  triple (λ w, balanced w ∧ uploadSessions (svc w) !! uuid (tick (sys w)) = None)
    (CreateUploadSession uuid path name total client hash) (λ _, balanced) balanced.
Proof.
  intros w [Hb Hfresh]. unfold CreateUploadSession. unfold mbind at 1, M_bind at 1.
  pose proof (acquire_slot w Hb) as Ha. pose proof (acquire_frame w) as (Hsys & Hup & _).
  destruct (acquireSessionSlot w) as [[[|]|e] w1]; [|done..]. simpl in Hsys, Hup.
  assert (newUpl (uuid (tick (sys w1))) (svc w1)) as Hn by (unfold newUpl; by rewrite Hsys, Hup).
  simpl. unfold mbind at 1, M_bind at 1. simpl.
  match goal with |- context [(mbind ?f ?m) ?w2] =>
    cut (triple (λ w, newUpl (uuid (tick (sys w))) (svc w)) (mbind f m) (λ _, balanced) balanced);
    [by intros Ht; specialize (Ht w2 Hn); destruct (mbind f m w2) as [[]]|] end.
  eapply triple_bind; [apply (new_uuid newUpl)|intros id].
  eapply (slot_sure (newUpl id)); [apply same_onOS|apply sure_now|intros now].
  eapply (slot_sure (newUpl id)); [apply same_service|apply sure_service|intros v].
  eapply (slot_cleanup (newUpl id)); [apply same_onOS| |intros _].
  { eapply triple_conseq; [apply release_slot|by intros w2 [? _]|done..]. }
  assert (∀ s, triple (λ w, newUpl id (svc w))
    (setUpload id s ⨟ storeUpload s ⨟ mret id) (λ _, balanced) balanced) as Htail.
  { intros s. eapply triple_bind; [apply add_upload|]. intros ?.
    eapply (slot_sure (held_slots 0)); [apply steps_ignore, same_onSession|apply sure_ignore|].
    intros _. by intros w2. }
  eapply (triple_bind _ _ (λ _ w, newUpl id (svc w))); [|intros _; apply Htail].
  destruct (0 <? total)%Z; [|by intros w2].
  apply triple_wrapErr. eapply triple_onError; [apply (triple_same (newUpl id)), same_onOS|].
  eapply triple_conseq; [apply rm_release_slot|by intros w2 [? _]|done..].
Qed.

Lemma CreateMultipartUpload_slots path name total client hash :
  triple (λ w, balanced w ∧ multipartSessions (svc w) !! uuid (tick (sys w)) = None)
    (CreateMultipartUpload uuid path name total client hash) (λ _, balanced) balanced.
Proof.
  intros w [Hb Hfresh]. unfold CreateMultipartUpload. unfold mbind at 1, M_bind at 1.
  pose proof (acquire_slot w Hb) as Ha. pose proof (acquire_frame w) as (Hsys & _ & Hup).
  destruct (acquireSessionSlot w) as [[[|]|e] w1]; [|done..]. simpl in Hsys, Hup.
  assert (newPrt (uuid (tick (sys w1))) (svc w1)) as Hn by (unfold newPrt; by rewrite Hsys, Hup).
  simpl. unfold mbind at 1, M_bind at 1. simpl.
  match goal with |- context [(mbind ?f ?m) ?w2] =>
    cut (triple (λ w, newPrt (uuid (tick (sys w))) (svc w)) (mbind f m) (λ _, balanced) balanced);
    [by intros Ht; specialize (Ht w2 Hn); destruct (mbind f m w2) as [[]]|] end.
  eapply triple_bind; [apply (new_uuid newPrt)|intros id].
  eapply (slot_sure (newPrt id)); [apply same_onOS|apply sure_now|intros now].
  eapply (slot_sure (newPrt id)); [apply same_service|apply sure_service|intros v].
  eapply (slot_cleanup (newPrt id)); [apply same_onOS| |intros _].
  { eapply triple_conseq; [apply release_slot|by intros w2 [? _]|done..]. }
  eapply (slot_cleanup (newPrt id)); [apply same_onOS| |intros _].
  { eapply triple_conseq; [apply rm_release_slot|by intros w2 [? _]|done..]. }
  eapply triple_bind; [apply add_multipart|]. intros ?.
  eapply (slot_sure (held_slots 0)); [apply steps_ignore, same_onSession|apply sure_ignore|].
  intros _. by intros w2.
Qed.

(** The session is in the table, or there is none to restore. *)
Definition known (id : string) (w : World) : Prop :=
  balanced w ∧ (is_Some (uploadSessions (svc w) !! id) ∨
                ∀ s, (loadUpload id w).1 ≠ Ok (Some s)).

Lemma load_slots id :
  triple (known id) (loadUpload id)
    (λ r w, match r with Some _ => uploading id w | None => balanced w end) balanced.
Proof.
  intros w [Hb Hk]. unfold loadUpload, mbind, M_bind in *. simpl in *.
  destruct (uploadSessions (svc w) !! id) as [s|] eqn:Es; simpl; [by split; [|eexists]|].
  destruct Hk as [[? [=]]|Hk].
  pose proof (steps_catch _ _ (same_onSession (λ env, SGet (V := sessionValue) env "upload" id)) w) as Hs.
  destruct (catch (onSession _) w) as [[[[s|?|?]|?]|?] w1]; simpl in *;
    try (unfold balanced; by rewrite Hs).
  exfalso. destruct (catch (onOS _) w1) as [[f|e] w2] eqn:E; simpl in Hk; [by eapply Hk|].
  unfold catch in E. by destruct (onOS _ w1).
Qed.

Lemma same_writeChunk id s data off : steps sameSvc (writeChunk id s data off).
Proof.
  unfold writeChunk. destruct (uTempFile s); steps_auto; first [apply same_onOS|done].
Qed.

Lemma chunkBody_slots id data off s :
  triple (uploading id) (chunkBody id data off s) (λ _, uploading id) (uploading id).
Proof.
  unfold chunkBody.
  do 3 (eapply (slot_call (upl id)); [apply steps_guard, _|done|intros ?]).
  eapply (slot_call (upl id)); [apply same_writeChunk|done|intros ?]. cbv zeta.
  destruct (_ =? 0)%Z; [|apply update_upload].
  eapply (slot_call (upl id)); [apply same_onOS|done|intros now].
  eapply triple_bind; [apply update_upload|intros ?].
  apply (triple_ignore (W := World)), (triple_same (upl id)), same_onSession.
Qed.

Lemma UploadChunk_slots id data off :
  triple (known id) (UploadChunk id data off) (λ _, balanced) balanced.
Proof.
  unfold UploadChunk. eapply triple_bind; [apply load_slots|]. intros [s|]; [|apply triple_throw].
  eapply (slot_call (upl id)); [apply steps_wrapErr, same_acquire|apply upl_balanced|intros tok].
  eapply triple_deferring; [apply chunkBody_slots| |];
    [intros ?|]; (eapply triple_conseq; [apply (triple_same (upl id)), same_release|done|..];
    intros *; apply upl_balanced).
Qed.

Lemma same_SHA256File p : steps sameSvc (SHA256File sha256 p).
Proof. unfold SHA256File. steps_auto; apply same_onOS. Qed.

(** The common end of both kinds of upload; [P] says that the session is in its
    table, [c] removes it, and then [B] holds. *)
Section commit.
Context (P B : FileTransferService → Prop) (c : M World unit).
Notation before := (λ w : World, P (svc w)).
Notation after := (λ w : World, B (svc w)).
Context (Hc : triple before c (λ _, after) after).

Lemma rm_then p : triple before (rm p ⨟ c) (λ _, after) after.
Proof. eapply (slot_sure P); [apply same_rm|apply sure_ignore|intros _; apply Hc]. Qed.

Lemma encryptTemp_slots p h :
  triple before (encryptTemp sha256 c p h) (λ _, before) after.
Proof.
  unfold encryptTemp. eapply (slot_sure P); [apply same_service|apply sure_service|intros v].
  destruct (cryptoSvc v) as [cs|]; [destruct (IsEnabled cs)|]; [|by intros w..].
  eapply (slot_cleanup P); [apply same_onOS|apply rm_then|intros _].
  eapply (slot_sure P); [apply same_rm|apply sure_ignore|intros _].
  eapply (slot_cleanup P); [apply same_SHA256File|apply rm_then|intros h']. by intros w.
Qed.

Lemma recordFile_slots fp name total h c1 c2 :
  triple before c1 (λ _, after) after → triple before c2 (λ _, after) after →
  triple before (recordFile uuid fp name total h c1 c2) (λ _, before) after.
Proof.
  intros H1' H2'. unfold recordFile.
  eapply (slot_sure P); [apply same_onOS|apply sure_now|intros now].
  eapply (slot_sure P); [apply steps_catch, same_onDB|apply sure_catch|intros x].
  assert (∀ m, triple before (wrapErr "failed to create file metadata"
    (onError (onDB (FileCreate m)) (ignore (onStore (Remove fp)) ⨟ c2)) ⨟ mret m)
    (λ _, before) after) as Hcreate.
  { intros m. eapply (slot_cleanup P); [apply same_onDB| |intros _; by intros w].
    eapply (slot_sure P); [apply steps_ignore, same_onStore|apply sure_ignore|by intros _]. }
  destruct x as [[m|]|e].
  - eapply (slot_cleanup P); [apply same_onDB|done|intros _]. by intros w.
  - eapply (slot_sure P); [apply same_onOS|apply sure_uuid|intros id]. apply Hcreate.
  - eapply (slot_sure P); [apply same_onOS|apply sure_uuid|intros id]. apply Hcreate.
Qed.

Lemma commit_slots {A} fp p name total h lockKey ttl n delay msg0 msg1 c1 c2
    (k : FileMetadata → M World A) :
  triple before c1 (λ _, after) after → triple before c2 (λ _, after) after →
  (∀ id, triple before (k id) (λ _, after) after) →
  triple before
    (token ← wrapErr msg0 (onError (acquire lockKey ttl n delay) (rm p ⨟ c));
     deferring
       (wrapErr msg1 (onError (onStore (WriteFromTempFile fp p)) (rm p ⨟ c)) ⨟
        id ← recordFile uuid fp name total h c1 c2;
        k id)
       (release lockKey token)) (λ _, after) after.
Proof.
  intros H1' H2' Hk. eapply (slot_cleanup P); [apply same_acquire|apply rm_then|intros tok].
  eapply triple_deferring; [|intros ?; apply (triple_same B), same_release|apply (triple_same B), same_release].
  eapply (slot_cleanup P); [apply same_onStore|apply rm_then|intros _].
  eapply triple_bind; [by apply recordFile_slots|apply Hk].
Qed.

(** After the session is gone: clean up. *)
Lemma finish_slots {A} p (op : callEnv → St → res unit * St) (a : A) :
  triple before (c ⨟ rm p ⨟ ignore (onSession op) ⨟ mret a) (λ _, after) after.
Proof.
  eapply triple_bind; [exact Hc|intros ?].
  eapply (slot_sure B); [apply same_rm|apply sure_ignore|intros _].
  eapply (slot_sure B); [apply steps_ignore, same_onSession|apply sure_ignore|].
  by intros _ w.
Qed.

Lemma drop_slots p (op : callEnv → St → res unit * St) :
  triple before (c ⨟ rm p ⨟ ignore (onSession op)) (λ _, after) after.
Proof.
  eapply triple_bind; [exact Hc|intros ?].
  eapply (slot_sure B); [apply same_rm|apply sure_ignore|intros _].
  apply (triple_ignore (W := World)), (triple_same B), same_onSession.
Qed.
End commit.

(** A completion that gets past the check of the size ends the session. *)
Section complete.
Context (id : string) (P B : FileTransferService → Prop).
Notation before := (λ w : World, P (svc w)).
Notation after := (λ w : World, B (svc w)).
Context (Hset : ∀ v s, P v → P (setUploads (<[id := s]> (uploadSessions v)) v)).
Context (Hend : triple before (endUpload id) (λ _, after) after).

Lemma set_slots s E : triple before (setUpload id s) (λ _, before) E.
Proof. intros w Hw. simpl. by apply Hset. Qed.

(** A chunk keeps its session, accepted or not. *)
Lemma chunk_keeps_session data off s (w : World) :
  uploadSessions (svc w) !! id = Some s → P (svc w) → P (svc (UploadChunk id data off w).2).
Proof.
  intros Hs HP. unfold UploadChunk, mbind at 1, M_bind at 1. rewrite (loadUpload_in id s w Hs).
  match goal with |- context [mbind ?f ?m w] =>
    cut (triple before (mbind f m) (λ _, before) before);
    [intros Ht; specialize (Ht w HP); by destruct (mbind f m w) as [[]]|] end.
  eapply (slot_call P); [apply steps_wrapErr, same_acquire|done|intros tok].
  eapply triple_deferring; [|intros ?; apply (triple_same P), same_release|apply (triple_same P), same_release].
  unfold chunkBody.
  do 3 (eapply (slot_call P); [apply steps_guard, _|done|intros ?]).
  eapply (slot_call P); [apply same_writeChunk|done|intros ?]. cbv zeta.
  destruct (_ =? 0)%Z; [|apply set_slots].
  eapply (slot_call P); [apply same_onOS|done|intros now].
  eapply triple_bind; [apply set_slots|intros ?].
  apply (triple_ignore (W := World)), (triple_same P), same_onSession.
Qed.

Lemma AbortUpload_ends s (w : World) :
  uploadSessions (svc w) !! id = Some s → P (svc w) → B (svc (AbortUpload id w).2).
Proof.
  intros Hs HP. unfold AbortUpload, mbind at 1, M_bind at 1. simpl. rewrite Hs.
  pose proof (drop_slots P B _ Hend (tempPathOf (svc w) id ".tmp") (λ env, SDelete env "upload" id) w HP) as Hd.
  revert Hd. generalize (endUpload (Sg := Sg) (L := L) (St := St) (T := T) id ⨟
    rm (tempPathOf (svc w) id ".tmp") ⨟ ignore (onSession (λ env, SDelete env "upload" id))).
  intros k. by destruct (k w) as [[]].
Qed.

Lemma verifyUpload_slots tmp s :
  triple before (verifyUpload sha256 id tmp s) (λ _, before) after.
Proof.
  unfold verifyUpload. case_bool_decide; [by intros w|].
  eapply (triple_bind _ _ (λ _, before)).
  - assert (triple before (wrapErr "failed to compute hash"
      (onError (SHA256File sha256 tmp) (rm tmp ⨟ endUpload id))) (λ _, before) after) as Hh.
    { apply triple_wrapErr. eapply triple_onError;
        [apply (triple_same P), same_SHA256File|by apply (rm_then P B)]. }
    destruct (uHashWriter s); [destruct (uHashValid s)|]; [by intros w|done..].
  - intros x. case_bool_decide; [by intros w|].
    eapply (slot_sure P); [apply same_rm|apply sure_ignore|intros _].
    eapply triple_bind; [apply Hend|intros ?; apply triple_throw].
Qed.

Lemma closeTemp_slots s : triple before (closeTemp id s) (λ _, before) after.
Proof.
  unfold closeTemp. destruct (uTempFile s); [|by intros w].
  eapply (slot_sure P); [apply same_service|apply sure_service|intros v].
  eapply (slot_cleanup P); [apply same_onOS|by apply (rm_then P B)|intros _].
  apply triple_wrapErr. eapply triple_onError; [apply (triple_same P), same_onOS|apply Hend].
Qed.

Lemma complete_ends s : triple before (completeHead sha256 id s ≫= completeTail uuid id s) (λ _, after) after.
Proof.
  eapply (triple_bind _ _ (λ _, before)).
  - unfold completeHead. eapply triple_bind; [apply set_slots|intros ?].
    eapply triple_bind; [apply closeTemp_slots|intros ?].
    eapply triple_bind; [apply set_slots|intros ?].
    eapply (slot_sure P); [apply same_service|apply sure_service|intros v]. cbv zeta.
    eapply triple_bind; [apply verifyUpload_slots|intros b].
    eapply triple_bind; [by apply (encryptTemp_slots P B)|intros x]. by intros w.
  - intros [b [p h]]. apply (commit_slots P B); [exact Hend..|].
    intros fid. by apply (finish_slots P B).
Qed.

(** ... unless it is refused, which changes nothing. *)
Lemma CompleteUpload_ends s w :
  uploadSessions (svc w) !! id = Some s → P (svc w) →
  let '(r, w') := CompleteUpload sha256 uuid id w in
  B (svc w') ∨ (r = Err (ErrMsg "upload incomplete") ∧ w' = w).
Proof.
  intros Hs HP. rewrite (CompleteUpload_split sha256 uuid id s w Hs).
  unfold mbind at 1, M_bind at 1, guard. destruct (_ =? _)%Z; [|by right].
  pose proof (complete_ends s w HP) as Hc. unfold mret, M_ret.
  destruct ((completeHead sha256 id s ≫= completeTail uuid id s) w) as [[] w']; by left.
Qed.
End complete.

Lemma upl_set id v s : upl id v → upl id (setUploads (<[id := s]> (uploadSessions v)) v).
Proof.
  intros [Hb [s0 Hs]]. split; [|simpl; rewrite lookup_insert_eq; by eexists].
  unfold held_slots, sessions in *. simpl. by rewrite map_size_insert_Some by (by eexists).
Qed.

Lemma CompleteUpload_slots id :
  triple (known id) (CompleteUpload sha256 uuid id) (λ _, balanced) balanced.
Proof.
  intros w Hk. destruct (uploadSessions (svc w) !! id) as [s|] eqn:Es.
  - pose proof (CompleteUpload_ends id (upl id) (held_slots 0) (upl_set id) (end_upload id) s w Es
      (conj (proj1 Hk) (mk_is_Some _ _ Es))) as Hc.
    destruct (CompleteUpload _ _ id w) as [r w']. unfold balanced.
    destruct Hc as [Hb|[-> ->]]; [by destruct r|apply Hk].
  - unfold CompleteUpload, mbind at 1, M_bind at 1. pose proof (load_slots id w Hk) as Hl.
    destruct Hk as [_ [[? Hx]|Hn]]; [congruence|].
    destruct (loadUpload id w) as [[[s|]|e] w1]; [by destruct (Hn s)|done..].
Qed.

(** ** The life of one session *)

(** The tables are [m0] and [mp], with or without the session [id]. *)
Definition opened (m0 : gmap string UploadSession) (mp : gmap string MultipartUploadSession) (id : string)
    (v : FileTransferService) : Prop :=
  held_slots 0 v ∧ (∃ s, uploadSessions v = <[id := s]> m0) ∧ multipartSessions v = mp.
Definition closed (m0 : gmap string UploadSession) (mp : gmap string MultipartUploadSession)
    (v : FileTransferService) : Prop :=
  held_slots 0 v ∧ uploadSessions v = m0 ∧ multipartSessions v = mp.

Lemma opened_set m0 mp id v s : opened m0 mp id v → opened m0 mp id (setUploads (<[id := s]> (uploadSessions v)) v).
Proof.
  intros (Hb & [s0 Hs] & Hm). split_and!; [| |done].
  - apply (upl_set id v s). split; [done|]. rewrite Hs, lookup_insert_eq. by eexists.
  - exists s. simpl. by rewrite Hs, insert_insert_eq.
Qed.

Lemma opened_end m0 mp id :
  m0 !! id = None →
  triple (λ w : World, opened m0 mp id (svc w)) (endUpload id) (λ _ w, closed m0 mp (svc w)) (λ w, closed m0 mp (svc w)).
Proof.
  intros Hf w (Hb & [s Hs] & Hm).
  pose proof (end_upload id w) as He. unfold endUpload, dropUpload, releaseSessionSlot, mbind, M_bind in *.
  simpl in *. split_and!; [|by rewrite Hs, delete_insert_id|done].
  apply He. split; [done|]. rewrite Hs, lookup_insert_eq. by eexists.
Qed.

(** A slot is taken for a session that is not there yet. *)
Definition taking (m0 : gmap string UploadSession) (mp : gmap string MultipartUploadSession)
    (v : FileTransferService) : Prop :=
  held_slots 1 v ∧ uploadSessions v = m0 ∧ multipartSessions v = mp.

Lemma taking_release m0 mp :
  triple (λ w : World, taking m0 mp (svc w)) releaseSessionSlot (λ _ w, closed m0 mp (svc w)) (λ w, closed m0 mp (svc w)).
Proof. intros w (Hb & Hu & Hm). pose proof (release_slot w Hb) as Hr. by split_and!. Qed.

Lemma taking_add m0 mp id s E :
  m0 !! id = None →
  triple (λ w : World, taking m0 mp (svc w)) (setUpload id s) (λ _ w, opened m0 mp id (svc w)) E.
Proof.
  intros Hf w (Hb & Hu & Hm). split_and!; [|exists s; simpl; by rewrite Hu|done].
  apply (add_upload id s (λ _, True) w). by rewrite Hu.
Qed.

Lemma create_opens m0 mp path name total client hash (w : World) :
  closed m0 mp (svc w) → m0 !! uuid (tick (sys w)) = None →
  let '(r, w') := CreateUploadSession uuid path name total client hash w in
  match r with
  | Ok id => id = uuid (tick (sys w)) ∧ opened m0 mp id (svc w')
  | Err _ => closed m0 mp (svc w')
  end.
Proof.
  intros (Hb & Hu & Hm) Hf. unfold CreateUploadSession. unfold mbind at 1, M_bind at 1.
  pose proof (acquire_slot w Hb) as Ha. pose proof (acquire_frame w) as (Hsys & Hup & Hmp).
  destruct (acquireSessionSlot w) as [[[|]|e] w1]; simpl in Ha, Hsys, Hup, Hmp;
    [|unfold mbind, M_bind; simpl; split_and!; [exact Ha|congruence..]|split_and!; [exact Ha|congruence..]].
  assert (taking m0 mp (svc w1)) as Ht by (split_and!; [done|congruence..]).
  unfold mbind at 1, M_bind at 1. unfold mbind at 1, M_bind at 1. simpl. rewrite <-Hsys in *. set (id := uuid (tick (sys w1))) in *.
  set (w2 := MkWorld (skip 1 (sys w1)) _ _ _ _ _). assert (taking m0 mp (svc w2)) as Ht2 by done. clearbody w2.
  match goal with |- let '(r, w') := ?x w2 in _ =>
    cut (triple (λ w, taking m0 mp (svc w)) x (λ i w, i = id ∧ opened m0 mp id (svc w)) (λ w, closed m0 mp (svc w)));
    [intros Hx; specialize (Hx w2 Ht2); destruct (x w2) as [[i|e] w']; [destruct Hx as [-> ?]|]; done|] end.
  eapply (slot_sure (taking m0 mp)); [apply same_onOS|apply sure_now|intros now].
  eapply (slot_sure (taking m0 mp)); [apply same_service|apply sure_service|intros v].
  eapply (slot_cleanup (taking m0 mp)); [apply same_onOS|apply taking_release|intros _].
  eapply (triple_bind _ _ (λ _ w, taking m0 mp (svc w))).
  - destruct (0 <? total)%Z; [|by intros w3]. apply triple_wrapErr.
    eapply triple_onError; [apply (triple_same (taking m0 mp)), same_onOS|].
    eapply (slot_sure (taking m0 mp)); [apply same_rm|apply sure_ignore|intros _; apply taking_release].
  - intros _. eapply triple_bind; [by apply taking_add|intros ?].
    eapply (slot_sure (opened m0 mp id)); [apply steps_ignore, same_onSession|apply sure_ignore|].
    intros _ w3 Hw3. done.
Qed.

Lemma AbortUpload_slots id : triple balanced (AbortUpload id) (λ _, balanced) balanced.
Proof.
  intros w Hb. unfold AbortUpload, mbind at 1, M_bind at 1. simpl.
  destruct (uploadSessions (svc w) !! id) as [s|] eqn:Es; [|done].
  apply (drop_slots (upl id) (held_slots 0) _ (end_upload id)). by split; [|eexists].
Qed.

Lemma UploadPartData_slots id n off data :
  triple balanced (UploadPartData sha256 id n off data) (λ _, balanced) balanced.
Proof.
  intros w Hb. unfold UploadPartData, mbind at 1, M_bind at 1. simpl.
  destruct (multipartSessions (svc w) !! id) as [s|] eqn:Es; [|done].
  match goal with |- context [mbind ?f ?m w] =>
    cut (triple (uploadingParts id) (mbind f m) (λ _, balanced) balanced);
    [intros Ht; apply Ht; by split; [|eexists]|] end.
  do 5 (eapply (slot_call (prt id)); [apply steps_guard, _|apply prt_balanced|intros ?]).
  eapply (slot_call (prt id)); [|apply prt_balanced|intros ?].
  { destruct (mTempFile s); steps_auto. apply same_onOS. }
  assert (∀ s, triple (uploadingParts id) (setMultipart id s) (λ _, balanced) balanced) as Hset.
  { intros s0. eapply triple_conseq; [apply (update_multipart id s0 (λ _, False))|done| |done].
    intros ? w' [? _]. done. }
  cbv zeta. destruct (_ =? 0)%Z; [|apply Hset].
  eapply (slot_sure (prt id)); [apply same_onOS|apply sure_now|intros now; apply Hset].
Qed.

Lemma verifyMultipart_slots id tmp hash :
  triple (uploadingParts id) (verifyMultipart sha256 id tmp hash) (λ _, uploadingParts id) balanced.
Proof.
  unfold verifyMultipart. case_bool_decide; [by intros w|].
  eapply (slot_cleanup (prt id)); [apply same_SHA256File|apply rm_end_multipart|intros x].
  case_bool_decide; [by intros w|].
  eapply (slot_sure (prt id)); [apply same_rm|apply sure_ignore|intros _].
  eapply triple_bind; [apply end_multipart|intros ?; apply triple_throw].
Qed.

Lemma CompleteMultipartUpload_slots id :
  triple balanced (CompleteMultipartUpload sha256 uuid id) (λ _, balanced) balanced.
Proof.
  intros w Hb. unfold CompleteMultipartUpload, mbind at 1, M_bind at 1. simpl.
  destruct (multipartSessions (svc w) !! id) as [s|] eqn:Es; [|done].
  match goal with |- context [mbind ?f ?m w] =>
    cut (triple (uploadingParts id) (mbind f m) (λ _, balanced) balanced);
    [intros Ht; apply Ht; by split; [|eexists]|] end.
  do 3 (eapply (slot_call (prt id)); [apply steps_guard, _|apply prt_balanced|intros ?]).
  eapply triple_bind; [apply update_multipart|intros ?].
  do 2 (eapply (slot_cleanup (prt id)); [apply same_onOS|apply rm_end_multipart|intros _]).
  eapply triple_bind; [apply verifyMultipart_slots|intros ?].
  eapply triple_bind;
    [apply (encryptTemp_slots (prt id) (held_slots 0)), end_multipart|intros [p h]].
  apply (commit_slots (prt id) (held_slots 0)); [apply end_multipart|apply rm_end_multipart..|].
  intros fid. apply (drop_slots (prt id) (held_slots 0)), end_multipart.
Qed.

Lemma AbortMultipartUpload_slots id :
  triple balanced (AbortMultipartUpload id) (λ _, balanced) balanced.
Proof.
  intros w Hb. unfold AbortMultipartUpload, mbind at 1, M_bind at 1. simpl.
  destruct (multipartSessions (svc w) !! id) as [s|] eqn:Es; [|done].
  apply (drop_slots (prt id) (held_slots 0) _ (end_multipart id)). by split; [|eexists].
Qed.

(** ** Expiry *)

Definition remaining (ku km : list string) (v : FileTransferService) : Prop :=
  held_slots 0 v ∧ (∀ k, k ∈ ku → is_Some (uploadSessions v !! k)) ∧
  (∀ k, k ∈ km → is_Some (multipartSessions v !! k)).

Lemma end_upload_remaining k ku km :
  k ∉ ku →
  triple (λ w : World, remaining (k :: ku) km (svc w)) (endUpload k) (λ _ w, remaining ku km (svc w))
    (λ w, remaining ku km (svc w)).
Proof.
  intros Hk w (Hb & Hu & Hm). pose proof (end_upload k w) as He. simpl in *. split; [|split].
  - apply He. split; [done|]. apply Hu. by left.
  - simpl. intros k' Hk'. rewrite lookup_delete_ne by (intros ->; done). apply Hu. by right.
  - done.
Qed.

Lemma end_multipart_remaining k ku km :
  k ∉ km →
  triple (λ w : World, remaining ku (k :: km) (svc w)) (endMultipart k) (λ _ w, remaining ku km (svc w))
    (λ w, remaining ku km (svc w)).
Proof.
  intros Hk w (Hb & Hu & Hm). pose proof (end_multipart k w) as He. simpl in *. split; [|split].
  - apply He. split; [done|]. apply Hm. by left.
  - done.
  - simpl. intros k' Hk'. rewrite lookup_delete_ne by (intros ->; done). apply Hm. by right.
Qed.

Lemma remaining_tail ku km k v : remaining (k :: ku) km v → remaining ku km v.
Proof. intros (? & Hu & ?). split_and!; [done|intros; apply Hu; by right|done]. Qed.

Lemma remaining_tail' ku km k v : remaining ku (k :: km) v → remaining ku km v.
Proof. intros (? & ? & Hm). split_and!; [done|done|intros; apply Hm; by right]. Qed.

Lemma expire_uploads t km (l : list (string * UploadSession)) :
  NoDup (l.*1) →
  triple (λ w : World, remaining (l.*1) km (svc w)) (forEach (expireUpload t) l)
    (λ _ w, remaining [] km (svc w)) (λ _, False).
Proof.
  induction l as [|[k s] l IH]; [intros _ w; done|]. simpl. intros [Hk Hl]%NoDup_cons.
  eapply (triple_bind _ _ (λ _ w, remaining (l.*1) km (svc w))); [|intros _; by apply IH].
  unfold expireUpload. simpl. destruct (expired t (uCreatedAt s)).
  2: { intros w Hw. by apply remaining_tail in Hw. }
  eapply (slot_sure (remaining (k :: l.*1) km)); [apply same_service|apply sure_service|intros v].
  eapply (slot_sure (remaining (k :: l.*1) km)); [apply same_rm|apply sure_ignore|intros _].
  eapply (triple_bind _ _ (λ _ w, remaining (l.*1) km (svc w))).
  - intros w Hw. pose proof (end_upload_remaining k (l.*1) km Hk w Hw) as He. exact He.
  - intros _. apply (triple_ignore (W := World)), (triple_same (remaining (l.*1) km)), same_onSession.
Qed.

Lemma expire_multiparts t ku (l : list (string * MultipartUploadSession)) :
  NoDup (l.*1) →
  triple (λ w : World, remaining ku (l.*1) (svc w)) (forEach (expireMultipart t) l)
    (λ _ w, remaining ku [] (svc w)) (λ _, False).
Proof.
  induction l as [|[k s] l IH]; [intros _ w; done|]. simpl. intros [Hk Hl]%NoDup_cons.
  eapply (triple_bind _ _ (λ _ w, remaining ku (l.*1) (svc w))); [|intros _; by apply IH].
  unfold expireMultipart. simpl. destruct (expired t (mCreatedAt s)).
  2: { intros w Hw. by apply remaining_tail' in Hw. }
  eapply (slot_sure (remaining ku (k :: l.*1))); [apply same_service|apply sure_service|intros v].
  eapply (slot_sure (remaining ku (k :: l.*1))); [apply same_rm|apply sure_ignore|intros _].
  eapply (triple_bind _ _ (λ _ w, remaining ku (l.*1) (svc w))).
  - intros w Hw. pose proof (end_multipart_remaining k ku (l.*1) Hk w Hw) as He. exact He.
  - intros _. apply (triple_ignore (W := World)), (triple_same (remaining ku (l.*1))), same_onSession.
Qed.

(** ** Downloads do not touch the slots *)

Definition sameSlots (w w' : World) : Prop :=
  uploadSessions (svc w') = uploadSessions (svc w) ∧
  multipartSessions (svc w') = multipartSessions (svc w) ∧
  sessionCount (svc w') = sessionCount (svc w) ∧ maxSessions (svc w') = maxSessions (svc w).

#[export] Instance sameSlots_preorder : PreOrder sameSlots.
Proof. unfold sameSlots. split; [done|]. intros w1 w2 w3. naive_solver congruence. Qed.

Lemma same_slots {A} (m : M World A) : steps sameSvc m → steps sameSlots m.
Proof. intros Hm w. unfold sameSlots. by rewrite (Hm w). Qed.

Lemma slots_setDownload id s : steps sameSlots (setDownload id s).
Proof. done. Qed.

Lemma slots_dropDownload id : steps sameSlots (dropDownload id).
Proof. done. Qed.

#[local] Hint Resolve same_slots same_onStore same_onDB same_onOS same_onSession same_rm
  same_service slots_setDownload slots_dropDownload : steps.

Lemma slots_decryptTemp cs fp p q : steps sameSlots (decryptTemp cs fp p q).
Proof. unfold decryptTemp. steps_auto. Qed.

Lemma slots_CreateDownloadSession path client :
  steps sameSlots (CreateDownloadSession uuid path client).
Proof.
  unfold CreateDownloadSession, GenerateUUID, nowString, storeDownload.
  pose proof slots_decryptTemp. steps_auto.
Qed.

Lemma slots_DownloadChunk id n off : steps sameSlots (DownloadChunk id n off).
Proof.
  unfold DownloadChunk, loadDownload, nowString, storeDownload. steps_auto.
Qed.

Lemma slots_endDownload id : steps sameSlots (endDownload id).
Proof. unfold endDownload. steps_auto. Qed.

Lemma slots_expireDownloads t (l : list (string * DownloadSession)) :
  steps sameSlots (forEach (expireDownload t) l).
Proof.
  induction l as [|kv l IH]; simpl; [apply steps_ret, _|].
  apply steps_bind; [apply _| |intros; apply IH]. unfold expireDownload. steps_auto.
Qed.

Lemma slots_runSegments id segs schedule results :
  steps sameSlots (runSegments id segs schedule results).
Proof.
  revert results. induction schedule as [|i sch IH]; intros results; simpl; [apply steps_ret, _|].
  unfold downloadSegment. pose proof slots_DownloadChunk. steps_auto.
Qed.

Lemma balanced_sameSlots w w' : sameSlots w w' → balanced w → balanced w'.
Proof.
  intros (Hu & Hm & Hc & Hx). unfold balanced, held_slots, sessions. by rewrite Hu, Hm, Hc, Hx.
Qed.

Lemma sameSlots_triple {A} (m : M World A) :
  steps sameSlots m → triple balanced m (λ _, balanced) balanced.
Proof. intros Hm. eapply triple_steps; [done|]. intros. by eapply balanced_sameSlots. Qed.

Lemma keys_remaining (v : FileTransferService) :
  held_slots 0 v →
  remaining ((map_to_list (uploadSessions v)).*1) ((map_to_list (multipartSessions v)).*1) v.
Proof.
  intros Hv. split; [done|]. split; intros k (kv & -> & Hkv)%list_elem_of_fmap;
    destruct kv as [k s]; apply elem_of_map_to_list in Hkv; by exists s.
Qed.

Lemma CleanupExpiredSessions_slots age :
  triple balanced (CleanupExpiredSessions age) (λ _, balanced) balanced.
Proof.
  intros w Hb. unfold CleanupExpiredSessions. unfold mbind at 1, M_bind at 1. simpl.
  unfold mbind at 1, M_bind at 1. simpl. set (t := expiryOf _ age).
  set (w1 := MkWorld _ _ _ _ _ _).
  pose proof (keys_remaining (svc w) Hb) as Hr. set (km := (map_to_list (multipartSessions (svc w))).*1) in *.
  match goal with |- match ?x with _ => _ end => set (prog := x) end.
  cut (triple (λ w, remaining ((map_to_list (uploadSessions (svc w1))).*1) km (svc w))
    (forEach (expireUpload t) (map_to_list (uploadSessions (svc w))) ⨟
     forEach (expireDownload t) (map_to_list (downloadSessions (svc w))) ⨟
     forEach (expireMultipart t) (map_to_list (multipartSessions (svc w)))) (λ _, balanced) balanced).
  { intros Ht. apply (Ht w1). exact Hr. }
  eapply (triple_bind _ _ (λ _ w, remaining [] km (svc w))).
  { eapply triple_conseq; [apply (expire_uploads t km), NoDup_fst_map_to_list|done|done|done]. }
  intros _. eapply (triple_bind _ _ (λ _ w, remaining [] km (svc w))).
  { eapply triple_conseq; [eapply (triple_steps sameSlots (λ w, remaining [] km (svc w)));
      [apply slots_expireDownloads|]|done|done|by intros ? [? _]].
    intros w2 w3 (Hh & _ & Hm2) Hs. pose proof (balanced_sameSlots w2 w3 Hs Hh).
    destruct Hs as (Hu & Hm & _). split_and!; [done|by intros ? ?%elem_of_nil|by rewrite Hm]. }
  intros _. eapply triple_conseq;
    [apply (expire_multiparts t []), NoDup_fst_map_to_list|done|by intros ? ? [? _]|done].
Qed.

(** ** Runs of the service *)

Inductive svcOp :=
| OpCreate (path name : string) (total : Z) (client hash : string)
| OpChunk (id : string) (data : bytes) (off : Z)
| OpComplete (id : string)
| OpAbort (id : string)
| OpCreateMultipart (path name : string) (total : Z) (client hash : string)
| OpPart (id : string) (n off : Z) (data : bytes)
| OpCompleteMultipart (id : string)
| OpAbortMultipart (id : string)
| OpCreateDownload (path client : string)
| OpDownloadChunk (id : string) (n off : Z)
| OpEndDownload (id : string)
| OpParallelDownload (id : string) (segs : list DownloadSegment) (schedule : list nat)
| OpCleanup (age : Z).

Definition runSvc (o : svcOp) (w : World) : World :=
  match o with
  | OpCreate p n t c h => (CreateUploadSession uuid p n t c h w).2
  | OpChunk id d off => (UploadChunk id d off w).2
  | OpComplete id => (CompleteUpload sha256 uuid id w).2
  | OpAbort id => (AbortUpload id w).2
  | OpCreateMultipart p n t c h => (CreateMultipartUpload uuid p n t c h w).2
  | OpPart id n off d => (UploadPartData sha256 id n off d w).2
  | OpCompleteMultipart id => (CompleteMultipartUpload sha256 uuid id w).2
  | OpAbortMultipart id => (AbortMultipartUpload id w).2
  | OpCreateDownload p c => (CreateDownloadSession uuid p c w).2
  | OpDownloadChunk id n off => (DownloadChunk id n off w).2
  | OpEndDownload id => (CompleteDownload id w).2
  | OpParallelDownload id segs sch => (ParallelDownloadChunks id segs sch w).2
  | OpCleanup age => (CleanupExpiredSessions age w).2
  end.

(** New identifiers are new, and no session of another instance is restored. *)
Definition admissible (o : svcOp) (w : World) : Prop :=
  match o with
  | OpCreate _ _ _ _ _ => uploadSessions (svc w) !! uuid (tick (sys w)) = None
  | OpCreateMultipart _ _ _ _ _ => multipartSessions (svc w) !! uuid (tick (sys w)) = None
  | OpChunk id _ _ | OpComplete id =>
      is_Some (uploadSessions (svc w) !! id) ∨ ∀ s, (loadUpload id w).1 ≠ Ok (Some s)
  | _ => True
  end.

Inductive reachable (w0 : World) : World → Prop :=
| reach_start : reachable w0 w0
| reach_op w o : reachable w0 w → admissible o w → reachable w0 (runSvc o w)
| reach_other w w' : reachable w0 w → sameSlots w w' → reachable w0 w'.

Lemma triple_after {A} (P : World → Prop) (m : M World A) w :
  triple P m (λ _, balanced) balanced → P w → balanced (m w).2.
Proof. intros Ht HP. specialize (Ht w HP). by destruct (m w) as [[]]. Qed.

Lemma runSvc_balanced o w : balanced w → admissible o w → balanced (runSvc o w).
Proof.
  intros Hb Ha. destruct o; simpl in *.
  - by eapply triple_after; [apply CreateUploadSession_slots|].
  - by eapply triple_after; [apply UploadChunk_slots|].
  - by eapply triple_after; [apply CompleteUpload_slots|].
  - by eapply triple_after; [apply AbortUpload_slots|].
  - by eapply triple_after; [apply CreateMultipartUpload_slots|].
  - by eapply triple_after; [apply UploadPartData_slots|].
  - by eapply triple_after; [apply CompleteMultipartUpload_slots|].
  - by eapply triple_after; [apply AbortMultipartUpload_slots|].
  - eapply balanced_sameSlots; [apply slots_CreateDownloadSession|done].
  - eapply balanced_sameSlots; [apply slots_DownloadChunk|done].
  - eapply balanced_sameSlots; [apply slots_endDownload|done].
  - eapply balanced_sameSlots; [apply slots_runSegments|done].
  - by eapply triple_after; [apply CleanupExpiredSessions_slots|].
Qed.

End slots.

(** ** Properties *)

(** C9: no operation leaks or double-frees an upload slot, unless it restores a session
    from the session store. Starting from a balanced service, after any sequence of
    operations of the service, failing ones included and with activity of the other
    components in between, in which no chunk or completion finds its session only in the
    session store and new identifiers are new, [sessionCount] is exactly the number of
    open upload and multipart sessions and never exceeds [maxSessions]. The operations
    that are left out do break it: a restored session takes no slot and gives one back
    ([restored_session_underflow]). *)
Theorem slots_balanced {Sg L St T} `{StorageAdapter Sg} `{DistributedLock L}
    `{SessionStore sessionValue St} `{SqlEngine T} `{AEAD}
    (sha256 : bytes → bytes) (uuid : nat → string) (w0 w : World Sg L St T) :
  balanced w0 → reachable sha256 uuid w0 w →
  sessionCount (svc w) = sessions (svc w) ∧ (sessionCount (svc w) ≤ maxSessions (svc w))%Z.
Proof.
  intros Hb Hr. cut (balanced w).
  { intros (Hc & Hm & _). split; [lia|done]. }
  induction Hr as [|w o Hr IH Ha|w w' Hr IH Hs]; [done| |].
  - by apply runSvc_balanced.
  - by eapply balanced_sameSlots.
Qed.

Lemma slots_balanced_witness :
  let w := runSvc demoSHA demoUUID (OpAbort "idAA")
    (runSvc demoSHA demoUUID (OpCreate "a" "a" 1 "c" "") demo) in
  sessionCount (svc w) = sessions (svc w) ∧ (sessionCount (svc w) ≤ maxSessions (svc w))%Z.
Proof.
  apply (slots_balanced demoSHA demoUUID demo).
  - split; [reflexivity|]. split; [discriminate|]. vm_compute. split; [discriminate|reflexivity].
  - apply reach_op; [|exact I]. apply reach_op; [apply reach_start|]. vm_compute. reflexivity.
Defined.

(** A restored session gives back a slot that this instance never took. A
    session found in the session store is put into the table by UploadChunk
    without taking a slot; aborting it leaves the count below zero, and the
    instance then admits one session more than its limit. *)
Lemma restored_session_underflow :
  let s := exportedUpload (MkUpload "x" "" "f" "f" 4 0 "" "c" "active" "t" "t" 0 None None 0 false false) in
  let w := MkWorld (sys demo) (store demo) (db demo) (dlock demo)
             {[ ("upload", "x") := SVUpload s ]} (svc demo) in
  let w := (UploadChunk "x" ab 0 w).2 in
  let w' := (AbortUpload "x" w).2 in
  uploadSessions (svc w') = ∅ ∧ sessionCount (svc w') = (-1)%Z.
Proof. vm_compute. split; reflexivity. Qed.
