(* ===== verification/Download.v ===== *)
(** * Downloads: internal/service/transfer/service.go and multipart.go

    A download session serves slices of one plaintext: the stored object, or its
    decryption kept in a temp file. *)

From S2P Require Export Commit Demo Slots.

Local Open Scope go_scope.

Section download.
Context {Sg L St : Type} {T : Type → Type}.
Context `{StorageLaws Sg} `{DistributedLock L} `{SessionStore sessionValue St}.
Context `{SqlLaws T} `{AEADLaws}.
Context (uuid : nat → string).
Notation World := (World Sg L St T).

(** The plaintext [d] of the stored bytes [e]. *)
Definition plainOf (cs : option CryptoService) (e d : bytes) : Prop :=
  match cs with
  | Some c => if IsEnabled c then Decrypt c e = Ok d else d = e
  | None => d = e
  end.

(** The session [id] serves [d], the plaintext of the object [fp]. *)
Definition serves (id fp : string) (d : bytes) (w : World) : Prop :=
  storeInv (store w) ∧
  ∃ s, downloadSessions (svc w) !! id = Some s ∧ dlFilePath s = fp ∧
    match dlDecryptedFile s with
    | Some f => outside (store w) f ∧ fileAt (os (sys w)) f = Some d
    | None => object (store w) (os (sys w)) fp = Some d
    end.

Definition served (s : DownloadSession) (fp : string) (d : bytes) (w : World) : Prop :=
  storeInv (store w) ∧ dlFilePath s = fp ∧
  match dlDecryptedFile s with
  | Some f => outside (store w) f ∧ fileAt (os (sys w)) f = Some d
  | None => object (store w) (os (sys w)) fp = Some d
  end.

Lemma served_calm s fp d w w' :
  safe fp → calm none w w' → served s fp d w → served s fp d w'.
Proof.
  intros Hs [(Hst & _ & _ & _ & Hf) Hsv] (Hi & Hp & Hd). unfold served. rewrite Hst.
  split; [done|]. split; [done|]. destruct (dlDecryptedFile s) as [f|].
  - rewrite Hf by done. done.
  - rewrite (object_local _ (os (sys w))); [done..|]. intros q _. by apply Hf.
Qed.

(** Reading the bytes of a chunk. *)
Definition readChunk (s : DownloadSession) (size offset : Z) : M World bytes :=
  match dlDecryptedFile s with
  | Some f =>
      guard (negb (size <? 0)%Z) (ErrMsg "panic: makeslice: len out of range") ⨟
      wrapErr "failed to read decrypted chunk" (onOS (osCall (fReadAt f (Z.to_nat size) offset)))
  | None => wrapErr "failed to read file chunk" (onStore (ReadAt (dlFilePath s) size offset))
  end.

Lemma onStore_ReadAt s fp d size offset :
  safe fp → in64 size → in64 offset → dlDecryptedFile s = None →
  triple (λ w, served s fp d w) (wrapErr "failed to read file chunk" (onStore (ReadAt fp size offset)))
    (λ x w, served s fp d w ∧ x = readAt d (Z.to_nat offset) (Z.to_nat size)) (served s fp d).
Proof.
  intros Hsafe Hn Ho Hdec. apply triple_wrapErr. intros w (Hi & Hp & Hd).
  rewrite Hdec in Hd. unfold onStore.
  pose proof (read_at_spec fp size offset (store w, sys w) Hi Hsafe Hn Ho) as Hr.
  destruct (ReadAt _ _ _ _) as [r [g s']]. destruct Hr as [(Hi' & _ & Hob & _) Hx]. simpl in *.
  assert (served s fp d (MkWorld s' g (db w) (dlock w) (sess w) (svc w))) as Hserved.
  { split; [done|]. split; [done|]. rewrite Hdec. simpl. rewrite Hob; [done|done|done]. }
  destruct r as [x|e]; [|done]. split; [done|].
  destruct (Hx x eq_refl) as (_ & _ & d' & Hd' & ->). congruence.
Qed.

Lemma readChunk_spec s fp d size offset :
  safe fp → in64 size → in64 offset →
  triple (λ w, served s fp d w) (readChunk s size offset)
    (λ x w, served s fp d w ∧ x = readAt d (Z.to_nat offset) (Z.to_nat size)) (served s fp d).
Proof.
  intros Hsafe Hn Ho. unfold readChunk. destruct (dlDecryptedFile s) as [f|] eqn:Hdec.
  - eapply triple_bind; [apply triple_guard|]. intros []. apply triple_wrapErr. intros w Hs.
    assert (calm none w (onOS (osCall (fReadAt f (Z.to_nat size) offset)) w).2) as Hc
      by (by apply calm_osCall).
    destruct (onOS _ w) as [[x|e] w'] eqn:E; simpl in Hc.
    2: { by eapply served_calm. }
    split; [by eapply served_calm|]. apply onOS_osCall_ok in E.
    destruct Hs as (_ & _ & Hd). rewrite Hdec in Hd. destruct Hd as [_ Hd].
    unfold fReadAt, fileAt in *. destruct (offset <? 0)%Z; [done|].
    destruct (os (sys w) !! f) as [[d'|]|]; by simplify_eq.
  - intros w Hs. pose proof Hs as (_ & Hp & _). rewrite Hp. by eapply onStore_ReadAt.
Qed.

Lemma readChunk_same s size offset : steps sameSvc (readChunk s size offset).
Proof.
  unfold readChunk. destruct (dlDecryptedFile s); steps_auto;
    auto using same_onOS, same_onStore.
Qed.

(** A chunk that is served is the slice asked for; the session goes on serving
    the same bytes, also after a refused chunk. *)
Lemma DownloadChunk_spec id fp d size offset :
  safe fp → in64 size → in64 offset →
  triple (serves id fp d) (DownloadChunk id size offset)
    (λ x w, serves id fp d w ∧ (0 ≤ offset)%Z ∧ x = readAt d (Z.to_nat offset) (Z.to_nat size))
    (serves id fp d).
Proof.
  intros Hsafe Hn Ho w (Hi & s & Hs & Hp & Hd). unfold DownloadChunk. unfold mbind at 1, M_bind at 1.
  assert (loadDownload id w = (Ok (Some s), w)) as ->.
  { unfold loadDownload, mbind, M_bind. simpl. by rewrite Hs. }
  assert (served s fp d w) as Hsd by done.
  assert (∀ w', served s fp d w' → svc w' = svc w → serves id fp d w') as Hback.
  { intros w' (Hi' & ? & Hd') Hsv. split; [done|]. exists s. by rewrite Hsv. }
  unfold guard at 1. destruct (Z.ltb_spec offset 0); [by apply Hback|].
  unfold mbind at 1, M_bind at 1. simpl.
  unfold guard at 1. destruct (Z.leb_spec (dlTotalSize s) offset); [by apply Hback|].
  unfold mbind at 1, M_bind at 1. simpl.
  pose proof (readChunk_spec s fp d size offset Hsafe Hn Ho w Hsd) as Hr.
  pose proof (readChunk_same s size offset w) as Hsame. unfold readChunk, guard in Hr, Hsame.
  unfold mbind at 1, M_bind at 1. unfold sameSvc in Hsame.
  match goal with |- context [match ?m w with _ => _ end] => destruct (m w) as [[x|e] w1] end;
    simpl in Hr, Hsame; [|by apply Hback].
  destruct Hr as [Hsd1 ->]. set (x := readAt _ _ _).
  assert (∀ s', dlFilePath s' = dlFilePath s → dlDecryptedFile s' = dlDecryptedFile s →
    serves id fp d (setDownload id s' w1).2) as Hset.
  { intros s' Hp' Hd'. destruct Hsd1 as (Hi1 & _ & Hd1). split; [done|]. exists s'.
    rewrite Hd'. simpl. rewrite lookup_insert_eq. split; [done|]. split; [congruence|done]. }
  destruct (_ =? 0)%Z.
  - unfold storeDownload, ignore, onSession, mbind, M_bind, nowString, onOS. simpl.
    destruct (SSet _ _ _ _ _ _) as [r x']. simpl. split; [|by split]. by apply Hset.
  - split; [by apply Hset|by split].
Qed.

(** ** Creating a session *)

(** The object [fp] holds [e]; the temp paths are not those of objects. *)
Definition stored_ (fp enc dec : string) (e : bytes) (w : World) : Prop :=
  storeInv (store w) ∧ outside (store w) enc ∧ outside (store w) dec ∧
  object (store w) (os (sys w)) fp = Some e.

Definition temps (enc dec q : string) : Prop := q = enc ∨ q = dec.

Lemma stored_mild fp enc dec e w w' :
  safe fp → mild (temps enc dec) w w' → stored_ fp enc dec e w → stored_ fp enc dec e w'.
Proof.
  intros Hs (Hst & _ & _ & _ & Hf) (Hi & He & Hd & Ho). unfold stored_. rewrite Hst.
  split_and!; [done..|]. rewrite (object_local _ (os (sys w))); [done..|].
  intros q Hq. apply Hf. intros [-> | ->]; done.
Qed.

Lemma stored_hoare {A} fp enc dec e (m : M World A) :
  safe fp → steps (calm (temps enc dec)) m → hoare (stored_ fp enc dec e) m (λ _, stored_ fp enc dec e).
Proof.
  intros Hs Hm. eapply hoare_steps; [apply calm_mild, Hm|]. intros. by eapply stored_mild.
Qed.

Lemma open_stored fp enc dec e :
  safe fp →
  hoare (stored_ fp enc dec e) (onStore (OpenReader fp)) (λ x w, stored_ fp enc dec e w ∧ x = e).
Proof.
  intros Hs w x w' (Hi & He & Hd & Ho) Hr. unfold onStore in Hr.
  pose proof (open_spec fp (store w, sys w) Hi Hs) as Hop.
  destruct (OpenReader _ _) as [r [g s]]. injection Hr as -> <-.
  destruct Hop as [(Hi' & Hout & Hob & _) Hx]. simpl in *. split.
  - unfold stored_; simpl. rewrite Hout. split_and!; [done..|]. by rewrite Hob.
  - specialize (Hx x eq_refl). congruence.
Qed.

Lemma calm_write enc dec p d :
  temps enc dec p →
  steps (calm (Sg := Sg) (L := L) (St := St) (T := T) (temps enc dec)) (onOS (osCall (osWriteFile p d))).
Proof.
  intros Hp. apply calm_osCall. intros o q Hq. apply fileAt_writeFile. by intros ->.
Qed.

Lemma DecryptFileStreaming_ok cs p q d (s s' : Sys) :
  fileAt (os s) p = Some d → DecryptFileStreaming cs p q s = (Ok tt, s') →
  ∃ x, Decrypt cs d = Ok x ∧ fileAt (os s') q = Some x.
Proof.
  intros Hd Hr. unfold DecryptFileStreaming in Hr. run_ok Hr. subst.
  apply osCall_ok in Hr0, Hr1, Hr. unfold osOpen in Hr0. injection Hr0 as Hopen Ho.
  unfold osReadFile in Hr1. rewrite <-Ho in Hr1. unfold fileAt in Hd.
  destruct (os s !! p) as [[]|]; simplify_eq. apply osWriteFile_ok in Hr. eauto.
Qed.

(** Decryption leaves the plaintext of the object in the temp file [dec]. *)
Lemma decryptTemp_spec cs fp enc dec e :
  safe fp → enc ≠ dec →
  hoare (stored_ fp enc dec e) (decryptTemp cs fp enc dec)
    (λ _ w, storeInv (store w) ∧ outside (store w) dec ∧
       ∃ d, Decrypt cs e = Ok d ∧ fileAt (os (sys w)) dec = Some d).
Proof.
  intros Hs Hne w x w' Hst Hr. unfold decryptTemp in Hr.
  apply bind_ok in Hr as ([] & w1 & H1'%wrapErr_ok & Hr).
  eapply (stored_hoare fp enc dec e) in H1'; [|done|apply calm_write; by left|done].
  apply bind_ok in Hr as (e' & w2 & H2'%wrapErr_ok%onError_ok & Hr).
  destruct (open_stored fp enc dec e Hs _ _ _ H1' H2') as [Hst2 Heq]. subst e'. clear H2'.
  rename Hst2 into H2'.
  apply bind_ok in Hr as ([] & w3 & H3'%wrapErr_ok%onError_ok & Hr).
  pose proof H3' as He. apply onOS_osCall_ok, osWriteFile_ok in He.
  eapply (stored_hoare fp enc dec e) in H3'; [|done|apply calm_write; by left|done].
  apply bind_ok in Hr as ([] & w4 & H4'%wrapErr_ok%onError_ok & Hr).
  pose proof H4' as Hdec. apply onOS_ok in Hdec as (s4 & Hdec & Hw4).
  destruct (DecryptFileStreaming_ok cs enc dec e _ _ He Hdec) as (d & Hd & Hfd).
  assert (fileAt (os (sys w4)) dec = Some d) as Hf4 by (by subst w4). clear Hw4 Hfd.
  eapply (stored_hoare fp enc dec e) in H4';
    [|done|apply (calm_DecryptFileStreaming (temps enc dec)); by right|done].
  assert (calm (eq enc) w4 w') as Hc.
  { run_ok Hr. subst.
    pose proof (calm_rm (Sg := Sg) (L := L) (St := St) (T := T) (eq enc) enc eq_refl w4) as Hc1.
    rewrite Hr0 in Hc1. etrans; [exact Hc1|].
    match goal with Hop : onOS (osCall (osOpen dec)) ?wa = (_, ?wb),
      Hrd : onOS (osCall (osReadFile dec)) ?wb = _ |- _ =>
      pose proof (calm_osCall (Sg := Sg) (L := L) (St := St) (T := T) (eq enc) (osOpen dec) (λ o q _, eq_refl) wa) as Hc2;
      pose proof (calm_osCall (Sg := Sg) (L := L) (St := St) (T := T) (eq enc) (osReadFile dec) (λ o q _, eq_refl) wb) as Hc3;
      rewrite Hop in Hc2; rewrite Hrd in Hc3 end.
    etrans; [exact Hc2|exact Hc3]. }
  destruct Hc as [(Hst' & _ & _ & _ & Hf') _], H4' as (Hi4 & _ & Hout4 & _).
  rewrite Hst'. split_and!; [done..|]. exists d. by rewrite Hf'.
Qed.

Lemma onDB_keeps_object {A} ps fp enc dec e (m : M (DB T * Sys) A) w r w' :
  dbOk (db w) → (∀ x, dbFrame ps x (m x).2) → onDB m w = (r, w') →
  stored_ fp enc dec e w → stored_ fp enc dec e w' ∧ svc w' = svc w.
Proof.
  intros Hok Hf Hr (Hi & He & Hd & Ho). apply onDB_ok in Hr as (d & s & Hm & ->).
  specialize (Hf (db w, sys w)). rewrite Hm in Hf. destruct (Hf Hok) as (_ & Hos & _).
  simpl in Hos. unfold stored_; simpl. by rewrite Hos.
Qed.

(** The temp paths of the session [id]. *)
Definition encOf (td id : string) : string := PathJoin [td; id +:+ ".enc"].
Definition decOf (td id : string) : string := PathJoin [td; id +:+ ".dec"].

Lemma CreateDownloadSession_spec td cs id path client e w w' :
  safe (NormalizePath path) → dbOk (db w) → tempDir (svc w) = td → cryptoSvc (svc w) = cs →
  encOf td id ≠ decOf td id →
  stored_ (NormalizePath path) (encOf td id) (decOf td id) e w →
  CreateDownloadSession uuid path client w = (Ok id, w') →
  ∃ d, plainOf cs e d ∧ serves id (NormalizePath path) d w'.
Proof.
  intros Hs Hok Htd Hcs Hne Hst Hr. set (fp := NormalizePath path) in *.
  unfold CreateDownloadSession in Hr. fold fp in Hr.
  apply bind_ok in Hr as (m & w1 & Hm%wrapErr_ok & Hr).
  eapply (onDB_keeps_object (λ _, False)) in Hm as [Hst1 Hsv1]; [|done| |exact Hst].
  2: { intros x. pose proof (file_get_spec fp x) as Hg. destruct (FileGetByPath fp x). apply Hg. }
  destruct m as [meta|]; [|done].
  apply bind_ok in Hr as (i & w2 & Hu & Hr). apply bind_ok in Hr as (now & w3 & Hn & Hr).
  apply bind_ok in Hr as (v & w4 & Hv & Hr). apply gets_ok in Hv as [-> ->].
  cbv zeta in Hr. assert (i = id) as -> by (clear -Hr; run_ok Hr; by subst).
  pose proof (calm_uuid (temps (encOf td id) (decOf td id)) uuid w1) as Hc2. rewrite Hu in Hc2.
  pose proof (calm_nowString (temps (encOf td id) (decOf td id)) w2) as Hc3. rewrite Hn in Hc3.
  assert (calm (temps (encOf td id) (decOf td id)) w1 w3) as [Hm3 Hsv3] by (by etrans).
  eapply stored_mild in Hst1; [|done|exact Hm3].
  assert (svc w3 = svc w) as Hsv by congruence. rewrite Hsv in Hr. unfold tempPathOf in Hr.
  rewrite Htd, Hcs in Hr. fold (encOf td id) (decOf td id) in Hr. clear Hc2 Hc3 Hm3 Hu Hn.
  apply bind_ok in Hr as (s & w5 & Hsess & Hr).
  assert (∃ d, plainOf cs e d ∧ served s fp d w5) as (d & Hpl & Hsd).
  { unfold plainOf. destruct cs as [c|]; [destruct (IsEnabled c)|].
    - apply bind_ok in Hsess as (sz & w6 & Hd & Hsess). apply ret_ok in Hsess as [-> ->].
      eapply decryptTemp_spec in Hd as (Hi6 & Ho6 & d & Hd & Hfd); [|done..].
      exists d. split; [done|]. by split.
    - apply ret_ok in Hsess as [-> ->]. exists e. split; [done|]. split; [apply Hst1|].
      split; [done|]. apply Hst1.
    - apply ret_ok in Hsess as [-> ->]. exists e. split; [done|]. split; [apply Hst1|].
      split; [done|]. apply Hst1. }
  exists d. split; [done|]. run_ok Hr. subst. unfold setDownload, onService, modify in Hr0.
  injection Hr0 as <-. unfold storeDownload in Hr1. apply ignore_ok in Hr1. subst.
  match goal with |- context [onSession ?f ?ww] =>
    destruct (calm_onSession (T := T) (Sg := Sg) (L := L) none f ww)
      as [(Hst6 & Hdb6 & [Htd6 _] & Hcs6 & Hf6) Hsv6] end.
  destruct Hsd as (Hi5 & Hp5 & Hd5). simpl in *. split; [by rewrite Hst6|]. exists s.
  rewrite Hsv6. simpl. rewrite lookup_insert_eq, Hst6. split; [done|]. split; [done|].
  destruct (dlDecryptedFile s); [by rewrite Hf6|].
  rewrite (object_local _ (os (sys w5))); [done..|]. intros q _. by apply Hf6.
Qed.

(** ** Sequences of chunks *)

(** [reads id w rs w']: the chunks [(size, offset, data)] were served, in this
    order. Other requests in between leave the session, the object and the temp
    file alone. *)
Inductive reads (id : string) : World → list (Z * Z * bytes) → World → Prop :=
| reads_none w : reads id w [] w
| reads_other w rs w1 w2 :
    reads id w rs w1 → (∀ fp d, serves id fp d w1 → serves id fp d w2) → reads id w rs w2
| reads_ok w rs n off x w1 w2 :
    reads id w rs w1 → in64 n → in64 off → DownloadChunk id n off w1 = (Ok x, w2) →
    reads id w (rs ++ [(n, off, x)]) w2
| reads_err w rs n off e w1 w2 :
    reads id w rs w1 → in64 n → in64 off → DownloadChunk id n off w1 = (Err e, w2) →
    reads id w rs w2.

Definition slice (d : bytes) (r : Z * Z * bytes) : Prop :=
  r.2 = readAt d (Z.to_nat r.1.2) (Z.to_nat r.1.1).

Lemma reads_slices id fp d w rs w' :
  safe fp → reads id w rs w' → serves id fp d w → Forall (slice d) rs ∧ serves id fp d w'.
Proof.
  intros Hs Hr. induction Hr as [w|w rs w1 w2 Hr IH Hk|w rs n off x w1 w2 Hr IH Hn Ho Hd
    |w rs n off e w1 w2 Hr IH Hn Ho Hd]; intros Hw; [by split|..]; destruct (IH Hw) as [Hrs Hw1].
  - split; [done|]. by apply Hk.
  - pose proof (DownloadChunk_spec id fp d n off Hs Hn Ho w1 Hw1) as Hc. rewrite Hd in Hc.
    destruct Hc as (Hw2 & _ & ->). split; [|done]. apply Forall_app. split; [done|by constructor].
  - pose proof (DownloadChunk_spec id fp d n off Hs Hn Ho w1 Hw1) as Hc. by rewrite Hd in Hc.
Qed.

(** ** Segments in parallel *)

Definition segmentOk (segs : list DownloadSegment) (d : bytes) (i : nat)
    (r : DownloadSegmentResult) : Prop :=
  SegmentIndex r = i ∧ ∃ seg, segs !! i = Some seg ∧ rOffset r = sOffset seg ∧
  (Error r = None → Data r = readAt d (Z.to_nat (sOffset seg)) (Z.to_nat (sSize seg))).

Definition segment64 (seg : DownloadSegment) : Prop := in64 (sOffset seg) ∧ in64 (sSize seg).

Definition resultsOk (segs : list DownloadSegment) (d : bytes) (done_ : list nat)
    (results : list (option DownloadSegmentResult)) : Prop :=
  length results = length segs ∧
  ∀ i, i ∈ done_ → (i < length segs)%nat → ∃ r, results !! i = Some (Some r) ∧ segmentOk segs d i r.

Lemma downloadSegment_spec id fp d segs done_ results i :
  safe fp → Forall segment64 segs →
  triple (λ w, serves id fp d w ∧ resultsOk segs d done_ results)
    (downloadSegment id segs results i)
    (λ rs w, serves id fp d w ∧ resultsOk segs d (i :: done_) rs) (λ _, False).
Proof.
  intros Hs Hsegs w [Hw [Hlen Hd]]. unfold downloadSegment.
  destruct (segs !! i) as [seg|] eqn:Ei.
  2: { simpl. split; [done|]. split; [done|]. apply lookup_ge_None in Ei.
       intros j [->|Hj]%elem_of_cons Hlt; [lia|by apply Hd]. }
  destruct (proj1 (Forall_lookup _ _) Hsegs i seg Ei) as [Ho Hn].
  pose proof (DownloadChunk_spec id fp d (sSize seg) (sOffset seg) Hs Hn Ho w Hw) as Hc.
  unfold mbind, M_bind, catch. destruct (DownloadChunk id (sSize seg) (sOffset seg) w) as [r w1].
  assert (∀ data err, (err = None → data = readAt d (Z.to_nat (sOffset seg)) (Z.to_nat (sSize seg))) →
    resultsOk segs d (i :: done_) (<[i := Some (MkSegmentResult i (sOffset seg) data err)]> results)) as Hres.
  { intros data err Hdata. split; [by rewrite length_insert|]. intros j Hj Hlt.
    destruct (decide (j = i)) as [->|Hne].
    - eexists. split; [apply list_lookup_insert_eq; lia|]. split; [done|]. by exists seg.
    - rewrite list_lookup_insert_ne by done. apply Hd; [|done].
      by apply elem_of_cons in Hj as [?|?]. }
  destruct r as [x|e]; simpl.
  - destruct Hc as (Hw1 & _ & ->). split; [done|]. by apply Hres.
  - split; [done|]. by apply Hres.
Qed.

Lemma runSegments_spec id fp d segs schedule done_ results :
  safe fp → Forall segment64 segs →
  triple (λ w, serves id fp d w ∧ resultsOk segs d done_ results)
    (runSegments id segs schedule results)
    (λ rs w, serves id fp d w ∧ ∃ all, all ≡ₚ schedule ++ done_ ∧ resultsOk segs d all rs) (λ _, False).
Proof.
  intros Hs Hsegs. revert done_ results. induction schedule as [|i sch IH]; intros done_ results; simpl.
  { intros w [Hw Hr]. split; [done|]. by exists done_. }
  eapply triple_bind; [by apply downloadSegment_spec|]. intros rs.
  eapply triple_conseq; [apply (IH (i :: done_))|done| |done].
  intros rs' w [Hw (all & Hp & Hok)]. split; [done|]. exists all. split; [|done].
  rewrite Hp. by rewrite Permutation_middle.
Qed.

End download.

(** Chunks that follow each other from the start of the file. *)
Fixpoint consecutive (o : Z) (rs : list (Z * Z * bytes)) : Prop :=
  match rs with
  | [] => True
  | (n, off, x) :: rs => off = o ∧ consecutive (o + blen x) rs
  end.

Lemma consecutive_concat d o rs :
  (0 ≤ o)%Z → Forall (slice d) rs → consecutive o rs →
  concat ((λ r, r.2) <$> rs) = take (length (concat ((λ r, r.2) <$> rs))) (drop (Z.to_nat o) d).
Proof.
  revert o. induction rs as [|[[n off] x] rs IH]; intros o Ho Hs Hc; [done|].
  apply Forall_cons in Hs as [Hx Hs]. destruct Hc as [-> Hc]. simpl in *.
  unfold slice in Hx. simpl in Hx. rewrite length_app.
  specialize (IH (o + blen x)%Z ltac:(unfold blen; lia) Hs Hc). rewrite IH at 1.
  rewrite Hx at 1. unfold readAt.
  replace (Z.to_nat (o + blen x)) with (Z.to_nat o + length x)%nat by (unfold blen; lia).
  rewrite <-drop_drop. set (y := drop (Z.to_nat o) d) in *.
  assert (take (Z.to_nat n) y = take (length x) y) as ->.
  { rewrite Hx. unfold readAt. fold y. rewrite length_take.
    destruct (decide (Z.to_nat n ≤ length y)%nat); [by rewrite Nat.min_l|].
    rewrite Nat.min_r by lia. by rewrite !take_ge by lia. }
  by rewrite take_take_drop.
Qed.

(** ** Properties *)

(** C11: a download session serves exact slices of one plaintext. Whatever chunks
    are asked for, in any order and with other requests and refused chunks in
    between, each chunk served is the requested slice of the bytes stored at
    creation, decrypted when encryption is on; chunks that follow each other from
    offset 0 add up to a prefix of the file. *)
Theorem download_exact {Sg L St T} `{StorageLaws Sg} `{DistributedLock L}
    `{SessionStore sessionValue St} `{SqlLaws T} `{AEADLaws} (uuid : nat → string)
    (td : string) (cs : option CryptoService) (id path client : string) (e : bytes)
    (rs : list (Z * Z * bytes)) (w0 w1 w2 : World Sg L St T) :
  IsValidFilePath path = true → dbOk (db w0) → tempDir (svc w0) = td → cryptoSvc (svc w0) = cs →
  encOf td id ≠ decOf td id →
  stored_ (NormalizePath path) (encOf td id) (decOf td id) e w0 →
  CreateDownloadSession uuid path client w0 = (Ok id, w1) →
  reads id w1 rs w2 →
  ∃ d, plainOf cs e d ∧ Forall (slice d) rs ∧
    (consecutive 0 rs →
     concat ((λ r, r.2) <$> rs) = take (length (concat ((λ r, r.2) <$> rs))) d).
Proof.
  intros Hv Hok Htd Hcs Hne Hst Hc Hr.
  assert (safe (NormalizePath path)) as Hs by (eexists; by apply valid_path_safeKey).
  destruct (CreateDownloadSession_spec uuid td cs id path client e w0 w1) as (d & Hpl & Hserves);
    [done..|].
  destruct (reads_slices id (NormalizePath path) d w1 rs w2 Hs Hr Hserves) as [Hrs _].
  exists d. split; [done|]. split; [done|]. intros Hcons.
  by rewrite (consecutive_concat d 0) at 1.
Qed.

Notation demoDownload := (CreateDownloadSession demoUUID "/a/b" "c" demoFile).2.
Notation demoRead n off w := (DownloadChunk (T := list) "idAB" n off w).2.

Lemma demo_stored : stored_ "a/b" (encOf "/tmp/up" "idAB") (decOf "/tmp/up" "idAB") (ab ++ cd) demoFile.
Proof.
  split; [apply localDisk_rooted|]. split; [apply demo_outside; vm_compute; reflexivity|].
  split; [apply demo_outside; vm_compute; reflexivity|]. vm_compute. reflexivity.
Qed.

Lemma download_exact_witness :
  ∃ d, plainOf None (ab ++ cd) d ∧ Forall (slice d) [((2, 0)%Z, ab); ((5, 2)%Z, cd)] ∧
    (consecutive 0 [((2, 0)%Z, ab); ((5, 2)%Z, cd)] →
     concat ((λ r, r.2) <$> [((2, 0)%Z, ab); ((5, 2)%Z, cd)]) =
     take (length (concat ((λ r, r.2) <$> [((2, 0)%Z, ab); ((5, 2)%Z, cd)]))) d).
Proof.
  apply (download_exact demoUUID "/tmp/up" None "idAB" "/a/b" "c" (ab ++ cd)
    [((2, 0)%Z, ab); ((5, 2)%Z, cd)] demoFile demoDownload (demoRead 5 2 (demoRead 2 0 demoDownload)));
    [vm_compute; reflexivity|by apply dbOk_by_dec|reflexivity|reflexivity|vm_compute; discriminate
    |apply demo_stored|apply outcome; vm_compute; reflexivity|].
  apply (reads_ok "idAB" _ [((2, 0)%Z, ab)] 5 2 cd (demoRead 2 0 demoDownload));
    [|split; vm_compute; discriminate|split; vm_compute; discriminate
    |apply outcome; vm_compute; reflexivity].
  apply (reads_ok "idAB" _ [] 2 0 ab demoDownload);
    [apply reads_none|split; vm_compute; discriminate|split; vm_compute; discriminate
    |apply outcome; vm_compute; reflexivity].
Defined.

(** C12: a parallel download puts every segment in its place, whatever the order in
    which the goroutines run. Each result carries the index and the offset of its
    segment and, unless it reports an error, exactly the requested slice. *)
Theorem parallel_download {Sg L St T} `{StorageLaws Sg} `{DistributedLock L}
    `{SessionStore sessionValue St} `{SqlLaws T} `{AEADLaws}
    (id fp : string) (d : bytes) (segs : list DownloadSegment) (schedule : list nat)
    (w : World Sg L St T) :
  safe fp → Forall segment64 segs → serves id fp d w →
  schedule ≡ₚ seq 0 (length segs) →
  ∃ rs w', ParallelDownloadChunks id segs schedule w = (Ok rs, w') ∧
    serves id fp d w' ∧ length rs = length segs ∧
    ∀ i, (i < length segs)%nat → ∃ r, rs !! i = Some (Some r) ∧ segmentOk segs d i r.
Proof.
  intros Hs Hsegs Hw Hp. unfold ParallelDownloadChunks.
  pose proof (runSegments_spec id fp d segs schedule [] (replicate (length segs) None) Hs Hsegs w)
    as Hr.
  destruct (runSegments _ _ _ _ w) as [[rs|e] w']; [|exfalso; apply Hr].
  - destruct Hr as [Hw' (all & Hall & Hlen & Hok)].
    { split; [done|]. split; [by rewrite length_replicate|]. by intros i ?%elem_of_nil. }
    exists rs, w'. split_and!; [done..|]. intros i Hi. apply Hok; [|done].
    rewrite Hall, app_nil_r, Hp. apply elem_of_seq. lia.
  - split; [done|]. split; [by rewrite length_replicate|]. by intros i ?%elem_of_nil.
Qed.

Lemma parallel_download_witness :
  let segs := [MkSegment 2 2; MkSegment 0 2] in
  ∃ rs w', ParallelDownloadChunks (T := list) "idAB" segs [1; 0]%nat demoDownload = (Ok rs, w') ∧
    serves "idAB" "a/b" (ab ++ cd) w' ∧ length rs = length segs ∧
    ∀ i, (i < length segs)%nat → ∃ r, rs !! i = Some (Some r) ∧ segmentOk segs (ab ++ cd) i r.
Proof.
  apply (parallel_download "idAB" "a/b" (ab ++ cd) [MkSegment 2 2; MkSegment 0 2] [1; 0]%nat demoDownload);
    [apply safe_dec_true; vm_compute; reflexivity
    |repeat constructor; vm_compute; discriminate| |vm_compute; eauto using Permutation].
  destruct (CreateDownloadSession_spec demoUUID "/tmp/up" None "idAB" "/a/b" "c" (ab ++ cd) demoFile
    demoDownload) as (d & -> & Hd); [apply safe_dec_true; vm_compute; reflexivity
    |by apply dbOk_by_dec|reflexivity|reflexivity|vm_compute; discriminate|apply demo_stored
    |apply outcome; vm_compute; reflexivity|].
  exact Hd.
Defined.
