(* ===== verification/Expiry.v ===== *)
(** * Expiry of sessions: CleanupExpiredSessions

    One pass removes exactly the sessions that are older than the given age. *)

From S2P Require Export Slots.

Local Open Scope go_scope.

Section expiry.
Context {Sg L St : Type} {T : Type → Type}.
Context `{StorageAdapter Sg} `{DistributedLock L} `{SessionStore sessionValue St}.
Context `{SqlEngine T}.
Notation World := (World Sg L St T).
Implicit Types (v : FileTransferService) (t : Z).

(** What the pass does to the tables, session by session. *)
Definition dropExpiredUpload t (kv : string * UploadSession) v :=
  if expired t (uCreatedAt kv.2)
  then addCount (-1) (setUploads (delete kv.1 (uploadSessions v)) v) else v.
Definition dropExpiredDownload t (kv : string * DownloadSession) v :=
  if expired t (dlCreatedAt kv.2)
  then setDownloads (delete kv.1 (downloadSessions v)) v else v.
Definition dropExpiredMultipart t (kv : string * MultipartUploadSession) v :=
  if expired t (mCreatedAt kv.2)
  then addCount (-1) (setMultiparts (delete kv.1 (multipartSessions v)) v) else v.

(** The action of a program on the service, when it cannot fail. *)
Definition acts {A} (m : M World A) (g : FileTransferService → FileTransferService) : Prop :=
  ∀ w, is_ok (m w).1 = true ∧ svc (m w).2 = g (svc w).

Lemma acts_bind {A B} (m : M World A) (f : A → M World B) g h :
  acts m g → (∀ a, acts (f a) h) → acts (m ≫= f) (h ∘ g).
Proof.
  intros Hm Hf w. destruct (Hm w) as [Hok Hs]. unfold mbind, M_bind.
  destruct (m w) as [[a|e] w1]; [|done]. destruct (Hf a w1) as [Hok' Hs']. simpl in *.
  by rewrite Hs', Hs.
Qed.

Lemma acts_same {A} (m : M World A) : steps sameSvc m → sure m → acts m id.
Proof. intros Hm Hs w. split; [apply Hs|apply Hm]. Qed.

Lemma acts_rm p : acts (rm p) id.
Proof. apply acts_same; [apply same_rm|apply sure_ignore]. Qed.

Lemma acts_forget (op : callEnv → St → res unit * St) : acts (ignore (onSession op)) id.
Proof. apply acts_same; [apply steps_ignore, same_onSession|apply sure_ignore]. Qed.

Lemma acts_forEach {A} (f : A → M World unit) (g : A → FileTransferService → FileTransferService) l :
  (∀ x, acts (f x) (g x)) → acts (forEach f l) (λ v, foldl (λ v x, g x v) v l).
Proof.
  intros Hf. induction l as [|x l IH]; [by intros w|]. simpl.
  exact (acts_bind (f x) (λ _, forEach f l) (g x) _ (Hf x) (λ _, IH)).
Qed.

Lemma expireUpload_acts t kv : acts (expireUpload t kv) (dropExpiredUpload t kv).
Proof.
  unfold expireUpload, dropExpiredUpload. destruct (expired t _); [|by intros w].
  apply (acts_bind service _ id); [by apply acts_same|intros v].
  apply (acts_bind _ _ id); [apply acts_rm|intros _].
  apply (acts_bind (endUpload kv.1) _ (λ v, addCount (-1) (setUploads (delete kv.1 (uploadSessions v)) v)) id);
    [done|intros _; apply acts_forget].
Qed.

Lemma expireMultipart_acts t kv : acts (expireMultipart t kv) (dropExpiredMultipart t kv).
Proof.
  unfold expireMultipart, dropExpiredMultipart. destruct (expired t _); [|by intros w].
  apply (acts_bind service _ id); [by apply acts_same|intros v].
  apply (acts_bind _ _ id); [apply acts_rm|intros _].
  apply (acts_bind (endMultipart kv.1) _
    (λ v, addCount (-1) (setMultiparts (delete kv.1 (multipartSessions v)) v)) id);
    [done|intros _; apply acts_forget].
Qed.

Lemma expireDownload_acts t kv : acts (expireDownload t kv) (dropExpiredDownload t kv).
Proof.
  unfold expireDownload, dropExpiredDownload. destruct (expired t _); [|by intros w].
  apply (acts_bind _ _ id (λ v, setDownloads (delete kv.1 (downloadSessions v)) v)).
  { destruct (bool_decide _); [by intros w|apply acts_rm]. }
  intros _. apply (acts_bind (dropDownload kv.1) _
    (λ v, setDownloads (delete kv.1 (downloadSessions v)) v) id); [done|intros _; apply acts_forget].
Qed.

(** Deleting from a map the entries of its own list that satisfy a test. *)
Lemma foldl_delete {V} (P : string * V → bool) (sel : FileTransferService → gmap string V)
    (g : string * V → FileTransferService → FileTransferService) (l : list (string * V)) v :
  (∀ kv v, sel (g kv v) = if P kv then delete kv.1 (sel v) else sel v) →
  ∀ k, sel (foldl (λ v x, g x v) v l) !! k =
    if existsb (λ kv, bool_decide (kv.1 = k) && P kv) l then None else sel v !! k.
Proof.
  intros Hg k. revert v. induction l as [|kv l IH]; intros v; [done|]. simpl. rewrite IH, Hg.
  destruct (existsb _ l); [by rewrite orb_true_r|]. rewrite orb_false_r.
  case_bool_decide as Hk; simpl; destruct (P kv); try done; [subst; apply lookup_delete_eq|].
  by apply lookup_delete_ne.
Qed.

Lemma foldl_filter {V} (P : string * V → bool) (sel : FileTransferService → gmap string V)
    (g : string * V → FileTransferService → FileTransferService) v :
  (∀ kv v, sel (g kv v) = if P kv then delete kv.1 (sel v) else sel v) →
  sel (foldl (λ v x, g x v) v (map_to_list (sel v))) = filter (λ kv, P kv = false) (sel v).
Proof.
  intros Hg. apply map_eq. intros k. rewrite (foldl_delete P sel g _ v Hg).
  rewrite map_lookup_filter. destruct (sel v !! k) as [s|] eqn:E; simpl.
  - destruct (P (k, s)) eqn:EP; simpl.
    + rewrite (proj2 (existsb_exists _ _)); [done|]. exists (k, s).
      rewrite <-list_elem_of_In, elem_of_map_to_list. split; [done|]. simpl.
      by rewrite bool_decide_eq_true_2.
    + rewrite (proj1 (not_true_iff_false _)); [done|]. rewrite existsb_exists.
      intros ([k' s'] & Hin & Hk). rewrite <-list_elem_of_In, elem_of_map_to_list in Hin.
      bool_prop. simpl in *. subst. rewrite E in Hin. injection Hin as ->. congruence.
  - by destruct (existsb _ _).
Qed.

Lemma foldl_keep {V X} (sel : FileTransferService → X)
    (g : string * V → FileTransferService → FileTransferService) (l : list (string * V)) v :
  (∀ kv v, sel (g kv v) = sel v) → sel (foldl (λ v x, g x v) v l) = sel v.
Proof. intros Hg. revert v. induction l as [|kv l IH]; intros v; [done|]. simpl. by rewrite IH. Qed.

Lemma pass_acts t v :
  acts (forEach (expireUpload t) (map_to_list (uploadSessions v)) ⨟
        forEach (expireDownload t) (map_to_list (downloadSessions v)) ⨟
        forEach (expireMultipart t) (map_to_list (multipartSessions v)))
    (λ v0, foldl (λ v x, dropExpiredMultipart t x v)
       (foldl (λ v x, dropExpiredDownload t x v)
          (foldl (λ v x, dropExpiredUpload t x v) v0 (map_to_list (uploadSessions v)))
          (map_to_list (downloadSessions v))) (map_to_list (multipartSessions v))).
Proof.
  eapply (acts_bind _ _ (λ v0, foldl (λ v x, dropExpiredUpload t x v) v0 (map_to_list (uploadSessions v)))
    (λ v0, foldl (λ v x, dropExpiredMultipart t x v) (foldl (λ v x, dropExpiredDownload t x v) v0
       (map_to_list (downloadSessions v))) (map_to_list (multipartSessions v)))).
  { apply acts_forEach, expireUpload_acts. }
  intros _. eapply (acts_bind _ _ (λ v0, foldl (λ v x, dropExpiredDownload t x v) v0 (map_to_list (downloadSessions v)))
    (λ v0, foldl (λ v x, dropExpiredMultipart t x v) v0 (map_to_list (multipartSessions v)))).
  { apply acts_forEach, expireDownload_acts. }
  intros _. apply acts_forEach, expireMultipart_acts.
Qed.

End expiry.

(** ** Properties *)

(** One pass of the cleanup removes exactly the expired sessions. It never
    fails; of each of the three tables it keeps the sessions whose creation time
    is not before the expiry time, and drops all others. *)
Lemma cleanup_exact {Sg L St T} `{StorageAdapter Sg} `{DistributedLock L}
    `{SessionStore sessionValue St} `{SqlEngine T} (age : Z) (w : World Sg L St T) :
  let t := expiryOf (now (oracle (sys w) (tick (sys w)))) age in
  let r := CleanupExpiredSessions age w in
  is_ok r.1 = true ∧
  uploadSessions (svc r.2) =
    filter (λ kv, expired t (uCreatedAt kv.2) = false) (uploadSessions (svc w)) ∧
  downloadSessions (svc r.2) =
    filter (λ kv, expired t (dlCreatedAt kv.2) = false) (downloadSessions (svc w)) ∧
  multipartSessions (svc r.2) =
    filter (λ kv, expired t (mCreatedAt kv.2) = false) (multipartSessions (svc w)).
Proof.
  cbv zeta. set (t := expiryOf _ age). set (v := svc w).
  pose proof (pass_acts t v (MkWorld (skip 1 (sys w)) (store w) (db w) (dlock w) (sess w) v)) as Hact.
  match type of Hact with is_ok ?x.1 = true ∧ _ =>
    change (CleanupExpiredSessions age w) with x end.
  destruct Hact as [Hok Hsv]. split; [exact Hok|]. rewrite Hsv. simpl. clear Hok Hsv.
  split_and!.
  - rewrite (foldl_keep uploadSessions (dropExpiredMultipart t)),
      (foldl_keep uploadSessions (dropExpiredDownload t)).
    + apply (foldl_filter (λ kv, expired t (uCreatedAt kv.2)) uploadSessions). intros.
      unfold dropExpiredUpload. by destruct (expired _ _).
    + intros. unfold dropExpiredDownload. by destruct (expired _ _).
    + intros. unfold dropExpiredMultipart. by destruct (expired _ _).
  - rewrite (foldl_keep downloadSessions (dropExpiredMultipart t)).
    2: { intros. unfold dropExpiredMultipart. by destruct (expired _ _). }
    assert (downloadSessions (foldl (λ v x, dropExpiredUpload t x v) v (map_to_list (uploadSessions v)))
      = downloadSessions v) as Hd.
    { apply (foldl_keep downloadSessions). intros. unfold dropExpiredUpload. by destruct (expired _ _). }
    rewrite <-Hd. apply (foldl_filter (λ kv, expired t (dlCreatedAt kv.2)) downloadSessions).
    intros. unfold dropExpiredDownload. by destruct (expired _ _).
  - set (v1 := foldl _ _ (map_to_list (downloadSessions v))).
    assert (multipartSessions v1 = multipartSessions v) as Hd.
    { unfold v1. rewrite (foldl_keep multipartSessions (dropExpiredDownload t)),
        (foldl_keep multipartSessions (dropExpiredUpload t)); [done|..]; intros;
        [unfold dropExpiredUpload|unfold dropExpiredDownload]; by destruct (expired _ _). }
    rewrite <-Hd. apply (foldl_filter (λ kv, expired t (mCreatedAt kv.2)) multipartSessions).
    intros. unfold dropExpiredMultipart. by destruct (expired _ _).
Qed.
