(* ===== verification/FileManager.v ===== *)
(** * internal/service/filemanager: whole-file operations

    UploadFile, UploadFileFromReader, DownloadFile, DeleteFile, RenameFile and
    their relatives, over the world of the process. The manager's own state is
    its table of per-path mutexes. *)

From S2P Require Export Commit Demo.

Local Open Scope go_scope.

(** The paths that have a mutex in [fileLocks]. *)
Record FileManager := MkFileManager { fileLocks : gset string }.

Definition NewFileManager : FileManager := MkFileManager ∅.

Section manager.
Context {Sg L St : Type} {T : Type → Type}.
Context `{StorageAdapter Sg} `{DistributedLock L} `{SqlEngine T}.
Context (sha256 : bytes → bytes) (uuid : nat → string).
Notation World := (World Sg L St T).
Notation FM := (M (FileManager * World)).

Definition inWorld {A} (m : M World A) : FM A := λ '(fm, w),
  let '(r, w) := m w in (r, (fm, w)).

(** The mutex of a path is created when it is first locked; operations run one
    after another, so taking it succeeds and releasing it leaves it in the table. *)
Definition lockFile (path : string) : FM unit :=
  modify (λ '(fm, w), (MkFileManager ({[path]} ∪ fileLocks fm), w)).

Definition distLockFile (path : string) : M World string :=
  wrapErr "failed to acquire distributed lock"
    (acquire ("file:" +:+ path) (10 * Second) 30 (50 * Millisecond)).

Definition distUnlockFile (path token : string) : M World unit :=
  ignore (release ("file:" +:+ path) token).

(** Run under the lock of the path. *)
Definition underLock {A} (path : string) (m : M World A) : FM A :=
  lockFile path ⨟
  inWorld (token ← distLockFile path; deferring m (distUnlockFile path token)).

Definition FExists (path : string) : M World bool :=
  r ← catch (onDB (FileExists (NormalizePath path)));
  mret (match r with Ok b => b | Err _ => false end).

Definition GetFileMetadata (path : string) : M World FileMetadata :=
  m ← wrapErr "file metadata not found" (onDB (FileGetByPath (NormalizePath path)));
  match m with
  | Some meta => mret meta
  | None => throw (ErrMsg "file not found")
  end.

Definition GetFileSize (path : string) : M World Z :=
  r ← catch (onDB (FileGetByPath (NormalizePath path)));
  mret (match r with Ok (Some m) => fSize m | _ => 0%Z end).

Definition hashOf (data : bytes) : string := EncodeToString (sha256 data).

(** Overwriting the file of [m]. *)
Definition overwrite (path : string) (data : bytes) (m : FileMetadata) : M World FileMetadata :=
  wrapErr "failed to overwrite file" (onStore (Write path data)) ⨟
  now ← nowString;
  let m := MkFile (fID m) (fPath m) (fName m) (blen data) (hashOf data) (fStorageType m)
             (fStorageLocation m) (fCreatedAt m) now false in
  wrapErr "failed to update file metadata" (onDB (FileUpdate m)) ⨟
  mret m.

Definition writeNew (path : string) (data : bytes) : M World FileMetadata :=
  wrapErr "failed to write file" (onStore (Write path data)) ⨟
  now ← nowString;
  id ← GenerateUUID uuid;
  let m := MkFile id path (GetFileName path) (blen data) (hashOf data) StorageType "" now now false in
  wrapErr "failed to create file metadata"
    (onError (onDB (FileCreate m)) (ignore (onStore (Remove path)))) ⨟
  mret m.

(** The metadata to overwrite; an error of the query is logged and ignored. *)
Definition existingMeta (path : string) : M World (option FileMetadata) :=
  ex ← FExists path;
  if (ex : bool) then
    r ← catch (onDB (FileGetByPath path));
    mret (match r with Ok x => x | Err _ => None end)
  else mret None.

Definition uploadBody (path : string) (data : bytes) : M World FileMetadata :=
  existing ← existingMeta path;
  match existing with
  | Some m => overwrite path data m
  | None => writeNew path data
  end.

Definition UploadFile (path : string) (data : bytes) : FM FileMetadata :=
  let path := NormalizePath path in underLock path (uploadBody path data).

(** The reader is teed into the hash: a successful write has hashed all of it. *)
Definition uploadReaderBody (path : string) (rd : reader) : M World FileMetadata :=
  wrapErr "failed to write file from reader" (onStore (WriteFromReader path rd)) ⨟
  r ← catch (onStore (GetSize path));
  let size := match r with Ok n => n | Err _ => 0%Z end in
  recordFile uuid path (GetFileName path) size (hashOf (rdata rd)) (mret tt) (mret tt).

Definition UploadFileFromReader (path : string) (rd : reader) : FM FileMetadata :=
  let path := NormalizePath path in underLock path (uploadReaderBody path rd).

Definition DownloadFile (path : string) : M World bytes :=
  let path := NormalizePath path in
  GetFileMetadata path ⨟
  wrapErr "failed to read file" (onStore (Read path)).

Definition DownloadFileAt (path : string) (size offset : Z) : M World bytes :=
  let path := NormalizePath path in
  GetFileMetadata path ⨟
  wrapErr "failed to read file at offset" (onStore (ReadAt path size offset)).

Definition DownloadFileData (meta : option FileMetadata) : M World bytes :=
  match meta with
  | None => throw (ErrMsg "metadata is required")
  | Some m => wrapErr "failed to read file" (onStore (Read (NormalizePath (fPath m))))
  end.

Definition DownloadFileDataAt (meta : option FileMetadata) (size offset : Z) : M World bytes :=
  match meta with
  | None => throw (ErrMsg "metadata is required")
  | Some m => wrapErr "failed to read file at offset"
                (onStore (ReadAt (NormalizePath (fPath m)) size offset))
  end.

Definition deleteBody (path : string) : M World unit :=
  meta ← GetFileMetadata path;
  wrapErr "failed to delete file from storage" (onStore (Remove path)) ⨟
  now ← nowString;
  wrapErr "failed to delete file metadata" (onDB (FileRemove now (fID meta))).

Definition DeleteFile (path : string) : FM unit :=
  let path := NormalizePath path in underLock path (deleteBody path).

Definition renameBody (oldPath newName : string) : M World unit :=
  meta ← GetFileMetadata oldPath;
  let newPath := NormalizePath (GetDirectory oldPath +:+ "/" +:+ newName) in
  ex ← FExists newPath;
  guard (negb ex) (ErrMsg "target path already exists") ⨟
  wrapErr "failed to rename file in storage" (onStore (Rename oldPath newPath)) ⨟
  now ← nowString;
  let m := MkFile (fID meta) newPath newName (fSize meta) (fHash meta) (fStorageType meta)
             (fStorageLocation meta) (fCreatedAt meta) now (fIsDeleted meta) in
  wrapErr "failed to update file metadata"
    (onError (onDB (FileUpdate m)) (ignore (onStore (Rename newPath oldPath)))).

Definition RenameFile (oldPath newName : string) : FM unit :=
  let oldPath := NormalizePath oldPath in underLock oldPath (renameBody oldPath newName).

(** No mutex is held between operations: every path without metadata is dropped. *)
Fixpoint cleanLocks (paths : list string) : FM unit :=
  match paths with
  | [] => mret tt
  | p :: paths =>
      ex ← inWorld (FExists p);
      (if (ex : bool) then mret tt
       else modify (λ '(fm, w), (MkFileManager (fileLocks fm ∖ {[p]}), w))) ⨟
      cleanLocks paths
  end.

Definition CleanFileLocks : FM unit :=
  paths ← gets (λ '(fm, _), elements (fileLocks fm));
  cleanLocks paths.

End manager.

(** ** Reasoning about one path

    [onPath w0 p o v w]: since [w0] only the path [p] was touched; its object
    satisfies [o] and its metadata [v]. *)

Section onpath.
Context {Sg L St : Type} {T : Type → Type}.
Context `{StorageLaws Sg} `{DistributedLock L} `{SqlLaws T}.
Context (sha256 : bytes → bytes) (uuid : nat → string).
Notation World := (World Sg L St T).

Definition sound (w : World) : Prop := storeInv (store w) ∧ dbOk (db w).

(** Every other file is as it was. *)
Definition others (K : string → Prop) (w0 w : World) : Prop :=
  ∀ q, safe q → ¬ K q →
  object (store w) (os (sys w)) q = object (store w0) (os (sys w0)) q ∧
  fview (db w) q = fview (db w0) q.

Definition onPath (w0 : World) (p : string) (o : option bytes → Prop)
    (v : option FileMetadata → Prop) (w : World) : Prop :=
  sound w ∧ others (eq p) w0 w ∧ o (object (store w) (os (sys w)) p) ∧ v (fview (db w) p).

Definition any {A} (_ : A) : Prop := True.

Context (w0 : World) (p : string) (Hp : safe p).

Lemma onPath_weaken (o o' : option bytes → Prop) (v v' : option FileMetadata → Prop) w :
  (∀ x, o x → o' x) → (∀ x, v x → v' x) → onPath w0 p o v w → onPath w0 p o' v' w.
Proof. intros Ho Hv (? & ? & ? & ?). split_and!; auto. Qed.

(** What only touches paths outside the storage keeps the files. *)
Lemma onPath_mild P o v w w' :
  mild P w w' → (∀ q, P q → outside (store w) q) → onPath w0 p o v w → onPath w0 p o v w'.
Proof.
  intros (Hst & Hdb & _ & _ & Hf) HP ([Hi Hd] & Hoth & Ho & Hv).
  assert (∀ q, safe q → object (store w') (os (sys w')) q = object (store w) (os (sys w)) q) as Hob.
  { intros q Hq. rewrite Hst. apply object_local; [done..|]. intros r Hr. apply Hf. by intros ?%HP. }
  split; [by split; rewrite ?Hst, ?Hdb|]. split; [|rewrite Hob, Hdb by done; done].
  intros q Hq Hne. rewrite Hob, Hdb by done. by apply Hoth.
Qed.

Lemma onPath_calm o v w w' : calm none w w' → onPath w0 p o v w → onPath w0 p o v w'.
Proof. intros [Hm _]. by apply (onPath_mild none). Qed.

Lemma path_calm {A} o v (m : M World A) :
  steps (calm none) m → triple (onPath w0 p o v) m (λ _, onPath w0 p o v) (onPath w0 p o v).
Proof. intros Hm. eapply triple_steps; [done|]. intros. by eapply onPath_calm. Qed.

(** A storage operation on [p]. *)
Lemma path_store {A} o v (m : M (Sg * Sys) A) (o' : A → option bytes → Prop) :
  (∀ x, storeInv x.1 →
     let '(r, x') := m x in
     frame storeInv object outside (eq p) none x x' ∧
     ∀ a, r = Ok a → o (object x.1 (os x.2) p) → o' a (object x'.1 (os x'.2) p)) →
  triple (onPath w0 p o v) (onStore m) (λ a, onPath w0 p (o' a) v) (onPath w0 p any v).
Proof.
  intros Hm w ([Hi Hd] & Hoth & Ho & Hv). unfold onStore. specialize (Hm (store w, sys w) Hi).
  destruct (m (store w, sys w)) as [r [g s]]. destruct Hm as [(Hi' & _ & Hob & _) Hr]. simpl in *.
  assert (others (eq p) w0 (MkWorld s g (db w) (dlock w) (sess w) (svc w))) as Hoth'.
  { intros q Hq Hne. simpl. rewrite Hob by done. by apply Hoth. }
  destruct r as [a|e]; [|by split_and!]. split_and!; [done|done|by apply Hr|done].
Qed.

Lemma path_write o v d :
  triple (onPath w0 p o v) (onStore (Write p d)) (λ _, onPath w0 p (eq (Some d)) v) (onPath w0 p any v).
Proof.
  apply (path_store o v (Write p d) (λ _, eq (Some d))). intros x Hx.
  pose proof (write_spec p d x Hx Hp) as Hw. destruct (Write p d x) as [[[]|e] x']; naive_solver.
Qed.

Lemma path_writeReader o v rd :
  triple (onPath w0 p o v) (onStore (WriteFromReader p rd))
    (λ _, onPath w0 p (eq (Some (rdata rd))) v) (onPath w0 p any v).
Proof.
  apply (path_store o v _ (λ _, eq (Some (rdata rd)))). intros x Hx.
  pose proof (write_reader_spec p rd x Hx Hp) as Hw.
  destruct (WriteFromReader p rd x) as [[[]|e] x']; naive_solver.
Qed.

Lemma path_remove o v :
  triple (onPath w0 p o v) (onStore (Remove p)) (λ _, onPath w0 p (eq None) v) (onPath w0 p any v).
Proof.
  apply (path_store o v _ (λ _, eq None)). intros x Hx.
  pose proof (remove_spec p x Hx Hp) as Hw. destruct (Remove p x) as [[[]|e] x']; naive_solver.
Qed.

(** A query or statement on the metadata of [p]. *)
Lemma path_db {A} o v (m : M (DB T * Sys) A) (v' : A → option FileMetadata → Prop) :
  (∀ x, dbOk x.1 → v (fview x.1 p) →
     let '(r, x') := m x in
     dbFrame (eq p) x x' ∧ ∀ a, r = Ok a → v' a (fview x'.1 p)) →
  triple (onPath w0 p o v) (onDB m) (λ a, onPath w0 p o (v' a)) (onPath w0 p o any).
Proof.
  intros Hm w ([Hi Hd] & Hoth & Ho & Hv). unfold onDB. specialize (Hm (db w, sys w) Hd Hv).
  destruct (m (db w, sys w)) as [r [d s]]. destruct Hm as [Hf Hr].
  destruct (Hf Hd) as (Hd' & Hos & Hq). simpl in *.
  assert (others (eq p) w0 (MkWorld s (store w) d (dlock w) (sess w) (svc w))) as Hoth'.
  { intros q Hsq Hne. simpl. rewrite Hos, Hq by done. by apply Hoth. }
  destruct r as [a|e]; split_and!; simpl; rewrite ?Hos; try done. by apply Hr.
Qed.

Lemma dbFrame_weaken (P Q : string → Prop) (x x' : DB T * Sys) :
  (∀ q, P q → Q q) → dbFrame P x x' → dbFrame Q x x'.
Proof. intros HPQ Hf Hok. destruct (Hf Hok) as (? & ? & Hv). split_and!; auto. Qed.

Lemma path_create o v m :
  fPath m = p → fIsDeleted m = false →
  triple (onPath w0 p o v) (onDB (FileCreate m)) (λ _, onPath w0 p o (eq (Some m))) (onPath w0 p o any).
Proof.
  intros Hm Hd. apply (path_db o v _ (λ _, eq (Some m))). intros x Hok _.
  pose proof (file_create_spec m x Hok Hd) as Hc. rewrite Hm, (safe_normal p Hp) in Hc.
  destruct (FileCreate m x) as [r x']. destruct Hc as (Hf & Hv & _). split.
  - eapply dbFrame_weaken; [|exact Hf]. by intros q ->.
  - intros [] ->. rewrite Hv by done. f_equal. destruct m; simpl in *. subst.
    unfold createdFile. simpl. by rewrite (safe_normal _ Hp).
Qed.

Lemma path_update o r0 m :
  fPath r0 = p → fPath m = p → fID r0 = fID m → fIsDeleted m = false → fCreatedAt m = fCreatedAt r0 →
  triple (onPath w0 p o (eq (Some r0))) (onDB (FileUpdate m))
    (λ _, onPath w0 p o (eq (Some m))) (onPath w0 p o any).
Proof.
  intros Hr0 Hm Hid Hd Hc. apply (path_db o _ _ (λ _, eq (Some m))). intros x Hok Hv.
  rewrite <-Hr0 in Hv. pose proof (file_update_spec m r0 x Hok (eq_sym Hv) Hid) as Hu.
  destruct (FileUpdate m x) as [r x']. destruct Hu as [Hf Hu]. split.
  - eapply dbFrame_weaken; [|exact Hf]. intros q [->| ->]; congruence.
  - intros [] ->. destruct Hu as [[_ ?]|[Hu _]]; [done|]. rewrite <-Hm, (Hu Hd), <-Hc.
    by destruct m.
Qed.

Lemma path_delete o r0 now :
  fPath r0 = p →
  triple (onPath w0 p o (eq (Some r0))) (onDB (FileRemove now (fID r0)))
    (λ _, onPath w0 p o (eq None)) (onPath w0 p o any).
Proof.
  intros Hr0. apply (path_db o _ _ (λ _, eq None)). intros x Hok Hv. rewrite <-Hr0 in Hv.
  pose proof (file_remove_spec now r0 x Hok (eq_sym Hv)) as Hu.
  destruct (FileRemove now (fID r0) x) as [r x']. destruct Hu as [Hf Hu]. split.
  - eapply dbFrame_weaken; [|exact Hf]. intros q ->. done.
  - intros [] ->. destruct Hu as [[_ ?]|Hu]; [done|]. by rewrite <-Hr0, Hu.
Qed.

(** A query changes nothing. *)
Lemma path_query {A} o v (m : M (DB T * Sys) A) (R : A → option FileMetadata → Prop) :
  (∀ x, let '(r, x') := m x in
     dbFrame (λ _, False) x x' ∧ ∀ a, r = Ok a → R a (fview x.1 p)) →
  triple (onPath w0 p o v) (onDB m) (λ a, onPath w0 p o (λ x, v x ∧ R a x)) (onPath w0 p o v).
Proof.
  intros Hm w ([Hi Hd] & Hoth & Ho & Hv). unfold onDB. specialize (Hm (db w, sys w)).
  destruct (m (db w, sys w)) as [r [d s]]. destruct Hm as [Hf Hr].
  destruct (Hf Hd) as (Hd' & Hos & Hq). simpl in *.
  assert (fview d p = fview (db w) p) as Hsame by (apply Hq; tauto).
  assert (others (eq p) w0 (MkWorld s (store w) d (dlock w) (sess w) (svc w))) as Hoth'.
  { intros q Hsq Hne. simpl. rewrite Hos, Hq by tauto. by apply Hoth. }
  destruct r as [a|e]; split_and!; simpl; rewrite ?Hos, ?Hsame; try done. by apply Hr.
Qed.

Lemma path_get o v :
  triple (onPath w0 p o v) (onDB (FileGetByPath p)) (λ a, onPath w0 p o (λ x, v x ∧ a = x))
    (onPath w0 p o v).
Proof.
  apply (path_query o v _ (λ a x, a = x)). intros x. pose proof (file_get_spec p x) as Hg.
  rewrite (safe_normal p Hp) in Hg. by destruct (FileGetByPath p x).
Qed.

(** The calls of an operation that go through. *)
Lemma path_exists o v E :
  triple (onPath w0 p o v) (FExists p) (λ _, onPath w0 p o v) E.
Proof.
  unfold FExists. rewrite (safe_normal p Hp).
  eapply (triple_bind _ _ (λ _, onPath w0 p o v)).
  - apply triple_catch. eapply triple_conseq; [apply (path_query o v _ (λ _ _, True))|done| |done].
    + intros x. pose proof (file_exists_spec p x) as Hg. destruct (FileExists p x).
      split; [apply Hg|done].
    + intros ? w. apply onPath_weaken; naive_solver.
  - intros r w Hw. exact Hw.
Qed.

Lemma path_existing o v E :
  triple (onPath w0 p o v) (existingMeta p)
    (λ a, onPath w0 p o (λ x, v x ∧ (∀ m, a = Some m → x = Some m))) E.
Proof.
  unfold existingMeta. eapply triple_bind; [apply (path_exists o v)|]. intros [|]; simpl.
  - intros w Hw. unfold mbind, M_bind, catch. pose proof (path_get o v w Hw) as Hg.
    destruct (onDB (FileGetByPath p) w) as [[a|e] w']; simpl; eapply onPath_weaken; try exact Hg; naive_solver.
  - intros w Hw. simpl. eapply onPath_weaken; [done| |exact Hw]. naive_solver.
Qed.

Lemma path_meta o v :
  triple (onPath w0 p o v) (GetFileMetadata p) (λ m, onPath w0 p o (λ x, v x ∧ x = Some m))
    (onPath w0 p o v).
Proof.
  unfold GetFileMetadata. rewrite (safe_normal p Hp).
  eapply triple_bind; [apply triple_wrapErr, path_get|]. intros [m|].
  - intros w Hw. simpl. eapply onPath_weaken; [done| |exact Hw]. naive_solver.
  - intros w Hw. simpl. eapply onPath_weaken; [done| |exact Hw]. naive_solver.
Qed.

Lemma fview_path (w : World) m : dbOk (db w) → fview (db w) p = Some m → fPath m = p ∧ fIsDeleted m = false.
Proof. intros Hok Hv. by apply fileAtPath_spec in Hv as (_ & ? & ?). Qed.

(** What is known of an upload that succeeded. *)
Definition uploaded (data : bytes) (m : FileMetadata) (w : World) : Prop :=
  onPath w0 p (eq (Some data)) (eq (Some m)) w ∧
  fPath m = p ∧ fSize m = blen data ∧ fHash m = hashOf sha256 data.

Ltac forget := intros ?; apply onPath_weaken; intros *; done.

Lemma overwrite_spec o data r0 :
  fPath r0 = p →
  triple (onPath w0 p o (eq (Some r0))) (overwrite sha256 p data r0) (uploaded data)
    (onPath w0 p any any).
Proof.
  intros Hr0. unfold overwrite.
  eapply triple_seq; [apply triple_wrapErr, path_write|forget|intros ?].
  eapply triple_seq; [apply path_calm, calm_nowString|forget|intros now]. cbv zeta.
  set (m := MkFile _ _ _ _ _ _ _ _ _ _).
  eapply triple_seq; [by apply triple_wrapErr, (path_update _ r0 m)|forget|].
  intros ? w Hw. by split.
Qed.

Lemma writeNew_spec o v data :
  triple (onPath w0 p o v) (writeNew sha256 uuid p data) (uploaded data) (onPath w0 p any any).
Proof.
  unfold writeNew.
  eapply triple_seq; [apply triple_wrapErr, path_write|forget|intros ?].
  eapply triple_seq; [apply path_calm, calm_nowString|forget|intros now].
  eapply triple_seq; [apply path_calm, calm_uuid|forget|intros id]. cbv zeta.
  set (m := MkFile _ _ _ _ _ _ _ _ _ _).
  eapply (triple_bind _ _ (λ _, onPath w0 p (eq (Some data)) (eq (Some m)))).
  { apply triple_wrapErr. eapply triple_onError; [by apply (path_create _ _ m)|].
    apply triple_ignore. eapply triple_conseq; [apply path_remove|done|intros ?|]; forget. }
  intros ? w Hw. by split.
Qed.

Lemma uploadBody_spec data :
  triple (onPath w0 p any any) (uploadBody sha256 uuid p data) (uploaded data) (onPath w0 p any any).
Proof.
  unfold uploadBody. eapply triple_bind; [apply path_existing|]. intros [m|].
  - intros w Hw. pose proof Hw as ([_ Hok] & _ & _ & _ & Hv).
    destruct (fview_path w m Hok (Hv m eq_refl)) as [Hpm _].
    apply (overwrite_spec any data m Hpm). eapply onPath_weaken; [done| |exact Hw].
    intros x [_ Hx]. symmetry. by apply Hx.
  - apply writeNew_spec.
Qed.

Lemma deleteBody_spec :
  triple (onPath w0 p any any) (deleteBody p) (λ _, onPath w0 p (eq None) (eq None))
    (onPath w0 p any any).
Proof.
  unfold deleteBody. eapply triple_bind; [apply path_meta|]. intros m w Hw.
  pose proof Hw as ([_ Hok] & _ & _ & _ & Hv). destruct (fview_path w m Hok Hv) as [Hpm _].
  assert (onPath w0 p any (eq (Some m)) w) as Hw'
    by (eapply onPath_weaken; [done| |exact Hw]; naive_solver).
  revert w Hw' Hw Hok Hv. intros w Hw' _ _ _. revert w Hw'.
  change (triple (onPath w0 p any (eq (Some m)))
    (wrapErr "failed to delete file from storage" (onStore (Remove p)) ⨟
     now ← nowString;
     wrapErr "failed to delete file metadata" (onDB (FileRemove now (fID m))))
    (λ _, onPath w0 p (eq None) (eq None)) (onPath w0 p any any)).
  eapply triple_seq; [apply triple_wrapErr, path_remove|forget|intros ?].
  eapply triple_seq; [apply path_calm, calm_nowString|forget|intros now].
  apply triple_wrapErr. eapply triple_conseq; [by apply path_delete|done|done|forget].
Qed.

(** A storage operation that only reads. *)
Lemma path_read {A} o v (m : M (Sg * Sys) A) (R : A → option bytes → Prop) :
  (∀ x, storeInv x.1 →
     let '(r, x') := m x in
     frame storeInv object outside none none x x' ∧
     ∀ a, r = Ok a → R a (object x.1 (os x.2) p)) →
  triple (onPath w0 p o v) (onStore m) (λ a, onPath w0 p (λ x, o x ∧ R a x) v) (onPath w0 p o v).
Proof.
  intros Hm w ([Hi Hd] & Hoth & Ho & Hv). unfold onStore. specialize (Hm (store w, sys w) Hi).
  destruct (m (store w, sys w)) as [r [g s]]. destruct Hm as [(Hi' & _ & Hob & _) Hr]. simpl in *.
  assert (others (eq p) w0 (MkWorld s g (db w) (dlock w) (sess w) (svc w))) as Hoth'.
  { intros q Hq Hne. simpl. rewrite Hob by done. by apply Hoth. }
  destruct r as [a|e]; split_and!; simpl; rewrite ?Hob by done; try done. by apply Hr.
Qed.

Lemma path_size d v :
  triple (onPath w0 p (eq (Some d)) v) (onStore (GetSize p))
    (λ n, onPath w0 p (λ x, Some d = x ∧ n = blen d) v) (onPath w0 p (eq (Some d)) v).
Proof.
  eapply triple_conseq; [apply (path_read (eq (Some d)) v (GetSize p)
    (λ n x, ∀ d, x = Some d → n = blen d))|done| |done].
  - intros x Hx. pose proof (size_spec p x Hx Hp) as Hs. destruct (GetSize p x) as [r x'].
    split; [apply Hs|]. intros n Hn d' Hd'. by eapply Hs.
  - intros n w. apply onPath_weaken; [|done]. intros x [<- Hx]. split; [done|]. by apply Hx.
Qed.

Lemma recordFile_path o name size h (c1 c2 : M World unit) :
  triple (onPath w0 p any any) c1 (λ _, onPath w0 p any any) (onPath w0 p any any) →
  triple (onPath w0 p any any) c2 (λ _, onPath w0 p any any) (onPath w0 p any any) →
  triple (onPath w0 p o any) (recordFile uuid p name size h c1 c2)
    (λ m w, onPath w0 p o (eq (Some m)) w ∧ fPath m = p ∧ fSize m = size ∧ fHash m = h)
    (onPath w0 p any any).
Proof.
  intros Hc1 Hc2. unfold recordFile. eapply triple_seq; [apply path_calm, calm_nowString|forget|intros now].
  eapply (triple_bind _ _ (λ r, onPath w0 p o (λ x, ∀ m, r = Ok (Some m) → x = Some m))).
  { intros w Hw. unfold catch. pose proof (path_get o any w Hw) as Hg.
    destruct (onDB (FileGetByPath p) w) as [[a|e] w']; simpl; eapply onPath_weaken;
      try exact Hg; naive_solver. }
  assert (∀ v m, fPath m = p → fIsDeleted m = false →
    triple (onPath w0 p o v)
      (wrapErr "failed to create file metadata" (onError (onDB (FileCreate m))
         (ignore (onStore (Remove p)) ⨟ c2)) ⨟ mret m)
      (λ m' w, onPath w0 p o (eq (Some m)) w ∧ m' = m) (onPath w0 p any any)) as Hcreate.
  { intros v m Hm Hd. eapply (triple_bind _ _ (λ _, onPath w0 p o (eq (Some m)))).
    - apply triple_wrapErr. eapply triple_onError; [by apply path_create|].
      eapply (triple_bind _ _ (λ _, onPath w0 p any any)); [|intros ?; exact Hc2].
      apply triple_ignore. eapply triple_conseq; [apply path_remove|done|intros ?|]; forget.
    - intros ? w Hw. by split. }
  intros [[r0|]|e].
  - intros w Hw. pose proof Hw as ([_ Hok] & _ & _ & Hv). specialize (Hv r0 eq_refl).
    destruct (fview_path w r0 Hok Hv) as [Hpm _].
    assert (onPath w0 p o (eq (Some r0)) w) as Hw'
      by (eapply onPath_weaken; [done| |exact Hw]; naive_solver).
    cbv zeta. set (m := MkFile _ _ _ _ _ _ _ _ _ _).
    apply (triple_bind (onPath w0 p o (eq (Some r0))) _ (λ _, onPath w0 p o (eq (Some m)))); [| |done].
    + apply triple_wrapErr. eapply triple_onError; [by apply (path_update o r0 m)|].
      eapply triple_conseq; [exact Hc1| |done|done]. forget.
    + intros ? w2 Hw2. by split.
  - eapply triple_seq; [apply path_calm, calm_uuid|forget|intros id]. cbv zeta.
    eapply triple_conseq; [by apply Hcreate|done| |done]. by intros m w [? ->].
  - eapply triple_seq; [apply path_calm, calm_uuid|forget|intros id]. cbv zeta.
    eapply triple_conseq; [by apply Hcreate|done| |done]. by intros m w [? ->].
Qed.

(** The size recorded by a streaming upload is 0 when it could not be read back. *)
Lemma uploadReaderBody_spec rd :
  triple (onPath w0 p any any) (uploadReaderBody sha256 uuid p rd)
    (λ m w, onPath w0 p (eq (Some (rdata rd))) (eq (Some m)) w ∧ fPath m = p ∧
       (fSize m = blen (rdata rd) ∨ fSize m = 0%Z) ∧ fHash m = hashOf sha256 (rdata rd))
    (onPath w0 p any any).
Proof.
  unfold uploadReaderBody.
  eapply triple_seq; [apply triple_wrapErr, path_writeReader|forget|intros ?].
  eapply (triple_bind _ _ (λ r w, onPath w0 p (eq (Some (rdata rd))) any w ∧
    ∀ n, r = Ok n → n = blen (rdata rd))).
  { intros w Hw. unfold catch. pose proof (path_size (rdata rd) any w Hw) as Hg.
    destruct (onStore (GetSize p) w) as [[n|e] w']; simpl.
    - split; [eapply onPath_weaken; [| |exact Hg]; naive_solver|].
      intros n' [= <-]. by destruct Hg as (_ & _ & [_ ?] & _).
    - by split. }
  intros r w [Hw Hr]. cbv zeta.
  pose proof (recordFile_path (eq (Some (rdata rd))) (GetFileName p)
    match r with Ok n => n | Err _ => 0%Z end (hashOf sha256 (rdata rd))
    (mret tt) (mret tt) (λ w Hw, Hw) (λ w Hw, Hw) w Hw) as Hrec.
  destruct (recordFile _ _ _ _ _ _ _ w) as [[m|e] w']; [|done].
  destruct Hrec as (Hon & Hpm & Hsz & Hh). split_and!; [done..| |done]. destruct r; naive_solver.
Qed.

End onpath.

(** ** Renaming *)

Section rename.
Context {Sg L St : Type} {T : Type → Type}.
Context `{StorageLaws Sg} `{DistributedLock L} `{SqlLaws T}.
Notation World := (World Sg L St T).
Context (w0 : World) (p q : string) (Hp : safe p) (Hq : safe q) (Hpq : p ≠ q).

Definition either (k : string) : Prop := k = p ∨ k = q.

(** Since [w0] only [p] and [q] were touched; [F] relates what they hold. *)
Definition onBoth (o : option bytes → option bytes → Prop)
    (v : option FileMetadata → option FileMetadata → Prop) (w : World) : Prop :=
  sound w ∧ others either w0 w ∧
  o (object (store w) (os (sys w)) p) (object (store w) (os (sys w)) q) ∧
  v (fview (db w) p) (fview (db w) q).

(** The bytes [d] are under one of the two paths. *)
Definition notLost (d : bytes) (a b : option bytes) : Prop := a = Some d ∨ b = Some d.

Lemma onBoth_weaken (o o' : option bytes → option bytes → Prop)
    (v v' : option FileMetadata → option FileMetadata → Prop) w :
  (∀ x y, o x y → o' x y) → (∀ x y, v x y → v' x y) → onBoth o v w → onBoth o' v' w.
Proof. intros Ho Hv (? & ? & ? & ?). split_and!; auto. Qed.

Lemma onBoth_calm o v w w' : calm none w w' → onBoth o v w → onBoth o v w'.
Proof.
  intros [(Hst & Hdb & _ & _ & Hf) _] ([Hi Hd] & Hoth & Ho & Hv).
  assert (∀ k, safe k → object (store w') (os (sys w')) k = object (store w) (os (sys w)) k) as Hob.
  { intros k Hk. rewrite Hst. apply object_local; [done..|]. intros r _. by apply Hf. }
  split; [by split; rewrite ?Hst, ?Hdb|]. split; [|rewrite !Hob, Hdb by done; done].
  intros k Hk Hne. rewrite Hob, Hdb by done. by apply Hoth.
Qed.

Lemma both_calm {A} o v (m : M World A) :
  steps (calm none) m → triple (onBoth o v) m (λ _, onBoth o v) (onBoth o v).
Proof. intros Hm. eapply triple_steps; [done|]. intros. by eapply onBoth_calm. Qed.

Lemma both_query {A} o v (m : M (DB T * Sys) A) (R : A → DB T → Prop) :
  (∀ x, let '(r, x') := m x in
     dbFrame (λ _, False) x x' ∧ ∀ a, r = Ok a → R a x.1) →
  triple (onBoth o v) (onDB m) (λ a w, onBoth o v w ∧ ∃ d, R a d ∧ ∀ k, fview d k = fview (db w) k)
    (onBoth o v).
Proof.
  intros Hm w ([Hi Hd] & Hoth & Ho & Hv). unfold onDB. specialize (Hm (db w, sys w)).
  destruct (m (db w, sys w)) as [r [d s]]. destruct Hm as [Hf Hr].
  destruct (Hf Hd) as (Hd' & Hos & Hk). simpl in *.
  assert (∀ k, fview d k = fview (db w) k) as Hsame by (intros k; apply Hk; tauto).
  assert (onBoth o v (MkWorld s (store w) d (dlock w) (sess w) (svc w))) as Hb.
  { split; [done|]. split; [|simpl; rewrite Hos, !Hsame; done].
    intros k Hsk Hne. simpl. rewrite Hos, Hsame. by apply Hoth. }
  destruct r as [a|e]; [|done]. split; [done|]. exists (db w). split; [by apply Hr|done].
Qed.

Lemma both_rename d (a b : string) v :
  (a = p ∧ b = q) ∨ (a = q ∧ b = p) →
  triple (λ w, onBoth (notLost d) v w ∧ object (store w) (os (sys w)) a = Some d)
    (onStore (Rename a b))
    (λ _ w, onBoth (notLost d) v w ∧ object (store w) (os (sys w)) b = Some d ∧
       object (store w) (os (sys w)) a = None)
    (onBoth (notLost d) v).
Proof.
  intros Hab w [([Hi Hd] & Hoth & Ho & Hv) Ha]. unfold onStore.
  assert (safe a ∧ safe b ∧ a ≠ b) as (Hsa & Hsb & Hne) by naive_solver.
  pose proof (rename_spec a b d (store w, sys w) Hi Hsa Hsb Hne Ha) as Hr.
  destruct (Rename a b (store w, sys w)) as [r [g s]]. destruct Hr as ((Hi' & _ & Hob & _) & Hok & Hor).
  simpl in *.
  assert (onBoth (notLost d) v (MkWorld s g (db w) (dlock w) (sess w) (svc w))) as Hb.
  { split; [done|]. split; [|split; [|done]].
    - intros k Hk Hn. simpl. rewrite Hob; [by apply Hoth|done|]. unfold either in Hn. naive_solver.
    - unfold notLost. simpl. naive_solver. }
  destruct r as [[]|e]; [|done]. destruct (Hok eq_refl). by split_and!.
Qed.

Lemma both_update r0 m o :
  fPath r0 = p → fPath m = q → fID r0 = fID m → fIsDeleted m = false → fCreatedAt m = fCreatedAt r0 →
  triple (onBoth o (λ a _, a = Some r0)) (onDB (FileUpdate m))
    (λ _, onBoth o (λ a b, a = None ∧ b = Some m)) (onBoth o (λ _ _, True)).
Proof.
  intros Hr0 Hm Hid Hdel Hc w ([Hi Hd] & Hoth & Ho & Hv). unfold onDB.
  rewrite <-Hr0 in Hv. pose proof (file_update_spec m r0 (db w, sys w) Hd Hv Hid) as Hu.
  destruct (FileUpdate m (db w, sys w)) as [r [d s]]. destruct Hu as [Hf Hu].
  destruct (Hf Hd) as (Hd' & Hos & Hk). simpl in *.
  assert (others either w0 (MkWorld s (store w) d (dlock w) (sess w) (svc w))) as Hoth'.
  { intros k Hsk Hn. simpl. rewrite Hos, Hk; [by apply Hoth|]. unfold either in Hn. naive_solver. }
  destruct r as [[]|e]; split_and!; simpl; rewrite ?Hos; try done.
  - destruct Hu as [[_ ?]|[_ Hu]]; [done|]. rewrite <-Hr0. apply Hu. left. congruence.
  - destruct Hu as [[_ ?]|[Hu _]]; [done|]. rewrite <-Hm, Hu, <-Hc by done. by destruct m.
Qed.

(** The metadata of the renamed file. *)
Definition renamed (newName : string) (m m' : FileMetadata) : Prop :=
  fID m' = fID m ∧ fPath m' = q ∧ fName m' = newName ∧ fSize m' = fSize m ∧ fHash m' = fHash m ∧
  fCreatedAt m' = fCreatedAt m.

Lemma renameTail_spec d r0 m :
  fPath r0 = p → fPath m = q → fID r0 = fID m → fIsDeleted m = false → fCreatedAt m = fCreatedAt r0 →
  triple (λ w, onBoth (notLost d) (λ a _, a = Some r0) w ∧
      object (store w) (os (sys w)) q = Some d ∧ object (store w) (os (sys w)) p = None)
    (wrapErr "failed to update file metadata"
       (onError (onDB (FileUpdate m)) (ignore (onStore (Rename q p)))))
    (λ _, onBoth (λ a b, a = None ∧ b = Some d) (λ a b, a = None ∧ b = Some m))
    (onBoth (notLost d) (λ _ _, True)).
Proof.
  intros Hr0 Hm Hid Hdel Hcr. apply triple_wrapErr.
  eapply (triple_onError _ _ _ _ (λ w, onBoth (notLost d) (λ _ _, True) w ∧
    object (store w) (os (sys w)) q = Some d)).
  - intros w [Hb [Hoq Hop]].
    assert (onBoth (λ a b, a = None ∧ b = Some d) (λ a _, a = Some r0) w) as Hb'.
    { destruct Hb as (? & ? & _ & ?). by split_and!. }
    pose proof (both_update r0 m _ Hr0 Hm Hid Hdel Hcr w Hb') as Hu.
    destruct (onDB (FileUpdate m) w) as [[[]|e] w']; [done|].
    split; [eapply onBoth_weaken; [| |exact Hu]; [|done]; intros x y [_ ->]; by right|].
    by destruct Hu as (_ & _ & [_ ?] & _).
  - apply triple_ignore.
    eapply triple_conseq; [apply (both_rename d q p (λ _ _, True)); by right|done|by intros ? w [? _]|done].
Qed.

Lemma both_meta d v0 :
  triple (λ w, onBoth (notLost d) (λ a _, a = v0) w ∧ object (store w) (os (sys w)) p = Some d)
    (GetFileMetadata p)
    (λ m w, (onBoth (notLost d) (λ a _, a = Some m) w ∧ object (store w) (os (sys w)) p = Some d) ∧
       v0 = Some m ∧ fPath m = p ∧ fIsDeleted m = false)
    (onBoth (notLost d) (λ _ _, True)).
Proof.
  intros w [Hb Ho]. unfold GetFileMetadata. rewrite (safe_normal p Hp).
  unfold mbind, M_bind, wrapErr.
  assert (onBoth (λ a b, notLost d a b ∧ a = Some d) (λ a _, a = v0) w) as Hb'.
  { destruct Hb as (? & ? & ? & ?). by split_and!. }
  pose proof (both_query _ _ (FileGetByPath p) (λ a db, a = fview db p)
    ltac:(intros x; pose proof (file_get_spec p x) as Hg; rewrite (safe_normal p Hp) in Hg;
          by destruct (FileGetByPath p x)) w Hb') as Hg.
  destruct (onDB (FileGetByPath p) w) as [[a|e] w']; simpl.
  2: { eapply onBoth_weaken; [| |exact Hg]; naive_solver. }
  destruct Hg as [Hb2 (db0 & -> & Hsame)]. rewrite Hsame.
  destruct (fview (db w') p) as [m|] eqn:Ev; simpl.
  - destruct Hb2 as (Hs & Hoth & [Hn Hd] & Hv). pose proof Hs as [_ Hok].
    destruct (fview_path p w' m Hok Ev). split_and!; [done..|congruence|done|done].
  - eapply onBoth_weaken; [| |exact Hb2]; naive_solver.
Qed.

Lemma both_exists o v k E : triple (onBoth o v) (FExists k) (λ _, onBoth o v) E.
Proof.
  unfold FExists. eapply (triple_bind _ _ (λ _, onBoth o v)); [|intros r w Hw; exact Hw].
  apply triple_catch. eapply triple_conseq; [apply (both_query o v _ (λ _ _, True))|done| |done].
  - intros x. pose proof (file_exists_spec (NormalizePath k) x) as Hg.
    destruct (FileExists (NormalizePath k) x). split; [apply Hg|done].
  - by intros ? w [? _].
Qed.

Lemma renameBody_spec d v0 newName :
  NormalizePath (GetDirectory p +:+ "/" +:+ newName) = q →
  triple (λ w, onBoth (notLost d) (λ a _, a = v0) w ∧ object (store w) (os (sys w)) p = Some d)
    (renameBody p newName)
    (λ _ w, ∃ m m', v0 = Some m ∧ renamed newName m m' ∧
       onBoth (λ a b, a = None ∧ b = Some d) (λ a b, a = None ∧ b = Some m') w)
    (onBoth (notLost d) (λ _ _, True)).
Proof.
  intros Hnew. unfold renameBody. eapply triple_bind; [apply both_meta|]. intros r0. rewrite Hnew.
  intros w [[Hb Ho] (Hv0 & Hr0 & Hdel)].
  assert (onBoth (λ a b, notLost d a b ∧ a = Some d) (λ a _, a = Some r0) w) as Hb'.
  { destruct Hb as (? & ? & ? & ?). by split_and!. }
  clear Hb Ho. revert w Hb'. cbv zeta.
  match goal with |- ∀ w, _ → match ?prog w with _ => _ end =>
    change (triple (onBoth (λ a b, notLost d a b ∧ a = Some d) (λ a _, a = Some r0)) prog
      (λ _ w, ∃ m m', v0 = Some m ∧ renamed newName m m' ∧
         onBoth (λ a b, a = None ∧ b = Some d) (λ a b, a = None ∧ b = Some m') w)
      (onBoth (notLost d) (λ _ _, True))) end.
  eapply triple_bind; [apply both_exists|intros ex].
  eapply triple_seq; [apply triple_guard|intros w; apply onBoth_weaken; naive_solver|intros ?].
  eapply (triple_seq _ _ (λ _ w, onBoth (notLost d) (λ a _, a = Some r0) w ∧
      object (store w) (os (sys w)) q = Some d ∧ object (store w) (os (sys w)) p = None)).
  { apply triple_wrapErr. eapply triple_conseq;
      [apply (both_rename d p q (λ a _, a = Some r0)); by left| |done|intros w Hw; exact Hw].
    intros w (Hs & Hoth & [Hn Ha] & Hv). by split_and!. }
  { intros w. apply onBoth_weaken; naive_solver. }
  intros ?. eapply (triple_seq _ _ (λ _ w, onBoth (notLost d) (λ a _, a = Some r0) w ∧
      object (store w) (os (sys w)) q = Some d ∧ object (store w) (os (sys w)) p = None)).
  { intros w (Hb & Hoq & Hop).
    assert (onBoth (λ a b, notLost d a b ∧ b = Some d ∧ a = None) (λ a _, a = Some r0) w) as Hb'.
    { destruct Hb as (? & ? & ? & ?). by split_and!. }
    pose proof (both_calm _ _ nowString (calm_nowString none) w Hb') as Hn.
    destruct (nowString w) as [[now|e] w'].
    - destruct Hn as (? & ? & (? & ? & ?) & ?). by split_and!.
    - exact Hn. }
  { intros w. apply onBoth_weaken; naive_solver. }
  intros now. eapply triple_conseq; [by apply (renameTail_spec d r0)|done| |done].
  intros ? w Hw. exists r0. eexists. split; [done|]. split; [|exact Hw]. by split_and!.
Qed.

End rename.

(** ** Under the lock *)

Section locked.
Context {Sg L St : Type} {T : Type → Type}.
Context `{StorageLaws Sg} `{DistributedLock L} `{SqlLaws T}.
Notation World := (World Sg L St T).

(** Taking and releasing the locks does not disturb what an operation
    establishes, when that is stable under [calm none]. *)
Lemma underLock_spec {A} path (m : M World A) (P : World → Prop) (Q : A → World → Prop)
    (E : World → Prop) fm w :
  triple P m Q E → P w → (∀ w, P w → E w) →
  (∀ w w', calm none w w' → P w → P w') → (∀ a w w', calm none w w' → Q a w → Q a w') →
  (∀ w w', calm none w w' → E w → E w') →
  match underLock path m (fm, w) with
  | (Ok a, (_, w')) => Q a w'
  | (Err _, (_, w')) => E w'
  end.
Proof.
  intros Hm HP HPE SP SQ SE. unfold underLock, mbind at 1, M_bind at 1. simpl.
  unfold mbind, M_bind.
  pose proof (steps_wrapErr _ "failed to acquire distributed lock" _
    (calm_acquire none ("file:" +:+ path) (10 * Second) 30 (50 * Millisecond)) w) as Ha.
  fold (distLockFile (Sg := Sg) (L := L) (St := St) (T := T) path) in Ha.
  destruct (distLockFile path w) as [[tok|e] w1]; simpl in *; [|by eapply SE, HPE].
  unfold deferring. pose proof (Hm w1 (SP _ _ Ha HP)) as Hb. destruct (m w1) as [r w2].
  pose proof (steps_ignore _ _ (calm_release none ("file:" +:+ path) tok) w2) as Hr.
  fold (distUnlockFile (Sg := Sg) (L := L) (St := St) (T := T) path tok) in Hr.
  destruct (distUnlockFile path tok w2) as [x w3]. simpl in *. destruct r; eauto.
Qed.

Lemma onPath_start (w : World) p : sound w → onPath w p any any w.
Proof. intros Hs. split_and!; [done| |done|done]. by intros q _ _. Qed.

End locked.

Section fm_properties.
Context {Sg L St : Type} {T : Type → Type}.
Context `{StorageLaws Sg} `{DistributedLock L} `{SqlLaws T}.
Context (sha256 : bytes → bytes) (uuid : nat → string).
Notation World := (World Sg L St T).

Lemma UploadFile_spec path data fm (w : World) :
  safe (NormalizePath path) → sound w →
  match UploadFile sha256 uuid path data (fm, w) with
  | (Ok m, (_, w')) => uploaded sha256 w (NormalizePath path) data m w'
  | (Err _, (_, w')) => onPath w (NormalizePath path) any any w'
  end.
Proof.
  intros Hp Hs. apply (underLock_spec _ _ (onPath w (NormalizePath path) any any));
    [by apply uploadBody_spec|by apply onPath_start|done|..]; intros *.
  - by apply onPath_calm.
  - intros Hc (? & ? & ? & ?). split; [by eapply onPath_calm|done].
  - by apply onPath_calm.
Qed.

Lemma DeleteFile_spec path fm (w : World) :
  safe (NormalizePath path) → sound w →
  match DeleteFile path (fm, w) with
  | (Ok _, (_, w')) => onPath w (NormalizePath path) (eq None) (eq None) w'
  | (Err _, (_, w')) => onPath w (NormalizePath path) any any w'
  end.
Proof.
  intros Hp Hs. apply (underLock_spec _ _ (onPath w (NormalizePath path) any any)
    (λ _ : unit, onPath w (NormalizePath path) (eq None) (eq None)));
    [by apply deleteBody_spec|by apply onPath_start|done|..]; intros; by eapply onPath_calm.
Qed.

Lemma UploadFileFromReader_spec path rd fm (w : World) :
  safe (NormalizePath path) → sound w →
  match UploadFileFromReader sha256 uuid path rd (fm, w) with
  | (Ok m, (_, w')) =>
      onPath w (NormalizePath path) (eq (Some (rdata rd))) (eq (Some m)) w' ∧
      fPath m = NormalizePath path ∧ (fSize m = blen (rdata rd) ∨ fSize m = 0%Z) ∧
      fHash m = hashOf sha256 (rdata rd)
  | (Err _, (_, w')) => onPath w (NormalizePath path) any any w'
  end.
Proof.
  intros Hp Hs. apply (underLock_spec _ _ (onPath w (NormalizePath path) any any)
    (λ m w', onPath w (NormalizePath path) (eq (Some (rdata rd))) (eq (Some m)) w' ∧
      fPath m = NormalizePath path ∧ (fSize m = blen (rdata rd) ∨ fSize m = 0%Z) ∧
      fHash m = hashOf sha256 (rdata rd)));
    [by apply uploadReaderBody_spec|by apply onPath_start|done|..]; intros *.
  - by apply onPath_calm.
  - intros Hc (? & ? & ? & ?). split; [by eapply onPath_calm|done].
  - by apply onPath_calm.
Qed.

(** Reading a file whose object is [d]. *)
Lemma DownloadFile_spec (w0 : World) p d v :
  safe p →
  triple (onPath w0 p (eq (Some d)) v) (DownloadFile p) (λ x w, x = d ∧ onPath w0 p (eq (Some d)) v w)
    (onPath w0 p (eq (Some d)) v).
Proof.
  intros Hp. unfold DownloadFile. rewrite (safe_normal p Hp).
  eapply (triple_bind _ _ (λ _, onPath w0 p (eq (Some d)) v)).
  { eapply triple_conseq; [by apply path_meta|done| |done].
    intros m w. apply onPath_weaken; naive_solver. }
  intros ?. apply triple_wrapErr. eapply triple_conseq;
    [apply (path_read w0 p Hp (eq (Some d)) v (Read p) (λ x y, y = Some x))|done| |done].
  - intros x Hx. pose proof (read_spec p x Hx Hp) as Hr. destruct (Read p x). naive_solver.
  - intros x w Hw. pose proof Hw as (_ & _ & [Hd Hx] & _). split; [congruence|].
    eapply onPath_weaken; [| |exact Hw]; naive_solver.
Qed.

Lemma DownloadFileAt_spec (w0 : World) p d v n off :
  safe p → in64 n → in64 off →
  triple (onPath w0 p (eq (Some d)) v) (DownloadFileAt p n off)
    (λ x w, x = readAt d (Z.to_nat off) (Z.to_nat n) ∧ onPath w0 p (eq (Some d)) v w)
    (onPath w0 p (eq (Some d)) v).
Proof.
  intros Hp Hn Ho. unfold DownloadFileAt. rewrite (safe_normal p Hp).
  eapply (triple_bind _ _ (λ _, onPath w0 p (eq (Some d)) v)).
  { eapply triple_conseq; [by apply path_meta|done| |done].
    intros m w. apply onPath_weaken; naive_solver. }
  intros ?. apply triple_wrapErr. eapply triple_conseq;
    [apply (path_read w0 p Hp (eq (Some d)) v (ReadAt p n off)
       (λ x y, ∃ d, y = Some d ∧ x = readAt d (Z.to_nat off) (Z.to_nat n)))|done| |done].
  - intros x Hx. pose proof (read_at_spec p n off x Hx Hp Hn Ho) as Hr.
    destruct (ReadAt p n off x). naive_solver.
  - intros x w Hw. pose proof Hw as (_ & _ & [Hd (d' & Hd' & Hx)] & _). split; [congruence|].
    eapply onPath_weaken; [| |exact Hw]; naive_solver.
Qed.

(** Metadata and storage agree. *)
Definition coherent (w : World) : Prop :=
  ∀ q m, safe q → fview (db w) q = Some m →
  ∃ d, object (store w) (os (sys w)) q = Some d ∧ fSize m = blen d ∧ fHash m = hashOf sha256 d.

Lemma coherent_onPath w0 w p o v :
  coherent w0 → onPath w0 p o v w →
  (∀ m, fview (db w) p = Some m →
     ∃ d, object (store w) (os (sys w)) p = Some d ∧ fSize m = blen d ∧ fHash m = hashOf sha256 d) →
  coherent w.
Proof.
  intros Hc (_ & Hoth & _ & _) Hp q m Hq Hv. destruct (decide (p = q)) as [<-|Hne]; [by apply Hp|].
  destruct (Hoth q Hq Hne) as [Ho Hf]. rewrite Hf in Hv. rewrite Ho. by apply Hc.
Qed.

Lemma RenameFile_spec path newName d fm (w : World) :
  let p := NormalizePath path in
  let q := NormalizePath (GetDirectory p +:+ "/" +:+ newName) in
  safe p → safe q → p ≠ q → sound w → object (store w) (os (sys w)) p = Some d →
  match RenameFile path newName (fm, w) with
  | (Ok _, (_, w')) => ∃ m m', fview (db w) p = Some m ∧ renamed q newName m m' ∧
      onBoth w p q (λ a b, a = None ∧ b = Some d) (λ a b, a = None ∧ b = Some m') w'
  | (Err _, (_, w')) => onBoth w p q (notLost d) (λ _ _, True) w'
  end.
Proof.
  intros p q Hp Hq Hne Hs Hd.
  assert (∀ o v w1 w2, calm none w1 w2 → onBoth w p q o v w1 → onBoth w p q o v w2) as Hstable
    by (intros *; by apply onBoth_calm).
  apply (underLock_spec _ _ (λ w1, onBoth w p q (notLost d) (λ a _, a = fview (db w) p) w1 ∧
      object (store w1) (os (sys w1)) p = Some d)
    (λ _ w1, ∃ m m', fview (db w) p = Some m ∧ renamed q newName m m' ∧
       onBoth w p q (λ a b, a = None ∧ b = Some d) (λ a b, a = None ∧ b = Some m') w1)).
  - by apply renameBody_spec.
  - split; [|done]. split_and!; [done| |by left|done]. by intros k _ _.
  - intros w1 [Hb _]. eapply onBoth_weaken; [| |exact Hb]; naive_solver.
  - intros w1 w2 Hc [Hb Ho].
    destruct (Hstable (λ a b, notLost d a b ∧ a = Some d) (λ a _, a = fview (db w) p) w1 w2 Hc)
      as (? & ? & [? ?] & ?); [|by split].
    destruct Hb as (? & ? & ? & ?). by split_and!.
  - intros ? w1 w2 Hc (m & m' & Hv & Hm & Hb). exists m, m'. split; [done|]. split; [done|].
    by eapply Hstable.
  - intros w1 w2. apply Hstable.
Qed.

(** A path with metadata is refused as a target, if no call fails. *)
Notation faultless w := (∀ n, net (oracle (sys w) n) = NoFault).

Lemma calm_query n (w : World) :
  calm none w (MkWorld (skip n (sys w)) (store w) (setFiles (files (db w)) (db w)) (dlock w) (sess w) (svc w)).
Proof. destruct w as [s g d l v x], d. by repeat split. Qed.

Lemma FExists_live k m (w : World) :
  faultless w → safe k → fview (db w) k = Some m → ∃ w', FExists k w = (Ok true, w') ∧ calm none w w'.
Proof.
  intros Hn Hk Hv. unfold FExists, catch, onDB, mbind, M_bind.
  pose proof (file_exists_spec (NormalizePath k) (db w, sys w)) as Hx.
  unfold FileExists, wrapErr, onFiles, dbCall, faulty, mbind, M_bind in *. rewrite Hn in *. cbn in *.
  destruct Hx as [_ Hx]. rewrite (Hx _ eq_refl), !(safe_normal k Hk), Hv. eexists. split; [done|].
  apply (calm_query 1).
Qed.

Lemma renameBody_refused p newName (w : World) q m :
  NormalizePath (GetDirectory p +:+ "/" +:+ newName) = q →
  faultless w → safe q → fview (db w) q = Some m →
  ∃ e w', renameBody p newName w = (Err e, w') ∧ calm none w w'.
Proof.
  intros Hq Hn Hs Hv. unfold renameBody, mbind at 1, M_bind at 1.
  assert (calm none w (GetFileMetadata p w).2) as Hc.
  { unfold GetFileMetadata, FileGetByPath, scanFileMetadata, wrapErr, onDB, onFiles, dbCall, faulty, mbind, M_bind.
    cbn. rewrite Hn. cbn. destruct (head _); exact (calm_query 1 w). }
  destruct (GetFileMetadata p w) as [[mp|e] w1]; [|by exists e, w1].
  pose proof Hc as [(_ & Hd & [_ Ho] & _) _]. simpl in Hd, Ho. rewrite Hq. unfold mbind at 1, M_bind at 1.
  destruct (FExists_live q m w1) as (w2 & -> & Hc2); [by rewrite Ho|done|by rewrite Hd|].
  exists (ErrMsg "target path already exists"), w2. split; [done|]. simpl in Hc. by etrans.
Qed.

Lemma RenameFile_refused path newName fm (w : World) m :
  let p := NormalizePath path in
  let q := NormalizePath (GetDirectory p +:+ "/" +:+ newName) in
  faultless w → safe q → fview (db w) q = Some m →
  ∃ e fm' w', RenameFile path newName (fm, w) = (Err e, (fm', w')) ∧ calm none w w'.
Proof.
  intros p q Hn Hs Hv. unfold RenameFile, underLock, mbind at 1, M_bind at 1. simpl. unfold mbind, M_bind.
  pose proof (steps_wrapErr _ "failed to acquire distributed lock" _
    (calm_acquire none ("file:" +:+ p) (10 * Second) 30 (50 * Millisecond)) w) as Hc.
  fold (distLockFile (Sg := Sg) (L := L) (St := St) (T := T) p) in Hc. fold p.
  destruct (distLockFile p w) as [[tok|e] w1]; [|by eexists e, _, w1]. simpl in *. unfold deferring.
  pose proof Hc as [(_ & Hd & [_ Ho] & _) _].
  destruct (renameBody_refused p newName w1 q m) as (e & w2 & -> & Hc2); [done|by rewrite Ho|done|by rewrite Hd|].
  pose proof (steps_ignore _ _ (calm_release none ("file:" +:+ p) tok) w2) as Hc3.
  fold (distUnlockFile (Sg := Sg) (L := L) (St := St) (T := T) p tok) in Hc3.
  destruct (distUnlockFile p tok w2) as [x w3]. eexists e, _, w3. split; [done|]. simpl in *.
  etrans; [exact Hc|]. by etrans.
Qed.

(** What only touches paths outside the storage touches no file. *)
Lemma others_calm K (w w' : World) : sound w → calm none w w' → others K w w'.
Proof.
  intros [Hi _] [(Hst & Hdb & _ & _ & Hf) _] k Hk _.
  rewrite Hst, Hdb. split; [|done]. apply object_local; [done..|]. intros r _. by apply Hf.
Qed.

(** A renamed file had metadata. *)
Lemma RenameFile_found path newName fm (w : World) fm' w' :
  safe (NormalizePath path) → RenameFile path newName (fm, w) = (Ok tt, (fm', w')) →
  ∃ m, fview (db w) (NormalizePath path) = Some m.
Proof.
  intros Hp Hr. set (p := NormalizePath path) in *. unfold RenameFile, underLock in Hr.
  apply bind_ok in Hr as (? & [fm1 w1] & Hl & Hr). injection Hl as _ _ <-.
  unfold inWorld in Hr. fold p in Hr.
  destruct ((distLockFile p ≫= λ token, deferring (renameBody p newName) (distUnlockFile p token)) w)
    as [r w2] eqn:E. injection Hr as -> _ _.
  apply bind_ok in E as (tok & w3 & Ha & E). apply deferring_ok in E as (w4 & E & _).
  pose proof (steps_wrapErr _ "failed to acquire distributed lock" _
    (calm_acquire none ("file:" +:+ p) (10 * Second) 30 (50 * Millisecond)) w) as [(_ & Hdb & _) _].
  unfold distLockFile in Ha. rewrite Ha in Hdb. simpl in Hdb. unfold renameBody in E.
  apply bind_ok in E as (m & w5 & Hm & _). exists m. unfold GetFileMetadata in Hm.
  rewrite (safe_normal p Hp) in Hm. apply bind_ok in Hm as (y & w6 & Hg%wrapErr_ok & Hm).
  apply onDB_ok in Hg as (d & s & Hg & ->). pose proof (file_get_spec p (db w3, sys w3)) as Hs.
  rewrite Hg, (safe_normal p Hp) in Hs. destruct Hs as [_ Hs]. specialize (Hs y eq_refl).
  simpl in Hs. rewrite Hdb in Hs. destruct y; [|done]. run_ok Hm. by subst.
Qed.

End fm_properties.

(** ** Properties *)

Lemma rename_safe path newName :
  IsValidFilePath path = true → IsValidFileName newName = true →
  safe (NormalizePath (GetDirectory (NormalizePath path) +:+ "/" +:+ newName)).
Proof.
  intros Hv Hn%valid_name_ordinary. destruct (valid_path_safeKey path Hv) as (Hne & Ho & Hk).
  rewrite Hk. destruct (exists_last Hne) as (ds & n & Hsegs). rewrite Hsegs in *.
  apply Forall_app in Ho as [Hds [Hno _]%Forall_cons].
  rewrite (rename_target ds n newName); [|done|by apply Hno|done].
  exists (ds ++ [newName]). split_and!; [by destruct ds|apply Forall_app; split; [done|by constructor]|done].
Qed.

(** What is uploaded is what is downloaded. After a successful UploadFile every
    later read of the path, whole or in part, returns the bytes that were sent,
    and the metadata records their length and SHA-256; whether the upload
    succeeds or fails, no other file changes, neither its bytes nor its
    metadata. *)
Lemma file_upload_download {Sg L St T} `{StorageLaws Sg} `{DistributedLock L} `{SqlLaws T}
    (sha256 : bytes → bytes) (uuid : nat → string) (path : string) (data : bytes)
    (fm : FileManager) (w : World Sg L St T) :
  IsValidFilePath path = true → sound w →
  let p := NormalizePath path in
  let '(r, (_, w1)) := UploadFile sha256 uuid path data (fm, w) in
  others (eq p) w w1 ∧
  ∀ m, r = Ok m →
    fview (db w1) p = Some m ∧ fSize m = blen data ∧ fHash m = EncodeToString (sha256 data) ∧
    (∀ x w2, DownloadFile p w1 = (Ok x, w2) → x = data) ∧
    (∀ n off x w2, in64 n → in64 off → DownloadFileAt p n off w1 = (Ok x, w2) →
       x = readAt data (Z.to_nat off) (Z.to_nat n)).
Proof.
  intros Hv Hs p. assert (safe p) as Hp by (eexists; by apply valid_path_safeKey).
  pose proof (UploadFile_spec sha256 uuid path data fm w Hp Hs) as Hu.
  destruct (UploadFile _ _ _ _ _) as [[m|e] [fm1 w1]].
  - destruct Hu as (Hon & _ & Hsz & Hh). split; [apply Hon|]. intros m' [= <-].
    split_and!; [by destruct Hon as (_ & _ & _ & ?)|done|done|..].
    + intros x w2 Hd. pose proof (DownloadFile_spec w p data _ Hp w1 Hon) as Hr.
      rewrite Hd in Hr. apply Hr.
    + intros n off x w2 Hn Ho Hd.
      pose proof (DownloadFileAt_spec sha256 w p data _ n off Hp Hn Ho w1 Hon) as Hr.
      rewrite Hd in Hr. apply Hr.
  - split; [apply Hu|done].
Qed.

(** C7: successful operations keep metadata and storage in agreement. When every
    file with metadata is stored with the recorded size and SHA-256, this still
    holds after a successful UploadFile, DeleteFile or RenameFile; a deleted
    file has neither object nor metadata. *)
Theorem manager_coherent {Sg L St T} `{StorageLaws Sg} `{DistributedLock L} `{SqlLaws T}
    (sha256 : bytes → bytes) (uuid : nat → string) (path newName : string) (data : bytes)
    (fm : FileManager) (w : World Sg L St T) :
  let p := NormalizePath path in
  let q := NormalizePath (GetDirectory p +:+ "/" +:+ newName) in
  safe p → safe q → p ≠ q → sound w → coherent sha256 w →
  (∀ m fm' w', UploadFile sha256 uuid path data (fm, w) = (Ok m, (fm', w')) → coherent sha256 w') ∧
  (∀ fm' w', DeleteFile path (fm, w) = (Ok tt, (fm', w')) →
     coherent sha256 w' ∧ object (store w') (os (sys w')) p = None ∧ fview (db w') p = None) ∧
  (∀ fm' w', RenameFile path newName (fm, w) = (Ok tt, (fm', w')) →
     coherent sha256 w' ∧ object (store w') (os (sys w')) q = object (store w) (os (sys w)) p).
Proof.
  cbv zeta. set (p := NormalizePath path). set (q := NormalizePath _).
  intros Hp Hq Hne Hs Hc. split_and!.
  - intros m fm' w' Hr. pose proof (UploadFile_spec sha256 uuid path data fm w Hp Hs) as Hu.
    rewrite Hr in Hu. destruct Hu as (Hon & _ & Hsz & Hh). eapply coherent_onPath; [done..|].
    intros m' Hm'. destruct Hon as (_ & _ & Ho & Hv). exists data. split; [done|].
    rewrite Hm' in Hv. by injection Hv as <-.
  - intros fm' w' Hr. pose proof (DeleteFile_spec path fm w Hp Hs) as Hu. rewrite Hr in Hu.
    pose proof Hu as (_ & _ & Ho & Hv). split; [|done]. eapply coherent_onPath; [done..|].
    intros m Hm. by rewrite <-Hv in Hm.
  - intros fm' w' Hr.
    assert (∃ m, fview (db w) p = Some m) as [m Hm] by (by eapply RenameFile_found).
    destruct (Hc p m Hp Hm) as (d & Hd & Hsz & Hh).
    pose proof (RenameFile_spec path newName d fm w Hp Hq Hne Hs Hd) as Hu.
    cbv zeta in Hu. fold p in Hu. fold q in Hu. rewrite Hr in Hu.
    destruct Hu as (m0 & m' & Hm0 & (_ & _ & _ & Hsz' & Hh' & _) & _ & Hoth & [Hop Hoq] & [Hvp Hvq]).
    split; [|congruence]. rewrite Hm in Hm0. injection Hm0 as <-.
    intros k mk Hk Hv. destruct (decide (k = p)) as [->|Hkp]; [by rewrite Hvp in Hv|].
    destruct (decide (k = q)) as [->|Hkq].
    + exists d. rewrite Hvq in Hv. injection Hv as <-. by rewrite Hsz', Hh'.
    + destruct (Hoth k Hk) as [Ho Hf]; [by intros [?|?]|]. rewrite Hf in Hv. rewrite Ho. by apply Hc.
Qed.

Lemma demo_sound : sound demoFile.
Proof. split; [apply localDisk_rooted|by apply dbOk_by_dec]. Qed.

Lemma demo_coherent : coherent demoSHA demoFile.
Proof.
  intros q m _ Hv. apply fileAtPath_spec in Hv as (Hin & Hq & _); [|apply demo_sound].
  apply list_elem_of_singleton in Hin. subst. exists (ab ++ cd).
  split_and!; vm_compute; reflexivity.
Qed.

Lemma manager_coherent_witness :
  (∀ m fm' w', UploadFile demoSHA demoUUID "a/b" cd (NewFileManager, demoFile) = (Ok m, (fm', w')) →
     coherent demoSHA w') ∧
  (∀ fm' w', DeleteFile "a/b" (NewFileManager, demoFile) = (Ok tt, (fm', w')) →
     coherent demoSHA w' ∧ object (store w') (os (sys w')) "a/b" = None ∧ fview (db w') "a/b" = None) ∧
  (∀ fm' w', RenameFile "a/b" "c" (NewFileManager, demoFile) = (Ok tt, (fm', w')) →
     coherent demoSHA w' ∧
     object (store w') (os (sys w')) "a/c" = object (store demoFile) (os (sys demoFile)) "a/b").
Proof.
  apply (manager_coherent demoSHA demoUUID "a/b" "c" cd NewFileManager demoFile);
    [apply safe_dec_true; vm_compute; reflexivity..|vm_compute; discriminate
    |apply demo_sound|apply demo_coherent].
Defined.

(** C8: RenameFile never loses the bytes of the file it renames. It either succeeds, and
    then the file is under the new path with the same bytes and the metadata it had,
    and nothing is left under the old one; or it fails, and the bytes are still
    under the old or the new path, also when the metadata update fails and the
    storage rename is rolled back. No third file is touched. A file that is already under
    the new path makes it fail, and then nothing has changed at all, provided that no
    call fails: when the query for that file does, the file is overwritten
    ([rename_destroys_target]). *)
Theorem rename_file_safe {Sg L St T} `{StorageLaws Sg} `{DistributedLock L} `{SqlLaws T}
    (path newName : string) (d : bytes) (fm : FileManager) (w : World Sg L St T) :
  let p := NormalizePath path in
  let q := NormalizePath (GetDirectory p +:+ "/" +:+ newName) in
  IsValidFilePath path = true → IsValidFileName newName = true → p ≠ q → sound w →
  object (store w) (os (sys w)) p = Some d →
  let '(r, (_, w')) := RenameFile path newName (fm, w) in
  others (either p q) w w' ∧
  (object (store w') (os (sys w')) p = Some d ∨ object (store w') (os (sys w')) q = Some d) ∧
  (r = Ok tt →
     object (store w') (os (sys w')) q = Some d ∧ object (store w') (os (sys w')) p = None ∧
     fview (db w') p = None ∧
     ∃ m m', fview (db w) p = Some m ∧ fview (db w') q = Some m' ∧ renamed q newName m m') ∧
  (fview (db w) q ≠ None → (∀ n, net (oracle (sys w) n) = NoFault) →
     r ≠ Ok tt ∧ others none w w').
Proof.
  intros p q Hv Hn Hne Hs Hd.
  assert (safe p) as Hp by (eexists; by apply valid_path_safeKey).
  assert (safe q) as Hq by (by apply rename_safe).
  pose proof (RenameFile_spec path newName d fm w Hp Hq Hne Hs Hd) as Hr.
  pose proof (λ m Hn, RenameFile_refused path newName fm w m Hn Hq) as Hx. cbv zeta in Hx. fold p q in Hx.
  assert (fview (db w) q ≠ None → (∀ n, net (oracle (sys w) n) = NoFault) →
    ∃ e fm' w', RenameFile path newName (fm, w) = (Err e, (fm', w')) ∧ calm none w w') as Hx'.
  { intros Hvq Hnf. destruct (fview (db w) q) as [m|]; [|done]. by apply (Hx m). }
  destruct (RenameFile path newName (fm, w)) as [[[]|e] [fm' w']].
  - destruct Hr as (m & m' & Hm & Hren & Hs' & Hoth & [Ho1 Ho2] & [Hv1 Hv2]).
    split_and!; [done|by right| |]. { intros _. split_and!; try done. by exists m, m'. }
    intros Hvq Hnf. by destruct (Hx' Hvq Hnf) as (? & ? & ? & [=] & _).
  - destruct Hr as (_ & Hoth & Ho & _). split_and!; [done..|]. intros Hvq Hnf. split; [done|].
    destruct (Hx' Hvq Hnf) as (? & ? & ? & [= _ _ <-] & Hc). by eapply others_calm.
Qed.

Lemma rename_file_safe_witness :
  let '(r, (_, w')) := RenameFile "a/b" "c" (NewFileManager, demoFile) in
  others (either "a/b" "a/c") demoFile w' ∧
  (object (store w') (os (sys w')) "a/b" = Some (ab ++ cd) ∨
   object (store w') (os (sys w')) "a/c" = Some (ab ++ cd)) ∧
  (r = Ok tt →
     object (store w') (os (sys w')) "a/c" = Some (ab ++ cd) ∧
     object (store w') (os (sys w')) "a/b" = None ∧ fview (db w') "a/b" = None ∧
     ∃ m m', fview (db demoFile) "a/b" = Some m ∧ fview (db w') "a/c" = Some m' ∧
       renamed "a/c" "c" m m') ∧
  (fview (db demoFile) "a/c" ≠ None → (∀ n, net (oracle (sys demoFile) n) = NoFault) →
     r ≠ Ok tt ∧ others none demoFile w').
Proof.
  apply (rename_file_safe "a/b" "c" (ab ++ cd) NewFileManager demoFile);
    [vm_compute; reflexivity|vm_compute; reflexivity|vm_compute; discriminate|apply demo_sound
    |vm_compute; reflexivity].
Defined.

(** The same query of RenameFile: when it fails, the file under the new name is taken for
    absent and overwritten; the update then violates the uniqueness of the path, and the
    rollback moves the bytes back. The file under the new name has its metadata and no
    bytes. *)
Lemma rename_destroys_target :
  let fault n := if (n =? 31)%nat then Lost (ErrMsg "database is locked") else NoFault in
  let u := UploadFile demoSHA demoUUID "a/c" cd (NewFileManager, demoFile) in
  let w := MkWorld (MkSys (λ n, CallEnv 0 [Byte.x01] (fault n)) 0 (os (sys u.2.2)))
             (store u.2.2) (db u.2.2) (dlock u.2.2) (sess u.2.2) (svc u.2.2) in
  let r := RenameFile "a/b" "c" (NewFileManager, w) in
  let w' := r.2.2 in
  is_ok u.1 = true ∧ object (store w) (os (sys w)) "a/c" = Some cd ∧
  is_ok r.1 = false ∧ is_Some (fview (db w') "a/c") ∧
  object (store w') (os (sys w')) "a/c" = None.
Proof. vm_compute. split_and!; try reflexivity. eexists. reflexivity. Qed.

(** One failed query lets an upload destroy the file it replaces. When the
    existence query of UploadFile fails, the file is taken for new; the insert
    then violates the uniqueness of the path and the error path removes the
    object: the metadata stays, the bytes of the old file and of the new one are
    gone. *)
Lemma upload_error_destroys_file :
  let fault n := if (n =? 30)%nat then Lost (ErrMsg "database is locked") else NoFault in
  let w := MkWorld (MkSys (λ n, CallEnv 0 [Byte.x01] (fault n)) 0 (os (sys demoFile)))
             (store demoFile) (db demoFile) (dlock demoFile) (sess demoFile) (svc demoFile) in
  let r := UploadFile demoSHA demoUUID "a/b" cd (NewFileManager, w) in
  let w' := r.2.2 in
  is_ok r.1 = false ∧ is_Some (fview (db w') "a/b") ∧
  object (store w') (os (sys w')) "a/b" = None.
Proof. vm_compute. split_and!; try reflexivity. eexists. reflexivity. Qed.
