(* ===== verification/SessionFrame.v ===== *)
(** * What a session upload touches

    A session writes to its temp files until it is completed; the completion stores the
    file under the path of the session and records it. No other file changes, whether
    the completion succeeds or fails. *)

From S2P Require Export Slots FileManager.

Local Open Scope go_scope.

(** Two facts about the same run. *)
Lemma triple_hoare {W A} (P P' : W → Prop) (m : M W A) Q E Q' :
  triple P m Q E → hoare P' m Q' → triple (λ w, P w ∧ P' w) m (λ a w, Q a w ∧ Q' a w) E.
Proof.
  intros Ht Hh w [HP HP']. specialize (Ht w HP). specialize (Hh w).
  destruct (m w) as [[a|e] w']; [|done]. split; [done|]. by apply Hh.
Qed.

Section session_frame.
Context {Sg L St : Type} {T : Type → Type}.
Context `{StorageLaws Sg} `{DistributedLock L} `{SessionStore sessionValue St}.
Context `{SqlLaws T} `{AEADLaws}.
Context (sha256 : bytes → bytes) (uuid : nat → string).
Notation World := (World Sg L St T).
Context (w0 : World) (p tmp : string) (Hp : safe p).

Definition tempOf (q : string) : Prop := q = tmp ∨ q = tmp +:+ ".enc".

(** Nothing but the file [p] has changed, and the temp files are not objects. *)
Definition aside (w : World) : Prop :=
  (onPath w0 p any any w ∧ outside (store w) = outside (store w0)) ∧
  outside (store w) tmp ∧ outside (store w) (tmp +:+ ".enc").

Lemma aside_mild (P : string → Prop) w w' :
  (∀ q, P q → tempOf q) → mild P w w' → aside w → aside w'.
Proof.
  intros HP Hm ((Hon & Ho) & Ht & He). split; [|by destruct Hm as (-> & _)].
  split; [|by destruct Hm as (-> & _)].
  eapply (onPath_mild w0 p Hp P); [exact Hm| |done]. by intros q [-> | ->]%HP.
Qed.

Lemma aside_steps {A} (P : string → Prop) (m : M World A) :
  (∀ q, P q → tempOf q) → steps (mild P) m → triple aside m (λ _, aside) aside.
Proof. intros HP Hm. eapply triple_steps; [done|]. intros w w' Hw Hr. by eapply aside_mild. Qed.

Lemma aside_none {A} (m : M World A) : steps (calm none) m → triple aside m (λ _, aside) aside.
Proof. intros Hm. by apply (aside_steps none), calm_mild. Qed.

Lemma aside_rm q : tempOf q → triple aside (rm q) (λ _, aside) aside.
Proof. intros Hq. apply (aside_steps (eq q)); [by intros ? <-|]. by apply calm_mild, calm_rm. Qed.

Lemma aside_end id : triple aside (endUpload id) (λ _, aside) aside.
Proof. by apply (aside_steps none), endUpload_mild. Qed.

Lemma aside_rm_end q id : tempOf q → triple aside (rm q ⨟ endUpload id) (λ _, aside) aside.
Proof. intros Hq. eapply triple_bind; [by apply aside_rm|intros ?; apply aside_end]. Qed.

(** The storage keeps its invariant and the paths that are not its own. *)
Definition sameOut (w w' : World) : Prop :=
  storeInv (store w) → storeInv (store w') ∧ outside (store w') = outside (store w).

#[local] Instance sameOut_preorder : PreOrder sameOut.
Proof.
  split; [done|]. intros w1 w2 w3 H12 H23 Hi. destruct (H12 Hi) as [Hi2 Ho2].
  destruct (H23 Hi2). split; congruence.
Qed.

Lemma out_mild {A} P (m : M World A) : steps (mild P) m → steps sameOut m.
Proof. intros Hm w Hi. destruct (Hm w) as (-> & _). done. Qed.

Lemma out_onDB {A} (m : M (DB T * Sys) A) : steps sameOut (onDB m).
Proof. intros w Hi. unfold onDB. by destruct (m _) as [r [d s]]. Qed.

Lemma out_remove : steps sameOut (onStore (Remove p)).
Proof.
  intros w Hi. unfold onStore. pose proof (remove_spec p (store w, sys w) Hi Hp) as Hr.
  destruct (Remove p (store w, sys w)) as [r [g s]]. by destruct Hr as [(? & ? & _) _].
Qed.

Lemma out_record name size h id :
  steps sameOut (recordFile uuid p name size h (endUpload id) (endUpload id)).
Proof.
  pose proof @out_onDB. pose proof out_remove.
  assert (steps sameOut (endUpload (Sg := Sg) (L := L) (St := St) (T := T) id))
    by apply (out_mild none), endUpload_mild.
  assert (steps sameOut (nowString (Sg := Sg) (L := L) (St := St) (T := T)))
    by apply (out_mild none), calm_mild, calm_nowString.
  assert (steps sameOut (GenerateUUID (Sg := Sg) (L := L) (St := St) (T := T) uuid))
    by apply (out_mild none), calm_mild, calm_uuid.
  unfold recordFile. steps_auto.
Qed.

(** The metadata of the path, with the session ended on an error. *)
Lemma aside_record name size h id :
  triple aside (recordFile uuid p name size h (endUpload id) (endUpload id)) (λ _, aside) aside.
Proof.
  intros w ((Hon & Hw0) & Ht & He).
  assert (triple (onPath w0 p any any) (endUpload id) (λ _, onPath w0 p any any)
            (onPath w0 p any any)) as Hend.
  { eapply triple_steps; [apply (endUpload_mild none)|]. intros. by eapply (onPath_mild w0 p Hp none). }
  pose proof (recordFile_path uuid w0 p Hp any name size h (endUpload id) (endUpload id) Hend Hend w Hon) as Hr.
  pose proof (out_record name size h id w (proj1 (proj1 Hon))) as [_ Ho].
  unfold aside. destruct (recordFile _ _ _ _ _ _ _ w) as [[m|e] w']; simpl in *; rewrite Ho; [|done].
  split; [|done]. split; [|done]. destruct Hr as [Hr _]. by eapply onPath_weaken; [| |exact Hr].
Qed.

(** The temp file that is stored exists. *)
Lemma aside_store t :
  tempOf t →
  triple (λ w, aside w ∧ is_Some (fileAt (os (sys w)) t)) (onStore (WriteFromTempFile p t))
    (λ _, aside) aside.
Proof.
  intros Ht w [((([Hi Hd] & Hoth & _ & _) & Hw0) & Hout & Houte) [d Hf]]. unfold onStore.
  assert (outside (store w) t) as Ho by (by destruct Ht as [-> | ->]).
  pose proof (write_temp_spec p t d (store w, sys w) Hi Hp Ho Hf) as Hw.
  destruct (WriteFromTempFile p t (store w, sys w)) as [r [g s]].
  destruct Hw as [(Hi' & Hout' & Hob & _) _]. simpl in *.
  assert (aside (MkWorld s g (db w) (dlock w) (sess w) (svc w))) as Hap.
  { unfold aside. simpl. rewrite Hout'. split; [|done]. split; [|done]. split; [done|]. split; [|done].
    intros q Hq Hne. simpl. rewrite Hob by done. by apply Hoth. }
  by destruct r.
Qed.

Lemma aside_tail id s b t h :
  tempOf t → uFilePath s = p →
  triple (λ w, aside w ∧ is_Some (fileAt (os (sys w)) t)) (completeTail uuid id s (b, (t, h)))
    (λ _, aside) aside.
Proof.
  intros Ht Hs. unfold completeTail. rewrite Hs.
  eapply (triple_bind _ _ (λ _ w, aside w ∧ is_Some (fileAt (os (sys w)) t))).
  { apply triple_wrapErr. eapply (triple_onError _ _ _ _ aside); [|by apply aside_rm_end].
    intros w [Ha [d Hf]]. pose proof (calm_acquire (Sg := Sg) (L := L) (St := St) (T := T) none
      ("file:" +:+ p) (10 * Second) 30 (50 * Millisecond) w) as [Hm _].
    assert (aside (acquire ("file:" +:+ p) (10 * Second) 30 (50 * Millisecond) w).2) as Ha'
      by (by eapply (aside_mild none)).
    destruct (acquire _ _ _ _ w) as [[tok|e] w']; [|done]. split; [done|]. exists d.
    destruct Hm as (_ & _ & _ & _ & Hq). simpl in Hq. by rewrite Hq. }
  intros tok. eapply triple_deferring;
    [|intros ?; apply aside_none, calm_release|apply aside_none, calm_release].
  eapply triple_bind; [apply triple_wrapErr; eapply triple_onError; [by apply aside_store|by apply aside_rm_end]|].
  intros ?. eapply triple_bind; [apply aside_record|intros m].
  eapply triple_bind; [apply aside_end|intros ?]. eapply triple_bind; [by apply aside_rm|intros ?].
  eapply triple_bind; [apply (triple_ignore (W := World)), aside_none, calm_onSession|intros ?]. by intros w.
Qed.

(** ** The completion up to the commit *)

(** The temp file of the session [id] is [tmp]. *)
Definition asideAt (id : string) (w : World) : Prop :=
  aside w ∧ tempPathOf (svc w) id ".tmp" = tmp.

Lemma at_mild {A} id (P : string → Prop) (m : M World A) :
  (∀ q, P q → tempOf q) → steps (mild P) m → triple (asideAt id) m (λ _, asideAt id) (asideAt id).
Proof.
  intros HP Hm. eapply triple_steps; [done|]. intros w w' [Ha Ht] Hr. split; [by eapply aside_mild|].
  destruct Hr as (_ & _ & [Hd _] & _). unfold tempPathOf in *. by rewrite Hd.
Qed.

Lemma at_service {B} id (k : FileTransferService → M World B) Q E :
  (∀ v, tempPathOf v id ".tmp" = tmp → triple (asideAt id) (k v) Q E) →
  triple (asideAt id) (v ← service; k v) Q E.
Proof. intros Hk w [Ha Ht]. unfold mbind, M_bind, service, gets. by apply Hk. Qed.

Lemma at_rm_end id t : tempOf t → triple (asideAt id) (rm t ⨟ endUpload id) (λ _, asideAt id) (asideAt id).
Proof.
  intros Ht. apply (at_mild id (eq t)); [by intros ? <-|].
  apply steps_bind; [apply _|by apply calm_mild, calm_rm|intros ?; apply endUpload_mild].
Qed.

(** A call on the temp files, and what is done when it fails. *)
Lemma at_call {A B} id (P : string → Prop) msg (m : M World A) (c : M World B) :
  (∀ q, P q → tempOf q) → steps (calm P) m →
  triple (asideAt id) c (λ _, asideAt id) (asideAt id) →
  triple (asideAt id) (wrapErr msg (onError m c)) (λ _, asideAt id) (asideAt id).
Proof.
  intros HP Hm Hc. apply triple_wrapErr. eapply triple_onError; [|exact Hc].
  by apply (at_mild id P), calm_mild.
Qed.

Lemma at_close id s : triple (asideAt id) (closeTemp id s) (λ _, asideAt id) (asideAt id).
Proof.
  unfold closeTemp. destruct (uTempFile s); [|by intros w].
  apply at_service. intros v ->.
  eapply triple_bind; [apply (at_call id none); [done|apply calm_sync|apply at_rm_end; by left]|intros ?].
  apply (at_call id none); [done|apply calm_close|]. by apply (at_mild id none), endUpload_mild.
Qed.

Lemma at_verify id s : triple (asideAt id) (verifyUpload sha256 id tmp s) (λ _, asideAt id) (asideAt id).
Proof. apply (at_mild id (eq tmp)); [by intros ? <-; left|]. apply verify_mild. Qed.

Lemma at_encrypt id h :
  triple (asideAt id) (encryptTemp sha256 (endUpload id) tmp h)
    (λ x w, asideAt id w ∧ tempOf x.1) (asideAt id).
Proof.
  unfold encryptTemp. apply at_service. intros v _.
  destruct (cryptoSvc v) as [c|]; [destruct (IsEnabled c)|]; [|intros w Hw; split; [done|by left]..].
  eapply triple_bind.
  { apply (at_call id (eq (tmp +:+ ".enc"))); [by intros ? <-; right|by apply calm_EncryptFile|].
    apply at_rm_end. by left. }
  intros ?. eapply triple_bind.
  { apply (at_mild id (eq tmp)); [by intros ? <-; left|]. by apply calm_mild, calm_rm. }
  intros ?. eapply triple_bind.
  { apply (at_call id none); [done|apply SHA256File_calm|apply at_rm_end; by right]. }
  intros h' w Hw. split; [done|by right].
Qed.

Lemma at_head id s :
  triple (asideAt id) (completeHead sha256 id s) (λ x w, asideAt id w ∧ tempOf x.2.1) (asideAt id).
Proof.
  unfold completeHead. 
  assert (∀ s, triple (asideAt id) (setUpload id s) (λ _, asideAt id) (asideAt id)) as Hset
    by (intros ?; by apply (at_mild id none), setUpload_mild).
  eapply triple_bind; [apply Hset|intros ?]. eapply triple_bind; [apply at_close|intros ?].
  eapply triple_bind; [apply Hset|intros ?]. apply at_service. intros v ->.
  eapply triple_bind; [apply at_verify|intros b].
  eapply triple_bind; [apply at_encrypt|intros x]. by intros w [Hw Hx].
Qed.

(** ** The other operations of a session *)

Lemma chunk_mild id data off s f (w : World) :
  uploadSessions (svc w) !! id = Some s → uTempFile s = Some f →
  mild (eq f) w (UploadChunk id data off w).2.
Proof.
  intros Hs Hf. unfold UploadChunk, mbind at 1, M_bind at 1. rewrite (loadUpload_in id s w Hs).
  assert (steps (mild (eq f)) (chunkBody (Sg := Sg) (L := L) (St := St) (T := T) id data off s)) as Hb.
  { eapply steps_ext; [apply chunkBody_split|]. apply steps_bind; [apply _| |intros _].
    - apply calm_mild. by apply chunkHead_calm.
    - unfold chunkTail. steps_auto; try apply setUpload_mild; apply calm_mild; [apply calm_nowString|].
      apply steps_ignore, calm_onSession. }
  match goal with |- mild _ _ (?x w).2 => assert (steps (mild (Sg := Sg) (L := L) (St := St) (T := T) (eq f)) x) as Hx;
    [|apply Hx] end.
  steps_auto; apply calm_mild; [apply calm_acquire|apply calm_release].
Qed.

Lemma create_mild path name total client hash (w : World) :
  mild (eq (tempPathOf (svc w) (uuid (tick (sys w))) ".tmp")) w
    (CreateUploadSession uuid path name total client hash w).2.
Proof.
  unfold CreateUploadSession. unfold mbind at 1, M_bind at 1.
  set (t := tempPathOf (svc w) _ _).
  pose proof (acquireSessionSlot_mild w) as Ha. pose proof (acquire_frame w) as (Hsys & _).
  assert (∀ w1, mild none w w1 → mild (eq t) w w1) as Hmono by (intros w1; by apply mild_mono).
  destruct (acquireSessionSlot w) as [[[|]|e] w1]; simpl in Ha, Hsys; [| |by apply Hmono].
  2: { unfold mbind, M_bind. simpl. by apply Hmono. }
  set (R := mild (Sg := Sg) (L := L) (St := St) (T := T) (eq t) w).
  assert (∀ A (m : M World A), steps (mild (eq t)) m → triple R m (λ _, R) R) as Hstep.
  { intros A m Hm. eapply triple_steps; [exact Hm|]. intros x y Hx Hy. unfold R in *. by etrans. }
  unfold mbind at 1, M_bind at 1. unfold mbind at 1, M_bind at 1. simpl. rewrite Hsys.
  set (w2 := MkWorld (skip 1 (sys w)) _ _ _ _ _).
  assert (R w2) as Hm2 by (apply Hmono; etrans; [exact Ha|]; unfold mild, w2; simpl; by rewrite Hsys).
  clearbody w2. match goal with |- R (?x w2).2 =>
    cut (triple R x (λ _, R) R); [intros Hx; specialize (Hx w2 Hm2); by destruct (x w2) as [[]]|] end.
  assert (steps (mild (eq t)) (releaseSessionSlot (Sg := Sg) (L := L) (St := St) (T := T))) as Hrel
    by (by apply mild_onService).
  eapply triple_bind; [apply Hstep, calm_mild, calm_nowString|intros now].
  intros w3 Hw3. unfold mbind at 1, M_bind at 1, service, gets.
  assert (tempPathOf (svc w3) (uuid (tick (sys w))) ".tmp" = t) as ->.
  { destruct Hw3 as (_ & _ & [Hv _] & _). unfold t, tempPathOf. by rewrite Hv. }
  revert w3 Hw3. match goal with |- ∀ w3, _ → match ?x w3 with _ => _ end => change (triple R x (λ _, R) R) end.
  apply Hstep. steps_auto; try done; try apply setUpload_mild; apply calm_mild;
    try (apply steps_ignore, calm_onSession); try (by apply calm_rm); apply calm_osCall; intros.
  - by apply (fileAt_writeFile t []).
  - by apply fileAt_fTruncate.
Qed.

(** ** The completion *)

Lemma complete_aside td cs id hash total ws w :
  tmp = PathJoin [td; id +:+ ".tmp"] →
  aside w → tracked td cs id p hash total ws w → wholeReads w →
  aside (CompleteUpload sha256 uuid id w).2.
Proof.
  intros Htmp Ha Htr Hw. pose proof Htr as (Hi & _ & _ & s & Hs & _ & Hpath & _).
  assert (asideAt id w) as Hat.
  { split; [done|]. destruct Hi as (_ & _ & Htd & _). unfold tempPathOf. by rewrite Htd. }
  rewrite (CompleteUpload_split sha256 uuid id s w Hs). unfold mbind at 1, M_bind at 1, guard.
  destruct (_ =? _)%Z eqn:Eg; [|done]. apply Z.eqb_eq in Eg. simpl. unfold mbind, M_bind.
  pose proof (at_head id s w Hat) as Hh.
  destruct (completeHead sha256 id s w) as [[[b [t h]]|e] w1] eqn:Ehead; [|apply Hh].
  destruct (completeHead_spec sha256 td cs id p hash total ws s w w1 _ Htr Hw Hs Eg Ehead)
    as (_ & _ & _ & e & (_ & _ & _ & _ & Hf) & _).
  destruct Hh as [[Ha1 _] Ht]. pose proof (aside_tail id s b t h Ht Hpath w1) as Htail.
  specialize (Htail (conj Ha1 (mk_is_Some _ _ Hf))).
  by destruct (completeTail _ _ _ _ w1) as [[]].
Qed.

End session_frame.

(** ** A session from its creation to its completion *)

Section going.
Context {Sg L St : Type} {T : Type → Type}.
Context `{StorageLaws Sg} `{DistributedLock L} `{SessionStore sessionValue St}.
Context `{SqlLaws T} `{AEADLaws}.
Context (sha256 : bytes → bytes) (uuid : nat → string).
Notation World := (World Sg L St T).
Context (td : string) (cs : option CryptoService) (w0 : World) (p : string) (Hp : safe p).
Context (hash : string) (total : Z) (id : string).
Notation tmp := (PathJoin [td; id +:+ ".tmp"]).

(** The chunks [ws] have arrived, and nothing else has changed since [w0]. *)
Definition going (ws : list (bytes * Z)) (w : World) : Prop :=
  tracked td cs id p hash total ws w ∧ wholeReads w ∧ aside w0 p tmp w.

Lemma going_calm ws (w w' : World) : calm none w w' → going ws w → going ws w'.
Proof.
  intros Hc (Htr & Hw & Ha). pose proof Hc as [Hm _].
  split_and!; [|by eapply wholeReads_mild|by eapply (aside_mild w0 p tmp Hp none)].
  eapply tracked_keeps; [|exact Htr]. by apply (keeps_calm id none); [intros []|].
Qed.

(** A new session has the identifier of its tick. *)
Lemma create_id path name client i (w : World) w1 :
  CreateUploadSession uuid path name total client hash w = (Ok i, w1) → i = uuid (tick (sys w)).
Proof.
  intros Ec. unfold CreateUploadSession in Ec. apply bind_ok in Ec as (b & x & Hb & Ec).
  pose proof (acquire_frame w) as (Hsys & _). rewrite Hb in Hsys. simpl in Hsys.
  apply bind_ok in Ec as ([] & y & Hg & Ec). apply guard_ok in Hg as [_ ->].
  apply bind_ok in Ec as (i' & y & Hu & Ec).
  assert (i' = uuid (tick (sys w))) as -> by (unfold GenerateUUID, onOS in Hu; simplify_eq; by rewrite Hsys).
  clear -Ec. run_ok Ec. by subst.
Qed.

Lemma going_start path name client w1 :
  in64 total → NormalizePath path = p → intact td cs id w0 → wholeReads w0 →
  CreateUploadSession uuid path name total client hash w0 = (Ok id, w1) → going [] w1.
Proof.
  intros Ht Hpath Hint Hw Ec. pose proof (create_id path name client id w0 w1 Ec) as Hid.
  pose proof (create_mild uuid path name total client hash w0) as Hm. rewrite Ec, <-Hid in Hm. simpl in Hm.
  pose proof Hint as (Hsi & Hdb & Htd & _ & Hout & Houte). split_and!.
  - rewrite <-Hpath. by eapply (create_tracked uuid).
  - by eapply wholeReads_mild.
  - eapply (aside_mild w0 p tmp Hp); [|exact Hm|].
    + intros q <-. left. unfold tempPathOf. by rewrite Htd.
    + split; [|done]. split; [|done]. by apply onPath_start.
Qed.

Lemma going_chunk ws data off w w' :
  in64 total → in64 off → going ws w → UploadChunk id data off w = (Ok tt, w') →
  going (ws ++ [(data, off)]) w'.
Proof.
  intros Ht Ho (Htr & Hw & Ha) Hr. pose proof Htr as (_ & _ & _ & s & Hs & Htmp & _).
  pose proof (chunk_mild id data off s tmp w Hs Htmp) as Hm. rewrite Hr in Hm. simpl in Hm.
  split_and!; [by eapply chunk_step|by eapply wholeReads_mild|].
  eapply (aside_mild w0 p tmp Hp (eq tmp)); [|exact Hm|done]. intros q <-. by left.
Qed.

(** The completion stores what the chunks make, encrypted when the service is. *)
Lemma going_complete ws w res w' :
  going ws w → CompleteUpload sha256 uuid id w = (Ok res, w') →
  let d := contentOf total ws in
  blen d = total ∧ (hash ≠ "" → hash = EncodeToString (sha256 d)) ∧
  outside (store w') = outside (store w0) ∧
  ∃ e h m, storedAs sha256 cs d hash e h ∧ onPath w0 p (eq (Some e)) (eq (Some m)) w' ∧
    fPath m = p ∧ fSize m = total ∧ fID m = cFileID res.
Proof.
  intros (Htr & Hw & Ha) Ec.
  pose proof (complete_aside sha256 uuid w0 p tmp Hp td cs id _ _ ws w eq_refl Ha Htr Hw) as Ha1.
  rewrite Ec in Ha1. simpl in Ha1.
  destruct (complete_spec sha256 uuid td cs id p _ _ ws w w' res Hp Htr Hw Ec)
    as (Hd & Hh & _ & Hsd & e & h & Hsa & Hob & m & (Hv & Hpm & Hsz & _) & Hid).
  destruct Ha1 as (((_ & Hoth & _) & Hout) & _). split_and!; [done..|].
  exists e, h, m. split_and!; [done| |done..]. by split_and!.
Qed.
End going.

(** ** Properties *)

(** C13: the completion of an upload changes no other file. From the creation of a
    session on, with any other requests in between, completing it leaves the objects
    and the metadata of all other paths as they are and the storage and the tables
    in order, on every way out: a refusal, a hash mismatch, an I/O error or a failing
    statement at any point, or a success. *)
Theorem completion_local {Sg L St T} `{StorageLaws Sg} `{DistributedLock L}
    `{SessionStore sessionValue St} `{SqlLaws T} `{AEADLaws}
    (sha256 : bytes → bytes) (uuid : nat → string) (td : string) (cs : option CryptoService)
    (id path name client hash : string) (total : Z) (ws : list (bytes * Z))
    (w0 w1 w2 : World Sg L St T) :
  in64 total → IsValidFilePath path = true → intact td cs id w0 →
  CreateUploadSession uuid path name total client hash w0 = (Ok id, w1) →
  chunks id w1 ws w2 → wholeReads w2 →
  let w3 := (CompleteUpload sha256 uuid id w2).2 in
  sound w3 ∧ FileManager.others (eq (NormalizePath path)) w2 w3.
Proof.
  intros Ht Hv Hi Hc Hws Hw w3.
  assert (safe (NormalizePath path)) as Hp by (eexists; by apply valid_path_safeKey).
  assert (tracked td cs id (NormalizePath path) hash total ws w2) as Htr
    by (eapply chunks_tracked; [done..|]; by eapply create_tracked).
  pose proof Htr as ((Hsi & Hdb & _ & _ & Hout & Houte) & _).
  destruct (complete_aside sha256 uuid w2 (NormalizePath path) (PathJoin [td; id +:+ ".tmp"]) Hp
    td cs id hash total ws w2 eq_refl) as (((Hs & Ho & _) & _) & _); [|done..].
  split; [|done]. split; [|done]. by apply onPath_start.
Qed.

Lemma completion_local_witness :
  let w3 := (CompleteUpload demoSHA demoUUID "idAA" demoUploaded).2 in
  sound w3 ∧ FileManager.others (eq "dir/f.txt") demoUploaded w3.
Proof.
  apply (completion_local demoSHA demoUUID "/tmp/up" None "idAA" "/dir/f.txt" "f.txt" "c" "61626364" 4
    [(ab, 0%Z); (cd, 2%Z)] demo demoCreated demoUploaded);
    [split; vm_compute; done|vm_compute; reflexivity|apply demo_intact
    |apply outcome; vm_compute; reflexivity| |intros n k; vm_compute; done].
  apply (chunks_ok "idAA" _ [(ab, 0%Z)] cd 2 (demoChunk ab 0 demoCreated));
    [|split; vm_compute; done|apply outcome; vm_compute; reflexivity].
  apply (chunks_ok "idAA" _ [] ab 0 demoCreated);
    [apply chunks_none|split; vm_compute; done|apply outcome; vm_compute; reflexivity].
Defined.
