(* ===== verification/Directory.v ===== *)
(** * internal/service/directory: directories, by their metadata

    CreateDirectory, DeleteDirectory and RenameDirectory over the files and the
    directories table. Both tables are trees of paths and the code treats them
    alike: [TreeTable] is what it uses of a row, and each loop over a table is
    written once. *)

From S2P Require Export Transfer Demo.

Local Open Scope go_scope.

(** Which of the optional collaborators the manager was given. *)
Record DirectoryManager := MkDirectoryManager { dmStore : bool; dmLock : bool }.

Definition NewDirectoryManager : DirectoryManager := MkDirectoryManager false false.
Definition NewDirectoryManagerWithStore : DirectoryManager := MkDirectoryManager true false.
Definition NewDirectoryManagerWithDistLock : DirectoryManager := MkDirectoryManager true true.

(** ** Rows with a path *)

Class TreeRow (Row : Type) := {
  rowID : Row → string;
  rowPath : Row → string;
  rowDeleted : Row → bool;
  (** SET is_deleted = TRUE, updated_at = now *)
  markDeleted : string → Row → Row;
  (** SET path = p, name = n, updated_at = now *)
  setPath : string → string → string → Row → Row
}.

#[export] Instance files_tree : TreeRow FileMetadata := {|
  rowID := fID; rowPath := fPath; rowDeleted := fIsDeleted;
  markDeleted now r := MkFile (fID r) (fPath r) (fName r) (fSize r) (fHash r) (fStorageType r)
    (fStorageLocation r) (fCreatedAt r) now true;
  setPath p n now r := MkFile (fID r) p n (fSize r) (fHash r) (fStorageType r)
    (fStorageLocation r) (fCreatedAt r) now (fIsDeleted r)
|}.

#[export] Instance directories_tree : TreeRow DirectoryMetadata := {|
  rowID := dID; rowPath := dPath; rowDeleted := dIsDeleted;
  markDeleted now r := MkDir (dID r) (dPath r) (dName r) (dCreatedAt r) now true;
  setPath p n now r := MkDir (dID r) p n (dCreatedAt r) now (dIsDeleted r)
|}.

(** The place of a table in the database. *)
Class TableOf (T : Type → Type) (Row : Type) := {
  sel : DB T → T Row;
  upd : T Row → DB T → DB T;
  sel_upd t db : sel (upd t db) = t;
  upd_sel db : upd (sel db) db = db;
  upd_upd t t' db : upd t (upd t' db) = upd t db
}.

#[export] Program Instance files_of T : TableOf T FileMetadata := {|
  sel := files; upd := setFiles
|}.
Next Obligation. done. Qed.
Next Obligation. by intros ? []. Qed.
Next Obligation. done. Qed.

#[export] Program Instance directories_of T : TableOf T DirectoryMetadata := {|
  sel := directories; upd := setDirectories
|}.
Next Obligation. done. Qed.
Next Obligation. by intros ? []. Qed.
Next Obligation. done. Qed.

Section tree.
Context {T : Type → Type} `{SqlEngine T} {Row : Type} `{SqlRow Row, !TreeRow Row, !TableOf T Row}.

Definition onTree {A} (op : T Row → res A * T Row) : M (DB T * Sys) A := dbCall sel upd op.

(** The live rows below a directory. *)
Definition underDir (path : string) (r : Row) : bool :=
  LIKE likeFold (escapeLikePattern (path +:+ "/") +:+ "%") (rowPath r) && negb (rowDeleted r).

Definition childrenOf (path : string) (rs : list Row) : list Row :=
  filter (λ r, underDir path r = true) rs.

Definition queryChildren (msg : string) (path : string) : M (DB T * Sys) (list Row) :=
  wrapErr msg (onTree (select (λ rs, Ok (childrenOf path rs)))).

Definition countChildren (path : string) : M (DB T * Sys) nat :=
  wrapErr "failed to check directory contents"
    (onTree (select (λ rs, Ok (length (childrenOf path rs))))).

Definition batchSize : nat := 500.

Definition queryBatch (msg : string) (path : string) : M (DB T * Sys) (list Row) :=
  wrapErr msg (onTree (select (λ rs, Ok (take batchSize (childrenOf path rs))))).

Definition execById (id : string) (f : Row → Row) : M (DB T * Sys) unit :=
  onTree (UPDATE (λ r, bool_decide (rowID r = id)) f).

End tree.

(** ** Transactions *)

Section tx.
Context {T : Type → Type}.

(** BEGIN: no effect on the tables. *)
Definition beginTx : M (DB T * Sys) unit := λ '(db, s),
  (match net (oracle s (tick s)) with
   | NoFault => Ok tt
   | Lost e | ReplyLost e => Err e
   | ShortRead _ => Err errIO
   end, (db, skip 1 s)).

(** COMMIT: when it is lost the server drops the transaction; when only its reply
    is lost, the changes stay. *)
Definition commitTx (db0 : DB T) : M (DB T * Sys) unit := λ '(db, s),
  match net (oracle s (tick s)) with
  | NoFault => (Ok tt, (db, skip 1 s))
  | ReplyLost e => (Err e, (db, skip 1 s))
  | Lost e => (Err e, (db0, skip 1 s))
  | ShortRead _ => (Err errIO, (db0, skip 1 s))
  end.

(** A failing statement rolls the transaction back. *)
Definition inTx (beginMsg commitMsg : string) (m : M (DB T * Sys) unit) : M (DB T * Sys) unit :=
  wrapErr beginMsg beginTx ⨟
  db0 ← gets fst;
  onError m (modify (λ '(_, s), (db0, skip 1 s))) ⨟
  wrapErr commitMsg (commitTx db0).

Definition dbNow : M (DB T * Sys) string := λ '(db, s),
  (Ok (GetCurrentTimestamp (now (oracle s (tick s)))), (db, skip 1 s)).
End tx.

Section batches.
Context {T : Type → Type} `{SqlEngine T} {Row : Type} `{SqlRow Row, !TreeRow Row, !TableOf T Row}.

Fixpoint softDeleteAll (msg : string) (es : list Row) : M (DB T * Sys) unit :=
  match es with
  | [] => mret tt
  | e :: es =>
      now ← dbNow;
      wrapErr msg (execById (rowID e) (markDeleted now)) ⨟
      softDeleteAll msg es
  end.

(** The path of a row after the directory [oldPath] was renamed [newPath]. *)
Definition newItemPath (oldPath newPath : string) (e : Row) : string :=
  newPath +:+ sdrop (slen oldPath) (rowPath e).

Fixpoint moveAll (msg oldPath newPath now : string) (es : list Row) : M (DB T * Sys) unit :=
  match es with
  | [] => mret tt
  | e :: es =>
      let p := newItemPath oldPath newPath e in
      wrapErr msg (execById (rowID e) (setPath p (GetFileName p) now)) ⨟
      moveAll msg oldPath newPath now es
  end.
End batches.

(** ** The manager *)

Section manager.
Context {Sg L St : Type} {T : Type → Type}.
Context `{StorageAdapter Sg} `{DistributedLock L} `{SqlEngine T}.
Context (uuid : nat → string) (dm : DirectoryManager).
Notation World := (World Sg L St T).

(** [lockDirectory] and the deferred release around the rest of the operation. *)
Definition lockDirectory {A} (path : string) (m : M World A) : M World A :=
  if dmLock dm then
    token ← wrapErr "failed to acquire directory lock"
      (acquire ("dir:" +:+ path) (10 * Second) 30 (50 * Millisecond));
    deferring m (ignore (release ("dir:" +:+ path) token))
  else m.

Definition supportsDirectoryStorageOps : bool :=
  dmStore dm && bool_decide (StorageType = "local").

Definition DMExists (path : string) : M World bool :=
  r ← catch (onDB (DirExists (NormalizePath path)));
  mret (match r with Ok b => b | Err _ => false end).

Definition GetDirectoryMetadata (path : string) : M World DirectoryMetadata :=
  m ← wrapErr "directory metadata not found" (onDB (DirGetByPath (NormalizePath path)));
  match m with
  | Some meta => mret meta
  | None => throw (ErrMsg "directory not found")
  end.

Definition DMCreateDirectory (path : string) : M World unit :=
  let path := NormalizePath path in
  lockDirectory path (
    ex ← DMExists path;
    guard (negb ex) (ErrMsg "directory already exists") ⨟
    now ← nowString;
    id ← GenerateUUID uuid;
    onDB (DirCreate (MkDir id path (GetFileName path) now now false)) ⨟
    if supportsDirectoryStorageOps then ignore (onStore (CreateDirectory path)) else mret tt).

(** The directory's own record, at the end of both kinds of deletion. *)
Definition removeRecord (path : string) : M World unit :=
  m ← wrapErr "failed to get directory metadata" (onDB (DirGetByPath path));
  match m with
  | None => throw (ErrMsg "directory not found")
  | Some meta => now ← nowString; onDB (DirRemove now (dID meta))
  end.

Definition outOfFuel : error := ErrMsg "out of fuel".

(** The loop over batches; [after] cleans the storage up once a batch is
    committed. *)
Fixpoint deleteBatches {Row} `{SqlRow Row, !TreeRow Row, !TableOf T Row} (fuel : nat)
    (queryMsg beginMsg updateMsg commitMsg : string) (path : string)
    (after : Row → M World unit) : M World unit :=
  match fuel with
  | O => throw outOfFuel
  | S fuel =>
      entries ← onDB (queryBatch queryMsg path);
      match entries with
      | [] => mret tt
      | _ =>
          onDB (inTx beginMsg commitMsg (softDeleteAll updateMsg entries)) ⨟
          forEach after entries ⨟
          deleteBatches fuel queryMsg beginMsg updateMsg commitMsg path after
      end
  end.

Definition fuelFor (Row : Type) `{SqlRow Row, !TreeRow Row, !TableOf T Row} : M World nat :=
  gets (λ w, S (length (rows (sel (db w) : T Row)))).

Definition deleteFiles (path : string) : M World unit :=
  n ← fuelFor FileMetadata;
  deleteBatches n "failed to query files" "failed to begin delete transaction"
    "failed to delete file metadata" "failed to commit file deletion batch" path
    (λ e, if dmStore dm then ignore (onStore (Remove (fPath e))) else mret tt).

Definition deleteDirectories (path : string) : M World unit :=
  n ← fuelFor DirectoryMetadata;
  deleteBatches n "failed to query directories" "failed to begin delete directory transaction"
    "failed to delete directory metadata" "failed to commit directory deletion batch" path
    (λ e, if supportsDirectoryStorageOps then ignore (onStore (RemoveDirectory (dPath e)))
          else mret tt).

Definition DMDeleteDirectory (path : string) (recursive : bool) : M World unit :=
  let path := NormalizePath path in
  lockDirectory path (
    ex ← DMExists path;
    guard ex (ErrMsg "directory not found") ⨟
    if recursive then
      deleteFiles path ⨟
      deleteDirectories path ⨟
      removeRecord path
    else
      fileCount ← onDB (countChildren (Row := FileMetadata) path);
      guard (negb (0 <? fileCount)%nat) (ErrMsg "directory is not empty") ⨟
      dirCount ← onDB (countChildren (Row := DirectoryMetadata) path);
      guard (negb (0 <? dirCount)%nat) (ErrMsg "directory is not empty") ⨟
      removeRecord path).

(** The transaction of RenameDirectory. *)
Definition renameTx (oldPath newPath newName now : string) (meta : DirectoryMetadata)
    (fileEntries : list FileMetadata) (dirEntries : list DirectoryMetadata) : M (DB T * Sys) unit :=
  inTx "failed to begin rename transaction" "failed to commit rename" (
    moveAll "failed to update file path" oldPath newPath now fileEntries ⨟
    moveAll "failed to update directory path" oldPath newPath now dirEntries ⨟
    wrapErr "failed to update directory metadata"
      (execById (dID meta) (setPath newPath newName now))).

Definition DMRenameDirectory (oldPath newName : string) : M World unit :=
  let oldPath := NormalizePath oldPath in
  guard (negb (dmStore dm && negb supportsDirectoryStorageOps))
    (ErrMsg "directory rename is not supported for object storage") ⨟
  lockDirectory oldPath (
    meta ← GetDirectoryMetadata oldPath;
    let newPath := NormalizePath (GetDirectory oldPath +:+ "/" +:+ newName) in
    ex ← DMExists newPath;
    guard (negb ex) (ErrMsg "target path already exists") ⨟
    fileEntries ← onDB (queryChildren (Row := FileMetadata) "failed to query child files" oldPath);
    dirEntries ← onDB (queryChildren (Row := DirectoryMetadata) "failed to query child directories" oldPath);
    now ← nowString;
    onDB (renameTx oldPath newPath newName now meta fileEntries dirEntries) ⨟
    forEach (λ e, if dmStore dm
                  then ignore (onStore (Rename (fPath e) (newItemPath oldPath newPath e)))
                  else mret tt) fileEntries ⨟
    if dmStore dm then ignore (onStore (Rename oldPath newPath)) else mret tt).

End manager.

(** ** What is below a directory

    The queries say it with LIKE and an escaped pattern; the specification says it by
    the prefix of the path. An engine whose LIKE folds the case of letters (SQLite)
    takes "Docs/x" to be below "docs", and the code with it. *)

Section beneath.
Context {T : Type → Type} `{SqlEngine T} {Row : Type} `{TreeRow Row}.

Definition beneath (path : string) (r : Row) : bool :=
  HasPrefix (foldString likeFold (rowPath r)) (foldString likeFold (path +:+ "/")) &&
  negb (rowDeleted r).

Definition liveBelow (path : string) (rs : list Row) : list Row :=
  filter (λ r, beneath path r = true) rs.

Lemma underDir_beneath path r : underDir (T := T) path r = beneath path r.
Proof.
  unfold underDir, beneath. by rewrite escapeLikePattern_once, LIKE_escape, LIKE_suffix_any, andb_true_r.
Qed.

Lemma childrenOf_below path rs : childrenOf (T := T) path rs = liveBelow path rs.
Proof. apply list_filter_iff. intros r. by rewrite underDir_beneath. Qed.

(** When LIKE does not fold, it is the prefix of the path itself. *)
Lemma beneath_exact path r :
  (∀ c, likeFold c = c) →
  beneath path r = HasPrefix (rowPath r) (path +:+ "/") && negb (rowDeleted r).
Proof.
  intros Hf. unfold beneath. assert (∀ s, foldString likeFold s = s) as Hs.
  { induction s as [|c s IH]; [done|]. simpl. by rewrite Hf, IH. }
  by rewrite !Hs.
Qed.
End beneath.

(** ** What the statements do to a table *)

(** The columns of a tree table: the statements keep the identifier, a deletion
    keeps everything but the mark. *)
Class TreeLaws (Row : Type) `{SqlRow Row, !TreeRow Row} := {
  tree_unique : uniqueCols = [rowID; rowPath];
  mark_id n (r : Row) : rowID (markDeleted n r) = rowID r;
  mark_path n (r : Row) : rowPath (markDeleted n r) = rowPath r;
  mark_deleted n (r : Row) : rowDeleted (markDeleted n r) = true;
  move_id p n t (r : Row) : rowID (setPath p n t r) = rowID r
}.

#[export] Instance files_tree_laws : TreeLaws FileMetadata.
Proof. by split. Qed.
#[export] Instance directories_tree_laws : TreeLaws DirectoryMetadata.
Proof. by split. Qed.

Lemma fmap_perm_ext {A B} (f g : A → B) (l : list A) :
  (∀ x, x ∈ l → f x = g x) → f <$> l = g <$> l.
Proof.
  induction l as [|a l IH]; intros Heq; [done|]. simpl.
  f_equal; [apply Heq; left|apply IH; intros; apply Heq; by right].
Qed.

(** A change to the rows of a predicate that takes them out of it. *)
Section shrink.
Context {A : Type} (P : A → Prop) `{∀ x, Decision (P x)} (g : A → A).

Lemma filter_shrink_le l :
  (∀ x, x ∈ l → P (g x) → P x) → length (filter P (g <$> l)) ≤ length (filter P l).
Proof.
  induction l as [|a l IH]; intros Hg; [done|]. specialize (IH ltac:(intros; apply Hg; [by right|done])).
  pose proof (Hg a ltac:(left)). rewrite fmap_cons, !filter_cons.
  destruct (decide (P (g a))), (decide (P a)); simpl; [lia|tauto|lia|lia].
Qed.

Lemma filter_shrink_lt l e :
  (∀ x, x ∈ l → P (g x) → P x) → e ∈ l → P e → ¬ P (g e) →
  length (filter P (g <$> l)) < length (filter P l).
Proof.
  intros Hg He HP Hn. apply elem_of_Permutation in He as [l' Hl]. rewrite Hl in *.
  assert (∀ x, x ∈ l' → P (g x) → P x) as Hg' by (intros; apply Hg; [rewrite Hl; by right|done]).
  rewrite fmap_cons, filter_cons_False, filter_cons_True by done. simpl.
  pose proof (filter_shrink_le l' Hg'). lia.
Qed.
End shrink.

Section tree_specs.
Context {T : Type → Type} `{SqlLaws T} {Row : Type} `{SqlRow Row, !TreeRow Row, !TreeLaws Row}.
Context `{!TableOf T Row}.
Notation trows db := (rows (sel db : T Row)).

(** The effect of a sequence of UPDATE statements, each by the identifier. *)
Definition applyUps (ups : list (string * (Row → Row))) (r : Row) : Row :=
  foldl (λ r u, if bool_decide (rowID r = u.1) then u.2 r else r) r ups.

Lemma onTree_select {A} (f : list Row → res A) (w : DB T * Sys) r w' :
  onTree (select f) w = (r, w') →
  w'.1 = w.1 ∧ ∀ a, r = Ok a → f (trows w.1) = Ok a.
Proof.
  destruct w as [db s]. unfold onTree, dbCall, select, faulty.
  destruct (net _); intros [= <- <-]; by rewrite upd_sel.
Qed.

Lemma execById_ok id f (w w' : DB T * Sys) x :
  execById id f w = (Ok x, w') →
  trows w'.1 ≡ₚ applyUps [(id, f)] <$> trows w.1 ∧ w'.1 = upd (sel w'.1 : T Row) w.1.
Proof.
  destruct w as [db s]. unfold execById, onTree, dbCall, faulty. simpl.
  destruct (net _); [|done| |done].
  - destruct (update_cases (λ r, bool_decide (rowID r = id)) f (sel db : T Row))
      as [(t & -> & Hp & _)|(e & -> & _)]; intros [= <- <-]; simpl.
    by rewrite sel_upd.
  - by destruct (UPDATE _ _ _).
Qed.

Lemma ups_app ups ups' (db0 db1 db2 : DB T) :
  trows db1 ≡ₚ applyUps ups <$> trows db0 → trows db2 ≡ₚ applyUps ups' <$> trows db1 →
  trows db2 ≡ₚ applyUps (ups ++ ups') <$> trows db0.
Proof.
  intros Hp1 Hp2. rewrite Hp2, Hp1, <-list_fmap_compose. apply Permutation_refl'.
  apply list_fmap_ext. intros _ r _. unfold applyUps. simpl. by rewrite foldl_app.
Qed.

Lemma upd_trans (db0 db1 db2 : DB T) :
  db1 = upd (sel db1 : T Row) db0 → db2 = upd (sel db2 : T Row) db1 →
  db2 = upd (sel db2 : T Row) db0.
Proof. intros Hd1 Hd2. rewrite Hd2 at 1. rewrite Hd1. by rewrite upd_upd. Qed.

(** What a loop of such statements did: one update per entry. *)
Definition updates (u : Row → (Row → Row) → Prop) (es : list Row) (db0 db1 : DB T) : Prop :=
  ∃ ups, Forall2 (λ e x, x.1 = rowID e ∧ u e x.2) es ups ∧
    trows db1 ≡ₚ applyUps ups <$> trows db0 ∧ db1 = upd (sel db1 : T Row) db0.

Lemma updates_nil u db : updates u [] db db.
Proof.
  exists []. split_and!; [constructor| |by rewrite upd_sel]. apply Permutation_refl'.
  symmetry. apply list_fmap_id.
Qed.

Lemma updates_cons (u : Row → (Row → Row) → Prop) e es f db0 db1 db2 :
  u e f → trows db1 ≡ₚ applyUps [(rowID e, f)] <$> trows db0 → db1 = upd (sel db1 : T Row) db0 →
  updates u es db1 db2 → updates u (e :: es) db0 db2.
Proof.
  intros Hu Hp Hd (ups & Hf & Hp2 & Hd2). exists ((rowID e, f) :: ups).
  split_and!; [by constructor| |by eapply upd_trans].
  exact (ups_app [(rowID e, f)] ups db0 db1 db2 Hp Hp2).
Qed.

Lemma softDeleteAll_ok msg es (w w' : DB T * Sys) x :
  softDeleteAll msg es w = (Ok x, w') →
  updates (λ _ f, ∃ n, f = markDeleted n) es w.1 w'.1.
Proof.
  revert w. induction es as [|e es IH]; intros w E; simpl in E; run_ok E; simplify_eq.
  - apply updates_nil.
  - destruct w as [db s]. unfold dbNow in Hr. simplify_eq.
    apply execById_ok in Hr0 as [Hp Hd]. apply IH in E. simpl in *.
    eapply updates_cons; eauto.
Qed.

Lemma moveAll_ok msg oldPath newPath now es (w w' : DB T * Sys) x :
  moveAll msg oldPath newPath now es w = (Ok x, w') →
  updates (λ e f, f = let p := newItemPath oldPath newPath e in setPath p (GetFileName p) now)
    es w.1 w'.1.
Proof.
  revert w. induction es as [|e es IH]; intros w E; simpl in E; run_ok E; simplify_eq.
  - apply updates_nil.
  - apply execById_ok in Hr as [Hp Hd]. apply IH in E. by eapply updates_cons.
Qed.

(** With unique identifiers, each entry of the table gets its own update and
    every other row none. *)
Lemma constraints_ids (rs : list Row) : constraintsOk rs → NoDup (rowID <$> rs).
Proof. unfold constraintsOk. rewrite tree_unique. by intros [? _]%Forall_cons. Qed.

Lemma applyUps_other ups (r : Row) :
  Forall (λ u, u.1 ≠ rowID r) ups → applyUps ups r = r.
Proof.
  unfold applyUps. induction 1 as [|u ups Hu _ IH]; [done|]. simpl.
  by rewrite bool_decide_eq_false_2 by congruence.
Qed.

Lemma applyUps_entry (u : Row → (Row → Row) → Prop) es ups e :
  (∀ e f, u e f → ∀ r, rowID (f r) = rowID r) →
  NoDup (rowID <$> es) → Forall2 (λ e x, x.1 = rowID e ∧ u e x.2) es ups → e ∈ es →
  ∃ f, u e f ∧ applyUps ups e = f e.
Proof.
  intros Hid Hnd Hf. induction Hf as [|e' [id f] es ups [Hx Hu] Hf IH]; [by intros ?%elem_of_nil|].
  apply NoDup_cons in Hnd as [Hni Hnd]. simpl in Hx, Hu. subst id.
  intros [<-|Hin]%elem_of_cons.
  - exists f. split; [done|]. unfold applyUps. simpl. rewrite bool_decide_eq_true_2 by done.
    apply (applyUps_other ups). rewrite (Hid e f Hu). apply Forall_forall. intros x Hin Heq.
    apply Hni, list_elem_of_fmap. apply list_elem_of_lookup in Hin as [i Hi].
    destruct (Forall2_lookup_r _ _ _ _ _ Hf Hi) as (e2 & Hi2 & Hx & _).
    exists e2. split; [congruence|by eapply list_elem_of_lookup_2].
  - destruct (IH Hnd Hin) as (f' & ? & Heq). exists f'. split; [done|]. rewrite <-Heq.
    unfold applyUps. simpl. rewrite bool_decide_eq_false_2; [done|].
    intros Heq2. apply Hni. rewrite <-Heq2. by apply list_elem_of_fmap_2.
Qed.

Lemma updates_rows (u : Row → (Row → Row) → Prop) es (db0 db1 : DB T) :
  (∀ e f, u e f → ∀ r, rowID (f r) = rowID r) → constraintsOk (trows db0) →
  es ⊆ trows db0 → NoDup es → updates u es db0 db1 →
  db1 = upd (sel db1 : T Row) db0 ∧
  ∃ g, trows db1 ≡ₚ g <$> trows db0 ∧
    ∀ r, r ∈ trows db0 → (r ∈ es ∧ ∃ f, u r f ∧ g r = f r) ∨ (r ∉ es ∧ g r = r).
Proof.
  intros Hid Hc Hsub Hnd (ups & Hf & Hp & Hd). split; [done|].
  exists (applyUps ups). split; [done|]. apply constraints_ids in Hc as Hids.
  assert (NoDup (rowID <$> es)) as Hnd'.
  { apply NoDup_fmap_2_strong; [|done]. intros x y Hx Hy. eapply NoDup_key; eauto. }
  intros r Hr. destruct (decide (rowID r ∈ rowID <$> es)) as [He|Hn].
  - left. apply list_elem_of_fmap in He as (e & Heq & Hin).
    assert (r = e) as -> by (apply (NoDup_key rowID (trows db0)); auto). split; [done|]. by eapply applyUps_entry.
  - right. assert (r ∉ es) as Hni by (intros ?; by apply Hn, list_elem_of_fmap_2).
    split; [done|]. apply applyUps_other, Forall_forall. intros x Hin Heq.
    apply list_elem_of_lookup in Hin as [i Hi].
    destruct (Forall2_lookup_r _ _ _ _ _ Hf Hi) as (e2 & Hi2%list_elem_of_lookup_2 & Hx & _).
    apply Hni. replace r with e2; [done|].
    apply (NoDup_key rowID (trows db0)); [done|by apply Hsub|done|congruence].
Qed.
End tree_specs.

(** ** Soft deletion below a directory *)

Section soften.
Context {T : Type → Type} `{SqlLaws T} {Row : Type} `{SqlRow Row, !TreeRow Row, !TreeLaws Row}.
Implicit Types rs : list Row.

(** Live rows below [path] may have been marked; nothing else happened. *)
Definition softened (path : string) (rs rs' : list Row) : Prop :=
  ∃ g, rs' ≡ₚ g <$> rs ∧
    ∀ r, r ∈ rs → g r = r ∨ (beneath (T := T) path r = true ∧ ∃ n, g r = markDeleted n r).

(** Live, and not below [path]. *)
Definition liveOutside (path : string) (r : Row) : Prop :=
  rowDeleted r = false ∧ beneath (T := T) path r = false.

#[export] Instance liveOutside_dec path r : Decision (liveOutside path r).
Proof. unfold liveOutside. apply _. Defined.

Lemma beneath_marked path n (r : Row) : beneath (T := T) path (markDeleted n r) = false.
Proof. unfold beneath. rewrite mark_deleted. apply andb_false_r. Qed.

Lemma beneath_live path (r : Row) : beneath (T := T) path r = true → rowDeleted r = false.
Proof. unfold beneath. intros. by bool_prop. Qed.

Lemma softened_refl path rs : softened path rs rs.
Proof. exists id. split; [by rewrite list_fmap_id|by left]. Qed.

Lemma softened_trans path rs1 rs2 rs3 :
  softened path rs1 rs2 → softened path rs2 rs3 → softened path rs1 rs3.
Proof.
  intros (g1 & Hp1 & Hg1) (g2 & Hp2 & Hg2). exists (g2 ∘ g1).
  split; [by rewrite Hp2, Hp1, list_fmap_compose|]. intros r Hr. simpl.
  assert (g1 r ∈ rs2) as Hr2 by (rewrite Hp1; by apply list_elem_of_fmap_2).
  destruct (Hg1 r Hr) as [Heq|[Hu [n Hn]]].
  - rewrite Heq in *. auto.
  - rewrite Hn in *. destruct (Hg2 _ Hr2) as [->|[Hf _]]; [eauto|].
    by rewrite beneath_marked in Hf.
Qed.

Lemma softened_constraints path rs rs' : softened path rs rs' → constraintsOk rs → constraintsOk rs'.
Proof.
  intros (g & Hp & Hg). unfold constraintsOk. rewrite tree_unique.
  assert (∀ (c : Row → string), (∀ n r, c (markDeleted n r) = c r) → c <$> rs' ≡ₚ c <$> rs) as Hcol.
  { intros c Hc. rewrite Hp, <-list_fmap_compose. apply Permutation_refl', fmap_perm_ext.
    intros r Hr. simpl. by destruct (Hg r Hr) as [->|[_ [n ->]]]. }
  intros [Hi [Hq _]%Forall_cons]%Forall_cons. repeat constructor; simpl in *.
  - by rewrite (Hcol rowID mark_id).
  - by rewrite (Hcol rowPath mark_path).
Qed.

Lemma softened_filter path (P : Row → Prop) `{∀ r, Decision (P r)} rs rs' :
  (∀ r, P r → liveOutside path r) → softened path rs rs' → filter P rs' ≡ₚ filter P rs.
Proof.
  intros HP (g & Hp & Hg). rewrite Hp. clear Hp. induction rs as [|a rs IH]; [done|].
  rewrite fmap_cons, !filter_cons.
  specialize (IH ltac:(intros; apply Hg; by right)).
  destruct (Hg a ltac:(left)) as [->|[Hu [n ->]]].
  - case_decide; [by f_equiv|done].
  - rewrite !decide_False; [done|by intros [_ ?]%HP; congruence|].
    intros [Hd _]%HP. by rewrite mark_deleted in Hd.
Qed.

Lemma softened_outside path rs rs' :
  softened path rs rs' → filter (liveOutside path) rs' ≡ₚ filter (liveOutside path) rs.
Proof. by apply softened_filter. Qed.

(** When nothing live is left below the directory, the live rows are the ones
    outside it. *)
Lemma softened_emptied path rs rs' :
  softened path rs rs' → liveBelow (T := T) path rs' = [] →
  filter (λ r, rowDeleted r = false) rs' ≡ₚ filter (liveOutside path) rs.
Proof.
  intros Hs He. rewrite <-(softened_outside _ _ _ Hs). apply Permutation_refl', filter_ext_in.
  intros r Hr. unfold liveOutside. split; [|naive_solver]. intros Hd. split; [done|].
  destruct (beneath path r) eqn:E; [|done].
  assert (r ∈ liveBelow (T := T) path rs') as Hin by (by apply list_elem_of_filter).
  rewrite He in Hin. by apply elem_of_nil in Hin.
Qed.
End soften.
Arguments softened T {_ Row _} path rs rs'.
Arguments liveOutside T {_ Row _} path r.

(** The outcome of a transaction: nothing, or the whole of it. *)
Lemma inTx_cases {T} b c (m : M (DB T * Sys) unit) w r w' :
  inTx b c m w = (r, w') →
  (w'.1 = w.1 ∧ ∃ e, r = Err e) ∨ (∃ s w1, m (w.1, s) = (Ok tt, w1) ∧ w'.1 = w1.1).
Proof.
  destruct w as [db s]. unfold inTx, wrapErr, onError, mbind, M_bind, beginTx, gets, modify.
  destruct (net (oracle s (tick s))); simpl; [|by intros [= <- <-]; eauto..].
  destruct (m (db, skip 1 s)) as [[[]|e] [db1 s1]] eqn:E; simpl; [|intros [= <- <-]; eauto].
  unfold commitTx. destruct (net _); simpl; intros [= <- <-]; simpl; eauto 6.
Qed.

(** ** Programs that do not run out of fuel *)

Definition fueled {W A} (m : M W A) : Prop := ∀ w, (m w).1 ≠ Err outOfFuel.

Section fueled.
Context {W : Type}.

Lemma fueled_bind {A B} (m : M W A) (f : A → M W B) :
  fueled m → (∀ a, fueled (f a)) → fueled (m ≫= f).
Proof.
  intros Hm Hf w. specialize (Hm w). unfold mbind, M_bind.
  destruct (m w) as [[a|e] w']; [apply Hf|]. simpl in *. congruence.
Qed.

Lemma fueled_wrapErr {A} msg (m : M W A) : fueled (wrapErr msg m).
Proof. intros w. unfold wrapErr. by destruct (m w) as [[]]. Qed.

Lemma fueled_onError {A B} (m : M W A) (c : M W B) : fueled m → fueled (onError m c).
Proof.
  intros Hm w. specialize (Hm w). unfold onError. destruct (m w) as [[a|e] w']; [done|].
  by destruct (c w').
Qed.

Lemma fueled_deferring {A B} (m : M W A) (c : M W B) : fueled m → fueled (deferring m c).
Proof.
  intros Hm w. specialize (Hm w). unfold deferring. destruct (m w) as [r w']. by destruct (c w').
Qed.
End fueled.

Section manager_specs.
Context {Sg L St : Type} {T : Type → Type}.
Context `{StorageAdapter Sg} `{DistributedLock L} `{SqlLaws T}.
Context (dm : DirectoryManager).
Notation World := (World Sg L St T).

Lemma fueled_onDB {A} (m : M (DB T * Sys) A) : fueled m → fueled (onDB (Sg := Sg) (L := L) (St := St) m).
Proof. intros Hm w. specialize (Hm (db w, sys w)). unfold onDB. by destruct (m _) as [r []]. Qed.

(** Programs that leave the database alone. *)
Definition keepsDB {A} (m : M World A) : Prop := ∀ w, db (m w).2 = db w.

Lemma keepsDB_onStore {A} (m : M (Sg * Sys) A) : keepsDB (onStore m).
Proof. intros w. unfold onStore. by destruct (m _) as [r []]. Qed.

Lemma keepsDB_ignore {A} (m : M World A) : keepsDB m → keepsDB (ignore m).
Proof. intros Hm w. specialize (Hm w). unfold ignore. by destruct (m w). Qed.

Lemma forEach_best_effort {A} (f : A → M World unit) l w :
  (∀ x, keepsDB (f x) ∧ ∀ w, (f x w).1 = Ok tt) →
  (forEach f l w).1 = Ok tt ∧ db (forEach f l w).2 = db w.
Proof.
  intros Hf. revert w. induction l as [|x l IH]; intros w; [done|]. simpl.
  unfold mbind, M_bind. destruct (Hf x) as [Hk Ho]. specialize (Hk w). specialize (Ho w).
  destruct (f x w) as [r w1]. simpl in *. subst r. destruct (IH w1) as [-> ->]. done.
Qed.

Lemma best_effort {A B} (b : bool) (f : A → M (Sg * Sys) B) (x : A) :
  keepsDB (if b then ignore (onStore (f x)) else mret tt) ∧
  ∀ w : World, ((if b then ignore (onStore (f x)) else mret tt) w).1 = Ok tt.
Proof.
  destruct b; (split; [|intros w]); [apply keepsDB_ignore, keepsDB_onStore| |done|done].
  unfold ignore. by destruct (onStore _ w).
Qed.

(** A query of the manager reads the table and changes nothing. *)
Lemma query_spec {Row A} `{SqlRow Row, !TreeRow Row, !TableOf T Row} msg (f : list Row → A)
    (w : World) r w' :
  onDB (wrapErr msg (onTree (select (λ rs, Ok (f rs))))) w = (r, w') →
  db w' = db w ∧ r ≠ Err outOfFuel ∧ (∀ a, r = Ok a → a = f (rows (sel (db w) : T Row))).
Proof.
  unfold onDB, wrapErr. destruct (onTree _ (db w, sys w)) as [r0 [d s]] eqn:E.
  apply onTree_select in E as [Hd Ho]. simpl in *. intros [= <- <-]. simpl.
  split_and!; [done|by destruct r0|]. intros a Ha.
  destruct r0 as [a0|]; simplify_eq/=. by specialize (Ho _ eq_refl); simplify_eq.
Qed.

(** The queries for what is below a directory. *)
Lemma childrenQuery_spec {Row A} `{SqlRow Row, !TreeRow Row, !TableOf T Row} msg path
    (g : list Row → A) (w : World) r w' :
  onDB (wrapErr msg (onTree (select (λ rs, Ok (g (childrenOf (T := T) path rs)))))) w = (r, w') →
  db w' = db w ∧ r ≠ Err outOfFuel ∧
  (∀ a, r = Ok a → a = g (liveBelow (T := T) path (rows (sel (db w) : T Row)))).
Proof.
  intros (Hd & Hf & Ha)%(query_spec msg (λ rs, g (childrenOf (T := T) path rs))).
  split_and!; [done|done|]. intros a Hr. by rewrite (Ha a Hr), childrenOf_below.
Qed.

Section batches_spec.
Context {Row : Type} `{SqlRow Row, !TreeRow Row, !TreeLaws Row, !TableOf T Row}.
Notation trows db := (rows (sel db : T Row)).

Lemma fueled_softDeleteAll msg es : fueled (softDeleteAll (T := T) (Row := Row) msg es).
Proof.
  induction es as [|e es IH]; [by intros []|]. simpl. apply fueled_bind; [by intros []|intros n].
  apply fueled_bind; [apply fueled_wrapErr|done].
Qed.

(** One batch, committed or not. *)
Lemma batch_spec b c msg path es (d : DB T) s r d' s' :
  constraintsOk (trows d) → es = take batchSize (liveBelow (T := T) path (trows d)) →
  inTx b c (softDeleteAll (Row := Row) msg es) (d, s) = (r, (d', s')) →
  r ≠ Err outOfFuel ∧ d' = upd (sel d' : T Row) d ∧ softened T path (trows d) (trows d') ∧
  (r = Ok tt → es ≠ [] →
   length (liveBelow (T := T) path (trows d')) < length (liveBelow (T := T) path (trows d))).
Proof.
  intros Hc Hes E.
  assert (r ≠ Err outOfFuel) as Hfuel.
  { assert (fueled (inTx b c (softDeleteAll (T := T) (Row := Row) msg es))) as Hf.
    { unfold inTx. apply fueled_bind; [apply fueled_wrapErr|intros _].
      apply fueled_bind; [by intros []|intros d0].
      apply fueled_bind; [apply fueled_onError, fueled_softDeleteAll|intros _].
      apply fueled_wrapErr. }
    specialize (Hf (d, s)). by rewrite E in Hf. }
  assert (∀ e, e ∈ es → e ∈ trows d ∧ beneath (T := T) path e = true) as Hin.
  { subst es. intros e (i & Hi & _)%elem_of_take. apply list_elem_of_lookup_2 in Hi.
    apply list_elem_of_filter in Hi as [? ?]. done. }
  assert (NoDup es) as Hnd.
  { subst es. eapply sublist_NoDup; [|apply sublist_take]. apply NoDup_filter.
    eapply NoDup_fmap_1. by apply constraints_ids. }
  apply inTx_cases in E as [[Hd [e He]]|(s1 & w1 & Hm & Hd)]; simpl in Hd.
  - subst. split_and!; [done|by rewrite upd_sel|apply softened_refl|done].
  - apply softDeleteAll_ok in Hm. simpl in Hm. rewrite <-Hd in Hm.
    apply updates_rows in Hm as (Hu & g & Hp & Hg);
      [|intros ? ? [n ->] ?; apply mark_id|done|by intros e [? _]%Hin|done].
    split_and!; [done|done| |].
    + exists g. split; [done|]. intros r0 Hr. destruct (Hg r0 Hr) as [(He & f & (n & ->) & Hgr)|[_ ?]];
        [|by left]. right. split; [by apply Hin|eauto].
    + intros _ Hne. unfold liveBelow. rewrite Hp.
      destruct es as [|e0 es0]; [done|]. destruct (Hin e0 ltac:(left)) as [He0 Hu0].
      apply (filter_shrink_lt _ g _ e0); [|done|done|].
      * intros x Hx. destruct (Hg x Hx) as [(He & f & (n & ->) & ->)|[_ ->]]; [|done].
        by rewrite beneath_marked.
      * destruct (Hg e0 He0) as [(_ & f & (n & ->) & ->)|[Hn _]].
        -- by rewrite beneath_marked.
        -- by destruct Hn; left.
Qed.

Lemma deleteBatches_spec fuel qm bm um cm path (after : Row → M World unit) (w : World) r w' :
  (∀ x, keepsDB (after x) ∧ ∀ w, (after x w).1 = Ok tt) →
  constraintsOk (trows (db w)) →
  length (liveBelow (T := T) path (trows (db w))) < fuel →
  deleteBatches fuel qm bm um cm path after w = (r, w') →
  r ≠ Err outOfFuel ∧ db w' = upd (sel (db w') : T Row) (db w) ∧
  softened T path (trows (db w)) (trows (db w')) ∧
  (r = Ok tt → liveBelow (T := T) path (trows (db w')) = []).
Proof.
  intros Hafter. revert w. induction fuel as [|fuel IH]; intros w Hc Hlen E; [lia|].
  cbn [deleteBatches] in E. unfold mbind at 1, M_bind at 1 in E.
  destruct (onDB (queryBatch qm path) w) as [r1 w1] eqn:Eq.
  apply (childrenQuery_spec _ _ (take batchSize)) in Eq as (Hd1 & Hf1 & Hq). rewrite <-Hd1 in Hc, Hlen, Hq |- *. clear Hd1.
  destruct r1 as [es|e]; cbn beta iota in E.
  2:{ simplify_eq. split_and!; [congruence|by rewrite upd_sel|apply softened_refl|done]. }
  specialize (Hq es eq_refl). cbn beta in Hq. destruct es as [|e0 es0].
  { injection E as <- <-. split_and!; [done|by rewrite upd_sel|apply softened_refl|].
    intros _. destruct (liveBelow path (trows (db w1))); [done|discriminate Hq]. }
  set (es := e0 :: es0) in *. unfold mbind at 1, M_bind at 1, onDB at 1 in E.
  destruct (inTx bm cm (softDeleteAll um es) (db w1, sys w1)) as [r2 [d2 s2]] eqn:Et.
  apply (batch_spec _ _ _ path) in Et as (Hf2 & Hd2 & Hs2 & Hlt); [|done|done].
  destruct r2 as [[]|e2]; [|simplify_eq; split_and!; by simpl]. specialize (Hlt eq_refl ltac:(done)).
  cbv zeta beta iota in E. unfold mbind, M_bind in E.
  match type of E with context [forEach after es ?v] =>
    set (w2 := v) in E; destruct (forEach_best_effort after es w2 Hafter) as [Hfo Hfd];
    destruct (forEach after es w2) as [r3 w3] end.
  simpl in Hfo, Hfd. subst r3. apply IH in E as (Hf & Hd & Hs & Hok);
    rewrite Hfd in *; [|by eapply softened_constraints|lia].
  split_and!; [done|by eapply upd_trans|by eapply softened_trans|done].
Qed.
End batches_spec.

Lemma lockDirectory_spec {A} path (m : M World A) (w : World) r w' :
  lockDirectory dm path m w = (r, w') →
  (∃ e, r = Err (ErrWrap "failed to acquire directory lock" e) ∧ db w' = db w) ∨
  (∃ w1 w2, db w1 = db w ∧ m w1 = (r, w2) ∧ db w' = db w2).
Proof.
  unfold lockDirectory. destruct (dmLock dm); [|intros E; right; by exists w, w'].
  unfold mbind, M_bind, wrapErr, acquire. destruct (AcquireLock _ _ _ _ _ _) as [[rl l] t].
  destruct rl as [token|e]; simpl; [|intros [= <- <-]; left; eauto].
  unfold deferring. match goal with |- context [m ?v] => destruct (m v) as [r2 w2] eqn:E end.
  unfold ignore, release. destruct (Unlock _ _ _ _). intros [= <- <-]. right.
  by eexists _, w2; split_and!; [|exact E|].
Qed.

Lemma DMExists_spec p (w : World) r w' :
  DMExists p w = (r, w') → db w' = db w ∧ ∃ b, r = Ok b.
Proof.
  unfold DMExists, DirExists, onDB, catch, mbind, M_bind, wrapErr, onDirectories, dbCall, faulty.
  simpl. destruct (net _); simpl; intros [= <- <-]; (split; [by destruct (db w)|eauto]).
Qed.

(** The live record of a path. *)
Lemma DirGetByPath_spec path (w : World) r w' :
  onDB (DirGetByPath path) w = (r, w') →
  db w' = db w ∧ r ≠ Err outOfFuel ∧
  ∀ meta, r = Ok (Some meta) →
    meta ∈ rows (directories (db w)) ∧ dirLiveAt (NormalizePath path) meta = true.
Proof.
  intros E. assert (DirGetByPath (T := T) path =
    wrapErr "failed to scan directory metadata" (onTree (select (λ rs : list DirectoryMetadata,
      Ok (head (filter (λ r, dirLiveAt (NormalizePath path) r = true) rs)))))) as Heq by done.
  rewrite Heq in E. apply query_spec in E as (Hd & Hf & Hq).
  split_and!; [done|done|]. intros meta Hr. specialize (Hq _ Hr). symmetry in Hq.
  assert (meta ∈ filter (λ r, dirLiveAt (NormalizePath path) r = true)
            (rows (sel (db w) : T DirectoryMetadata))) as Hin.
  { destruct (filter _ _); simplify_eq/=. by left. }
  by apply list_elem_of_filter in Hin as [? ?].
Qed.

(** It is marked, and nothing else. *)
Definition removedAt (own : string) (rs rs' : list DirectoryMetadata) : Prop :=
  ∃ n, rs' ≡ₚ (λ r, if dirLiveAt own r then markDeleted n r else r) <$> rs.

Lemma DirRemove_spec now own meta (d : DB T) s r d' s' :
  constraintsOk (rows (directories d)) → meta ∈ rows (directories d) → dirLiveAt own meta = true →
  DirRemove now (dID meta) (d, s) = (r, (d', s')) →
  d' = setDirectories (directories d') d ∧ r ≠ Err outOfFuel ∧
  (d' = d ∧ r ≠ Ok tt ∨ removedAt own (rows (directories d)) (rows (directories d'))).
Proof.
  intros Hc Hin Hl E. unfold DirRemove, wrapErr, onDirectories, dbCall, faulty in E.
  assert (∀ t, rows t ≡ₚ updateRows (λ r, bool_decide (dID r = dID meta)) (markDeleted now)
                (rows (directories d)) → removedAt own (rows (directories d)) (rows t)) as Hrm.
  { intros t Ht. exists now. rewrite Ht. apply Permutation_refl', fmap_perm_ext. intros x Hx.
    unfold constraintsOk in Hc. simpl in Hc. apply Forall_cons in Hc as [Hid [Hpath _]%Forall_cons].
    unfold dirLiveAt in *. bool_prop. case_bool_decide as He.
    - rewrite (NoDup_key dID _ x meta Hid Hx Hin He).
      rewrite bool_decide_eq_true_2 by done. by destruct (dIsDeleted meta).
    - destruct (bool_decide (dPath x = own)) eqn:Ep; [|done]. bool_prop.
      assert (x = meta) as -> by (apply (NoDup_key dPath _ x meta Hpath Hx Hin); congruence). done. }
  destruct (update_cases (λ r, bool_decide (dID r = dID meta)) (markDeleted now) (directories d))
    as [(t & Hu & Hp & _)|(e & Hu & _)]; destruct (net _); simpl in *; rewrite ?Hu in E;
    simplify_eq/=; (split_and!; [by destruct d|done|]); first [by left; destruct d|by right; apply Hrm].
Qed.

Lemma removeRecord_spec path (w : World) r w' :
  constraintsOk (rows (directories (db w))) → removeRecord path w = (r, w') →
  db w' = setDirectories (directories (db w')) (db w) ∧ r ≠ Err outOfFuel ∧
  (db w' = db w ∧ r ≠ Ok tt ∨
   removedAt (NormalizePath path) (rows (directories (db w))) (rows (directories (db w')))).
Proof.
  intros Hc E. unfold removeRecord in E. unfold mbind at 1, M_bind at 1, wrapErr in E.
  destruct (onDB (DirGetByPath path) w) as [r1 w1] eqn:Eg.
  apply DirGetByPath_spec in Eg as (Hd & _ & Hm). rewrite <-Hd in *. clear Hd.
  assert (db w1 = setDirectories (directories (db w1)) (db w1)) as Hid by (by destruct (db w1)).
  destruct r1 as [[meta|]|e]; simpl in E;
    [|injection E as <- <-; by auto..].
  destruct (Hm meta eq_refl) as [Hin Hl]. unfold mbind, M_bind, nowString, onOS, onDB in E. simpl in E.
  match type of E with context [DirRemove ?n ?i ?x] =>
    destruct (DirRemove n i x) as [r2 [d2 s2]] eqn:Er end.
  eapply DirRemove_spec in Er as (? & ? & ?); [|done..]. simplify_eq. done.
Qed.

Lemma removedAt_filter own (P : DirectoryMetadata → Prop) `{∀ x, Decision (P x)} rs rs' :
  (∀ r, P r → dirLiveAt own r = false) → (∀ n r, ¬ P (markDeleted n r)) →
  removedAt own rs rs' → filter P rs' ≡ₚ filter P rs.
Proof.
  intros HP Hm [n Hp]. rewrite Hp. clear Hp. induction rs as [|a rs IH]; [done|].
  rewrite fmap_cons, !filter_cons. destruct (dirLiveAt own a) eqn:E.
  - rewrite !decide_False; [done| |apply Hm]. intros Ha%HP. congruence.
  - case_decide; [by f_equiv|done].
Qed.

Lemma removedAt_gone own rs rs' r :
  removedAt own rs rs' → r ∈ rs' → rowDeleted r = false → dPath r ≠ own.
Proof.
  intros [n Hp] Hr Hd Ho. rewrite Hp in Hr. apply list_elem_of_fmap in Hr as (r0 & -> & _).
  destruct (dirLiveAt own r0) eqn:E; [done|]. unfold dirLiveAt in E.
  rewrite bool_decide_eq_true_2 in E by done. simpl in *. by rewrite Hd in E.
Qed.

Notation frows d := (rows (files d)).
Notation drows d := (rows (directories d)).

(** What a deletion of the directory [q], its own record being at [own], may have
    done at any time, and what it has done at its end. *)
Definition deleting (q own : string) (d d' : DB T) : Prop :=
  filter (liveOutside T q) (frows d') ≡ₚ filter (liveOutside T q) (frows d) ∧
  filter (λ r, liveOutside T q r ∧ dPath r ≠ own) (drows d') ≡ₚ
    filter (λ r, liveOutside T q r ∧ dPath r ≠ own) (drows d).

Definition deleted (q own : string) (d d' : DB T) : Prop :=
  filter (λ r, fIsDeleted r = false) (frows d') ≡ₚ filter (liveOutside T q) (frows d) ∧
  filter (λ r, dIsDeleted r = false) (drows d') ≡ₚ
    filter (λ r, liveOutside T q r ∧ dPath r ≠ own) (drows d).

Lemma deleting_refl q own d : deleting q own d d.
Proof. done. Qed.

Lemma dirs_softened q own (rs rs' : list DirectoryMetadata) :
  softened T q rs rs' →
  filter (λ r, liveOutside T q r ∧ dPath r ≠ own) rs' ≡ₚ
  filter (λ r, liveOutside T q r ∧ dPath r ≠ own) rs.
Proof. apply softened_filter. by intros r [? _]. Qed.

(** The three stages of a deletion. *)
Lemma deleting_stages q own (d d1 d2 d3 : DB T) :
  d1 = setFiles (files d1) d → softened T q (frows d) (frows d1) →
  d2 = setDirectories (directories d2) d1 → softened T q (drows d1) (drows d2) →
  d3 = setDirectories (directories d3) d2 → d3 = d2 ∨ removedAt own (drows d2) (drows d3) →
  deleting q own d d3 ∧
  (liveBelow (T := T) q (frows d1) = [] → liveBelow (T := T) q (drows d2) = [] →
   removedAt own (drows d2) (drows d3) → deleted q own d d3).
Proof.
  intros E1 Hs1 E2 Hs2 E3 Hr.
  assert (files d3 = files d1) as Hf by (rewrite E3, E2; done).
  assert (directories d1 = directories d) as Hd by (rewrite E1; done).
  rewrite Hd in Hs2.
  assert (∀ (P := λ r, liveOutside T q r ∧ dPath r ≠ own),
    removedAt own (drows d2) (drows d3) → filter P (drows d3) ≡ₚ filter P (drows d2)) as Hrm.
  { intros P. apply removedAt_filter.
    - intros r [_ Hne]. unfold dirLiveAt. by rewrite bool_decide_eq_false_2.
    - by intros n r [[Hx _] _]. }
  split.
  - unfold deleting. rewrite Hf, (softened_outside _ _ _ Hs1). split; [done|].
    rewrite <-(dirs_softened q own _ _ Hs2). destruct Hr as [->|Hr]; [done|]. by apply Hrm.
  - intros He1 He2 Hr'. unfold deleted. rewrite Hf.
    split; [exact (softened_emptied _ _ _ Hs1 He1)|].
    rewrite <-(dirs_softened q own _ _ Hs2), <-(Hrm Hr').
    apply Permutation_refl', filter_ext_in. intros r Hin. split; [|by intros [[? _] _]].
    intros Hl. pose proof (removedAt_gone _ _ _ _ Hr' Hin Hl). split; [|done]. split; [done|].
    destruct (beneath q r) eqn:Eu; [exfalso|done].
    assert (r ∈ drows d2) as Hin2.
    { destruct Hr' as [n Hp]. rewrite Hp in Hin. apply list_elem_of_fmap in Hin as (r0 & Heq & Hr0).
      destruct (dirLiveAt own r0); simpl in *; by subst. }
    assert (r ∈ liveBelow (T := T) q (drows d2)) as Hc by (by apply list_elem_of_filter).
    rewrite He2 in Hc. by apply elem_of_nil in Hc.
Qed.

(** The body of DeleteDirectory, the lock aside. *)
Lemma delete_recursive q (w : World) r w' :
  constraintsOk (frows (db w)) → constraintsOk (drows (db w)) →
  (deleteFiles dm q ⨟ deleteDirectories dm q ⨟ removeRecord q) w = (r, w') →
  r ≠ Err outOfFuel ∧ deleting q (NormalizePath q) (db w) (db w') ∧
  (r = Ok tt → deleted q (NormalizePath q) (db w) (db w')).
Proof.
  intros Hcf Hcd E. unfold mbind at 1, M_bind at 1 in E.
  destruct (deleteFiles dm q w) as [r1 w1] eqn:E1.
  unfold deleteFiles, fuelFor, mbind, M_bind, gets in E1.
  apply (deleteBatches_spec (Row := FileMetadata)) in E1 as (Hf1 & Hd1 & Hs1 & Hc1);
    [|intros x; apply (best_effort (dmStore dm) (λ e, Remove (fPath e)) x)|done
     |apply Nat.lt_succ_r, length_filter].
  assert (∀ d : DB T, d = setDirectories (directories d) d) as Hid by (by intros []).
  assert (∀ d : DB T, d = d ∨ removedAt (NormalizePath q) (drows d) (drows d)) as Hsame by (by left).
  destruct r1 as [[]|e1]; cycle 1.
  { injection E as <- <-. split_and!; [congruence| |done].
    by apply (deleting_stages _ _ _ _ _ _ Hd1 Hs1 (Hid _) (softened_refl _ _) (Hid _)). }
  unfold mbind, M_bind in E. destruct (deleteDirectories dm q w1) as [r2 w2] eqn:E2.
  assert (directories (db w1) = directories (db w)) as Hdirs by (rewrite Hd1; done).
  unfold deleteDirectories, fuelFor, mbind, M_bind, gets in E2.
  apply (deleteBatches_spec (Row := DirectoryMetadata)) in E2 as (Hf2 & Hd2 & Hs2 & Hc2);
    [|intros x; apply (best_effort (supportsDirectoryStorageOps dm) (λ e, RemoveDirectory (dPath e)) x)
     |simpl; by rewrite Hdirs|apply Nat.lt_succ_r, length_filter].
  destruct r2 as [[]|e2]; cycle 1.
  { injection E as <- <-. split_and!; [congruence| |done].
    by apply (deleting_stages _ _ _ _ _ _ Hd1 Hs1 Hd2 Hs2 (Hid _)). }
  apply removeRecord_spec in E as (Hd3 & Hf3 & Hcase);
    [|eapply (softened_constraints (T := T)); [exact Hs2|simpl; by rewrite Hdirs]].
  edestruct (deleting_stages _ (NormalizePath q) _ _ _ _ Hd1 Hs1 Hd2 Hs2 Hd3) as [Hx Hy];
    [by destruct Hcase as [[? _]|?]; auto|].
  split_and!; [done|done|]. intros ->. apply Hy; [by apply Hc1|by apply Hc2|].
  by destruct Hcase as [[_ ?]|?].
Qed.

Lemma countChildren_spec {Row} `{SqlRow Row, !TreeRow Row, !TableOf T Row} path (w : World) r w' :
  onDB (countChildren (Row := Row) path) w = (r, w') →
  db w' = db w ∧ r ≠ Err outOfFuel ∧
  (∀ n, r = Ok n → n = length (liveBelow (T := T) path (rows (sel (db w) : T Row)))).
Proof. unfold countChildren. by intros (? & ? & ?)%(childrenQuery_spec _ _ length). Qed.

(** The other branch: the directory has to be empty. *)
Lemma delete_empty q (w : World) r w' :
  constraintsOk (drows (db w)) →
  (fileCount ← onDB (countChildren (Row := FileMetadata) q);
   guard (negb (0 <? fileCount)%nat) (ErrMsg "directory is not empty") ⨟
   dirCount ← onDB (countChildren (Row := DirectoryMetadata) q);
   guard (negb (0 <? dirCount)%nat) (ErrMsg "directory is not empty") ⨟
   removeRecord q) w = (r, w') →
  r ≠ Err outOfFuel ∧ deleting q (NormalizePath q) (db w) (db w') ∧
  files (db w') = files (db w) ∧
  (r = Ok tt → deleted q (NormalizePath q) (db w) (db w') ∧
     liveBelow (T := T) q (frows (db w)) = [] ∧ liveBelow (T := T) q (drows (db w)) = []).
Proof.
  intros Hcd E. unfold mbind at 1, M_bind at 1 in E.
  destruct (onDB (countChildren q) w) as [r1 w1] eqn:E1.
  apply (countChildren_spec (Row := FileMetadata)) in E1 as (Hd1 & Hf1 & Hn1). rewrite <-Hd1 in *.
  clear Hd1. simpl in Hn1.
  destruct r1 as [n1|e1]; [|injection E as <- <-; split_and!; [congruence|done..]].
  specialize (Hn1 n1 eq_refl). unfold mbind at 1, M_bind at 1, guard at 1 in E.
  destruct n1 as [|n1]; simpl in E; [|by simplify_eq].
  unfold mbind at 1, M_bind at 1 in E.
  destruct (onDB (countChildren q) w1) as [r2 w2] eqn:E2.
  apply (countChildren_spec (Row := DirectoryMetadata)) in E2 as (Hd2 & Hf2 & Hn2).
  rewrite <-Hd2 in *. clear Hd2. simpl in Hn2.
  destruct r2 as [n2|e2]; [|injection E as <- <-; split_and!; [congruence|done..]].
  specialize (Hn2 n2 eq_refl). unfold mbind at 1, M_bind at 1, guard at 1 in E.
  destruct n2 as [|n2]; simpl in E; [|by simplify_eq].
  symmetry in Hn1, Hn2. apply nil_length_inv in Hn1, Hn2.
  apply removeRecord_spec in E as (Hd3 & Hf3 & Hcase); [|done].
  edestruct (deleting_stages q (NormalizePath q) (db w2) (db w2) (db w2) (db w')) as [Hx Hy];
    [by destruct (db w2)|apply softened_refl|by destruct (db w2)|apply softened_refl|done
    |by destruct Hcase as [[? _]|?]; auto|].
  split_and!; [done|done|by rewrite Hd3|]. intros ->. split; [|done]. apply Hy; [done..|].
  by destruct Hcase as [[_ ?]|?].
Qed.

(** ** Renaming *)

(** Every live row below [oldPath] moved with it, and no other row touched. *)
Definition movedUnder {Row} `{TreeRow Row} (oldPath newPath now : string) (r : Row) : Row :=
  if beneath (T := T) oldPath r
  then let p := newItemPath oldPath newPath r in setPath p (GetFileName p) now r
  else r.

(** The database after the whole rename. *)
Definition renamed (oldPath newPath newName now : string) (d d' : DB T) : Prop :=
  frows d' ≡ₚ movedUnder oldPath newPath now <$> frows d ∧
  drows d' ≡ₚ (λ r, if dirLiveAt (NormalizePath oldPath) r
                    then setPath newPath newName now r
                    else movedUnder oldPath newPath now r) <$> drows d.

Lemma moveAll_spec {Row} `{SqlRow Row, !TreeRow Row, !TreeLaws Row, !TableOf T Row}
    msg oldPath newPath now es (d : DB T) s d' s' x :
  constraintsOk (rows (sel d : T Row)) → es = liveBelow (T := T) oldPath (rows (sel d : T Row)) →
  moveAll msg oldPath newPath now es (d, s) = (Ok x, (d', s')) →
  d' = upd (sel d' : T Row) d ∧
  rows (sel d' : T Row) ≡ₚ movedUnder oldPath newPath now <$> rows (sel d : T Row).
Proof.
  intros Hc -> E. apply moveAll_ok in E. simpl in E.
  apply updates_rows in E as (Hu & g & Hp & Hg);
    [|intros e f -> r; apply move_id|done|by intros e [_ ?]%list_elem_of_filter
     |apply NoDup_filter; eapply NoDup_fmap_1; by apply constraints_ids].
  split; [done|]. rewrite Hp. apply Permutation_refl', fmap_perm_ext. intros r Hr.
  unfold movedUnder. destruct (Hg r Hr) as [([-> _]%list_elem_of_filter & f & -> & ->)|[Hn ->]]; [done|].
  destruct (beneath oldPath r) eqn:Eu; [|done].
  destruct Hn. by apply list_elem_of_filter.
Qed.

Lemma renameTx_spec oldPath newPath newName now meta fes des (d : DB T) s d' s' r :
  constraintsOk (frows d) → constraintsOk (drows d) →
  meta ∈ drows d → dirLiveAt (NormalizePath oldPath) meta = true →
  fes = liveBelow (T := T) oldPath (frows d) → des = liveBelow (T := T) oldPath (drows d) →
  renameTx oldPath newPath newName now meta fes des (d, s) = (r, (d', s')) →
  (d' = d ∧ r ≠ Ok tt) ∨ renamed oldPath newPath newName now d d'.
Proof.
  intros Hcf Hcd Hm Hl -> -> E. unfold renameTx in E.
  apply inTx_cases in E as [[Hd [e ->]]|(s1 & [d3 s3] & E & Hd)]; simpl in Hd; subst; [by left|].
  right. simpl in E. run_ok E. destruct w as [d1 s1'], w0 as [d2 s2'].
  apply (moveAll_spec (Row := FileMetadata)) in Hr as [Hd1 Hp1]; [|done..].
  assert (directories d1 = directories d) as Hdirs by (rewrite Hd1; done). rewrite <-Hdirs in *.
  apply (moveAll_spec (Row := DirectoryMetadata)) in Hr0 as [Hd2 Hp2]; [|done..].
  apply execById_ok in E as [Hp3 Hd3]. simpl in *.
  assert (files d3 = files d1) as Hf by (rewrite Hd3, Hd2; done).
  split; [by rewrite Hf|]. rewrite Hp3, Hp2, <-list_fmap_compose, Hdirs.
  apply Permutation_refl', fmap_perm_ext. clear r. intros r Hr. rewrite <-Hdirs in Hr. simpl.
  unfold constraintsOk in Hcd. apply Forall_cons in Hcd as [Hid [Hpath _]%Forall_cons].
  assert (dID (movedUnder oldPath newPath now r) = dID r) as Hmid
    by (unfold movedUnder; by destruct (beneath _ _)).
  rewrite Hmid. unfold dirLiveAt in *. bool_prop. destruct (bool_decide (dID r = _)) eqn:Ei; bool_prop.
  - rewrite (NoDup_key dID _ r meta Hid Hr Hm Ei) in *.
    rewrite bool_decide_eq_true_2 by done. destruct meta; simpl in *; subst.
    unfold movedUnder. by destruct (beneath _ _).
  - destruct (bool_decide (dPath r = _)) eqn:Ep; [|done]. bool_prop. destruct Ei.
    f_equal. apply (NoDup_key dPath _ r meta Hpath Hr Hm). congruence.
Qed.

Lemma GetDirectoryMetadata_spec p (w : World) r w' :
  GetDirectoryMetadata p w = (r, w') →
  db w' = db w ∧ ∀ meta, r = Ok meta →
    meta ∈ drows (db w) ∧ dirLiveAt (NormalizePath (NormalizePath p)) meta = true.
Proof.
  unfold GetDirectoryMetadata, mbind, M_bind, wrapErr.
  destruct (onDB (DirGetByPath (NormalizePath p)) w) as [r1 w1] eqn:E.
  apply DirGetByPath_spec in E as (Hd & _ & Hm).
  destruct r1 as [[m|]|e]; simpl; intros [= <- <-]; (split; [done|]); [|done..].
  intros meta [= <-]. by apply Hm.
Qed.

(** ** Properties *)

(** C22: deleting a directory. The loop over batches terminates. Whatever fails on
    the way, no live file or directory outside the deleted directory is touched.
    After success the live rows are exactly those that were outside it: everything
    below is gone, the directory's own record too. Without [recursive] no file row
    changes at all and success means that nothing live was below. Below is what
    [beneath] says: the path of the row starts with the directory and a slash, whatever
    characters are in either; where LIKE folds the case of ASCII letters, on SQLite,
    they are compared without regard to it ([case_variant_deleted]). *)
Theorem directory_delete (p : string) (recursive : bool) (w : World) :
  constraintsOk (frows (db w)) → constraintsOk (drows (db w)) →
  let q := NormalizePath p in
  let '(r, w') := DMDeleteDirectory dm p recursive w in
  r ≠ Err outOfFuel ∧ deleting q (NormalizePath q) (db w) (db w') ∧
  (r = Ok tt → deleted q (NormalizePath q) (db w) (db w')) ∧
  (recursive = false →
   files (db w') = files (db w) ∧
   (r = Ok tt → liveBelow (T := T) q (frows (db w)) = [] ∧
                liveBelow (T := T) q (drows (db w)) = [])).
Proof.
  intros Hcf Hcd q. destruct (DMDeleteDirectory dm p recursive w) as [r w'] eqn:E.
  unfold DMDeleteDirectory in E. fold q in E.
  apply lockDirectory_spec in E as [(e & -> & ->)|(w1 & w2 & Hd1 & E & ->)]; [done|].
  unfold mbind at 1, M_bind at 1 in E. destruct (DMExists q w1) as [r1 w3] eqn:E1.
  apply DMExists_spec in E1 as (Hd3 & b & ->). rewrite Hd1 in Hd3. clear Hd1 w1.
  rewrite <-Hd3 in *. unfold mbind at 1, M_bind at 1, guard at 1 in E.
  destruct b; simpl in E; [|by simplify_eq]. destruct recursive.
  - apply delete_recursive in E as (? & ? & ?); by auto.
  - apply delete_empty in E as (Hf & Hx & Hs & Hok); [|done].
    split_and!; [done|done|by intros [? _]%Hok|]. intros _. split; [done|by intros [_ ?]%Hok].
Qed.

(** C21: renaming a directory is all or nothing. Whatever fails on the way, the
    database is either the old one or the one in which every live file and
    directory below the old path has moved to the same place below the new path,
    the directory's own record carries the new path and name, and every other row
    is as it was. Success means the latter. Below is what [beneath] says: the path
    starts with the directory and a slash, up to the case of ASCII letters where LIKE
    folds it. *)
Theorem directory_rename_atomic (p newName : string) (w : World) :
  constraintsOk (frows (db w)) → constraintsOk (drows (db w)) →
  let oldPath := NormalizePath p in
  let newPath := NormalizePath (GetDirectory oldPath +:+ "/" +:+ newName) in
  let '(r, w') := DMRenameDirectory dm p newName w in
  (db w' = db w ∧ r ≠ Ok tt) ∨ (∃ now, renamed oldPath newPath newName now (db w) (db w')).
Proof.
  intros Hcf Hcd oldPath newPath. destruct (DMRenameDirectory dm p newName w) as [r w'] eqn:E.
  unfold DMRenameDirectory in E. fold oldPath newPath in E.
  unfold mbind at 1, M_bind at 1, guard at 1 in E.
  destruct (negb _); simpl in E; [|left; by simplify_eq].
  apply lockDirectory_spec in E as [(e & -> & ->)|(w1 & w2 & Hd & E & ->)]; [by left|].
  rewrite <-Hd in *. clear Hd w.
  unfold mbind at 1, M_bind at 1 in E. destruct (GetDirectoryMetadata oldPath w1) as [r1 w3] eqn:E1.
  apply GetDirectoryMetadata_spec in E1 as [Hd Hm].
  rewrite <-Hd in *. clear Hd.
  destruct r1 as [meta|e1]; [|left; by simplify_eq].
  destruct (Hm meta eq_refl) as [Hin Hl]. unfold oldPath in Hl. rewrite normalize_stable in Hl.
  fold oldPath in Hl. unfold mbind at 1, M_bind at 1 in E.
  destruct (DMExists newPath w3) as [r2 w4] eqn:E2. apply DMExists_spec in E2 as (Hd & b & ->).
  rewrite <-Hd in *. clear Hd.
  unfold mbind at 1, M_bind at 1, guard at 1 in E. destruct b; simpl in E; [left; by simplify_eq|].
  unfold mbind at 1, M_bind at 1 in E. destruct (onDB (queryChildren _ _) w4) as [r3 w5] eqn:E3.
  unfold queryChildren in E3. apply (childrenQuery_spec _ _ id) in E3 as (Hd5 & _ & Hq3). rewrite <-Hd5 in *.
  clear Hd5. destruct r3 as [fes|e3]; [|left; by simplify_eq]. specialize (Hq3 fes eq_refl).
  unfold mbind at 1, M_bind at 1 in E. destruct (onDB (queryChildren _ _) w5) as [r4 w6] eqn:E4.
  unfold queryChildren in E4. apply (childrenQuery_spec _ _ id) in E4 as (Hd6 & _ & Hq4). rewrite <-Hd6 in *.
  clear Hd6. destruct r4 as [des|e4]; [|left; by simplify_eq]. specialize (Hq4 des eq_refl).
  unfold mbind at 1, M_bind at 1, nowString at 1, onOS at 1 in E. simpl in E.
  unfold mbind at 1, M_bind at 1, onDB at 1 in E. simpl in E.
  match type of E with context [renameTx _ _ _ ?n _ _ _ ?x] =>
    destruct (renameTx oldPath newPath newName n meta fes des x) as [r5 [d5 s5]] eqn:E5;
    apply renameTx_spec in E5; [|done..]; set (now := n) in * end.
  destruct r5 as [[]|e5]; simpl in E; [|by injection E as <- <-; naive_solver].
  right. exists now. destruct E5 as [[_ ?]|E5]; [done|].
  unfold mbind, M_bind in E.
  match type of E with context [forEach ?f ?l ?v] =>
    destruct (forEach_best_effort f l v) as [Ho Hk]; [|destruct (forEach f l v) as [r6 w7]] end.
  { intros x. apply (best_effort (dmStore dm) (λ e, Rename (fPath e) (newItemPath oldPath newPath e)) x). }
  simpl in Ho, Hk. subst r6.
  pose proof (best_effort (dmStore dm) (λ _ : unit, Rename oldPath newPath) tt) as [Hb _].
  specialize (Hb w7). rewrite E in Hb. simpl in Hb. by rewrite Hb, Hk.
Qed.
End manager_specs.

(** A tree with two files, one of them in the directory, and two directories. *)
Definition demoTree : demoWorld :=
  MkWorld (sys demo) (store demo)
    (MkDB [someFile "1" "a/b" "h"; someFile "2" "ab" "g"]
       [MkDir "3" "a" "a" "t" "t" false; MkDir "4" "a/c" "c" "t" "t" false] [] [] [])
    (dlock demo) (sess demo) (svc demo).

Lemma directory_delete_witness :
  let w' := (DMDeleteDirectory NewDirectoryManagerWithDistLock "/a" true demoTree).2 in
  filter (λ r, fIsDeleted r = false) (files (db w')) = [someFile "2" "ab" "g"] ∧
  deleted (T := list) "a" "a" (db demoTree) (db w').
Proof.
  split; [vm_compute; reflexivity|].
  pose proof (directory_delete NewDirectoryManagerWithDistLock "/a" true demoTree) as Hd.
  specialize (Hd ltac:(by apply constraintsOk_by_dec) ltac:(by apply constraintsOk_by_dec)).
  destruct (DMDeleteDirectory NewDirectoryManagerWithDistLock "/a" true demoTree) as [r w'] eqn:E.
  destruct Hd as (_ & _ & Hok & _). apply Hok.
  apply (f_equal (λ x, x.1)) in E. simpl in E. rewrite <-E. vm_compute. reflexivity.
Defined.

Lemma directory_rename_atomic_witness :
  let w' := (DMRenameDirectory NewDirectoryManagerWithDistLock "/a" "z" demoTree).2 in
  fPath <$> files (db w') = ["z/b"; "ab"] ∧ dPath <$> directories (db w') = ["z"; "z/c"] ∧
  ∃ now, renamed (T := list) "a" "z" "z" now (db demoTree) (db w').
Proof.
  split_and!; [vm_compute; reflexivity..|].
  pose proof (directory_rename_atomic NewDirectoryManagerWithDistLock "/a" "z" demoTree) as Hd.
  specialize (Hd ltac:(by apply constraintsOk_by_dec) ltac:(by apply constraintsOk_by_dec)).
  destruct (DMRenameDirectory NewDirectoryManagerWithDistLock "/a" "z" demoTree) as [r w'] eqn:E.
  destruct Hd as [[_ Hne]|Hd]; [|exact Hd]. destruct Hne.
  apply (f_equal (λ x, x.1)) in E. simpl in E. rewrite <-E. vm_compute. reflexivity.
Defined.

(** On an engine whose LIKE folds case the deletion of "docs" takes the file of another
    directory, "Docs", with it. *)
Module FoldingDemo.
#[local] Existing Instance ListEngine.folding.

Definition foldingTree : demoWorld :=
  MkWorld (sys demo) (store demo)
    (MkDB [someFile "1" "docs/a" "h"; someFile "2" "Docs/b" "g"]
       [MkDir "3" "docs" "docs" "t" "t" false; MkDir "4" "Docs" "Docs" "t" "t" false] [] [] [])
    (dlock demo) (sess demo) (svc demo).

Lemma case_variant_deleted :
  let r := DMDeleteDirectory NewDirectoryManagerWithDistLock "docs" true foldingTree in
  r.1 = Ok tt ∧ fIsDeleted <$> files (db r.2) = [true; true] ∧
  dIsDeleted <$> directories (db r.2) = [true; false].
Proof. vm_compute. split_and!; reflexivity. Qed.
End FoldingDemo.
