(* ===== verification/Cleanup.v ===== *)
(** * internal/database/cleanup.go: removing what was deleted long ago

    One run of the cleanup over the storage and the two tables. The time zone of the
    process, in which the cutoff is written, is a parameter, and so is how the engine
    compares the updated_at column with it: [comparesTimes] states what is relied on,
    and holds of the comparison of texts. *)

From S2P Require Export Demo.

Local Open Scope go_scope.

Record CleanupService := MkCleanup { interval : Z; retention : Z }.

Definition NewCleanupService (intervalMinutes retentionDays : Z) : CleanupService :=
  MkCleanup (wrap64 (intervalMinutes * (60 * Second)))
    (wrap64 (wrap64 (retentionDays * 24) * (3600 * Second))).

Section cleanup.
Context {Sg L St : Type} {T : Type → Type}.
Context `{StorageAdapter Sg} `{SqlEngine T}.
(** How far the local time zone is ahead of UTC at an instant. *)
Context (zone : Z → Z).
(** [updated_at < ?] *)
Context (before : string → string → bool).
Notation World := (World Sg L St T).

Definition fileExpired (cutoff : string) (r : FileMetadata) : bool :=
  fIsDeleted r && before (fUpdatedAt r) cutoff.
Definition dirExpired (cutoff : string) (r : DirectoryMetadata) : bool :=
  dIsDeleted r && before (dUpdatedAt r) cutoff.

(** [time.Format] with the layout 2006-01-02 15:04:05, in the local zone. *)
Definition localFormat (t : Z) : string := formatBlank ((t + zone t) / Second).

(** When the delivery of the rows breaks off, those before are the result. *)
Definition getDeletedFiles (cutoff : Z) : M (DB T * Sys) (list FileMetadata) :=
  queryRows (λ _ db, Ok (filter (λ r, fileExpired (localFormat cutoff) r = true) (rows (files db)))).

Definition getDeletedDirectories (cutoff : Z) : M (DB T * Sys) (list DirectoryMetadata) :=
  queryRows (λ _ db,
    Ok (filter (λ r, dirExpired (localFormat cutoff) r = true) (rows (directories db)))).

Definition permanentlyDeleteFile (id : string) : M (DB T * Sys) unit :=
  onFiles (DELETE (λ r, bool_decide (fID r = id))).

Definition permanentlyDeleteDirectory (id : string) : M (DB T * Sys) unit :=
  onDirectories (DELETE (λ r, bool_decide (dID r = id))).

(** The record goes only when the object is gone. *)
Definition cleanupFile (file : FileMetadata) : M World unit :=
  r ← catch (onStore (Remove (fPath file)));
  if match r with Ok _ => true | Err e => IsNotExist e end
  then ignore (onDB (permanentlyDeleteFile (fID file)))
  else mret tt.

Definition cleanupDirectory (dir : DirectoryMetadata) : M World unit :=
  ignore (onDB (permanentlyDeleteDirectory (dID dir))).

Definition cutoffOf (s : CleanupService) (now : Z) : Z := now - retention s.

(** The loop over the files, given what the query returned. *)
Definition cleanupFiles (files : res (list FileMetadata)) (rest : M World unit) : M World unit :=
  match files with
  | Err _ => mret tt
  | Ok files => forEach cleanupFile files ⨟ rest
  end.

Definition cleanupDirectories (cutoff : Z) : M World unit :=
  dirs ← catch (onDB (getDeletedDirectories cutoff));
  match dirs with
  | Err _ => mret tt
  | Ok dirs => forEach cleanupDirectory dirs
  end.

Definition clockNow : M World Z := onOS (λ s, (Ok (now (oracle s (tick s))), skip 1 s)).

Definition cleanup (s : CleanupService) : M World unit :=
  t ← clockNow;
  let cutoff := cutoffOf s t in
  files ← catch (onDB (getDeletedFiles cutoff));
  cleanupFiles files (cleanupDirectories cutoff).
End cleanup.

(** ** What a run leaves alone *)

Section cleanup_specs.
Context {Sg L St : Type} {T : Type → Type}.
Context `{StorageLaws Sg} `{SqlLaws T}.
Context (zone : Z → Z) (before : string → string → bool).
Notation World := (World Sg L St T).
Implicit Types w : World.

(** The rows that went satisfy [P]. *)
Definition pruned {Row} (P : Row → Prop) (rs rs' : list Row) : Prop :=
  ∃ gone, rs ≡ₚ rs' ++ gone ∧ Forall P gone.

#[export] Instance pruned_preorder {Row} (P : Row → Prop) : PreOrder (pruned P).
Proof.
  split.
  - intros rs. exists []. split; [by rewrite app_nil_r|constructor].
  - intros rs1 rs2 rs3 (g1 & Hp1 & H1') (g2 & Hp2 & H2'). exists (g2 ++ g1). split.
    + by rewrite Hp1, Hp2, <-app_assoc.
    + by apply Forall_app.
Qed.

Lemma pruned_impl {Row} (P Q : Row → Prop) (rs rs' : list Row) :
  (∀ r, P r → Q r) → pruned P rs rs' → pruned Q rs rs'.
Proof. intros HPQ (g & Hp & Hg). exists g. split; [done|]. by eapply Forall_impl. Qed.

Lemma pruned_perm {Row} (P : Row → Prop) (rs rs' : list Row) : rs ≡ₚ rs' → pruned P rs rs'.
Proof. intros Hp. exists []. split; [by rewrite app_nil_r|constructor]. Qed.

Lemma pruned_filter {Row} (P : Row → Prop) (p : Row → bool) (rs : list Row) :
  (∀ r, r ∈ rs → p r = true → P r) → pruned P rs (filter (λ r, p r = false) rs).
Proof.
  intros HP. exists (filter (λ r, p r = true) rs). split.
  - clear HP. induction rs as [|r rs IH]; [done|]. rewrite !filter_cons.
    destruct (p r); simpl.
    + rewrite <-Permutation_middle. by f_equiv.
    + by f_equiv.
  - apply Forall_forall. intros r [? ?]%list_elem_of_filter. by apply HP.
Qed.

(** One run, as seen between its calls: rows of [old] may be gone, objects of
    [keys] may be, and nothing else is different. *)
Definition cleaned (fold : FileMetadata → Prop) (dold : DirectoryMetadata → Prop)
    (keys : string → Prop) w w' : Prop :=
  pruned fold (rows (files (db w))) (rows (files (db w'))) ∧
  pruned dold (rows (directories (db w))) (rows (directories (db w'))) ∧
  (storeInv (store w) → storeInv (store w') ∧
   ∀ k, safe k → ¬ keys k →
     object (store w') (os (sys w')) k = object (store w) (os (sys w)) k).

#[export] Instance cleaned_preorder fold dold keys : PreOrder (cleaned fold dold keys).
Proof.
  split.
  - intros w. split_and!; [reflexivity..|done].
  - intros w1 w2 w3 (F1 & D1 & S1) (F2 & D2 & S2). split_and!; [by etrans..|].
    intros [I2 O2]%S1. destruct (S2 I2) as [I3 O3]. split; [done|].
    intros k Hk Hn. rewrite O3 by done. by apply O2.
Qed.

Lemma cleaned_onDB {A} fold dold keys (m : M (DB T * Sys) A) :
  (∀ w : DB T * Sys, pruned fold (rows (files w.1)) (rows (files (m w).2.1)) ∧
        pruned dold (rows (directories w.1)) (rows (directories (m w).2.1)) ∧
        os (m w).2.2 = os w.2) →
  steps (cleaned fold dold keys) (onDB (Sg := Sg) (L := L) (St := St) m).
Proof.
  intros Hm w. specialize (Hm (db w, sys w)). unfold onDB.
  destruct (m (db w, sys w)) as [r [d s]]. simpl in *. destruct Hm as (? & ? & Hos).
  split_and!; [done..|]. simpl. intros. by rewrite Hos.
Qed.

(** A query of the cleanup changes nothing and returns some of the rows. *)
Lemma queryRows_same {A} (f : nat → DB T → res (list A)) (x : DB T * Sys) r x' :
  queryRows f x = (r, x') →
  x'.1 = x.1 ∧ os x'.2 = os x.2 ∧
  ∀ l, r = Ok l → ∃ l', f (tick x.2) x.1 = Ok l' ∧ ∀ y, y ∈ l → y ∈ l'.
Proof.
  destruct x as [d s]. unfold queryRows. intros [= <- <-]. split_and!; [done|done|].
  intros l Hl. simpl. destruct (net _); [by exists l| | |]; try done.
  destruct (f (tick s) d) as [l'|]; [|done]. injection Hl as <-. exists l'. split; [done|].
  intros y (i & Hi & _)%elem_of_take. by eapply list_elem_of_lookup_2.
Qed.

Lemma delete_pruned {Row} `{SqlRow Row} (P : Row → Prop) (p : Row → bool) f (t : T Row) :
  (∀ r, r ∈ rows t → p r = true → P r) →
  pruned P (rows t) (rows (faulty f (DELETE p) t).2).
Proof.
  intros HP. unfold faulty. destruct (delete_ok p t) as (t' & -> & Ht).
  assert (pruned P (rows t) (rows t')) as Hd
    by (etrans; [by apply (pruned_filter P p)|by apply pruned_perm]).
  by destruct f; simpl.
Qed.

Lemma pruned_elem {Row} (P : Row → Prop) (rs rs' : list Row) r : pruned P rs rs' → r ∈ rs' → r ∈ rs.
Proof. intros (g & -> & _) Hr. apply elem_of_app. by left. Qed.

(** The rows to delete are known from the start. *)
Section run.
Context (cutoff : Z) (w0 : World).
Hypothesis files_ok : constraintsOk (rows (files (db w0))).
Hypothesis dirs_ok : constraintsOk (rows (directories (db w0))).
Hypothesis inv : storeInv (store w0).
Hypothesis paths_safe : ∀ r, r ∈ rows (files (db w0)) → safe (fPath r).

Definition oldFile (r : FileMetadata) : Prop := fileExpired before (localFormat zone cutoff) r = true.
Definition oldDir (r : DirectoryMetadata) : Prop := dirExpired before (localFormat zone cutoff) r = true.
Definition oldKey (k : string) : Prop :=
  ∃ r, r ∈ rows (files (db w0)) ∧ oldFile r ∧ fPath r = k.

Notation R := (cleaned oldFile oldDir oldKey).

Lemma deleteFile_cleaned f w :
  f ∈ rows (files (db w0)) → oldFile f → R w0 w →
  R w0 (onDB (permanentlyDeleteFile (fID f)) w).2.
Proof.
  intros Hf Ho Hw. etrans; [done|]. destruct Hw as (Hp & _). unfold onDB, permanentlyDeleteFile.
  unfold onFiles, dbCall. simpl.
  pose proof (delete_pruned oldFile (λ r, bool_decide (fID r = fID f))
    (net (oracle (sys w) (tick (sys w)))) (files (db w))) as Hd.
  destruct (faulty _ _ _) as [r t]. simpl in *. split_and!; simpl; [|reflexivity|done].
  apply Hd. intros x Hx Hid. bool_prop. unfold constraintsOk in files_ok.
  apply Forall_cons in files_ok as [Hnd _].
  by rewrite (NoDup_key fID _ x f Hnd (pruned_elem _ _ _ _ Hp Hx) Hf Hid).
Qed.

Lemma deleteDir_cleaned d w :
  d ∈ rows (directories (db w0)) → oldDir d → R w0 w →
  R w0 (onDB (permanentlyDeleteDirectory (dID d)) w).2.
Proof.
  intros Hf Ho Hw. etrans; [done|]. destruct Hw as (_ & Hp & _). unfold onDB, permanentlyDeleteDirectory.
  unfold onDirectories, dbCall. simpl.
  pose proof (delete_pruned oldDir (λ r, bool_decide (dID r = dID d))
    (net (oracle (sys w) (tick (sys w)))) (directories (db w))) as Hd.
  destruct (faulty _ _ _) as [r t]. simpl in *. split_and!; simpl; [reflexivity| |done].
  apply Hd. intros x Hx Hid. bool_prop. unfold constraintsOk in dirs_ok.
  apply Forall_cons in dirs_ok as [Hnd _].
  by rewrite (NoDup_key dID _ x d Hnd (pruned_elem _ _ _ _ Hp Hx) Hf Hid).
Qed.

Lemma removeObject_cleaned f w :
  f ∈ rows (files (db w0)) → oldFile f → R w0 w → R w0 (onStore (Remove (fPath f)) w).2.
Proof.
  intros Hf Ho Hw. etrans; [done|]. destruct Hw as (_ & _ & Hs). destruct (Hs inv) as [Hi _].
  unfold onStore. pose proof (remove_spec (fPath f) (store w, sys w) Hi (paths_safe f Hf)) as Hr.
  destruct (Remove _ _) as [r [g s]]. destruct Hr as ((Hi' & _ & Hk & _) & _). simpl in *.
  split_and!; simpl; [reflexivity..|]. intros _. split; [done|]. intros k Hsk Hn.
  apply Hk; [done|]. intros <-. apply Hn. by exists f.
Qed.

Lemma cleanupFile_cleaned f w :
  f ∈ rows (files (db w0)) → oldFile f → R w0 w →
  R w0 (cleanupFile f w).2 ∧ (cleanupFile f w).1 = Ok tt.
Proof.
  intros Hf Ho Hw. pose proof (removeObject_cleaned f w Hf Ho Hw) as H1'.
  unfold cleanupFile, mbind, M_bind, catch. destruct (onStore _ w) as [r w1]. simpl in H1'.
  destruct (match r with Ok _ => true | Err e => IsNotExist e end); [|done].
  pose proof (deleteFile_cleaned f w1 Hf Ho H1') as H2'. unfold ignore.
  by destruct (onDB _ w1).
Qed.

Lemma forEach_cleaned {A} (f : A → M World unit) (l : list A) w :
  (∀ x w, x ∈ l → R w0 w → R w0 (f x w).2 ∧ (f x w).1 = Ok tt) → R w0 w →
  R w0 (forEach f l w).2 ∧ (forEach f l w).1 = Ok tt.
Proof.
  revert w. induction l as [|x l IH]; intros w Hf Hw; [done|]. simpl. unfold mbind, M_bind.
  destruct (Hf x w ltac:(left) Hw) as [Hx Ho]. destruct (f x w) as [r w1]. simpl in *. subst r.
  apply IH; [|done]. intros. apply Hf; [by right|done].
Qed.

Lemma cleanupDirectories_cleaned w :
  R w0 w → R w0 (cleanupDirectories zone before cutoff w).2 ∧
    (cleanupDirectories zone before cutoff w).1 = Ok tt.
Proof.
  intros Hw. unfold cleanupDirectories, mbind, M_bind, catch.
  destruct (onDB _ w) as [r w1] eqn:E. unfold onDB, getDeletedDirectories in E.
  destruct (queryRows _ _) as [r' [d s]] eqn:Ed. injection E as -> <-.
  apply queryRows_same in Ed as (Hd & Hos & Hin). simpl in Hd, Hos, Hin.
  assert (R w0 (MkWorld s (store w) d (dlock w) (sess w) (svc w))) as Hw1.
  { etrans; [done|]. split_and!; simpl; [by rewrite Hd..|]. by rewrite Hos. }
  destruct r as [ds|e]; [|done]. apply forEach_cleaned; [|done].
  intros x w2 Hx Hw2. destruct (Hin ds eq_refl) as (l' & [= <-] & Hl').
  apply Hl', list_elem_of_filter in Hx as [Ho Hx].
  assert (x ∈ rows (directories (db w0))) as Hin0
    by (destruct Hw as (_ & Hp & _); by eapply pruned_elem).
  pose proof (deleteDir_cleaned x w2 Hin0 Ho Hw2) as H2'. unfold cleanupDirectory, ignore.
  by destruct (onDB _ w2).
Qed.

Lemma cleanupFiles_cleaned files rest w :
  (∀ es, files = Ok es → ∀ f, f ∈ es → f ∈ rows (Metadata.files (db w0)) ∧ oldFile f) →
  (∀ w, R w0 w → R w0 (rest w).2 ∧ (rest w).1 = Ok tt) → R w0 w →
  R w0 (cleanupFiles files rest w).2 ∧ (cleanupFiles files rest w).1 = Ok tt.
Proof.
  intros Hf Hrest Hw. unfold cleanupFiles. destruct files as [es|e]; [|done].
  destruct (forEach_cleaned cleanupFile es w) as [H1' H2']; [|done|].
  - intros f w1 Hin Hw1. destruct (Hf es eq_refl f Hin) as [? ?]. by apply cleanupFile_cleaned.
  - unfold mbind, M_bind. destruct (forEach _ _ w) as [r w1]. simpl in *. subst r. by apply Hrest.
Qed.
End run.

Lemma cleanup_cleaned (s : CleanupService) w r w' :
  constraintsOk (rows (files (db w))) → constraintsOk (rows (directories (db w))) →
  storeInv (store w) → (∀ r, r ∈ rows (files (db w)) → safe (fPath r)) →
  cleanup zone before s w = (r, w') →
  let cutoff := (now (oracle (sys w) (tick (sys w))) - retention s)%Z in
  cleaned (oldFile cutoff) (oldDir cutoff) (oldKey cutoff w) w w' ∧ r = Ok tt.
Proof.
  intros Hcf Hcd Hi Hsafe E cutoff.
  unfold cleanup, clockNow, onOS in E. unfold mbind, M_bind, catch in E. cbn [fst snd] in E.
  change (cutoffOf s (now (oracle (sys w) (tick (sys w))))) with cutoff in E.
  set (w1 := MkWorld (skip 1 (sys w)) _ _ _ _ _) in E.
  destruct (onDB (getDeletedFiles zone before cutoff) w1) as [rf w2] eqn:Eq.
  unfold onDB, getDeletedFiles in Eq.
  destruct (queryRows _ _) as [rf' [d2 s2]] eqn:Ed. injection Eq as -> <-.
  apply queryRows_same in Ed as (Hd & Hos & Hin). simpl in Hd, Hos, Hin.
  edestruct (cleanupFiles_cleaned cutoff w Hcf Hi Hsafe rf) as [Hx Ho];
    [| | |rewrite E in Hx, Ho; simpl in Hx, Ho; split; [exact Hx|exact Ho]].
  - intros es -> f Hf. destruct (Hin es eq_refl) as (l' & [= <-] & Hl').
    by apply Hl', list_elem_of_filter in Hf as [? ?].
  - intros. by apply cleanupDirectories_cleaned.
  - split_and!; simpl; [by rewrite Hd..|]. rewrite Hos. done.
Qed.
End cleanup_specs.

(** ** Properties *)

(** When the engine finds a timestamp of the code before a cutoff, it is: both are
    instants in UTC to it. *)
Definition comparesTimes (before : string → string → bool) : Prop :=
  ∀ a b, inYears a → inYears b →
    before (FormatTimestamp a) (formatBlank (b / Second)) = true → (a < b)%Z.

(** SQLite compares the texts. *)
Lemma text_comparesTimes : comparesTimes String.ltb.
Proof. intros a b. apply text_before. Qed.

(** Marked deleted, and at an instant before [c], as far as the column tells one. *)
Definition deletedBefore (c : Z) (deleted : bool) (updatedAt : string) : Prop :=
  deleted = true ∧ ∀ a, inYears a → updatedAt = FormatTimestamp a → (a < c)%Z.

(** C24: the cleanup destroys nothing that lives, and nothing before its time. Whatever
    fails on the way, a run takes from the two tables only rows that are marked deleted
    and were, before the cutoff: an instant that is the retention ago in a process that
    runs in UTC, and as much later as the local time zone is ahead of UTC, because the
    code writes the cutoff in local time ([cleanup_ahead_of_utc]). A live file
    keeps its row and its stored bytes, and no object is touched that is not the object
    of such a deleted row. *)
Theorem cleanup_safe {Sg L St T} `{StorageLaws Sg} `{SqlLaws T} (zone : Z → Z)
    (before : string → string → bool) (s : CleanupService) (w : World Sg L St T) :
  constraintsOk (rows (files (db w))) → constraintsOk (rows (directories (db w))) →
  storeInv (store w) → (∀ r, r ∈ rows (files (db w)) → safe (fPath r)) →
  comparesTimes before →
  let t := (now (oracle (sys w) (tick (sys w))) - retention s)%Z in
  let cutoff := (t + zone t)%Z in
  inYears cutoff →
  let '(r, w') := cleanup zone before s w in
  r = Ok tt ∧ storeInv (store w') ∧
  pruned (λ f, deletedBefore cutoff (fIsDeleted f) (fUpdatedAt f))
    (rows (files (db w))) (rows (files (db w'))) ∧
  pruned (λ d, deletedBefore cutoff (dIsDeleted d) (dUpdatedAt d))
    (rows (directories (db w))) (rows (directories (db w'))) ∧
  (∀ k, safe k →
     (∀ f, f ∈ rows (files (db w)) → fPath f = k →
        ¬ deletedBefore cutoff (fIsDeleted f) (fUpdatedAt f)) →
     object (store w') (os (sys w')) k = object (store w) (os (sys w)) k) ∧
  (∀ f, f ∈ rows (files (db w)) → fIsDeleted f = false →
     f ∈ rows (files (db w')) ∧
     object (store w') (os (sys w')) (fPath f) = object (store w) (os (sys w)) (fPath f)).
Proof.
  intros Hcf Hcd Hi Hsafe Hcmp t cutoff Hyr. destruct (cleanup zone before s w) as [r w'] eqn:E.
  destruct (cleanup_cleaned zone before s w r w' Hcf Hcd Hi Hsafe E) as [(Hf & Hdr & Hs) ->].
  fold t in Hf, Hdr, Hs.
  assert (∀ u, before u (localFormat zone t) = true → deletedBefore cutoff true u) as Hbefore.
  { intros u Hu. split; [done|]. intros a Ha ->. by apply Hcmp. }
  assert (∀ f, oldFile zone before t f → deletedBefore cutoff (fIsDeleted f) (fUpdatedAt f)) as Hof.
  { intros f [Hd Hu]%andb_true_iff. rewrite Hd. by apply Hbefore. }
  assert (∀ d, oldDir zone before t d → deletedBefore cutoff (dIsDeleted d) (dUpdatedAt d)) as Hod.
  { intros d [Hd Hu]%andb_true_iff. rewrite Hd. by apply Hbefore. }
  destruct (Hs Hi) as [Hi' Ho].
  assert (∀ k, safe k →
     (∀ f, f ∈ rows (files (db w)) → fPath f = k →
        ¬ deletedBefore cutoff (fIsDeleted f) (fUpdatedAt f)) →
     object (store w') (os (sys w')) k = object (store w) (os (sys w)) k) as Hobj.
  { intros k Hk Hn. apply Ho; [done|]. intros (f & Hin & Hold & Hp). by apply (Hn f Hin Hp), Hof. }
  split_and!; [done|done|by eapply pruned_impl|by eapply pruned_impl|done|].
  intros f Hin Hlive. split.
  - destruct Hf as (gone & Hp & Hg). rewrite Hp in Hin. apply elem_of_app in Hin as [?|Hin]; [done|].
    rewrite Forall_forall in Hg. destruct (Hof f (Hg f Hin)) as [Hd _]. congruence.
  - apply Hobj; [by apply Hsafe|]. intros f' Hin' Hp. unfold constraintsOk in Hcf.
    apply Forall_cons in Hcf as [_ [Hnd _]%Forall_cons].
    rewrite (NoDup_key fPath _ f' f Hnd Hin' Hin Hp). intros [Hd _]. congruence.
Qed.

(** Two files, one deleted long ago. *)
Definition demoTrash : demoWorld :=
  MkWorld (MkSys (λ _, CallEnv (1704067200 * Second)%Z [Byte.x01] NoFault) 0
             (<["/data/a" := DirN]> (<["/data/a/b" := FileN (ab ++ cd)]>
               (<["/data/c" := FileN ab]> demoDirs)))) localDisk.1
    (MkDB [MkFile "1" "a/b" "b" 4 "" "local" "" "t" "t" false;
           MkFile "2" "c" "c" 2 "" "local" "" "t" "2020-01-01T00:00:00Z" true] [] [] [] [])
    Local.NewLocalDistributedLock ∅ (NewFileTransferService "/tmp/up").

Definition utc (_ : Z) : Z := 0.

Lemma cleanup_safe_witness :
  let w' := (cleanup utc String.ltb (NewCleanupService 60 30) demoTrash).2 in
  fPath <$> files (db w') = ["a/b"] ∧
  pruned (λ f, deletedBefore (1701475200 * Second)%Z (fIsDeleted f) (fUpdatedAt f))
    (files (db demoTrash)) (files (db w')) ∧
  object (StorageLaws := LocalFS.laws) (store w') (os (sys w')) "a/b" =
  object (StorageLaws := LocalFS.laws) (store demoTrash) (os (sys demoTrash)) "a/b".
Proof.
  intros w'. split; [vm_compute; reflexivity|].
  pose proof (cleanup_safe (H0 := LocalFS.laws) utc String.ltb (NewCleanupService 60 30) demoTrash
    ltac:(by apply constraintsOk_by_dec) ltac:(by apply constraintsOk_by_dec) localDisk_rooted) as Hc.
  specialize (Hc ltac:(intros r [->|[->|[]%elem_of_nil]%elem_of_cons]%elem_of_cons;
    apply safe_dec_true; vm_compute; reflexivity) text_comparesTimes ltac:(split; vm_compute; done)).
  subst w'. destruct (cleanup _ _ _ demoTrash) as [r w'].
  destruct Hc as (_ & _ & Hp & _ & _ & Hlive). split; [exact Hp|].
  apply (Hlive (MkFile "1" "a/b" "b" 4 "" "local" "" "t" "t" false)); [left|done].
Defined.

(** The cleanup takes no lock. When a file is created again at the path of a
    deleted one after the query and before its removal, the object that is removed
    is the new one, and its metadata stays. *)
Lemma cleanup_race :
  let '(found, w1) := catch (onDB (getDeletedFiles utc String.ltb (1704067200 * Second)%Z)) demoTrash in
  let '(_, w2) := (onStore (Write "c" cd) ⨟
                   onDB (FileCreate (MkFile "3" "c" "c" 2 "" "local" "" "t" "t" false))) w1 in
  let '(_, w3) := cleanupFiles (match found with Ok r => r | Err e => Err e end) (mret tt) w2 in
  fview (db w2) "c" = Some (MkFile "3" "c" "c" 2 "" "local" "" "t" "t" false) ∧
  (onStore (Read "c") w2).1 = Ok cd ∧
  fview (db w3) "c" = fview (db w2) "c" ∧ is_ok (onStore (Read "c") w3).1 = false.
Proof. vm_compute. done. Qed.

(** With timestamps compared as text, a file deleted on the day of the cutoff
    waits for the next day: a blank sorts before the letter T. *)
Lemma cleanup_compares_text :
  String.ltb "2024-01-01T00:00:00Z" "2024-01-01 23:59:59" = false.
Proof. reflexivity. Qed.

(** Eight hours ahead of UTC: a file deleted three hours after the cutoff goes. *)
Lemma cleanup_ahead_of_utc :
  let cutoff := (1704139200 * Second)%Z in
  String.ltb (FormatTimestamp (cutoff + 3 * 3600 * Second)%Z)
    (localFormat (λ _, 8 * 3600 * Second)%Z cutoff) = true.
Proof. vm_compute. reflexivity. Qed.
