(* ===== verification/Background.v ===== *)
(** * The background loops

    Five goroutines have one shape: wait for a tick of a time.Ticker or for the stop
    signal, work at a tick, return at the signal. [loop] is what such a goroutine does
    next; the five loops are instances of it. The transfer service may start and stop its
    loop again and again (StartCleanupThread, StopCleanupThread): its threads are a list.

    The ticker drops a tick when the last one was not taken. A select with both cases
    ready takes either, so that a history names each choice. The work of a tick is one
    step, at its end. *)

From S2P Require Export Expiry Cleanup Cache Consistency FileManager Demo.

Local Open Scope go_scope.

(** ** One loop *)

(** A panic in a goroutine ends the process. *)
Inductive phase := Selecting | Working | Returned | Panicked.

#[export] Instance phase_eq_dec : EqDecision phase.
Proof. solve_decision. Defined.

(** [lpTick]: a tick is in the channel of the ticker; [lpStop]: the stop channel is
    closed, or the context cancelled. *)
Record loop := MkLoop { lpTick : bool; lpStop : bool; lpPhase : phase }.

(** [time.NewTicker] panics on a period that is not positive. *)
Definition NewTicker (period : Z) : loop :=
  MkLoop false false (if (0 <? period)%Z then Selecting else Panicked).

Inductive loopAct :=
| Fire      (* the ticker sends *)
| Take      (* the select takes the tick *)
| Finish    (* the work is done *)
| Quit      (* the select takes the signal; the deferred ticker.Stop *)
| Signal.   (* close(stopCh), cancel() *)

#[export] Instance loopAct_eq_dec : EqDecision loopAct.
Proof. solve_decision. Defined.

Definition alive (l : loop) : bool :=
  bool_decide (lpPhase l = Selecting) || bool_decide (lpPhase l = Working).

(** What may happen, and what it leads to. *)
Definition advance (a : loopAct) (l : loop) : option loop :=
  match a with
  | Fire => if alive l then Some (MkLoop true (lpStop l) (lpPhase l)) else None
  | Take => if bool_decide (lpPhase l = Selecting) && lpTick l
            then Some (MkLoop false (lpStop l) Working) else None
  | Finish => if bool_decide (lpPhase l = Working)
              then Some (MkLoop (lpTick l) (lpStop l) Selecting) else None
  | Quit => if bool_decide (lpPhase l = Selecting) && lpStop l
            then Some (MkLoop false (lpStop l) Returned) else None
  | Signal => Some (MkLoop (lpTick l) true (lpPhase l))
  end.

Fixpoint runLoop (acts : list loopAct) (l : loop) : option loop :=
  match acts with
  | [] => Some l
  | a :: acts => advance a l ≫= runLoop acts
  end.

Definition count (a : loopAct) (acts : list loopAct) : nat := length (filter (eq a) acts).

Definition ofBool (b : bool) : nat := if b then 1 else 0.
Definition working (l : loop) : nat := ofBool (bool_decide (lpPhase l = Working)).

Lemma count_cons a b acts : count a (b :: acts) = ofBool (bool_decide (a = b)) + count a acts.
Proof.
  unfold count. rewrite filter_cons. destruct (decide (a = b)) as [->|Hn].
  - by rewrite bool_decide_eq_true_2.
  - by rewrite (bool_decide_eq_false_2 _ Hn).
Qed.

Lemma runLoop_app acts1 acts2 l : runLoop (acts1 ++ acts2) l = runLoop acts1 l ≫= runLoop acts2.
Proof. revert l. induction acts1 as [|a acts1 IH]; intros l; simpl; [done|]. destruct (advance a l); [apply IH|done]. Qed.

(** One action accounts for its ticks and its work. *)
Lemma advance_counts a l l' :
  advance a l = Some l' →
  ofBool (bool_decide (Take = a)) + ofBool (lpTick l') ≤ ofBool (bool_decide (Fire = a)) + ofBool (lpTick l) ∧
  ofBool (bool_decide (Finish = a)) + working l' = ofBool (bool_decide (Take = a)) + working l ∧
  (lpStop l = true → lpStop l' = true) ∧ (lpPhase l = Returned → lpPhase l' = Returned) ∧
  (alive l' = true → alive l = true).
Proof.
  destruct l as [t s p], a; simpl; unfold alive, working; simpl; destruct p, t, s; simpl;
    intros ?; simplify_eq/=; repeat split; lia || done.
Qed.

(** A pass begins only with a tick of its own, and every pass but the current one has
    ended. *)
Lemma runLoop_counts acts l l' :
  runLoop acts l = Some l' →
  count Take acts + ofBool (lpTick l') ≤ count Fire acts + ofBool (lpTick l) ∧
  count Finish acts + working l' = count Take acts + working l.
Proof.
  revert l. induction acts as [|a acts IH]; intros l; simpl; [intros [= ->]; split; lia|].
  destruct (advance a l) as [l1|] eqn:E; [|done]. intros Hr. apply IH in Hr as [H1 H2].
  apply advance_counts in E as (H3 & H4 & _). rewrite !count_cons. split; lia.
Qed.

(** A loop that has returned does nothing more. *)
Lemma returned_final acts l l' :
  lpPhase l = Returned → runLoop acts l = Some l' → ∀ a, a ∈ acts → a = Signal.
Proof.
  revert l. induction acts as [|a acts IH]; intros l Hp; simpl; [by intros _ a ?%elem_of_nil|].
  destruct (advance a l) as [l1|] eqn:E; [|done]. intros Hr b [->|Hin]%elem_of_cons.
  - unfold advance, alive in E. rewrite Hp in E. by destruct a.
  - eapply IH; [|exact Hr|done]. by apply advance_counts in E as (_ & _ & _ & ? & _); auto.
Qed.

(** From the signal on, the loop can always return: at once, or after the current pass. *)
Lemma signalled_returns l :
  lpStop l = true → alive l = true →
  ∃ l', runLoop (if bool_decide (lpPhase l = Working) then [Finish; Quit] else [Quit]) l = Some l' ∧
    lpPhase l' = Returned.
Proof. destruct l as [t s p]. simpl. intros ->. destruct p; simpl; try done; intros _; eauto. Qed.

(** Without another tick, it has at most four things left to do; then it has returned. *)
Lemma signalled_ends acts l l' :
  lpStop l = true → alive l = true → runLoop acts l = Some l' → Fire ∉ acts → Signal ∉ acts →
  length acts ≤ 4 ∧ (lpPhase l' ≠ Returned → ∃ a, a ≠ Fire ∧ a ≠ Signal ∧ is_Some (advance a l')).
Proof.
  intros Hs Ha Hr Hf Hg. 
  set (measure l := match lpPhase l with Selecting => 1 + 2 * ofBool (lpTick l)
     | Working => 2 + 2 * ofBool (lpTick l) | _ => 0 end).
  assert (∀ acts l, lpStop l = true → alive l = true ∨ lpPhase l = Returned → runLoop acts l = Some l' →
    Fire ∉ acts → Signal ∉ acts → length acts ≤ measure l ∧ lpStop l' = true ∧
      (alive l' = true ∨ lpPhase l' = Returned)) as Hm.
  { clear -measure. intros acts. induction acts as [|a acts IH]; intros l Hs Ha; simpl.
    { intros [= <-] _ _. split; [lia|done]. }
    destruct (advance a l) as [l1|] eqn:E; [|done]. intros Hr Hf Hg.
    rewrite elem_of_cons in Hf, Hg.
    assert (S (measure l1) ≤ measure l ∧ lpStop l1 = true ∧ (alive l1 = true ∨ lpPhase l1 = Returned)) as (H1 & H2 & H3).
    { unfold measure. destruct l as [t s p], a; simpl in *; subst s; unfold alive in *; simpl in *;
        destruct p, t; simplify_eq/=; try tauto; repeat split; auto; lia. }
    destruct (IH l1 H2 H3 Hr) as (H4 & H5); [tauto..|]. split; [lia|done]. }
  destruct (Hm acts l Hs (or_introl Ha) Hr Hf Hg) as (H1 & H2 & H3). split.
  - assert (measure l ≤ 4); [|lia]. unfold measure. by destruct (lpPhase l), (lpTick l); simpl; lia.
  - intros Hn. destruct H3 as [H3|]; [|done]. clear -H2 H3. destruct l' as [t s p]. simpl in *. subst s.
    destruct p; try done; [exists Quit|exists Finish]; by eauto.
Qed.

(** ** The five loops *)

(** What a goroutine does, and how often. *)
Record goroutine (W : Type) := MkGo { period : Z; work : M W unit }.
Arguments MkGo {W} period work.
Arguments period {W} g.
Arguments work {W} g.

(** The goroutine and the state that it works on; others act on the state too. *)
Definition goStep {W} (g : goroutine W) (a : loopAct) (x : loop * W) : option (loop * W) :=
  l ← advance a x.1;
  Some (l, if bool_decide (a = Finish) then (work g x.2).2 else x.2).

Definition Minute : Z := 60 * Second.

(** The loop of a cache, started by NewCache. *)
Definition cleanupLoop {V} : goroutine (Cache V * Sys) :=
  MkGo Minute (λ '(c, s), (Ok tt, (CacheCleanup (now (oracle s (tick s))) c, skip 1 s))).

(** The health check, started by NewConsistencyManager. *)
Definition syncLoop (cm : ConsistencyManager) : goroutine (ConsistencyManager * Sys) :=
  MkGo (if (syncInterval cm =? 0)%Z then 5 * Second else syncInterval cm)
    (λ '(cm, s), (Ok tt, (checkReplicaHealth (now (oracle s (tick s))) cm, skip 1 s))).

Definition closedTwice : error := ErrMsg "close of closed channel".

(** [close(stopCh)], which panics on a channel that is closed: Stop of the consistency
    manager and Stop of the clean-up service. *)
Definition closeStop (l : loop) : res loop :=
  if lpStop l then Err closedTwice else Ok (MkLoop (lpTick l) true (lpPhase l)).
Definition ConsistencyStop : loop → res loop := closeStop.
Definition CleanupStop : loop → res loop := closeStop.

(** Stop of the cache closes its channel within a sync.Once. *)
Definition CacheStop (l : loop) : res loop := if lpStop l then Ok l else closeStop l.

Section loops.
Context {Sg L St : Type} {T : Type → Type}.
Context `{StorageAdapter Sg} `{DistributedLock L} `{SessionStore sessionValue St} `{SqlEngine T}.
Notation World := (World Sg L St T).

(** The clean-up service: Start runs it. *)
Definition cleanupRun (zone : Z → Z) (before : string → string → bool) (s : CleanupService)
    : goroutine World :=
  MkGo (interval s) (cleanup zone before s).

(** The goroutine of main that drops unused file locks. *)
Definition lockCleaner : goroutine (FileManager * World) := MkGo (10 * Minute) CleanFileLocks.

(** One clean-up thread of the transfer service. *)
Definition sweep (intervalSeconds maxAgeSeconds : Z) : goroutine World :=
  MkGo (wrap64 (intervalSeconds * Second)) (CleanupExpiredSessions maxAgeSeconds).

(** ** The threads of the transfer service *)

Record thread := MkThread { thInterval : Z; thAge : Z; thLoop : loop }.

Definition setLoop (l : loop) (th : thread) : thread := MkThread (thInterval th) (thAge th) l.
Definition thWork (th : thread) : goroutine World := sweep (thInterval th) (thAge th).

(** The threads that were started, and the one whose cancel function is kept. *)
Record cleaner := MkCleaner { threads : list thread; cleanupCancel : option nat }.

Definition noThreads : cleaner := MkCleaner [] None.

(** [cancel()] of the thread [i]. *)
Definition cancelThread (i : nat) (ths : list thread) : list thread :=
  alter (λ th, setLoop (MkLoop (lpTick (thLoop th)) true (lpPhase (thLoop th))) th) i ths.

Definition cancelOld (c : cleaner) : list thread :=
  match cleanupCancel c with Some i => cancelThread i (threads c) | None => threads c end.

Definition StartCleanupThread (intervalSeconds maxAgeSeconds : Z) (c : cleaner) : cleaner :=
  MkCleaner (cancelOld c ++ [MkThread intervalSeconds maxAgeSeconds
                               (NewTicker (period (sweep intervalSeconds maxAgeSeconds)))])
    (Some (length (threads c))).

Definition StopCleanupThread (c : cleaner) : cleaner := MkCleaner (cancelOld c) None.

(** A call of the service, an action of a thread, or a change by somebody else. *)
Inductive cleanerAct :=
| AStart (intervalSeconds maxAgeSeconds : Z)
| AStop
| AThread (i : nat) (a : loopAct)
| AOther (w : World).

Definition stepCleaner (a : cleanerAct) (x : cleaner * World) : option (cleaner * World) :=
  let '(c, w) := x in
  match a with
  | AStart n age => Some (StartCleanupThread n age c, w)
  | AStop => Some (StopCleanupThread c, w)
  | AThread i Signal => None
  | AThread i a =>
      th ← threads c !! i;
      y ← goStep (thWork th) a (thLoop th, w);
      Some (MkCleaner (<[i := setLoop y.1 th]> (threads c)) (cleanupCancel c), y.2)
  | AOther w' => Some (c, w')
  end.

Fixpoint runCleaner (acts : list cleanerAct) (x : cleaner * World) : option (cleaner * World) :=
  match acts with
  | [] => Some x
  | a :: acts => stepCleaner a x ≫= runCleaner acts
  end.

(** What the thread [i] itself did. *)
Definition threadActs (i : nat) (acts : list cleanerAct) : list loopAct :=
  omap (λ a, match a with AThread j b => if bool_decide (i = j) then Some b else None | _ => None end) acts.

(** ** What the threads do *)

(** Only the thread whose cancel function is kept may be left without a signal. *)
Definition tidy (c : cleaner) : Prop :=
  (∀ i th, threads c !! i = Some th → lpStop (thLoop th) = false → cleanupCancel c = Some i) ∧
  (∀ i, cleanupCancel c = Some i → S i = length (threads c)).

Lemma cancelOld_length c : length (cancelOld c) = length (threads c).
Proof. unfold cancelOld, cancelThread. destruct (cleanupCancel c); [apply length_alter|done]. Qed.

Lemma cancelOld_stopped c i th : tidy c → cancelOld c !! i = Some th → lpStop (thLoop th) = true.
Proof.
  intros [Ht _] Hi. destruct (lpStop (thLoop th)) eqn:Es; [done|]. exfalso. unfold cancelOld in Hi.
  destruct (cleanupCancel c) as [j|] eqn:Ec; [|by apply (Ht i) in Hi].
  unfold cancelThread in Hi. destruct (decide (i = j)) as [->|Hn].
  - rewrite list_lookup_alter_eq in Hi. destruct (threads c !! j); simplify_eq/=.
  - rewrite list_lookup_alter_ne in Hi by done. apply (Ht i) in Hi; [|done]. congruence.
Qed.

Lemma step_tidy a x x' : tidy x.1 → stepCleaner a x = Some x' → tidy x'.1.
Proof.
  intros Ht. destruct x as [c w], a as [n age| |i a|w1]; simpl in *.
  - intros [= <-]. simpl. split; simpl.
    + intros i th Hi Hs. apply lookup_app_Some in Hi as [Hi|[Hge Hi]].
      { apply cancelOld_stopped in Hi; [congruence|done]. }
      apply list_lookup_singleton_Some in Hi as [Hz _]. rewrite cancelOld_length in *. f_equal. lia.
    + intros i [= <-]. rewrite length_app, cancelOld_length. simpl. lia.
  - intros [= <-]. split; simpl; [|done]. intros i th Hi Hs. apply cancelOld_stopped in Hi; [congruence|done].
  - destruct (decide (a = Signal)) as [->|Hn]; [done|]. intros E.
    assert ((th ← threads c !! i; y ← goStep (thWork th) a (thLoop th, w);
      Some (MkCleaner (<[i := setLoop y.1 th]> (threads c)) (cleanupCancel c), y.2)) = Some x') as E'
      by (by destruct a). clear E.
    destruct (threads c !! i) as [th|] eqn:Ei; [|done]. simpl in E'. unfold goStep in E'. simpl in E'.
    destruct (advance a (thLoop th)) as [l|] eqn:Ea; [|done]. simpl in E'. injection E' as <-.
    apply advance_counts in Ea as (_ & _ & Hst & _). destruct Ht as [Hun Hlast]. split; simpl.
    + intros j thj Hj Hs. destruct (decide (i = j)) as [->|Hne].
      * rewrite list_lookup_insert_eq in Hj by (by eapply lookup_lt_Some). injection Hj as <-. simpl in Hs.
        apply (Hun j th Ei). destruct (lpStop (thLoop th)); [|done]. by rewrite Hst in Hs.
      * rewrite list_lookup_insert_ne in Hj by done. by eapply Hun.
    + intros j Hj. rewrite length_insert. by apply Hlast.
  - by intros [= <-].
Qed.

Lemma run_tidy acts x x' : tidy x.1 → runCleaner acts x = Some x' → tidy x'.1.
Proof.
  revert x. induction acts as [|a acts IH]; intros x Ht; simpl; [by intros [= <-]|].
  destruct (stepCleaner a x) as [x1|] eqn:E; [|done]. intros Hr. eapply IH; [|exact Hr]. by eapply step_tidy.
Qed.

(** A thread stays in its place and goes through its own actions, with signals between. *)
Lemma step_thread i th a x x' :
  threads x.1 !! i = Some th → stepCleaner a x = Some x' →
  ∃ th' las, threads x'.1 !! i = Some th' ∧ thAge th' = thAge th ∧
    runLoop las (thLoop th) = Some (thLoop th') ∧
    filter (λ b, b ≠ Signal) las = threadActs i [a].
Proof.
  destruct x as [c w]. simpl. intros Hi.
  assert (∃ th' las, cancelOld c !! i = Some th' ∧ thAge th' = thAge th ∧
    runLoop las (thLoop th) = Some (thLoop th') ∧ filter (λ b, b ≠ Signal) las = []) as Hcancel.
  { unfold cancelOld. destruct (cleanupCancel c) as [j|]; [|by exists th, []].
    unfold cancelThread. rewrite list_lookup_alter. case_decide as Hj; [subst j; rewrite Hi|by exists th, []].
    eexists _, [Signal]. done. }
  destruct a as [n age| |j a|w1]; simpl.
  - intros [= <-]. simpl. destruct Hcancel as (th' & las & Hl & ?). exists th', las.
    split; [|done]. by apply lookup_app_l_Some.
  - intros [= <-]. simpl. done.
  - destruct (decide (a = Signal)) as [->|Hn]; [done|]. intros E.
    assert ((thj ← threads c !! j; y ← goStep (thWork thj) a (thLoop thj, w);
      Some (MkCleaner (<[j := setLoop y.1 thj]> (threads c)) (cleanupCancel c), y.2)) = Some x') as E'
      by (by destruct a). clear E.
    destruct (threads c !! j) as [thj|] eqn:Ej; [|done]. simpl in E'. unfold goStep in E'. simpl in E'.
    destruct (advance a (thLoop thj)) as [l|] eqn:Ea; [|done]. simpl in E'. injection E' as <-. simpl.
    destruct (decide (i = j)) as [<-|Hne].
    + rewrite bool_decide_eq_true_2 by done. rewrite Hi in Ej. injection Ej as <-.
      rewrite list_lookup_insert_eq by (by eapply lookup_lt_Some). eexists _, [a]. split_and!; [done|done| |].
      * simpl. by rewrite Ea.
      * by rewrite filter_cons_True.
    + rewrite (bool_decide_eq_false_2 _ Hne), list_lookup_insert_ne by done. by exists th, [].
  - intros [= <-]. by exists th, [].
Qed.

Lemma run_thread i th acts x x' :
  threads x.1 !! i = Some th → runCleaner acts x = Some x' →
  ∃ th' las, threads x'.1 !! i = Some th' ∧ thAge th' = thAge th ∧
    runLoop las (thLoop th) = Some (thLoop th') ∧
    filter (λ b, b ≠ Signal) las = threadActs i acts.
Proof.
  revert x th. induction acts as [|a acts IH]; intros x th Hi; simpl; [intros [= <-]; by exists th, []|].
  destruct (stepCleaner a x) as [x1|] eqn:E; [|done]. simpl. intros Hr.
  destruct (step_thread i th a x x1 Hi E) as (th1 & las1 & Hi1 & Hw1 & Hr1 & Hf1).
  destruct (IH x1 th1 Hi1 Hr) as (th2 & las2 & Hi2 & Hw2 & Hr2 & Hf2).
  exists th2, (las1 ++ las2). split_and!; [done|congruence| |].
  - by rewrite runLoop_app, Hr1.
  - rewrite filter_app, Hf1, Hf2. unfold threadActs. simpl. by destruct a as [| |j b|]; [..|case_bool_decide|].
Qed.

(** Signals do not count. *)
Lemma count_threadActs b las acts i :
  b ≠ Signal → filter (λ b, b ≠ Signal) las = threadActs i acts → count b las = count b (threadActs i acts).
Proof.
  intros Hb <-. unfold count. rewrite list_filter_filter_l; [done|]. by intros ? <-.
Qed.

End loops.

(** ** Properties *)

(** C25: the clean-up threads of the transfer service. After any history of starts, stops,
    ticks, actions of the threads and changes by everybody else: at most one thread is not
    cancelled, and it is the one that was started last; a thread begins no more passes than
    its ticker has fired, but for the tick that was waiting; once it is cancelled it can
    always return, and does so, when the ticker fires no more, after at most four further
    actions; every pass removes exactly the sessions older than the age the thread was
    started with, from all three tables. *)
Theorem cleanup_threads {Sg L St T} `{StorageAdapter Sg} `{DistributedLock L}
    `{SessionStore sessionValue St} `{SqlEngine T} (acts : list (cleanerAct (Sg := Sg) (L := L) (St := St) (T := T)))
    (c : cleaner) (w0 w : World Sg L St T) :
  runCleaner acts (noThreads, w0) = Some (c, w) →
  (∀ i th, threads c !! i = Some th → lpStop (thLoop th) = false →
     cleanupCancel c = Some i ∧ S i = length (threads c)) ∧
  (∀ i th acts' c' w', threads c !! i = Some th → runCleaner acts' (c, w) = Some (c', w') →
     count Take (threadActs i acts') ≤ S (count Fire (threadActs i acts'))) ∧
  (∀ i th, threads c !! i = Some th → lpStop (thLoop th) = true → alive (thLoop th) = true →
     (∃ las l, runLoop las (thLoop th) = Some l ∧ Fire ∉ las ∧ lpPhase l = Returned) ∧
     ∀ las l, runLoop las (thLoop th) = Some l → Fire ∉ las → Signal ∉ las →
       length las ≤ 4 ∧ (lpPhase l ≠ Returned → ∃ a, a ≠ Fire ∧ a ≠ Signal ∧ is_Some (advance a l))) ∧
  (∀ i th c' w', threads c !! i = Some th → stepCleaner (AThread i Finish) (c, w) = Some (c', w') →
     let t := expiryOf (now (oracle (sys w) (tick (sys w)))) (thAge th) in
     uploadSessions (svc w') = filter (λ kv, expired t (uCreatedAt kv.2) = false) (uploadSessions (svc w)) ∧
     downloadSessions (svc w') = filter (λ kv, expired t (dlCreatedAt kv.2) = false) (downloadSessions (svc w)) ∧
     multipartSessions (svc w') = filter (λ kv, expired t (mCreatedAt kv.2) = false) (multipartSessions (svc w))).
Proof.
  intros Hrun. assert (tidy noThreads) as Ht by done.
  apply (run_tidy acts) in Hrun as Hc; [|done]. simpl in Hc. destruct Hc as [Hun Hlast].
  split_and!.
  - intros i th Hi Hs. split; [by eapply Hun|]. by eapply Hlast, Hun.
  - intros i th acts' c' w' Hi Hr. destruct (run_thread i th acts' (c, w) (c', w') Hi Hr) as (th' & las & _ & _ & Hl & Hf).
    apply runLoop_counts in Hl as [Hl _].
    rewrite !(count_threadActs _ las acts' i) in Hl by done. destruct (lpTick (thLoop th)); simpl in Hl; lia.
  - intros i th Hi Hs Ha. split.
    + destruct (signalled_returns _ Hs Ha) as (l & Hl & Hp). eexists _, l. split_and!; [exact Hl| |done].
      case_bool_decide; rewrite !elem_of_cons, elem_of_nil; naive_solver.
    + intros las l Hl Hf Hg. by eapply signalled_ends.
  - intros i th c' w' Hi E. simpl in E. rewrite Hi in E. simpl in E. unfold goStep in E. simpl in E.
    destruct (bool_decide (lpPhase (thLoop th) = Working)); [|done]. simpl in E. injection E as _ <-.
    destruct (cleanup_exact (thAge th) w) as (_ & Hx). exact Hx.
Qed.

(** A session of the beginning of time, more than two hours later. *)
Definition lateDemo : demoWorld :=
  let w := (CreateUploadSession demoUUID "a" "a" 4 "client" "" demo).2 in
  MkWorld (MkSys (λ _, CallEnv (8000 * Second) [Byte.x01] NoFault) (tick (sys w)) (os (sys w)))
    (store w) (db w) (dlock w) (sess w) (svc w).

Definition sweeping (p : phase) : cleaner := MkCleaner [MkThread 60 7200 (MkLoop false false p)] (Some 0).

Lemma sweeping_begins (w0 w : demoWorld) :
  runCleaner [AStart 60 7200; AOther w; AThread 0 Fire; AThread 0 Take] (noThreads, w0) = Some (sweeping Working, w).
Proof. reflexivity. Qed.

Lemma sweeping_ends (w : demoWorld) :
  stepCleaner (AThread 0 Finish) (sweeping Working, w) = Some (sweeping Selecting, (CleanupExpiredSessions 7200 w).2).
Proof. reflexivity. Qed.

Lemma cleanup_threads_witness :
  ∃ c' w', stepCleaner (AThread 0 Finish) (sweeping Working, lateDemo) = Some (c', w') ∧
    uploadSessions (svc w') =
      filter (λ kv, expired (expiryOf (now (oracle (sys lateDemo) (tick (sys lateDemo)))) 7200) (uCreatedAt kv.2) = false)
        (uploadSessions (svc lateDemo)).
Proof.
  destruct (cleanup_threads _ (sweeping Working) demo lateDemo (sweeping_begins demo lateDemo)) as (_ & _ & _ & Hpass).
  pose proof (Hpass 0 (MkThread 60 7200 (MkLoop false false Working)) _ _ eq_refl (sweeping_ends lateDemo)) as Hx.
  cbv zeta in Hx. destruct Hx as [Hu _].
  exists (sweeping Selecting), (CleanupExpiredSessions 7200 lateDemo).2. split; [apply sweeping_ends|exact Hu].
Defined.

(** ** Starts and stops *)

(** The loops that main starts do not panic: the periods of the session clean-up, of the
    metadata clean-up, of the lock clean-up and of the cache are positive, and so is that
    of the health check when the configured period fits in 64 bits. *)
Lemma started_loops {Sg L St T V} `{StorageAdapter Sg} `{DistributedLock L}
    `{SessionStore sessionValue St} `{SqlEngine T} fmt bef (cm : ConsistencyManager) :
  (0 ≤ syncInterval cm)%Z →
  Forall (λ p, lpPhase (NewTicker p) = Selecting)
    [period (sweep (Sg := Sg) (L := L) (St := St) (T := T) 60 7200);
     period (cleanupRun (Sg := Sg) (L := L) (St := St) (T := T) fmt bef (NewCleanupService 60 30));
     period (lockCleaner (Sg := Sg) (L := L) (St := St) (T := T));
     period (cleanupLoop (V := V)); period (syncLoop cm)].
Proof.
  intros Hs. repeat constructor. unfold NewTicker, syncLoop. simpl.
  destruct (syncInterval cm =? 0)%Z eqn:E; [done|]. bool_prop. by rewrite (proj2 (Z.ltb_lt _ _)) by lia.
Qed.

(** A period beyond 292 years passes the validation of the configuration, wraps around and
    panics in the goroutine. *)
Lemma sync_interval_overflow :
  let cm := NewConsistencyManager "strong" 1 1 2 9223372036855 in
  (syncInterval cm < 0)%Z ∧ lpPhase (NewTicker (period (syncLoop cm))) = Panicked.
Proof. vm_compute. done. Qed.

(** The cache may be stopped twice, the other two may not. *)
Lemma stopped_twice l l1 :
  CacheStop l = Ok l1 → CacheStop l1 = Ok l1 ∧ CleanupStop l1 = Err closedTwice ∧ ConsistencyStop l1 = Err closedTwice.
Proof.
  unfold CacheStop, CleanupStop, ConsistencyStop, closeStop. destruct (lpStop l) eqn:E; intros [= <-]; by rewrite ?E.
Qed.

(** Stop does not wait: a pass that has begun goes on after it, and so may one whose tick
    was waiting. *)
Lemma stop_does_not_wait :
  is_Some (runLoop [Fire; Take; Signal; Finish] (NewTicker Minute)) ∧
  is_Some (runLoop [Fire; Signal; Take; Finish; Quit] (NewTicker Minute)).
Proof. vm_compute. eauto. Qed.
