(* ===== verification/GoHttp.v ===== *)
(** * The parts of strconv, gin and net/http that the handlers use

    Numbers in decimal, the fields of a request, and [http.ServeContent] with its
    reading of the Range header. *)

From S2P Require Export Storage.

Local Open Scope go_scope.

(** ** strconv *)

Definition digitOf (a : Ascii.ascii) : option Z :=
  let n := Ascii.nat_of_ascii a in
  if (48 <=? n) && (n <=? 57) then Some (Z.of_nat (n - 48)) else None.

Fixpoint digitsFrom (acc : Z) (s : string) : option Z :=
  match s with
  | "" => Some acc
  | String a s => match digitOf a with Some d => digitsFrom (10 * acc + d) s | None => None end
  end.

Definition decimal (s : string) : option Z :=
  match s with "" => None | _ => digitsFrom 0 s end.

Definition signed (s : string) : option Z :=
  if HasPrefix s "-" then Z.opp <$> decimal (TrimPrefix s "-")
  else if HasPrefix s "+" then decimal (TrimPrefix s "+")
  else decimal s.

(** [strconv.ParseInt(s, 10, 64)] and [strconv.Atoi]: the value and whether there
    was an error. The value of a number out of range is the nearest one. *)
Definition ParseInt (s : string) : Z * bool :=
  match signed s with
  | None => (0%Z, true)
  | Some v =>
      if (int64_max <? v)%Z then (int64_max, true)
      else if (v <? int64_min)%Z then (int64_min, true)
      else (v, false)
  end.
Definition Atoi := ParseInt.

Lemma ParseInt_in64 s : in64 (ParseInt s).1.
Proof.
  unfold ParseInt. destruct (signed s) as [v|]; [|by split]. unfold in64.
  destruct (_ <? v)%Z eqn:E1; [by split|]. destruct (v <? _)%Z eqn:E2; [by split|].
  bool_prop. simpl. lia.
Qed.

Lemma digitsFrom_nonneg s acc v : (0 ≤ acc)%Z → digitsFrom acc s = Some v → (0 ≤ v)%Z.
Proof.
  revert acc. induction s as [|a s IH]; simpl; intros acc Ha; [by intros [= <-]|].
  unfold digitOf. destruct (_ && _); [|done]. apply IH. lia.
Qed.

(** ** A request, as gin presents it *)

(** A file of a multipart form: its declared name and size, and its contents. *)
Record FormFile := MkFormFile { ffName : string; ffSize : Z; ffReader : reader }.

(** The fields of a JSON object that the handlers read. *)
Inductive jsonValue := JStr (s : string) | JNum (z : Z) | JBool (b : bool) | JNull.

Record Req := MkReq {
  rqMethod : string;
  rqParams : list (string * string);       (* c.Param *)
  rqQuery : list (string * string);
  rqHeaders : list (string * string);
  rqForm : list (string * string);         (* c.PostForm *)
  rqFiles : list (string * FormFile);
  rqJSON : option (list (string * jsonValue)); (* None: not a JSON object *)
  rqIP : string                            (* c.ClientIP() *)
}.

(** The value of the first field of that name. *)
Definition field {A} (k : string) (l : list (string * A)) : option A :=
  snd <$> head (filter (λ kv, kv.1 = k) l).

Definition Param (k : string) (rq : Req) : string := default "" (field k (rqParams rq)).
Definition Query (k : string) (rq : Req) : string := default "" (field k (rqQuery rq)).
Definition DefaultQuery (k d : string) (rq : Req) : string := default d (field k (rqQuery rq)).
Definition GetHeader (k : string) (rq : Req) : string := default "" (field k (rqHeaders rq)).
Definition PostForm (k : string) (rq : Req) : string := default "" (field k (rqForm rq)).
Definition FormFileOf (k : string) (rq : Req) : option FormFile := field k (rqFiles rq).

(** Decoding one field into a string or an int64: a value of another type is an
    error of the whole binding, a field that is missing or null is zero. *)
Definition bindString (k : string) (j : list (string * jsonValue)) : option string :=
  match field k j with
  | Some (JStr s) => Some s
  | None | Some JNull => Some ""
  | _ => None
  end.
Definition bindInt64 (k : string) (j : list (string * jsonValue)) : option Z :=
  match field k j with
  | Some (JNum z) => if (int64_min <=? z)%Z && (z <=? int64_max)%Z then Some z else None
  | None | Some JNull => Some 0%Z
  | _ => None
  end.

(** [binding:"required"] refuses the zero value. *)
Definition required {A} `{EqDecision A} (zero : A) (x : option A) : option A :=
  v ← x; if bool_decide (v = zero) then None else Some v.

(** ** io.LimitReader and io.ReadAll *)

Definition LimitReader (rd : reader) (n : Z) : reader :=
  if (blen (rdata rd) <? n)%Z then rd else Reader (take (Z.to_nat n) (rdata rd)) None.

Definition ReadAll (rd : reader) : res bytes :=
  match rerr rd with Some e => Err e | None => Ok (rdata rd) end.

Lemma ReadAll_limit rd n d :
  ReadAll (LimitReader rd n) = Ok d → (blen d < n)%Z → d = rdata rd ∧ rerr rd = None.
Proof.
  unfold LimitReader, ReadAll, blen. destruct (_ <? n)%Z eqn:E; bool_prop; simpl.
  - destruct (rerr rd); [done|]. by intros [= <-].
  - intros [= <-]. rewrite length_take. lia.
Qed.

(** ** http.ServeContent

    For content without a modification time and a request without conditional
    headers. *)

Record httpRange := MkRange { rgStart : Z; rgLength : Z }.

(** [textproto.TrimString] *)
Definition asciiSpace (a : Ascii.ascii) : bool :=
  existsb (λ n, (Ascii.nat_of_ascii a =? n)%nat) [32; 9; 10; 13].
Fixpoint trimLeft (s : string) : string :=
  match s with "" => "" | String a s' => if asciiSpace a then trimLeft s' else s end.
Fixpoint trimRight (s : string) : string :=
  match s with
  | "" => ""
  | String a s =>
      match trimRight s with
      | "" => if asciiSpace a then "" else String a ""
      | t => String a t
      end
  end.
Definition TrimString (s : string) : string := trimRight (trimLeft s).

(** [strings.Cut(s, "-")] *)
Definition dash : Ascii.ascii := Ascii.ascii_of_nat 45.
Definition comma : Ascii.ascii := Ascii.ascii_of_nat 44.
Definition cutDash (s : string) : option (string * string) :=
  match Split s dash with
  | a :: b :: rest => Some (a, Join (b :: rest) dash)
  | _ => None
  end.

(** One element of the list: invalid, without overlap, or a range. *)
Inductive rangeItem := BadRange | NoOverlap | ARange (r : httpRange).

Definition parseOne (size : Z) (ra : string) : rangeItem :=
  match cutDash ra with
  | None => BadRange
  | Some (a, b) =>
      let start := TrimString a in
      let stop := TrimString b in
      if bool_decide (start = "") then
        if bool_decide (stop = "") || HasPrefix stop "-" then BadRange
        else
          let '(i, err) := ParseInt stop in
          if (i <? 0)%Z || err then BadRange
          else
            let i := if (size <? i)%Z then size else i in
            ARange (MkRange (size - i) (size - (size - i)))
      else
        let '(i, err) := ParseInt start in
        if err || (i <? 0)%Z then BadRange
        else if (size <=? i)%Z then NoOverlap
        else if bool_decide (stop = "") then ARange (MkRange i (size - i))
        else
          let '(j, err) := ParseInt stop in
          if err || (j <? i)%Z then BadRange
          else
            let j := if (size <=? j)%Z then (size - 1)%Z else j in
            ARange (MkRange i (j - i + 1))
  end.

(** The ranges so far, and whether one had no overlap. *)
Fixpoint parseItems (size : Z) (items : list string) : option (list httpRange * bool) :=
  match items with
  | [] => Some ([], false)
  | ra :: items =>
      let ra := TrimString ra in
      if bool_decide (ra = "") then parseItems size items
      else
        match parseOne size ra with
        | BadRange => None
        | NoOverlap => (λ x, (x.1, true)) <$> parseItems size items
        | ARange r => (λ x, (r :: x.1, x.2)) <$> parseItems size items
        end
  end.

Inductive rangeError := ErrInvalidRange | ErrNoOverlap.

Definition parseRange (s : string) (size : Z) : rangeError + list httpRange :=
  if bool_decide (s = "") then inr []
  else if negb (HasPrefix s "bytes=") then inl ErrInvalidRange
  else
    match parseItems size (Split (TrimPrefix s "bytes=") comma) with
    | None => inl ErrInvalidRange
    | Some ([], true) => inl ErrNoOverlap
    | Some (rs, _) => inr rs
    end.

(** What the client gets: the whole content, one range with the numbers of its
    Content-Range, several parts, or 416. *)
Inductive contentResponse :=
| Whole (d : bytes)
| Partial (start length size : Z) (d : bytes)
| Parts (size : Z) (parts : list (httpRange * bytes))
| Unsatisfiable.

Definition sumLengths (rs : list httpRange) : Z := foldr (λ r n, rgLength r + n)%Z 0%Z rs.

Definition rangeBytes (d : bytes) (r : httpRange) : bytes :=
  readAt d (Z.to_nat (rgStart r)) (Z.to_nat (rgLength r)).

Definition ServeContent (rangeHeader : string) (d : bytes) : contentResponse :=
  let size := blen d in
  let serve rs :=
    match (if (size <? sumLengths rs)%Z then [] else rs) with
    | [] => Whole d
    | [r] => Partial (rgStart r) (rgLength r) size (rangeBytes d r)
    | rs => Parts size ((λ r, (r, rangeBytes d r)) <$> rs)
    end in
  match parseRange rangeHeader size with
  | inl ErrNoOverlap => if (size =? 0)%Z then serve [] else Unsatisfiable
  | inl ErrInvalidRange => Unsatisfiable
  | inr rs => serve rs
  end.

(** ** Ranges are inContent the content *)

Definition inContent (size : Z) (r : httpRange) : Prop :=
  (0 ≤ rgStart r ∧ 0 ≤ rgLength r ∧ rgStart r + rgLength r ≤ size)%Z.

Lemma parseOne_inContent size ra r :
  (0 ≤ size)%Z → parseOne size ra = ARange r → inContent size r.
Proof.
  intros Hs. unfold parseOne, inContent. repeat case_match; try done; intros [= <-]; bool_prop; simpl;
    repeat match goal with H : _ ∨ _ |- _ => destruct H end; bool_prop; lia.
Qed.

Lemma parseItems_inContent size items rs b :
  (0 ≤ size)%Z → parseItems size items = Some (rs, b) → Forall (inContent size) rs.
Proof.
  intros Hs. revert rs b. induction items as [|ra items IH]; simpl; intros rs b.
  { intros [= <- _]. constructor. }
  case_bool_decide; [apply IH|]. destruct (parseOne size (TrimString ra)) as [| |r] eqn:E; [done|..];
    destruct (parseItems size items) as [[rs' b']|]; simpl; try done; intros [= <- <-].
  - by eapply IH.
  - constructor; [by eapply parseOne_inContent|by eapply IH].
Qed.

Lemma parseRange_inContent s size rs :
  (0 ≤ size)%Z → parseRange s size = inr rs → Forall (inContent size) rs.
Proof.
  intros Hs. unfold parseRange. case_bool_decide; [intros [= <-]; constructor|].
  destruct (HasPrefix s "bytes="); [|done]. simpl.
  destruct (parseItems size _) as [[rs' b]|] eqn:E; [|done]. apply parseItems_inContent in E; [|done].
  destruct rs', b; try done; by intros [= <-].
Qed.

(** The response of [ServeContent] is exact. *)
Definition exactContent (d : bytes) (s : contentResponse) : Prop :=
  match s with
  | Whole x => x = d
  | Partial start len size x =>
      size = blen d ∧ inContent size (MkRange start len) ∧ x = rangeBytes d (MkRange start len) ∧ blen x = len
  | Parts size ps =>
      size = blen d ∧ Forall (λ p, inContent size p.1 ∧ p.2 = rangeBytes d p.1 ∧ blen p.2 = rgLength p.1) ps
  | Unsatisfiable => True
  end.

Lemma blen_rangeBytes d r : inContent (blen d) r → blen (rangeBytes d r) = rgLength r.
Proof.
  unfold inContent, rangeBytes, readAt, blen. intros. rewrite length_take, length_drop. lia.
Qed.

Lemma ServeContent_exact h d : exactContent d (ServeContent h d).
Proof.
  unfold ServeContent. destruct (parseRange h (blen d)) as [[]|rs] eqn:E; [done| |].
  { destruct (_ =? 0)%Z; [|done]. by destruct (_ <? _)%Z. }
  apply parseRange_inContent in E; [|unfold blen; lia].
  destruct (_ <? _)%Z; [done|]. destruct rs as [|r [|r2 rs]]; simpl; [done|..].
  - apply Forall_cons in E as [Hr _]. destruct r as [a n]. split; [done|]. split; [done|].
    split; [done|]. exact (blen_rangeBytes d (MkRange a n) Hr).
  - split; [done|]. apply (Forall_fmap (λ r, (r, rangeBytes d r)) _ (r :: r2 :: rs)). eapply Forall_impl; [exact E|].
    intros x Hx. split; [done|]. split; [done|]. by apply blen_rangeBytes.
Qed.

Lemma ServeContent_whole d : ServeContent "" d = Whole d.
Proof. unfold ServeContent, parseRange. simpl. by destruct (_ <? _)%Z. Qed.
