(* ===== verification/Http.v ===== *)
(** * internal/api/http: the server and its handlers

    What each handler does with a request: its checks in their order, the calls of
    the services, the audit entry and the response. The routing is given: a handler
    runs after the middleware of Access.v let the request through. The server has its
    database, its storage and its audit writer; the cache is optional. *)

From S2P Require Export Config GoHttp FileManager FileList Directory AuditWriter Access.
From stdpp Require Import pretty.

Local Open Scope go_scope.

(** The numbers of a server that do not change after NewServer. *)
Record HttpServer := MkHttpServer {
  corsOrigins : string; maxUploadSize : Z; maxChunkSize : Z; maxPageSize : Z; semCapacity : Z
}.

Definition NewHttpServer (cfg : ServerConfig) : HttpServer :=
  let workers := if (Workers cfg <? 1)%Z then 8%Z else Workers cfg in
  MkHttpServer (CORSAllowedOrigins cfg)
    (wrap64 (wrap64 (MaxUploadSizeMB cfg * 1024) * 1024))
    (wrap64 (wrap64 (MaxChunkSizeMB cfg * 1024) * 1024))
    (MaxPageSize cfg) (wrap64 (workers * 4)).

(** ** Responses *)

Inductive body :=
| BError (msg : string)
| BMessage (msg : string)
| BFile (m : FileMetadata)
| BDir (m : DirectoryMetadata)
| BData (contentLength : Z) (d : bytes)
| BRange (start stop size : Z) (d : bytes)
| BContent (c : contentResponse)
| BList (r : FileListResult)
| BLogs (logs : list AuditLog) (page pageSize : Z)
| BSession (id : string)
| BMultipart (id : string) (partSize : Z)
| BProgress (uploaded : Z)
| BMultiProgress (uploaded total : Z) (parts : nat)
| BCompleted (r : CompleteUploadResult)
| BPart (partNumber size : Z)
| BKey (k : ApiKey) (plain : option string)
| BKeys (ks : list ApiKey) (page pageSize : Z)
| BTokens (p : TokenPair)
| BHealth (database storage : option bool).

Record response := Resp { rstatus : Z; rbody : body }.

(** [http.ServeContent] writes the status itself. *)
Definition contentStatus (c : contentResponse) : Z :=
  match c with Whole _ => 200 | Partial _ _ _ _ | Parts _ _ => 206 | Unsatisfiable => 416 end.

(** ** The metadata cache

    The handler stores a [gin.H] and asks for a [map[string]interface{}]: a cache
    that keeps the value gives the former back, one that keeps JSON the latter. *)

Inductive cachedValue := GinH (m : FileMetadata) | JsonMap (m : FileMetadata).

Class CacheAdapter (C : Type) := {
  cacheGet : callEnv → string → C → option cachedValue * C;
  cacheSet : callEnv → string → cachedValue → C → C
}.

(** The type assertion. *)
Definition asMap (v : cachedValue) : option FileMetadata :=
  match v with JsonMap m => Some m | GinH _ => None end.

Definition isValidPermissions (permissions : string) : bool :=
  if bool_decide (permissions = "") then true
  else
    forallb (λ p, let p := TrimSpace p in
      negb (bool_decide (p = "")) && bool_decide (p ∈ ["admin"; "user"; "user:read"; "user:write"]))
      (Split permissions comma).

(** [strconv.FormatBool], the %v of a bool. *)
Definition showBool (b : bool) : string := if b then "true" else "false".

Definition smallUploadThreshold : Z := 1 * 1024 * 1024.
Definition maxInlineDownload : Z := 32 * 1024 * 1024.

Section http.
Context {Sg L St C : Type} {T : Type → Type}.
Context `{StorageAdapter Sg} `{DistributedLock L} `{SessionStore sessionValue St}.
Context `{SqlEngine T} `{AEAD} `{JWTLib} `{CacheAdapter C}.
Context (sha256 : bytes → bytes) (uuid : nat → string) (srv : HttpServer).
Notation World := (World Sg L St T).

Record HttpState := MkHttpState {
  hfm : FileManager; hw : World; hauth : AuthService; haudit : AuditWriter; hcache : option C
}.

Notation HM := (M HttpState).

Definition onFM {A} (m : M (FileManager * World) A) : HM A := λ s,
  let '(r, (fm, w)) := m (hfm s, hw s) in
  (r, MkHttpState fm w (hauth s) (haudit s) (hcache s)).

Definition onWorld {A} (m : M World A) : HM A := λ s,
  let '(r, w) := m (hw s) in (r, MkHttpState (hfm s) w (hauth s) (haudit s) (hcache s)).

(** The authentication service shares the clock and the database. *)
Definition onAuthSvc {A} (m : M (AuthWorld T) A) : HM A := λ s,
  let w := hw s in
  let '(r, a) := m (MkAuthWorld (sys w) (db w) (hauth s)) in
  (r, MkHttpState (hfm s) (MkWorld (aSys a) (store w) (aDB a) (dlock w) (sess w) (svc w))
        (aAuth a) (haudit s) (hcache s)).

(** A call of the cache. *)
Definition onCache {A} (f : callEnv → C → A * C) (dflt : A) : HM A := λ s,
  match hcache s with
  | None => (Ok dflt, s)
  | Some c =>
      let w := hw s in
      let '(a, c) := f (oracle (sys w) (tick (sys w))) c in
      (Ok a, MkHttpState (hfm s)
               (MkWorld (skip 1 (sys w)) (store w) (db w) (dlock w) (sess w) (svc w))
               (hauth s) (haudit s) (Some c))
  end.

Definition respond (st : Z) (b : body) : HM response := mret (Resp st b).
Definition sendError (st : Z) (msg : string) : HM response := respond st (BError msg).
Definition sendInternalError (msg : string) : HM response :=
  sendError 500 (if bool_decide (msg = "") then "Internal server error" else msg).

(** Run a call and continue with its result, or send an error. *)
Definition orElse {A} (m : HM A) (err : HM response) (k : A → HM response) : HM response :=
  r ← catch m;
  match r with Ok a => k a | Err _ => err end.

(** [if bad { sendError; return }] *)
Definition unless (bad : bool) (err : HM response) (k : HM response) : HM response :=
  if bad then err else k.

Definition userIdentifier (rq : Req) : string :=
  if negb (bool_decide (GetHeader "X-API-Key" rq = "")) then "api-key:***"
  else if HasPrefix (GetHeader "Authorization" rq) "Bearer " then "bearer:***"
  else "anonymous".

Definition auditLog (operation resourcePath : string) (rq : Req) (success : bool)
    (details : string) : HM unit :=
  id ← onWorld (GenerateUUID uuid);
  now ← onWorld nowString;
  modify (λ s,
    let entry := MkAudit id now operation resourcePath (userIdentifier rq) (rqIP rq)
                   (GetHeader "User-Agent" rq) success details in
    let a := Submit entry (MkAuditState (haudit s) (db (hw s), sys (hw s)) [] []) in
    MkHttpState (hfm s) (hw s) (hauth s) (writer a) (hcache s)).

(** The crypto service, when it is there and enabled. *)
Definition encryption : HM (option CryptoService) :=
  gets (λ s, match cryptoSvc (svc (hw s)) with
             | Some cs => if IsEnabled cs then Some cs else None
             | None => None
             end).

(** ** Whole files *)

(** The end of all three ways of an upload. *)
Definition uploadDone (filePath : string) (rq : Req) (meta : FileMetadata) : HM response :=
  auditLog "upload" filePath rq true "" ⨟ respond 201 (BFile meta).

Definition tooLarge : HM response :=
  sendError 413 "File size exceeds maximum allowed size".

Definition uploadEncrypted (cs : CryptoService) (filePath : string) (rq : Req) (f : FormFile) : HM response :=
  match ReadAll (LimitReader (ffReader f) (wrap64 (maxUploadSize srv + 1))) with
  | Err _ => sendError 500 "Failed to read file data"
  | Ok data =>
      unless (maxUploadSize srv <? blen data)%Z tooLarge
        (env ← onWorld (onOS nextEnv);
         match Encrypt cs (nonceOf env) data with
         | Err _ => sendError 500 "Failed to encrypt file"
         | Ok encrypted =>
             orElse (onFM (UploadFile sha256 uuid filePath encrypted))
               (sendInternalError "Failed to upload file") (uploadDone filePath rq)
         end)
  end.

Definition uploadSmall (filePath : string) (rq : Req) (f : FormFile) : HM response :=
  match ReadAll (LimitReader (ffReader f) (smallUploadThreshold + 1)) with
  | Err _ => sendError 500 "Failed to read file data"
  | Ok data =>
      unless (smallUploadThreshold <? blen data)%Z (sendError 413 "Inline upload size exceeds threshold")
        (orElse (onFM (UploadFile sha256 uuid filePath data))
           (sendInternalError "Failed to upload file") (uploadDone filePath rq))
  end.

Definition uploadStream (filePath : string) (rq : Req) (f : FormFile) : HM response :=
  orElse (onFM (UploadFileFromReader sha256 uuid filePath
                  (LimitReader (ffReader f) (wrap64 (maxUploadSize srv + 1)))))
    (sendInternalError "Failed to upload file")
    (λ meta,
      if (maxUploadSize srv <? fSize meta)%Z
      then ignore (onFM (DeleteFile filePath)) ⨟ tooLarge
      else uploadDone filePath rq meta).

(** The path of an upload: the form field, or the name of the file. *)
Definition uploadPath (rq : Req) (f : FormFile) : string :=
  if bool_decide (PostForm "path" rq = "") then "/" +:+ ffName f else PostForm "path" rq.

Definition handleUpload (rq : Req) : HM response :=
  match FormFileOf "file" rq with
  | None => sendError 400 "No file provided"
  | Some f =>
      unless (maxUploadSize srv <? ffSize f)%Z tooLarge
        (unless (negb (IsValidFileName (ffName f))) (sendError 400 "Invalid file name")
           (let filePath := uploadPath rq f in
            unless (negb (IsValidFilePath filePath)) (sendError 400 "Invalid file path")
              (cs ← encryption;
               match cs with
               | Some cs => uploadEncrypted cs filePath rq f
               | None =>
                   if (0 <=? ffSize f)%Z && (ffSize f <=? smallUploadThreshold)%Z
                   then uploadSmall filePath rq f
                   else uploadStream filePath rq f
               end)))
  end.

(** The temp files of one request; [cleanup] removes both. *)
Definition cleanupTemps (enc dec : string) : M World unit := rm enc ⨟ rm dec.

(** [if err != nil { sendError(c, 500, msg); return }] within a helper. *)
Definition failWith {A} (msg : string) (m : M World A) : M World A := λ w,
  let '(r, w') := m w in (res_map_err (λ _, ErrMsg msg) r, w').

Definition decryptForRequest (cs : CryptoService) (filePath enc dec : string) : M World bytes :=
  failWith "Failed to create temp file" (onOS (osCall (osCreate enc))) ⨟
  d ← failWith "Failed to open encrypted file" (onError (onStore (OpenReader filePath)) (rm enc));
  failWith "Failed to stream encrypted file"
    (onError (onOS (osCall (osWriteFile enc d))) (cleanupTemps enc dec)) ⨟
  failWith "Failed to decrypt file"
    (onError (onOS (DecryptFileStreaming cs enc dec)) (cleanupTemps enc dec)) ⨟
  failWith "Failed to open decrypted file"
    (onError (onOS (osCall (osOpen dec))) (cleanupTemps enc dec)) ⨟
  deferring (onOS (osCall (osReadFile dec))) (cleanupTemps enc dec).

(** The message of an error made by [failWith]. *)
Definition messageOf (e : error) : string := match e with ErrMsg msg => msg | _ => "" end.

Definition handleEncryptedDownload (cs : CryptoService) (rq : Req) (filePath : string) : HM response :=
  v ← onWorld service;
  sessionID ← onWorld (GenerateUUID uuid);
  let enc := tempPathOf v sessionID ".enc" in
  let dec := tempPathOf v sessionID ".dec" in
  r ← catch (onWorld (decryptForRequest cs filePath enc dec));
  match r with
  | Err e => sendError 500 (messageOf e)
  | Ok d => let c := ServeContent (GetHeader "Range" rq) d in respond (contentStatus c) (BContent c)
  end.

Definition badRange : HM response := sendError 416 "Invalid range".

(** The bounds of a Range header against the recorded size. *)
Definition parseHeader (size : Z) (rangeHeader : string) : option (Z * Z) :=
  match Split (TrimPrefix rangeHeader "bytes=") dash with
  | [a; b] =>
      if bool_decide (a = "") then
        let '(suffixLength, err) := ParseInt b in
        if (err : bool) then None else Some (wrap64 (size - suffixLength), wrap64 (size - 1))
      else
        let '(start, err) := ParseInt a in
        if (err : bool) then None
        else if bool_decide (b = "") then Some (start, wrap64 (size - 1))
        else
          let '(stop, err) := ParseInt b in
          if (err : bool) then None else Some (start, stop)
  | _ => None
  end.

Definition handleRangeDownload (meta : FileMetadata) (rangeHeader : string) : HM response :=
  match parseHeader (fSize meta) rangeHeader with
  | None => badRange
  | Some (start, stop) =>
      unless ((start <? 0) || (fSize meta <=? start) || (fSize meta <=? stop) || (stop <? start))%Z
        (sendError 416 "Range out of bounds")
        (let chunkSize := wrap64 (stop - start + 1) in
         unless (maxInlineDownload <? chunkSize)%Z (sendError 416 "Range too large")
           (orElse (onWorld (DownloadFileDataAt (Some meta) chunkSize start))
              (sendError 500 "Failed to read file range")
              (λ data, respond 206 (BRange start stop (fSize meta) data))))
  end.

Definition handleDownload (rq : Req) : HM response :=
  let filePath := Param "path" rq in
  unless (bool_decide (filePath = "")) (sendError 400 "File path is required")
    (unless (negb (IsValidFilePath filePath)) (sendError 400 "Invalid file path")
       (let filePath := NormalizePath filePath in
        orElse (onWorld (GetFileMetadata filePath)) (sendError 404 "File not found") (λ meta,
          cs ← encryption;
          match cs with
          | Some cs => handleEncryptedDownload cs rq filePath
          | None =>
              let rangeHeader := GetHeader "Range" rq in
              if negb (bool_decide (rangeHeader = "")) then handleRangeDownload meta rangeHeader
              else if (maxInlineDownload <? fSize meta)%Z then
                orElse (onWorld (onStore (OpenReader filePath))) (sendError 500 "Failed to open file")
                  (λ d, respond 200 (BContent (ServeContent "" d)))
              else
                orElse (onWorld (DownloadFileData (Some meta))) (sendError 500 "Failed to read file")
                  (λ d, respond 200 (BData (fSize meta) d))
          end))).

(** The path of a route, of a file or of a directory. *)
Definition withPath (filePath missing invalid : string) (k : string → HM response) : HM response :=
  unless (bool_decide (filePath = "")) (sendError 400 missing)
    (unless (negb (IsValidFilePath filePath)) (sendError 400 invalid) (k filePath)).

Definition handleDelete (rq : Req) : HM response :=
  withPath (Param "path" rq) "File path is required" "Invalid file path" (λ filePath,
    orElse (onFM (DeleteFile filePath)) (sendInternalError "Internal server error") (λ _,
      auditLog "delete" filePath rq true "" ⨟
      respond 200 (BMessage "File deleted successfully"))).

(** The new name of a rename: a form field, or a field of a JSON body. *)
Definition newNameOf (rq : Req) : string :=
  let newName := PostForm "new_name" rq in
  if bool_decide (newName = "") then
    match rqJSON rq ≫= bindString "new_name" with
    | Some s => s
    | None => newName
    end
  else newName.

Definition withNewName (rq : Req) (invalid : string) (k : string → HM response) : HM response :=
  let newName := newNameOf rq in
  unless (bool_decide (newName = "")) (sendError 400 "New name is required")
    (unless (negb (IsValidFileName newName)) (sendError 400 invalid) (k newName)).

Definition handleRename (rq : Req) : HM response :=
  withPath (Param "path" rq) "File path is required" "Invalid file path" (λ filePath,
    withNewName rq "Invalid file name" (λ newName,
      orElse (onFM (RenameFile filePath newName)) (sendInternalError "Internal server error") (λ _,
        auditLog "rename" filePath rq true ("new_name=" +:+ newName) ⨟
        respond 200 (BMessage "File renamed successfully")))).

(** ** Directories and listings *)

Definition handleCreateDirectory (rq : Req) : HM response :=
  match rqJSON rq ≫= λ j, required "" (bindString "path" j) with
  | None => sendError 400 "Directory path is required"
  | Some path =>
      unless (negb (IsValidFilePath path)) (sendError 400 "Invalid directory path")
        (orElse (onWorld (DMCreateDirectory uuid NewDirectoryManagerWithDistLock path))
           (sendInternalError "Internal server error") (λ _,
             auditLog "create_directory" path rq true "" ⨟
             respond 201 (BMessage "Directory created successfully")))
  end.

Definition handleDeleteDirectory (rq : Req) : HM response :=
  withPath (Param "path" rq) "Directory path is required" "Invalid directory path" (λ dirPath,
    let recursive := bool_decide (Query "recursive" rq = "true") in
    orElse (onWorld (DMDeleteDirectory NewDirectoryManagerWithDistLock dirPath recursive))
      (sendInternalError "Internal server error") (λ _,
        auditLog "delete_directory" dirPath rq true ("recursive=" +:+ showBool recursive) ⨟
        respond 200 (BMessage "Directory deleted successfully"))).

Definition handleRenameDirectory (rq : Req) : HM response :=
  withPath (Param "path" rq) "Directory path is required" "Invalid directory path" (λ dirPath,
    withNewName rq "Invalid directory name" (λ newName,
      orElse (onWorld (DMRenameDirectory NewDirectoryManagerWithDistLock dirPath newName))
        (sendInternalError "Internal server error") (λ _,
          auditLog "rename_directory" dirPath rq true ("new_name=" +:+ newName) ⨟
          respond 200 (BMessage "Directory renamed successfully")))).

(** page and page_size; an error of Atoi is ignored. *)
Definition pageOf (rq : Req) : Z :=
  let page := (Atoi (DefaultQuery "page" "1" rq)).1 in
  if (page <? 1)%Z then 1%Z else page.
Definition pageSizeOf (rq : Req) : Z :=
  let pageSize := (Atoi (DefaultQuery "page_size" "20" rq)).1 in
  let pageSize := if (maxPageSize srv <? pageSize)%Z then maxPageSize srv else pageSize in
  if (pageSize <? 1)%Z then 20%Z else pageSize.

Definition handleList (rq : Req) : HM response :=
  let dirPath := Query "path" rq in
  unless (negb (bool_decide (dirPath = "")) && negb (IsValidFilePath dirPath))
    (sendError 400 "Invalid directory path")
    (let recursive := bool_decide (Query "recursive" rq = "true") in
     let sortBy := DefaultQuery "sort_by" "name" rq in
     let sortOrder := DefaultQuery "sort_order" "asc" rq in
     let list := if bool_decide (Query "include_total" rq = "true")
                 then ListFilesWithTotal (T := T) else ListFiles in
     orElse (onWorld (onDB (list dirPath recursive (pageOf rq) (pageSizeOf rq) sortBy sortOrder)))
       (sendInternalError "Internal server error") (λ r, respond 200 (BList r))).

Definition metadataKey (filePath : string) : string := "metadata:" +:+ filePath.

Definition handleGetMetadata (rq : Req) : HM response :=
  withPath (Param "path" rq) "Path is required" "Invalid file path" (λ filePath,
    cached ← onCache (λ env, cacheGet env (metadataKey filePath)) None;
    match cached ≫= asMap with
    | Some m => respond 200 (BFile m)
    | None =>
        orElse (onWorld (GetFileMetadata filePath))
          (orElse (onWorld (GetDirectoryMetadata filePath))
             (sendError 404 "Path not found") (λ d, respond 200 (BDir d)))
          (λ m,
            onCache (λ env c, (tt, cacheSet env (metadataKey filePath) (GinH m) c)) tt ⨟
            respond 200 (BFile m))
    end).

Definition handleListAuditLogs (rq : Req) : HM response :=
  orElse (onWorld (onDB (AuditList (Query "operation" rq) (Query "resource_path" rq)
                           (pageOf rq) (pageSizeOf rq))))
    (sendInternalError "Internal server error")
    (λ logs, respond 200 (BLogs logs (pageOf rq) (pageSizeOf rq))).

(** ** Upload sessions *)

(** The body that creates a session of either kind. *)
Record sessionRequest := MkSessionRequest {
  srFilePath : string; srFileName : string; srTotalSize : Z; srHash : string
}.

Definition bindSession (rq : Req) : option sessionRequest :=
  j ← rqJSON rq;
  p ← required "" (bindString "file_path" j);
  n ← required "" (bindString "file_name" j);
  z ← required 0%Z (bindInt64 "total_size" j);
  h ← bindString "hash" j;
  Some (MkSessionRequest p n z h).

Definition withSession (rq : Req) (k : sessionRequest → HM response) : HM response :=
  match bindSession rq with
  | None => sendError 400 "Invalid request body"
  | Some r =>
      unless (negb (IsValidFileName (srFileName r))) (sendError 400 "Invalid file name")
        (unless (negb (IsValidFilePath (srFilePath r))) (sendError 400 "Invalid file path")
           (unless (srTotalSize r <=? 0)%Z (sendError 400 "Total size must be positive")
              (unless (maxUploadSize srv <? srTotalSize r)%Z tooLarge (k r))))
  end.

Definition handleCreateUploadSession (rq : Req) : HM response :=
  withSession rq (λ r,
    orElse (onWorld (CreateUploadSession uuid (srFilePath r) (srFileName r) (srTotalSize r)
                       (rqIP rq) (srHash r)))
      (sendInternalError "Internal server error") (λ sessionID,
        auditLog "create_upload_session" (srFilePath r) rq true ("session_id=" +:+ sessionID) ⨟
        respond 201 (BSession sessionID))).

(** The data of a chunk or part, and its offset. *)
Definition withChunk (rq : Req) (missing unread tooBig : string) (k : bytes → Z → HM response) : HM response :=
  match FormFileOf "data" rq with
  | None => sendError 400 missing
  | Some f =>
      match ReadAll (LimitReader (ffReader f) (wrap64 (maxChunkSize srv + 1))) with
      | Err _ => sendError 500 unread
      | Ok data =>
          unless (maxChunkSize srv <? blen data)%Z (sendError 413 tooBig)
            (let '(offset, err) := ParseInt (PostForm "offset" rq) in
             unless ((err : bool) || (offset <? 0)%Z) (sendError 400 "Invalid offset value")
               (k data offset))
      end
  end.

Definition handleUploadChunk (rq : Req) : HM response :=
  withChunk rq "No chunk data provided" "Failed to read chunk data"
    "Chunk size exceeds maximum allowed size" (λ data offset,
    orElse (onWorld (UploadChunk (Param "id" rq) data offset))
      (sendInternalError "Internal server error")
      (λ _, respond 200 (BMessage "Chunk uploaded successfully"))).

Definition handleGetUploadProgress (rq : Req) : HM response :=
  orElse (onWorld (GetUploadProgress (Param "id" rq))) (sendInternalError "")
    (λ n, respond 200 (BProgress n)).

Definition handleCompleteUpload (rq : Req) : HM response :=
  let sessionID := Param "id" rq in
  orElse (onWorld (CompleteUpload sha256 uuid sessionID))
    (sendInternalError "Failed to complete upload") (λ r,
      auditLog "complete_upload" "" rq true
        ("session_id=" +:+ sessionID +:+ " hash_provided=" +:+ showBool (HashProvided r)
         +:+ " hash_verified=" +:+ showBool (HashVerified r)) ⨟
      respond 200 (BCompleted r)).

Definition handleAbortUpload (rq : Req) : HM response :=
  orElse (onWorld (AbortUpload (Param "id" rq))) (sendInternalError "Internal server error")
    (λ _, respond 200 (BMessage "Upload aborted")).

Definition handleCreateMultipartUpload (rq : Req) : HM response :=
  withSession rq (λ r,
    orElse (onWorld (CreateMultipartUpload uuid (srFilePath r) (srFileName r) (srTotalSize r)
                       (rqIP rq) (srHash r)))
      (sendInternalError "Internal server error") (λ '(sessionID, partSize),
        auditLog "create_multipart_upload" (srFilePath r) rq true
          ("session_id=" +:+ sessionID +:+ " part_size=" +:+ pretty partSize) ⨟
        respond 201 (BMultipart sessionID partSize))).

Definition handleUploadPart (rq : Req) : HM response :=
  let '(partNumber, err) := Atoi (Param "partNumber" rq) in
  unless ((err : bool) || (partNumber <? 1)%Z)
    (sendError 400 "Part number must be a positive integer")
    (unless (10000 <? partNumber)%Z (sendError 400 "Part number exceeds maximum (10000)")
       (withChunk rq "No part data provided" "Failed to read part data"
          "Part size exceeds maximum allowed size" (λ data offset,
          orElse (onWorld (UploadPartData sha256 (Param "id" rq) partNumber offset data))
            (sendInternalError "Internal server error")
            (λ _, respond 200 (BPart partNumber (blen data)))))).

Definition handleGetMultipartUploadStatus (rq : Req) : HM response :=
  orElse (onWorld (GetMultipartUploadProgress (Param "id" rq))) (sendInternalError "")
    (λ '(uploaded, total, parts), respond 200 (BMultiProgress uploaded total parts)).

Definition handleCompleteMultipartUpload (rq : Req) : HM response :=
  let sessionID := Param "id" rq in
  orElse (onWorld (CompleteMultipartUpload sha256 uuid sessionID))
    (sendInternalError "Internal server error") (λ _,
      auditLog "complete_multipart_upload" "" rq true ("session_id=" +:+ sessionID) ⨟
      respond 200 (BMessage "Multipart upload completed successfully")).

Definition handleAbortMultipartUpload (rq : Req) : HM response :=
  orElse (onWorld (AbortMultipartUpload (Param "id" rq))) (sendInternalError "Internal server error")
    (λ _, respond 200 (BMessage "Multipart upload aborted")).

(** ** API keys *)

Definition noKey : HM response := sendError 400 "API key ID is required".

Definition handleCreateApiKey (rq : Req) : HM response :=
  match (j ← rqJSON rq;
         n ← required "" (bindString "name" j);
         d ← bindString "description" j;
         p ← bindString "permissions" j;
         e ← bindString "expires_at" j;
         Some (n, d, p, e)) with
  | None => sendError 400 "Name is required"
  | Some (name, description, permissions, expiresAt) =>
      unless (negb (bool_decide (permissions = "")) && negb (isValidPermissions permissions))
        (sendError 400 "Invalid permissions")
        (id ← onWorld (GenerateUUID uuid);
         plainKey ← onAuthSvc (GenerateApiKey sha256 uuid id);
         now ← onWorld nowString;
         let apiKey := MkKey id (hashApiKey sha256 plainKey) name description permissions now
                         expiresAt "" true in
         orElse (onWorld (onDB (KeyCreate apiKey))) (sendError 500 "Failed to create API key") (λ _,
           auditLog "create_api_key" id rq true ("name=" +:+ name) ⨟
           respond 201 (BKey apiKey (Some plainKey))))
  end.

Definition handleListApiKeys (rq : Req) : HM response :=
  let activeOnly := bool_decide (Query "active_only" rq = "true") in
  orElse (onWorld (onDB (KeyList activeOnly (pageOf rq) (pageSizeOf rq))))
    (sendError 500 "Failed to list API keys")
    (λ ks, respond 200 (BKeys ks (pageOf rq) (pageSizeOf rq))).

(** The key with the identifier of the route. *)
Definition withKey (rq : Req) (k : ApiKey → HM response) : HM response :=
  let id := Param "id" rq in
  orElse (onWorld (onDB (KeyGetById id))) (sendError 500 "Failed to get API key") (λ key,
    match key with
    | None => sendError 404 "API key not found"
    | Some key => k key
    end).

Definition handleGetApiKey (rq : Req) : HM response :=
  unless (bool_decide (Param "id" rq = "")) noKey
    (withKey rq (λ key, respond 200 (BKey key None))).

(** A pointer field: nil when it is missing or null. *)
Definition bindPtr {A} (f : jsonValue → option A) (k : string) (j : list (string * jsonValue))
    : option (option A) :=
  match field k j with
  | None | Some JNull => Some None
  | Some v => Some <$> f v
  end.
Definition asStr (v : jsonValue) : option string := match v with JStr s => Some s | _ => None end.
Definition asBool (v : jsonValue) : option bool := match v with JBool b => Some b | _ => None end.

Definition handleUpdateApiKey (rq : Req) : HM response :=
  unless (bool_decide (Param "id" rq = "")) noKey
    (match (j ← rqJSON rq;
            n ← bindPtr asStr "name" j;
            d ← bindPtr asStr "description" j;
            a ← bindPtr asBool "is_active" j;
            Some (n, d, a)) with
     | None => sendError 400 "Invalid request body"
     | Some (name, description, isActive) =>
         withKey rq (λ key,
           let key := MkKey (kID key) (kKeyHash key) (default (kName key) name)
                        (default (kDescription key) description) (kPermissions key) (kCreatedAt key)
                        (kExpiresAt key) (kLastUsedAt key) (default (kIsActive key) isActive) in
           orElse (onWorld (onDB (KeyUpdate key))) (sendError 500 "Failed to update API key") (λ _,
             auditLog "update_api_key" (Param "id" rq) rq true
               ("name=" +:+ kName key +:+ " is_active=" +:+ showBool (kIsActive key)) ⨟
             respond 200 (BKey key None)))
     end).

Definition handleDeleteApiKey (rq : Req) : HM response :=
  unless (bool_decide (Param "id" rq = "")) noKey
    (withKey rq (λ key,
       orElse (onWorld (onDB (KeyRemove (Param "id" rq)))) (sendError 500 "Failed to delete API key") (λ _,
         auditLog "delete_api_key" (Param "id" rq) rq true ("name=" +:+ kName key) ⨟
         respond 200 (BMessage "API key deleted successfully")))).

(** ** Tokens *)

Definition noJWT : HM response := sendError 503 "JWT authentication not configured".

(** A call of the JWT service, which is there. *)
Definition withJWT {A} (m : M (JWTService * Sys) A) (err : HM response) (k : A → HM response) : HM response :=
  r ← catch (onAuthSvc (onJWT m));
  match r with
  | Ok (Some a) => k a
  | Ok None => noJWT
  | Err _ => err
  end.

(** [user] is the one that the middleware left in the context. *)
Definition handleGenerateToken (user : option User) (rq : Req) : HM response :=
  s ← get;
  match jwtService (hauth s) with
  | None => noJWT
  | Some _ =>
      match (j ← rqJSON rq; u ← bindString "user_id" j; r ← bindString "role" j; Some (u, r)) with
      | None => sendError 400 "Invalid request body"
      | Some (reqUser, reqRole) =>
          match tokenGrant user reqUser reqRole with
          | Err _ => sendError 400 "user_id is required"
          | Ok (callerID, grantRole) =>
              withJWT (GenerateTokenPair callerID grantRole) (sendError 500 "Failed to generate token")
                (λ p, auditLog "issue_token" callerID rq true ("role=" +:+ grantRole) ⨟
                      respond 200 (BTokens p))
          end
      end
  end.

Definition handleRefreshToken (rq : Req) : HM response :=
  s ← get;
  match jwtService (hauth s) with
  | None => noJWT
  | Some _ =>
      match rqJSON rq ≫= λ j, required "" (bindString "refresh_token" j) with
      | None => sendError 400 "Invalid request: refresh_token is required"
      | Some t =>
          withJWT (RefreshToken t) (sendError 401 "Invalid or expired refresh token")
            (λ p, respond 200 (BTokens p))
      end
  end.

(** ** Health *)

(** SELECT 1 *)
Definition selectOne : M World unit := λ w,
  let s := sys w in
  (match net (oracle s (tick s)) with
   | NoFault => Ok tt
   | Lost e | ReplyLost e => Err e
   | ShortRead _ => Err errIO
   end, MkWorld (skip 1 s) (store w) (db w) (dlock w) (sess w) (svc w)).

Definition handleHealthCheck (includeStorage : bool) : HM response :=
  d ← catch (onWorld selectOne);
  st ← (if includeStorage then
          r ← catch (onWorld (onStore (GetSize ".health-probe")));
          mret (Some (match r with Ok _ => true | Err e => IsNotExist e end))
        else mret None);
  let good := is_ok d && default true st in
  respond (if (good : bool) then 200 else 503) (BHealth (Some (is_ok d)) st).

Definition handleHealth : HM response := handleHealthCheck false.
Definition handleReady : HM response := handleHealthCheck true.

(** ** Middleware *)

(** The value of Access-Control-Allow-Origin, empty for none. *)
Definition allowedOrigin (origin : string) : string :=
  if bool_decide (corsOrigins srv = "*") then "*"
  else if negb (bool_decide (corsOrigins srv = "")) && negb (bool_decide (origin = ""))
  then if existsb (λ o, bool_decide (TrimSpace o = origin)) (Split (corsOrigins srv) comma)
       then origin else ""
  else "".

(** The headers of corsMiddleware, and whether it answers the request itself. *)
Definition corsMiddleware (rq : Req) : list (string * string) * bool :=
  let allowed := allowedOrigin (GetHeader "Origin" rq) in
  (if negb (bool_decide (allowed = "")) then
     [("Access-Control-Allow-Origin", allowed);
      ("Access-Control-Allow-Methods", "GET, POST, PUT, DELETE, PATCH, OPTIONS");
      ("Access-Control-Allow-Headers", "Content-Type, Authorization, X-API-Key");
      ("Access-Control-Max-Age", "86400")]
     ++ (if negb (bool_decide (allowed = "*")) then [("Access-Control-Allow-Credentials", "true")] else [])
   else [],
   bool_decide (rqMethod rq = "OPTIONS")).

Definition requestIDMiddleware (rq : Req) : HM string :=
  let reqID := TrimSpace (GetHeader "X-Request-Id" rq) in
  if bool_decide (reqID = "") || (128 <? slen reqID)%nat then onWorld (GenerateUUID uuid)
  else mret reqID.

End http.
Arguments HttpState : clear implicits.
