(* ===== verification/HttpFiles.v ===== *)
(** * Uploads and downloads over HTTP

    The handlers of whole files composed with the file manager, the crypto service
    and the storage: what a client uploaded is what every client gets back. *)

From S2P Require Export Http Download.

Local Open Scope go_scope.

(** ** What an operation leaves in place

    The storage keeps its invariant and the paths that are not its own, and the
    transfer service its temp directory and crypto service. *)

Section home.
Context {Sg L St : Type} {T : Type → Type}.
Context `{StorageLaws Sg} `{DistributedLock L} `{SqlEngine T}.
Context (sha256 : bytes → bytes) (uuid : nat → string).
Notation World := (World Sg L St T).

Definition sameHome (w w' : World) : Prop :=
  storeInv (store w) →
  storeInv (store w') ∧ outside (store w') = outside (store w) ∧ svc w' = svc w.

#[export] Instance sameHome_preorder : PreOrder sameHome.
Proof.
  split; [done|]. intros w1 w2 w3 H12 H23 Hi. destruct (H12 Hi) as (Hi2 & Ho2 & Hs2).
  destruct (H23 Hi2) as (? & ? & ?). split_and!; congruence.
Qed.

Lemma home_calm {A} P (m : M World A) : steps (calm P) m → steps sameHome m.
Proof. intros Hm w Hi. destruct (Hm w) as [(Hst & _) Hs]. by rewrite Hst. Qed.

Lemma home_onDB {A} (m : M (DB T * Sys) A) : steps sameHome (onDB m).
Proof. intros w Hi. unfold onDB. by destruct (m _) as [r [d s]]. Qed.

Lemma home_onStore {A} ks ps (m : M (Sg * Sys) A) :
  (∀ x, storeInv x.1 → frame storeInv object outside ks ps x (m x).2) → steps sameHome (onStore m).
Proof.
  intros Hm w Hi. unfold onStore. specialize (Hm (store w, sys w) Hi).
  destruct (m _) as [r [g s]]. by destruct Hm as (? & ? & _).
Qed.

Lemma home_write p d : safe p → steps sameHome (onStore (Write p d)).
Proof.
  intros Hp. apply (home_onStore (eq p) none). intros x Hx. pose proof (write_spec p d x Hx Hp) as Hw.
  destruct (Write p d x). apply Hw.
Qed.

Lemma home_writeReader p rd : safe p → steps sameHome (onStore (WriteFromReader p rd)).
Proof.
  intros Hp. apply (home_onStore (eq p) none). intros x Hx.
  pose proof (write_reader_spec p rd x Hx Hp) as Hw. destruct (WriteFromReader p rd x). apply Hw.
Qed.

Lemma home_remove p : safe p → steps sameHome (onStore (Remove p)).
Proof.
  intros Hp. apply (home_onStore (eq p) none). intros x Hx.
  pose proof (remove_spec p x Hx Hp) as Hw. destruct (Remove p x). apply Hw.
Qed.

Lemma home_size p : safe p → steps sameHome (onStore (GetSize p)).
Proof.
  intros Hp. apply (home_onStore none none). intros x Hx.
  pose proof (size_spec p x Hx Hp) as Hw. destruct (GetSize p x). apply Hw.
Qed.

Lemma home_now : steps sameHome nowString.
Proof. apply (home_calm none), calm_nowString. Qed.

Lemma home_uuid : steps sameHome (GenerateUUID uuid).
Proof. apply (home_calm none), calm_uuid. Qed.

Hint Resolve home_onDB home_write home_writeReader home_remove home_size home_now home_uuid : steps.

Lemma home_uploadBody p d : safe p → steps sameHome (uploadBody sha256 uuid p d).
Proof. intros Hp. unfold uploadBody, existingMeta, FExists, overwrite, writeNew. steps_auto. Qed.

Lemma home_uploadReaderBody p rd : safe p → steps sameHome (uploadReaderBody sha256 uuid p rd).
Proof.
  intros Hp. unfold uploadReaderBody, recordFile. steps_auto;
    repeat match goal with |- context [match ?x with _ => _ end] => destruct x end; steps_auto.
Qed.

(** The locks around an operation are calm. *)
Lemma home_underLock {A} path (m : M World A) fm (w : World) :
  steps sameHome m → sameHome w (underLock path m (fm, w)).2.2.
Proof.
  intros Hm. unfold underLock, mbind at 1, M_bind at 1. simpl.
  assert (steps sameHome (token ← distLockFile path; deferring m (distUnlockFile path token))) as Hs.
  { unfold distLockFile, distUnlockFile. steps_auto.
    - apply (home_calm none), calm_acquire.
    - apply (home_calm none), calm_release. }
  specialize (Hs w). revert Hs. generalize (token ← distLockFile (Sg := Sg) (L := L) (St := St) (T := T) path;
    deferring m (distUnlockFile path token)). intros k. by destruct (k w).
Qed.

End home.

(** ** The handlers *)

Section handlers.
Context {Sg L St C : Type} {T : Type → Type}.
Context `{StorageLaws Sg} `{DistributedLock L} `{SessionStore sessionValue St}.
Context `{SqlLaws T} `{AEADLaws} `{JWTLib} `{CacheAdapter C}.
Context (sha256 : bytes → bytes) (uuid : nat → string) (srv : HttpServer).
Notation World := (World Sg L St T).
Notation HttpState := (HttpState Sg L St C T).
Implicit Types s : HttpState.

(** A handler always answers: its errors are responses. *)
Lemma orElse_run {A} (m : M HttpState A) err k s :
  orElse m err k s = match m s with (Ok a, s') => k a s' | (Err _, s') => err s' end.
Proof. unfold orElse, mbind, M_bind, catch. by destruct (m s) as [[a|e] s']. Qed.

Lemma auditLog_run op path rq ok details s :
  ∃ s', auditLog uuid op path rq ok details s = (Ok tt, s') ∧ calm none (hw s) (hw s').
Proof.
  unfold auditLog, mbind, M_bind, onWorld, modify.
  pose proof (calm_uuid (Sg := Sg) (L := L) (St := St) (T := T) none uuid (hw s)) as Hu.
  destruct (GenerateUUID uuid (hw s)) as [[id|e] w1] eqn:E1; [|done]. simpl in Hu.
  pose proof (calm_nowString (Sg := Sg) (L := L) (St := St) (T := T) none w1) as Hn.
  destruct (nowString w1) as [[t|e] w2] eqn:E2; [|done]. simpl in Hn.
  eexists. split; [reflexivity|]. simpl. by etrans.
Qed.

(** ** Upload *)

(** The file is stored, encrypted when the service is, and recorded. *)
Definition storedFile (w0 : World) (cs : option CryptoService) (p : string) (d : bytes)
    (m : FileMetadata) (w : World) : Prop :=
  ∃ e, onPath w0 p (eq (Some e)) (eq (Some m)) w ∧ plainOf cs e d ∧ fPath m = p ∧
    (fSize m = blen e ∨ fSize m = 0%Z).

Lemma storedFile_calm w0 cs p d m w w' :
  safe p → calm none w w' → storedFile w0 cs p d m w → storedFile w0 cs p d m w'.
Proof.
  intros Hp Hc (e & Hon & Hrest). exists e. split; [|done]. by eapply onPath_calm.
Qed.

(** A success of the file manager, audited. *)
Lemma uploadDone_stored w0 cs p d path rq m s r s1 :
  safe p → storedFile w0 cs p d m (hw s) →
  uploadDone uuid path rq m s = (Ok r, s1) →
  r = Resp 201 (BFile m) ∧ storedFile w0 cs p d m (hw s1) ∧ sameHome (hw s) (hw s1).
Proof.
  intros Hp Hst. unfold uploadDone, mbind, M_bind, respond.
  destruct (auditLog_run "upload" path rq true "" s) as (s' & -> & Hc). intros [= <- <-].
  split; [done|]. split; [by eapply storedFile_calm|].
  intros Hi. destruct Hc as [(Hst' & _) Hs']. by rewrite Hst'.
Qed.

Lemma upload_memory cs path rq d e s msg r s1 :
  safe (NormalizePath path) → sound (hw s) → plainOf cs e d →
  orElse (onFM (UploadFile sha256 uuid path e)) (sendInternalError msg)
    (uploadDone uuid path rq) s = (Ok r, s1) →
  rstatus r = 201%Z →
  ∃ m, r = Resp 201 (BFile m) ∧ storedFile (hw s) cs (NormalizePath path) d m (hw s1) ∧
       sameHome (hw s) (hw s1).
Proof.
  intros Hp Hs Hpl. rewrite orElse_run. unfold onFM.
  pose proof (UploadFile_spec sha256 uuid path e (hfm s) (hw s) Hp Hs) as Hu.
  pose proof (home_underLock (NormalizePath path) _ (hfm s) (hw s)
    (home_uploadBody sha256 uuid (NormalizePath path) e Hp)) as Hh.
  change (underLock (NormalizePath path) _ _) with (UploadFile sha256 uuid path e (hfm s, hw s)) in Hh.
  destruct (UploadFile sha256 uuid path e (hfm s, hw s)) as [[m|er] [fm w1]]; simpl in *.
  - destruct Hu as (Hon & Hpm & Hsz & _). intros Hd _.
    eapply (uploadDone_stored (hw s) cs (NormalizePath path) d) in Hd as (-> & Hst & Hh2); [|done|].
    + exists m. split_and!; [done..|]. by etrans.
    + exists e. split_and!; [done..|by left].
  - intros [= <- _]. done.
Qed.

(** The bounds of the server's configuration. *)
Definition limitsOk : Prop := (0 ≤ maxUploadSize srv < int64_max)%Z.

(** The multipart parser counts the size of a file. *)
Definition honest (f : FormFile) : Prop := ffSize f = blen (rdata (ffReader f)).

(** Nothing above the limit is cut off: the file fits. *)
Lemma limit_whole f :
  limitsOk → honest f → (ffSize f ≤ maxUploadSize srv)%Z →
  LimitReader (ffReader f) (wrap64 (maxUploadSize srv + 1)) = ffReader f.
Proof.
  intros Hl Hh Hf. unfold limitsOk in Hl. rewrite wrap64_id by (unfold in64, int64_min in *; lia).
  unfold LimitReader. rewrite <-Hh, (proj2 (Z.ltb_lt _ _)); [done|]. lia.
Qed.

Lemma uploadStream_stored path rq f s r s1 :
  limitsOk → honest f → (ffSize f ≤ maxUploadSize srv)%Z →
  safe (NormalizePath path) → sound (hw s) →
  match cryptoSvc (svc (hw s)) with Some cs => IsEnabled cs = false | None => True end →
  uploadStream sha256 uuid srv path rq f s = (Ok r, s1) → rstatus r = 201%Z →
  ∃ m, r = Resp 201 (BFile m) ∧
    storedFile (hw s) (cryptoSvc (svc (hw s))) (NormalizePath path) (rdata (ffReader f)) m (hw s1) ∧
    sameHome (hw s) (hw s1).
Proof.
  intros Hl Hh Hf Hp Hs Hoff. unfold uploadStream. rewrite limit_whole, orElse_run by done. unfold onFM.
  pose proof (UploadFileFromReader_spec sha256 uuid path (ffReader f) (hfm s) (hw s) Hp Hs) as Hu.
  pose proof (home_underLock (NormalizePath path) _ (hfm s) (hw s)
    (home_uploadReaderBody sha256 uuid (NormalizePath path) (ffReader f) Hp)) as Hhome.
  change (underLock (NormalizePath path) _ _)
    with (UploadFileFromReader sha256 uuid path (ffReader f) (hfm s, hw s)) in Hhome.
  destruct (UploadFileFromReader _ _ _ _ _) as [[m|er] [fm w1]]; simpl in *; [|by intros [= <- _]].
  destruct Hu as (Hon & Hpm & Hsz & _). destruct (_ <? _)%Z.
  - unfold mbind, M_bind, ignore, tooLarge, sendError, respond, onFM. simpl.
    destruct (DeleteFile path (fm, w1)) as [x [fm2 w2]]. by intros [= <- _].
  - intros Hd _. eapply (uploadDone_stored (hw s) (cryptoSvc (svc (hw s))) (NormalizePath path)
      (rdata (ffReader f))) in Hd as (-> & Hst & Hh2); [|done|].
    + exists m. split_and!; [done..|]. by etrans.
    + exists (rdata (ffReader f)). split_and!; [done| |done|done].
      unfold plainOf. destruct (cryptoSvc _); [by rewrite Hoff|done].
Qed.

Lemma uploadSmall_stored cs path rq f s r s1 :
  match cs with Some c => IsEnabled c = false | None => True end →
  safe (NormalizePath path) → sound (hw s) →
  uploadSmall sha256 uuid path rq f s = (Ok r, s1) → rstatus r = 201%Z →
  ∃ m, r = Resp 201 (BFile m) ∧
    storedFile (hw s) cs (NormalizePath path) (rdata (ffReader f)) m (hw s1) ∧
    sameHome (hw s) (hw s1).
Proof.
  intros Hoff Hp Hs. unfold uploadSmall. destruct (ReadAll _) as [d|] eqn:Er; [|by intros [= <- _]].
  unfold unless. destruct (_ <? _)%Z eqn:Esm; [by intros [= <- _]|]. bool_prop.
  apply ReadAll_limit in Er as [-> _]; [|lia].
  apply upload_memory; [done..|]. unfold plainOf. destruct cs; [by rewrite Hoff|done].
Qed.

(** A state that differs only in the clock is as good a start. *)
Lemma storedFile_start w w' cs p d m w1 :
  safe p → sound w → calm none w w' → storedFile w' cs p d m w1 → storedFile w cs p d m w1.
Proof.
  intros Hp Hs Hc (e & (Hsd & Hoth & Hov) & Hrest). exists e. split; [|done].
  split; [done|]. split; [|done]. intros q Hq Hne. destruct (Hoth q Hq Hne) as [-> ->].
  destruct (onPath_calm w p Hp any any w w' Hc (onPath_start w p Hs)) as (_ & Ho & _). by apply Ho.
Qed.

Lemma uploadEncrypted_stored cs path rq f s r s1 :
  limitsOk → honest f → (ffSize f ≤ maxUploadSize srv)%Z → IsEnabled cs = true →
  safe (NormalizePath path) → sound (hw s) →
  uploadEncrypted sha256 uuid srv cs path rq f s = (Ok r, s1) → rstatus r = 201%Z →
  ∃ m, r = Resp 201 (BFile m) ∧
    storedFile (hw s) (Some cs) (NormalizePath path) (rdata (ffReader f)) m (hw s1) ∧
    sameHome (hw s) (hw s1).
Proof.
  intros Hl Hh Hf Hen Hp Hs. unfold uploadEncrypted. rewrite limit_whole by done.
  destruct (ReadAll (ffReader f)) as [d|] eqn:Er; [|by intros [= <- _]].
  assert (d = rdata (ffReader f)) as -> by (unfold ReadAll in Er; by destruct (rerr _); simplify_eq).
  unfold unless. destruct (_ <? blen _)%Z; [by intros [= <- _]|].
  unfold mbind, M_bind, onWorld. simpl.
  destruct (Encrypt cs _ _) as [e|] eqn:Ee; [|by intros [= <- _]]. intros Hr H201.
  set (s' := MkHttpState _ _ _ _ _) in Hr.
  assert (calm none (hw s) (hw s')) as Hc
    by apply (calm_nextEnv (Sg := Sg) (L := L) (St := St) (T := T) none (hw s)).
  assert (sound (hw s')) as Hs'
    by (destruct Hc as [(Hst' & Hdb & _) _]; split; rewrite ?Hst', ?Hdb; apply Hs).
  eapply (upload_memory (Some cs) path rq (rdata (ffReader f)) e) in Hr as (m & -> & Hm & Hh2);
    [|done|done| |done].
  - exists m. split; [done|]. split; [by eapply storedFile_start|].
    etrans; [|exact Hh2]. intros Hi. destruct Hc as [(Hst' & _) Hsv]. by rewrite Hst'.
  - simpl. rewrite Hen. eapply decrypt_encrypt; [|exact Ee]. apply length_nonceOf.
Qed.

Lemma handleUpload_stored rq f s r s1 :
  limitsOk → FormFileOf "file" rq = Some f → honest f → sound (hw s) →
  handleUpload sha256 uuid srv rq s = (Ok r, s1) → rstatus r = 201%Z →
  IsValidFilePath (uploadPath rq f) = true ∧
  ∃ m, r = Resp 201 (BFile m) ∧
    storedFile (hw s) (cryptoSvc (svc (hw s))) (NormalizePath (uploadPath rq f))
      (rdata (ffReader f)) m (hw s1) ∧
    sameHome (hw s) (hw s1).
Proof.
  intros Hl Hff Hh Hs. unfold handleUpload, unless. rewrite Hff.
  destruct (maxUploadSize srv <? ffSize f)%Z eqn:Esz; [by intros [= <- _]|]. bool_prop.
  destruct (IsValidFileName (ffName f)); simpl; [|by intros [= <- _]].
  set (path := uploadPath rq f). destruct (IsValidFilePath path) eqn:Hv; simpl; [|by intros [= <- _]].
  assert (safe (NormalizePath path)) as Hp by (eexists; by apply valid_path_safeKey).
  intros Hr H201. split; [done|]. revert Hr H201.
  unfold mbind at 1, M_bind at 1, encryption, gets.
  destruct (cryptoSvc (svc (hw s))) as [cs|] eqn:Ecs; [destruct (IsEnabled cs) eqn:Een|].
  - by apply uploadEncrypted_stored.
  - destruct (_ && _); [by apply uploadSmall_stored|].
    intros Hr H201. rewrite <-Ecs. eapply uploadStream_stored; try done. by rewrite Ecs.
  - destruct (_ && _); [by apply uploadSmall_stored|].
    intros Hr H201. rewrite <-Ecs. eapply uploadStream_stored; try done. by rewrite Ecs.
Qed.

(** ** Download *)

(** The temp paths of every request are the server's own. *)
Definition tempsOut (w : World) : Prop :=
  ∀ n, let id := uuid n in let td := tempDir (svc w) in
  outside (store w) (encOf td id) ∧ outside (store w) (decOf td id) ∧ encOf td id ≠ decOf td id.

Definition encrypts (cs : option CryptoService) : bool :=
  match cs with Some c => IsEnabled c | None => false end.

Section download.
Context (w0 : World) (cs : option CryptoService) (p : string) (e : bytes) (m : FileMetadata).
Context (Hp : safe p) (Hpm : fPath m = p).
(** The recorded size is the one of the object, or zero. *)
Notation sized := (fSize m = blen e ∨ fSize m = 0%Z).

(** The file is there, and the server can serve it. *)
Definition ready (w : World) : Prop :=
  onPath w0 p (eq (Some e)) (eq (Some m)) w ∧ cryptoSvc (svc w) = cs ∧ tempsOut w.

Lemma ready_home w w' :
  ready w → onPath w0 p (eq (Some e)) (eq (Some m)) w' → sameHome w w' → ready w'.
Proof.
  intros (Hon & Hcs & Ht) Hon' Hh. destruct (Hh (proj1 (proj1 Hon))) as (_ & Ho & Hs).
  split; [done|]. unfold tempsOut. rewrite Ho, Hs. done.
Qed.

(** What only touches paths outside the storage keeps the file. *)
Lemma ready_outside (P : string → Prop) w w' :
  calm P w w' → (∀ q, P q → outside (store w) q) → ready w → ready w'.
Proof.
  intros [(Hst & Hdb & _ & _ & Hf) Hs] HP Hr. pose proof Hr as (([Hi Hd] & Hoth & Ho & Hv) & _).
  assert (∀ q, safe q → object (store w') (os (sys w')) q = object (store w) (os (sys w)) q) as Hob.
  { intros q Hq. rewrite Hst. apply object_local; [done..|]. intros x Hx. apply Hf. by intros ?%HP. }
  eapply ready_home; [exact Hr| |by intros _; rewrite Hst].
  split; [by split; rewrite ?Hst, ?Hdb|]. split; [|rewrite Hob, Hdb by done; done].
  intros q Hq Hne. rewrite Hob, Hdb by done. by apply Hoth.
Qed.

(** A query or a read of the file leaves it ready. *)
Lemma ready_read {A} (op : M World A) (R : A → Prop) :
  steps sameHome op →
  triple (onPath w0 p (eq (Some e)) (eq (Some m))) op
    (λ a w, R a ∧ onPath w0 p (eq (Some e)) (eq (Some m)) w)
    (onPath w0 p (eq (Some e)) (eq (Some m))) →
  triple ready op (λ a w, R a ∧ ready w) ready.
Proof.
  intros Hh Hop w Hr. specialize (Hop w (proj1 Hr)). specialize (Hh w).
  destruct (op w) as [[a|er] w']; simpl in *; [destruct Hop as [? Hop]; split; [done|]|]; by eapply ready_home.
Qed.

Lemma ready_meta : triple ready (GetFileMetadata p) (λ a w, a = m ∧ ready w) ready.
Proof.
  apply ready_read.
  - unfold GetFileMetadata. steps_auto. apply home_onDB.
  - eapply triple_conseq; [by apply path_meta|done| |done].
    intros a w Hw. pose proof Hw as (_ & _ & _ & [Hm Ha]). split; [congruence|].
    eapply onPath_weaken; [| |exact Hw]; naive_solver.
Qed.

Lemma ready_store {A} (op : M (Sg * Sys) A) (R : A → bytes → Prop) :
  (∀ x, storeInv x.1 →
     let '(r, x') := op x in
     frame storeInv object outside none none x x' ∧
     ∀ a, r = Ok a → ∃ d, object x.1 (os x.2) p = Some d ∧ R a d) →
  triple ready (onStore op) (λ a w, R a e ∧ ready w) ready.
Proof.
  intros Hop. apply (ready_read (onStore op) (λ a, R a e)).
  - apply (home_onStore none none). intros x Hx. specialize (Hop x Hx). destruct (op x). apply Hop.
  - eapply triple_conseq; [apply (path_read w0 p Hp (eq (Some e)) (eq (Some m)) op
      (λ a y, ∃ d, y = Some d ∧ R a d))|done| |done].
    + intros x Hx. specialize (Hop x Hx). by destruct (op x).
    + intros a w Hw. pose proof Hw as (_ & _ & [Hd (d & Hd' & HR)] & _). split; [congruence|].
      eapply onPath_weaken; [| |exact Hw]; naive_solver.
Qed.

Lemma ready_open : triple ready (onStore (OpenReader p)) (λ d w, d = e ∧ ready w) ready.
Proof.
  apply (ready_store (OpenReader p) (λ a d, a = d)). intros x Hx.
  pose proof (open_spec p x Hx Hp) as Ho. destruct (OpenReader p x) as [r x'].
  destruct Ho as [Hf Ho]. split; [done|]. intros a ->. eauto.
Qed.

Lemma ready_data : triple ready (DownloadFileData (Some m)) (λ d w, d = e ∧ ready w) ready.
Proof.
  simpl. rewrite Hpm, (safe_normal p Hp). apply triple_wrapErr.
  apply (ready_store (Read p) (λ a d, a = d)). intros x Hx.
  pose proof (read_spec p x Hx Hp) as Ho. destruct (Read p x) as [r x'].
  destruct Ho as [Hf Ho]. split; [done|]. intros a ->. eauto.
Qed.

Lemma ready_dataAt n off :
  in64 n → in64 off →
  triple ready (DownloadFileDataAt (Some m) n off)
    (λ d w, ((0 < n)%Z ∧ d = readAt e (Z.to_nat off) (Z.to_nat n)) ∧ ready w) ready.
Proof.
  intros Hn Ho. simpl. rewrite Hpm, (safe_normal p Hp). apply triple_wrapErr.
  apply (ready_store (ReadAt p n off) (λ a d, (0 < n)%Z ∧ a = readAt d (Z.to_nat off) (Z.to_nat n))).
  intros x Hx. pose proof (read_at_spec p n off x Hx Hp Hn Ho) as Hr.
  destruct (ReadAt p n off x) as [r x']. destruct Hr as [Hf Hr]. split; [done|]. intros a ->.
  destruct (Hr a eq_refl) as (? & _ & d & ? & ?). eauto.
Qed.

(** ** Decrypting into the temp files of the request *)

Section temps.
Context (enc dec : string) (Hne : enc ≠ dec).

Definition readyTemps (w : World) : Prop :=
  ready w ∧ outside (store w) enc ∧ outside (store w) dec.

Lemma readyTemps_calm {A} (op : M World A) :
  steps (calm (temps enc dec)) op → triple readyTemps op (λ _, readyTemps) readyTemps.
Proof.
  intros Hop. eapply triple_steps; [exact Hop|]. intros w w' (Hr & He & Hd) Hc. split.
  - eapply ready_outside; [exact Hc| |done]. by intros q [->| ->].
  - destruct Hc as [(Hst & _) _]. by rewrite Hst.
Qed.

Lemma readyTemps_cleanup : triple readyTemps (cleanupTemps enc dec) (λ _, readyTemps) readyTemps.
Proof.
  apply readyTemps_calm. unfold cleanupTemps. apply steps_bind; [apply _| |intros _];
    apply calm_rm; [by left|by right].
Qed.

(** A call that touches only the temp files, with what its success means. *)
Lemma readyTemps_os {A} (P : World → Prop) (op : M World A) (Q : A → World → Prop) :
  steps (calm (temps enc dec)) op →
  (∀ w a w', P w → op w = (Ok a, w') → Q a w') →
  triple (λ w, readyTemps w ∧ P w) op (λ a w, readyTemps w ∧ Q a w) readyTemps.
Proof.
  intros Hs HQ w [Hr HP]. pose proof (readyTemps_calm op Hs w Hr) as Hc. specialize (HQ w).
  destruct (op w) as [[a|er] w']; [|done]. split; [done|]. by apply HQ.
Qed.

Lemma triple_failWith {A} (P : World → Prop) msg (m' : M World A) Q E :
  triple P m' Q E → triple P (failWith msg m') Q E.
Proof. intros Hm w HP. specialize (Hm w HP). unfold failWith. by destruct (m' w) as [[]]. Qed.

Lemma decryptForRequest_spec c :
  triple readyTemps (decryptForRequest c p enc dec) (λ d w, Decrypt c e = Ok d ∧ readyTemps w) readyTemps.
Proof.
  unfold decryptForRequest. pose proof readyTemps_cleanup as Hclean.
  eapply (triple_bind _ _ (λ _, readyTemps)); [apply triple_failWith, readyTemps_calm, calm_write; by left|intros _].
  eapply (triple_bind _ _ (λ d w, readyTemps w ∧ d = e)).
  { apply triple_failWith. eapply (triple_onError _ _ _ _ readyTemps).
    - intros w (Hr & He & Hd). pose proof (ready_open w Hr) as Ho.
      pose proof (home_onStore (L := L) (St := St) (T := T) none none (OpenReader p)) as Hh.
      specialize (Hh ltac:(intros x Hx; pose proof (open_spec p x Hx Hp) as Hq;
        destruct (OpenReader p x); apply Hq) w (proj1 (proj1 (proj1 Hr)))).
      destruct (onStore (OpenReader p) w) as [[d|er] w']; simpl in *; destruct Hh as (_ & Hout & _);
        unfold readyTemps; rewrite Hout; naive_solver.
    - apply readyTemps_calm, calm_rm. by left. }
  intros d. eapply (triple_bind _ _ (λ _ w, readyTemps w ∧ fileAt (os (sys w)) enc = Some e)).
  { apply triple_failWith. eapply triple_onError; [|exact Hclean]. apply (readyTemps_os (λ _, d = e)).
    - apply calm_write. by left.
    - intros w [] w' -> Hr. by apply onOS_osCall_ok, osWriteFile_ok in Hr. }
  intros _. set (plain (x : bytes) (w : World) := Decrypt c e = Ok x ∧ fileAt (os (sys w)) dec = Some x).
  eapply (triple_bind _ _ (λ _ w, readyTemps w ∧ ∃ x, plain x w)).
  { apply triple_failWith. eapply triple_onError; [|exact Hclean].
    apply (readyTemps_os (λ w, fileAt (os (sys w)) enc = Some e) _ (λ _ w, ∃ x, plain x w)).
    - apply calm_DecryptFileStreaming. by right.
    - intros w [] w' He Hr. apply onOS_ok in Hr as (s4 & Hr & ->).
      destruct (DecryptFileStreaming_ok c enc dec e _ _ He Hr) as (x & Hx & Hf). by exists x. }
  intros _. eapply (triple_bind _ _ (λ _ w, readyTemps w ∧ ∃ x, plain x w)).
  { apply triple_failWith. eapply triple_onError; [|exact Hclean].
    apply (readyTemps_os (λ w, ∃ x, plain x w) _ (λ _ w, ∃ x, plain x w)).
    - by apply calm_osCall.
    - intros w [] w' (x & Hx & Hf) Hr. exists x. split; [done|].
      pose proof (calm_osCall (Sg := Sg) (L := L) (St := St) (T := T) none (osOpen dec) (λ o q _, eq_refl) w)
        as [(_ & _ & _ & _ & Hsame) _].
      rewrite Hr in Hsame. by rewrite Hsame. }
  intros _. eapply (triple_deferring _ _ _ (λ d w, readyTemps w ∧ Decrypt c e = Ok d) readyTemps).
  - apply (readyTemps_os (λ w, ∃ x, plain x w) _ (λ d _, Decrypt c e = Ok d)).
    + by apply calm_osCall.
    + intros w y w' (x & Hx & Hf) Hr. apply onOS_osCall_ok in Hr. unfold osReadFile, fileAt in *.
      destruct (os (sys w) !! dec) as [[]|]; simplify_eq. done.
  - intros y w [Hr Hy]. specialize (Hclean w Hr). by destruct (cleanupTemps enc dec w) as [[] ?].
  - exact Hclean.
Qed.
End temps.

(** ** The responses *)

(** What a client may be told of a file with the plaintext [d]. *)
Definition exactResponse (d : bytes) (r : response) : Prop :=
  match rbody r with
  | BData n x => rstatus r = 200%Z ∧ n = blen d ∧ x = d
  | BContent c => rstatus r = contentStatus c ∧ exactContent d c
  | BRange start stop size x =>
      rstatus r = 206%Z ∧ size = blen d ∧ (0 ≤ start ≤ stop)%Z ∧ (stop < size)%Z ∧
      (stop - start + 1 ≤ maxInlineDownload)%Z ∧
      x = rangeBytes d (MkRange start (stop - start + 1)) ∧ blen x = (stop - start + 1)%Z
  | BError _ => rstatus r ∈ [400; 404; 416; 500]%Z
  | _ => False
  end.

(** The body that reaches the client: net/http refuses a write that exceeds the declared
    Content-Length, and gin writes the body in one call. *)
Definition sentBody (declared : Z) (x : bytes) : bytes := if (blen x <=? declared)%Z then x else [].

(** The exception: a file whose size was recorded as 0 and is not, served as it is stored. *)
Definition emptied (d : bytes) (r : response) : Prop :=
  encrypts cs = false ∧ fSize m = 0%Z ∧ d ≠ [] ∧ r = Resp 200 (BData 0 d) ∧ sentBody 0 d = [].

Lemma parseHeader_in64 size h start stop :
  parseHeader size h = Some (start, stop) → in64 start ∧ in64 stop.
Proof.
  unfold parseHeader. pose proof ParseInt_in64 as Hi.
  destruct (Split _ _) as [|a [|b []]]; try done. pose proof (Hi a). pose proof (Hi b).
  destruct (ParseInt a), (ParseInt b). simpl in *.
  repeat case_match; try done; intros [= <- <-]; auto using wrap64_in64.
Qed.

Lemma range_exact h s r s1 :
  sized → ready (hw s) → handleRangeDownload m h s = (Ok r, s1) →
  exactResponse e r ∧ ready (hw s1).
Proof.
  intros Hsize Hr. unfold handleRangeDownload.
  destruct (parseHeader (fSize m) h) as [[start stop]|] eqn:Eh.
  2: { intros [= <- <-]. split; [|done]. unfold exactResponse. simpl. set_solver. }
  apply parseHeader_in64 in Eh as [Hstart Hstop]. unfold unless.
  destruct (_ || _) eqn:Eb; [intros [= <- <-]; split; [unfold exactResponse; simpl; set_solver|done]|].
  bool_prop. destruct (_ <? wrap64 _)%Z eqn:Ec;
    [intros [= <- <-]; split; [unfold exactResponse; simpl; set_solver|done]|]. bool_prop.
  rewrite orElse_run. unfold onWorld.
  pose proof (ready_dataAt (wrap64 (stop - start + 1)) start (wrap64_in64 _) Hstart (hw s) Hr) as Hd.
  destruct (DownloadFileDataAt _ _ _ (hw s)) as [[x|er] w1]; intros [= <- <-]; simpl in *.
  - destruct Hd as [[Hpos ->] Hr1]. split; [|done]. unfold in64, int64_max, int64_min in *.
    assert (wrap64 (stop - start + 1) = stop - start + 1)%Z as Heq.
    { destruct (wrap64_cases (stop - start + 1)) as [?|[[? ?]|[? ?]]]; unfold int64_min, int64_max in *; lia. }
    assert (fSize m = blen e) as Hlen by (destruct Hsize; [done|lia]).
    unfold exactResponse. simpl. rewrite Heq in *. split_and!; try done; try lia.
    apply (blen_rangeBytes e (MkRange start (stop - start + 1))). unfold inContent. simpl. lia.
  - split; [|done]. unfold exactResponse. simpl. set_solver.
Qed.

Lemma encrypted_exact c d rq s r s1 :
  ready (hw s) → Decrypt c e = Ok d →
  handleEncryptedDownload uuid c rq p s = (Ok r, s1) →
  exactResponse d r ∧ ready (hw s1).
Proof.
  intros Hr Hdec. unfold handleEncryptedDownload, mbind at 1, M_bind at 1, onWorld at 1. simpl.
  unfold mbind, M_bind, onWorld at 1. cbn [hfm hw hauth haudit hcache].
  pose proof (ready_outside none (hw s) _ (calm_uuid none uuid (hw s)) ltac:(by intros q []) Hr) as Hr1.
  destruct (GenerateUUID uuid (hw s)) as [[id|er] w1] eqn:Eu; [|done].
  assert (∃ n, id = uuid n) as [n ->].
  { unfold GenerateUUID, onOS in Eu. simplify_eq. eauto. }
  assert (svc w1 = svc (hw s)) as Hsv
    by (pose proof (calm_uuid (Sg := Sg) (L := L) (St := St) (T := T) none uuid (hw s)) as [_ Hs'];
        by rewrite Eu in Hs').
  simpl in Hr1. pose proof Hr1 as (_ & _ & Ht). destruct (Ht n) as (He & Hd & Hne).
  rewrite Hsv in He, Hd, Hne. cbv zeta. unfold catch, onWorld. simpl. unfold tempPathOf.
  fold (encOf (tempDir (svc (hw s))) (uuid n)) (decOf (tempDir (svc (hw s))) (uuid n)).
  pose proof (decryptForRequest_spec _ _ Hne c w1 (conj Hr1 (conj He Hd))) as Hx.
  destruct (decryptForRequest _ _ _ _ w1) as [[x|er] w2]; intros [= <- <-]; simpl.
  - destruct Hx as [Hx [Hr2 _]]. assert (x = d) as -> by congruence.
    split; [|done]. split; [done|]. apply ServeContent_exact.
  - split; [|apply Hx]. unfold exactResponse. simpl. set_solver.
Qed.

Lemma whole_answer :
  encrypts cs = false → sized → exactResponse e (Resp 200 (BData (fSize m) e)) ∨ emptied e (Resp 200 (BData (fSize m) e)).
Proof.
  intros Hen [Hs|Hs]; [by left|]. destruct (decide (e = [])) as [->|Hne]; [by left; rewrite Hs|].
  right. unfold emptied. rewrite Hs. split_and!; [done..|]. unfold sentBody, blen. by destruct e.
Qed.

(** The size does not matter when the object is decrypted. *)
Lemma handleDownload_exact d rq s r s1 :
  encrypts cs = true ∨ sized → ready (hw s) → plainOf cs e d → NormalizePath (Param "path" rq) = p →
  handleDownload uuid rq s = (Ok r, s1) →
  (exactResponse d r ∨ emptied d r) ∧ ready (hw s1).
Proof.
  assert (∀ st msg, st ∈ [400; 404; 416; 500]%Z → exactResponse d (Resp st (BError msg))) as Herr by done.
  intros Hsz Hr Hpl Hpath. unfold handleDownload, unless.
  destruct (bool_decide _); [intros [= <- <-]; split; [left; apply Herr; set_solver|done]|].
  destruct (IsValidFilePath _); [|intros [= <- <-]; split; [left; apply Herr; set_solver|done]].
  cbn [negb]. cbv zeta. rewrite Hpath, orElse_run. unfold onWorld at 1.
  pose proof (ready_meta (hw s) Hr) as Hm.
  destruct (GetFileMetadata p (hw s)) as [[m'|er] w1]; simpl in Hm.
  2: { intros [= <- <-]. split; [left; apply Herr; set_solver|done]. }
  destruct Hm as [-> Hr1]. unfold mbind at 1, M_bind at 1, encryption, gets. cbn [hfm hw hauth haudit hcache].
  pose proof Hr1 as (_ & Hcs & _). rewrite Hcs.
  set (s' := MkHttpState _ w1 _ _ _). assert (ready (hw s')) as Hr' by done. clearbody s'.
  assert (encrypts cs = false → sized → ∀ (mm : M World bytes) msg k,
    (∀ x, k x ∈ [BData (fSize m) x; BContent (ServeContent "" x)]) →
    triple ready mm (λ x w, x = e ∧ ready w) ready →
    orElse (onWorld mm) (sendError 500 msg) (λ x, respond 200 (k x)) s' = (Ok r, s1) →
    (exactResponse e r ∨ emptied e r) ∧ ready (hw s1)) as Hwhole.
  { intros Hen Hsize mm msg k Hk Ht. rewrite orElse_run. unfold onWorld. specialize (Ht (hw s') Hr').
    destruct (mm (hw s')) as [[x|er2] w2]; intros [= <- <-]; simpl in *; [|by split; [left; set_solver|]].
    destruct Ht as [-> ?]. split; [|done]. specialize (Hk e). rewrite ServeContent_whole in Hk.
    apply elem_of_cons in Hk as [->|[->|[]%elem_of_nil]%elem_of_cons]; [|by left].
    by apply whole_answer. }
  assert (encrypts cs = false → sized → (if negb (bool_decide (GetHeader "Range" rq = "")) then handleRangeDownload m (GetHeader "Range" rq)
    else if (maxInlineDownload <? fSize m)%Z then
      orElse (onWorld (onStore (OpenReader p))) (sendError 500 "Failed to open file")
        (λ d, respond 200 (BContent (ServeContent "" d)))
    else orElse (onWorld (DownloadFileData (Some m))) (sendError 500 "Failed to read file")
        (λ d, respond 200 (BData (fSize m) d))) s' = (Ok r, s1) →
    (exactResponse e r ∨ emptied e r) ∧ ready (hw s1)) as Hplain.
  { intros Hen Hsize. specialize (Hwhole Hen Hsize). destruct (negb _).
    { intros E. apply range_exact in E as [? ?]; [|done..]. by split; [left|]. }
    destruct (_ <? _)%Z; apply Hwhole; auto using ready_open, ready_data; intros; set_solver. }
  unfold plainOf in Hpl. unfold encrypts in Hsz, Hplain.
  destruct cs as [c|]; [destruct (IsEnabled c)|]; subst;
    [intros E; apply (encrypted_exact _ d) in E as [? ?]; [|done..]; by split; [left|]|..];
    (destruct Hsz as [|Hsize]; [done|auto]).
Qed.
End download.

(** ** Handlers answer *)

Definition answers {A} (m : M HttpState A) : Prop := ∀ s, ∃ a s', m s = (Ok a, s').

Lemma answers_orElse {A} (m : M HttpState A) err k :
  answers err → (∀ a, answers (k a)) → answers (orElse m err k).
Proof. intros He Hk s. rewrite orElse_run. destruct (m s) as [[a|e] s']; [apply Hk|apply He]. Qed.

Lemma answers_respond st b : answers (respond st b).
Proof. intros s. by eexists _, _. Qed.

Lemma answers_bind {A B} (m : M HttpState A) (f : A → M HttpState B) :
  answers m → (∀ a, answers (f a)) → answers (m ≫= f).
Proof. intros Hm Hf s. unfold mbind, M_bind. destruct (Hm s) as (a & s' & ->). apply Hf. Qed.

Lemma answers_download rq : answers (handleDownload uuid rq).
Proof.
  pose proof answers_respond as Hr. unfold handleDownload, unless, sendError.
  destruct (bool_decide _); [apply Hr|]. destruct (negb _); [apply Hr|].
  apply answers_orElse; [apply Hr|]. intros m.
  apply answers_bind; [intros s; by eexists _, _|]. intros [cs|].
  - unfold handleEncryptedDownload. apply answers_bind; [intros s; by eexists _, _|]. intros v.
    apply answers_bind; [intros s; by eexists _, _|]. intros id. cbv zeta.
    apply answers_bind; [|intros []; apply Hr].
    intros s. unfold catch. match goal with |- context [let '(r, w') := ?x in _] => destruct x end.
    by eexists _, _.
  - destruct (negb _).
    + unfold handleRangeDownload, unless, badRange, sendError. destruct (parseHeader _ _) as [[]|]; [|apply Hr].
      destruct (_ || _); [apply Hr|]. destruct (_ <? _)%Z; [apply Hr|].
      apply answers_orElse; [apply Hr|intros d; apply Hr].
    + destruct (_ <? _)%Z; (apply answers_orElse; [apply Hr|intros d; apply Hr]).
Qed.

(** One request after another. *)
Fixpoint downloadAll (rqs : list Req) : M HttpState (list response) :=
  match rqs with
  | [] => mret []
  | rq :: rqs => r ← handleDownload uuid rq; rs ← downloadAll rqs; mret (r :: rs)
  end.

Lemma downloadAll_exact w0 cs p e m d rqs s :
  safe p → fPath m = p → encrypts cs = true ∨ (fSize m = blen e ∨ fSize m = 0%Z) → plainOf cs e d → ready w0 cs p e m (hw s) →
  Forall (λ rq, NormalizePath (Param "path" rq) = p) rqs →
  ∃ rs s', downloadAll rqs s = (Ok rs, s') ∧ length rs = length rqs ∧
    Forall (λ r, exactResponse d r ∨ emptied cs m d r) rs ∧ ready w0 cs p e m (hw s').
Proof.
  intros Hp Hpm Hsz Hpl Hr Hrqs. revert s Hr. induction Hrqs as [|rq rqs Hrq Hrqs IH]; intros s Hr.
  { by exists [], s. }
  destruct (answers_download rq s) as (r & s1 & Hd).
  destruct (handleDownload_exact w0 cs p e m Hp Hpm d rq s r s1 Hsz Hr Hpl Hrq Hd) as [Hx Hr1].
  destruct (IH s1 Hr1) as (rs & s' & Hds & Hlen & Hxs & Hr').
  exists (r :: rs), s'. simpl. unfold mbind, M_bind. rewrite Hd, Hds. split; [done|].
  split; [simpl; lia|]. by split; [constructor|].
Qed.

End handlers.

(** A file of the recorded size is never answered with an empty body. *)
Lemma never_emptied cs m d rs :
  encrypts cs = true ∨ fSize m = blen d → Forall (λ r, exactResponse d r ∨ emptied cs m d r) rs →
  Forall (exactResponse d) rs.
Proof.
  intros Hsz Hx. eapply Forall_impl; [exact Hx|]. intros r [?|(Hen & H0 & Hne & _)]; [done|].
  destruct Hsz as [|Hsz]; [congruence|]. rewrite H0 in Hsz. by destruct d.
Qed.

Lemma plain_size `{AEAD} cs e d m :
  plainOf cs e d → fSize m = blen e ∨ fSize m = 0%Z →
  encrypts cs = true ∨ fSize m = blen d ∨ fSize m = 0%Z.
Proof.
  unfold plainOf, encrypts. intros Hpl Hsz. destruct cs as [c|]; [destruct (IsEnabled c); [by left|]|]; subst; by right.
Qed.

(** ** Properties *)

(** C2: what is uploaded over HTTP is what is downloaded, with encryption on or
    off. After an upload that was answered with 201, no other file has changed,
    and every sequence of downloads of the path is answered, each response being the
    whole file with its length, or exact byte ranges of it with the positions they claim,
    or an error; and the downloads leave the file as it is. There is one exception, which
    the upload's answer shows: without encryption the size of the stored file is the one
    recorded, unless reading it back failed, which records the size 0; a download of the
    whole file then declares the length 0, and the client gets an empty body. *)
Theorem http_round_trip {Sg L St C T} `{StorageLaws Sg} `{DistributedLock L} `{SqlLaws T} `{AEADLaws}
    (sha256 : bytes → bytes) (uuid : nat → string) (srv : HttpServer)
    (rq : Req) (f : FormFile) (r : response) (s s1 : HttpState Sg L St C T) :
  limitsOk srv → FormFileOf "file" rq = Some f → honest f → sound (hw s) → tempsOut uuid (hw s) →
  handleUpload sha256 uuid srv rq s = (Ok r, s1) → rstatus r = 201%Z →
  let d := rdata (ffReader f) in
  let p := NormalizePath (uploadPath rq f) in
  let cs := cryptoSvc (svc (hw s)) in
  FileManager.others (eq p) (hw s) (hw s1) ∧
  ∃ m, r = Resp 201 (BFile m) ∧ (encrypts cs = true ∨ fSize m = blen d ∨ fSize m = 0%Z) ∧
    ∀ rqs, Forall (λ rq, NormalizePath (Param "path" rq) = p) rqs →
      ∃ rs s2, downloadAll uuid rqs s1 = (Ok rs, s2) ∧ length rs = length rqs ∧
        FileManager.others (eq p) (hw s) (hw s2) ∧
        (encrypts cs = true ∨ fSize m = blen d → Forall (exactResponse d) rs) ∧
        Forall (λ r, exactResponse d r ∨ emptied cs m d r) rs.
Proof.
  intros Hl Hff Hh Hs Ht Hu H201 d p cs.
  destruct (handleUpload_stored sha256 uuid srv rq f s r s1 Hl Hff Hh Hs Hu H201)
    as (Hv & m & -> & (e & Hon & Hpl & Hpm & Hsz) & Hhome).
  assert (safe p) as Hp by (eexists; by apply valid_path_safeKey).
  split; [apply Hon|]. exists m. split; [done|]. split; [exact (plain_size _ e _ m Hpl Hsz)|]. intros rqs Hrqs.
  destruct (Hhome (proj1 Hs)) as (_ & Ho & Hsv).
  assert (ready uuid (hw s) cs p e m (hw s1)) as Hr.
  { split; [done|]. unfold tempsOut. rewrite Hsv, Ho. done. }
  destruct (downloadAll_exact sha256 uuid (hw s) _ p e m d rqs s1 Hp Hpm (or_intror Hsz) Hpl Hr Hrqs)
    as (rs & s2 & ? & ? & Hx & Hr2). exists rs, s2. split_and!; [done..|apply Hr2| |done].
  intros Hsize. by eapply never_emptied.
Qed.

(** A server with encryption, and two requests. *)
Definition demoCrypto : CryptoService := (Crypto.Init "passphrase" NewCryptoService).2.

Definition demoHttp : HttpState _ _ _ unit list :=
  MkHttpState NewFileManager
    (demoWith (λ _, NoFault)
       (let v := NewFileTransferService "/tmp/up" in
        MkService (uploadSessions v) (downloadSessions v) (multipartSessions v) (tempDir v)
          (Some demoCrypto) (maxSessions v) (sessionCount v)))
    NewAuthService (NewAuditWriter 100) None.

Definition demoServer : HttpServer := MkHttpServer "" 1048576 65536 1000 32.

Definition demoForm : FormFile := MkFormFile "f.txt" 4 (Reader (ab ++ cd) None).
Definition demoPost : Req := MkReq "POST" [] [] [] [] [("file", demoForm)] None "10.0.0.1".
Definition demoGet (range : string) : Req :=
  MkReq "GET" [("path", "/f.txt")] [] [("Range", range)] [] [] None "10.0.0.1".

Notation demoPosted := (handleUpload demoSHA (λ _, "id") demoServer demoPost demoHttp).

Lemma http_round_trip_witness :
  ∃ rs s2, downloadAll (λ _, "id") [demoGet ""; demoGet "bytes=1-2"] demoPosted.2 = (Ok rs, s2) ∧
    length rs = 2 ∧ Forall (exactResponse (ab ++ cd)) rs.
Proof.
  destruct (http_round_trip demoSHA (λ _, "id") demoServer demoPost demoForm
    match demoPosted.1 with Ok r => r | Err _ => Resp 0 (BError "") end demoHttp demoPosted.2)
    as (_ & m & _ & _ & Hd).
  - split; vm_compute; done.
  - vm_compute. reflexivity.
  - vm_compute. reflexivity.
  - split; [apply localDisk_rooted|by apply dbOk_by_dec].
  - intros n. split_and!; [apply demo_outside; vm_compute; reflexivity..|vm_compute; discriminate].
  - apply outcome. vm_compute. reflexivity.
  - vm_compute. reflexivity.
  - destruct (Hd [demoGet ""; demoGet "bytes=1-2"]) as (rs & s2 & ? & ? & _ & Hx & _).
    + repeat constructor; vm_compute; reflexivity.
    + exists rs, s2. split_and!; [done..|]. apply Hx. left. vm_compute. reflexivity.
Defined.

(** The bytes of the two responses of that run. *)
Lemma http_round_trip_run :
  (downloadAll (λ _, "id") [demoGet ""; demoGet "bytes=1-2"] demoPosted.2).1 =
  Ok [Resp 200 (BContent (Whole (ab ++ cd)));
      Resp 206 (BContent (Partial 1 2 4 [Byte.x62; Byte.x63]))].
Proof. vm_compute. reflexivity. Qed.
