(* ===== verification/HttpRules.v ===== *)
(** * Rules that hold for the handlers of the HTTP server

    Paths and names that are not valid are refused before anything happens; the
    sizes of pages; the number of requests in flight; and what the metadata cache
    does to the answers. *)

From S2P Require Export HttpFiles.

Local Open Scope go_scope.

(** ** The routes that name a path *)

Inductive pathRoute :=
| RUpload | RDownload | RDelete | RRename | RMetadata | RList
| RCreateDirectory | RDeleteDirectory | RRenameDirectory
| RCreateSession | RCreateMultipart.

Section rules.
Context {Sg L St C : Type} {T : Type → Type}.
Context `{StorageAdapter Sg} `{DistributedLock L} `{SessionStore sessionValue St}.
Context `{SqlEngine T} `{AEAD} `{CacheAdapter C}.
Context (sha256 : bytes → bytes) (uuid : nat → string) (srv : HttpServer).
Notation World := (World Sg L St T).
Notation HttpState := (HttpState Sg L St C T).
Implicit Types s : HttpState.

Definition handlePath (rt : pathRoute) : Req → M HttpState response :=
  match rt with
  | RUpload => handleUpload sha256 uuid srv
  | RDownload => handleDownload uuid
  | RDelete => handleDelete uuid
  | RRename => handleRename uuid
  | RMetadata => handleGetMetadata
  | RList => handleList srv
  | RCreateDirectory => handleCreateDirectory uuid
  | RDeleteDirectory => handleDeleteDirectory uuid
  | RRenameDirectory => handleRenameDirectory uuid
  | RCreateSession => handleCreateUploadSession uuid srv
  | RCreateMultipart => handleCreateMultipartUpload uuid srv
  end.

(** The path a request names. A listing without a path is one of the root. *)
Definition namedPath (rt : pathRoute) (rq : Req) : option string :=
  match rt with
  | RUpload => uploadPath rq <$> FormFileOf "file" rq
  | RDownload | RDelete | RRename | RMetadata | RDeleteDirectory | RRenameDirectory =>
      Some (Param "path" rq)
  | RList => if bool_decide (Query "path" rq = "") then None else Some (Query "path" rq)
  | RCreateDirectory => rqJSON rq ≫= λ j, bindString "path" j
  | RCreateSession | RCreateMultipart => srFilePath <$> bindSession rq
  end.

(** The name that becomes part of a path. *)
Definition namedFile (rt : pathRoute) (rq : Req) : option string :=
  match rt with
  | RUpload => ffName <$> FormFileOf "file" rq
  | RRename | RRenameDirectory => Some (newNameOf rq)
  | RCreateSession | RCreateMultipart => srFileName <$> bindSession rq
  | _ => None
  end.

Definition refusedBy (m : M HttpState response) s : Prop :=
  ∃ st msg, m s = (Ok (Resp st (BError msg)), s) ∧ (400 ≤ st < 500)%Z.

Lemma refused st msg s : (400 ≤ st < 500)%Z → refusedBy (sendError st msg) s.
Proof. intros Hst. by exists st, msg. Qed.

Lemma refused_unless bad err k s :
  refusedBy err s → (bad = false → refusedBy k s) → refusedBy (unless bad err k) s.
Proof. intros He Hk. unfold unless. destruct bad; auto. Qed.

Lemma refused_withPath p msg inv k s :
  (IsValidFilePath p = true → refusedBy (k p) s) → refusedBy (withPath p msg inv k) s.
Proof.
  intros Hk. unfold withPath. apply refused_unless; [by apply refused|intros _].
  apply refused_unless; [by apply refused|]. by intros ?%negb_false_iff%Hk.
Qed.

Lemma refused_withNewName rq inv k s :
  IsValidFileName (newNameOf rq) = false → refusedBy (withNewName rq inv k) s.
Proof.
  intros Hn. unfold withNewName. apply refused_unless; [by apply refused|intros _].
  rewrite Hn. by apply refused.
Qed.

Lemma refused_withSession rq k s r :
  bindSession rq = Some r →
  IsValidFilePath (srFilePath r) = false ∨ IsValidFileName (srFileName r) = false →
  refusedBy (withSession srv rq k) s.
Proof.
  intros Hr Hv. unfold withSession. rewrite Hr.
  apply refused_unless; [by apply refused|intros Hn]. apply refused_unless; [by apply refused|intros Hp].
  bool_prop. destruct Hv; congruence.
Qed.
End rules.

(** ** Properties *)

(** C14: no request reaches a service with a path or a name that is not valid. A
    request of any route whose path, or whose file name, the validators refuse is
    answered with a client error, and the state of the server, the storage and the
    database included, is exactly as before. *)
Theorem unsafe_refused {Sg L St C T} `{StorageAdapter Sg} `{DistributedLock L}
    `{SessionStore sessionValue St} `{SqlEngine T} `{AEAD} `{CacheAdapter C}
    (sha256 : bytes → bytes) (uuid : nat → string) (srv : HttpServer)
    (rt : pathRoute) (rq : Req) (s : HttpState Sg L St C T) :
  (∃ p, namedPath rt rq = Some p ∧ IsValidFilePath p = false) ∨
  (∃ n, namedFile rt rq = Some n ∧ IsValidFileName n = false) →
  refusedBy (handlePath sha256 uuid srv rt rq) s.
Proof.
  intros Hbad.
  destruct rt; simpl in *.
  - unfold handleUpload. destruct (FormFileOf "file" rq) as [f|]; [|by apply refused].
    apply refused_unless; [by apply refused|intros _].
    apply refused_unless; [by apply refused|intros Hn]. cbv zeta.
    apply refused_unless; [by apply refused|intros Hp]. bool_prop.
    destruct Hbad as [(p & [= <-] & ?)|(n & [= <-] & ?)]; congruence.
  - destruct Hbad as [(p & [= <-] & Hv)|(? & ? & _)]; [|done]. unfold handleDownload.
    apply refused_unless; [by apply refused|intros _]. rewrite Hv. by apply refused.
  - destruct Hbad as [(p & [= <-] & Hv)|(? & ? & _)]; [|done]. apply refused_withPath. congruence.
  - apply refused_withPath. intros Hp. destruct Hbad as [(p & [= <-] & ?)|(n & [= <-] & ?)]; [congruence|].
    by apply refused_withNewName.
  - destruct Hbad as [(p & [= <-] & Hv)|(? & ? & _)]; [|done]. apply refused_withPath. congruence.
  - destruct Hbad as [(p & Hp & Hv)|(? & ? & _)]; [|done]. unfold handleList. case_bool_decide; [done|].
    injection Hp as <-. simpl. rewrite Hv. by apply refused.
  - destruct Hbad as [(p & Hp & Hv)|(? & ? & _)]; [|done]. unfold handleCreateDirectory.
    destruct (rqJSON rq) as [j|]; [|done]. simpl in *. rewrite Hp. simpl.
    destruct (bool_decide _); [by apply refused|]. rewrite Hv. by apply refused.
  - destruct Hbad as [(p & [= <-] & Hv)|(? & ? & _)]; [|done]. apply refused_withPath. congruence.
  - apply refused_withPath. intros Hp. destruct Hbad as [(p & [= <-] & ?)|(n & [= <-] & ?)]; [congruence|].
    by apply refused_withNewName.
  - destruct (bindSession rq) as [r|] eqn:Er; [|naive_solver].
    eapply refused_withSession; [exact Er|]. naive_solver.
  - destruct (bindSession rq) as [r|] eqn:Er; [|naive_solver].
    eapply refused_withSession; [exact Er|]. naive_solver.
Qed.

#[local] Instance noCache : CacheAdapter unit :=
  {| cacheGet _ _ c := (None, c); cacheSet _ _ _ c := c |}.

Lemma unsafe_refused_witness :
  refusedBy (handlePath demoSHA (λ _, "id") demoServer RDelete
    (MkReq "DELETE" [("path", "/../etc/passwd")] [] [] [] [] None "10.0.0.1")) demoHttp.
Proof.
  apply (unsafe_refused demoSHA (λ _, "id") demoServer RDelete
    (MkReq "DELETE" [("path", "/../etc/passwd")] [] [] [] [] None "10.0.0.1") demoHttp).
  left. exists "/../etc/passwd". split; vm_compute; reflexivity.
Defined.

(** ** The size of a page *)

(** A page is never larger than the maximum, when that is at least the default. *)
Lemma pageSize_bounded srv rq :
  (1 ≤ maxPageSize srv)%Z → (1 ≤ pageSizeOf srv rq ≤ Z.max 20 (maxPageSize srv))%Z.
Proof.
  intros Hm. unfold pageSizeOf. destruct (_ <? (Atoi _).1)%Z eqn:E1; bool_prop.
  - destruct (_ <? 1)%Z eqn:E2; bool_prop; lia.
  - destruct (_ <? 1)%Z eqn:E2; bool_prop; lia.
Qed.

(** The default comes after the maximum was applied: with a smaller maximum it is
    exceeded. *)
Lemma pageSize_exceeds :
  pageSizeOf (MkHttpServer "" 0 0 10 32) (MkReq "GET" [] [("page_size", "0")] [] [] [] None "") = 20%Z.
Proof. reflexivity. Qed.

(** ** Requests in flight

    The buffered channel of concurrencyMiddleware, as the number of its elements. A
    request is let in or answered with 503; the deferred receive runs when it ends. *)

Inductive flight := Arrive | Leave.

Definition concurrencyMiddleware (srv : HttpServer) (sem : nat) (ev : flight) : nat * option Z :=
  match ev with
  | Arrive => if (Z.of_nat sem <? semCapacity srv)%Z then (S sem, None) else (sem, Some 503%Z)
  | Leave => (pred sem, None)
  end.

Fixpoint flights (srv : HttpServer) (evs : list flight) (sem : nat) : nat * list (option Z) :=
  match evs with
  | [] => (sem, [])
  | ev :: evs =>
      let '(sem, r) := concurrencyMiddleware srv sem ev in
      let '(sem, rs) := flights srv evs sem in (sem, r :: rs)
  end.

Lemma flights_bounded srv evs sem :
  (Z.of_nat sem ≤ semCapacity srv)%Z → (Z.of_nat (flights srv evs sem).1 ≤ semCapacity srv)%Z.
Proof.
  revert sem. induction evs as [|ev evs IH]; intros sem Hs; simpl; [done|].
  destruct (concurrencyMiddleware srv sem ev) as [sem' r] eqn:E.
  destruct (flights srv evs sem') as [sem'' rs] eqn:Ef. simpl.
  specialize (IH sem'). rewrite Ef in IH. apply IH.
  unfold concurrencyMiddleware in E. destruct ev; [|simplify_eq; lia].
  destruct (_ <? _)%Z eqn:El; simplify_eq; bool_prop; lia.
Qed.

(** ** The metadata cache *)

Section metadata.
Context {Sg L St C : Type} {T : Type → Type}.
Context `{SqlEngine T} `{CacheAdapter C}.
Notation HttpState := (HttpState Sg L St C T).

Lemma bind_run {W A B} (m : M W A) (f : A → M W B) w :
  (m ≫= f) w = match m w with (Ok a, w') => f a w' | (Err e, w') => (Err e, w') end.
Proof. done. Qed.

(** A cache that gives back the value it was given never answers: the handler
    stores a gin.H, which the type assertion refuses. *)
Lemma memory_cache_never_answers rq (s : HttpState) :
  (∀ env k c, (cacheGet env k c).1 ≫= asMap = None) →
  IsValidFilePath (Param "path" rq) = true → Param "path" rq ≠ "" →
  handleGetMetadata rq s =
    (onCache (λ env, cacheGet env (metadataKey (Param "path" rq))) None ≫= λ _,
     orElse (onWorld (GetFileMetadata (Param "path" rq)))
       (orElse (onWorld (GetDirectoryMetadata (Param "path" rq)))
          (sendError 404 "Path not found") (λ d, respond 200 (BDir d)))
       (λ m, onCache (λ env c, (tt, cacheSet env (metadataKey (Param "path" rq)) (GinH m) c)) tt ≫= λ _,
             respond 200 (BFile m))) s.
Proof.
  intros Hc Hv Hne. unfold handleGetMetadata, withPath, unless.
  rewrite bool_decide_eq_false_2, Hv by done. cbn [negb]. rewrite !bind_run.
  destruct (onCache _ None s) as [[v|er] s'] eqn:E; [|done].
  assert (v ≫= asMap = None) as ->; [|done].
  unfold onCache in E. destruct (hcache s) as [c|]; [|by simplify_eq].
  specialize (Hc (oracle (sys (hw s)) (tick (sys (hw s)))) (metadataKey (Param "path" rq)) c).
  destruct (cacheGet _ _ c) as [v' c']. by simplify_eq.
Qed.
End metadata.

(** The in-memory cache keeps the value it was given, the Redis cache its JSON. *)
Definition valueCache : CacheAdapter (gmap string FileMetadata) :=
  {| cacheGet _ k c := (GinH <$> c !! k, c);
     cacheSet _ k v c := <[k := match v with GinH m | JsonMap m => m end]> c |}.
Definition jsonCache : CacheAdapter (gmap string FileMetadata) :=
  {| cacheGet _ k c := (JsonMap <$> c !! k, c);
     cacheSet _ k v c := <[k := match v with GinH m | JsonMap m => m end]> c |}.

Lemma valueCache_useless env k c : (@cacheGet _ valueCache env k c).1 ≫= asMap = None.
Proof. simpl. by destruct (c !! k). Qed.

(** With a cache of JSON the metadata of a deleted file is served until its entry
    expires: no handler removes or replaces it. *)
Lemma deleted_metadata_served :
  let rq m := MkReq m [("path", "/a/b")] [] [] [] [] None "10.0.0.1" in
  let s0 : HttpState _ _ _ (gmap string FileMetadata) list :=
    MkHttpState NewFileManager demoFile NewAuthService (NewAuditWriter 100) (Some ∅) in
  let get s := handleGetMetadata (H5 := jsonCache) (rq "GET") s in
  let s1 := (get s0).2 in
  let del := handleDelete demoUUID (rq "DELETE") s1 in
  let again := get del.2 in
  del.1 = Ok (Resp 200 (BMessage "File deleted successfully")) ∧
  again.1 = (get s0).1 ∧ is_ok (GetFileMetadata "a/b" (hw again.2)).1 = false ∧
  (∃ m, again.1 = Ok (Resp 200 (BFile m))).
Proof. vm_compute. split_and!; [reflexivity..|]. eauto. Qed.
