(* ===== verification/Routes.v ===== *)
(** * setupRoutes of internal/api/http: the routes and their guards

    The table of routes, with the middleware in front of each, and the way of a
    request through the engine: request identifier, CORS, the limit of requests in
    flight, the router, authentication, the permission of the route, the handler. The
    matching of paths is gin's and a parameter. *)

From S2P Require Export HttpRules.

Local Open Scope go_scope.

(** ** The table *)

Inductive handlerName :=
| HHealth | HReady | HUpload | HDownload | HList | HDelete | HRename
| HCreateDirectory | HDeleteDirectory | HRenameDirectory | HGetMetadata | HListAuditLogs
| HCreateUploadSession | HUploadChunk | HGetUploadProgress | HCompleteUpload | HAbortUpload
| HCreateApiKey | HListApiKeys | HGetApiKey | HUpdateApiKey | HDeleteApiKey
| HCreateMultipartUpload | HUploadPart | HGetMultipartUploadStatus | HCompleteMultipartUpload
| HAbortMultipartUpload | HGenerateToken | HRefreshToken | HMetrics.

(** What stands in front of a handler: nothing, the authentication only, or the
    authentication and a check. *)
Inductive guardOf := Public | AuthOnly | Permission (resource action : string) | Admin.

#[export] Instance guardOf_eq_dec : EqDecision guardOf.
Proof. solve_decision. Defined.

Record routeEntry := MkRoute {
  rtMethod : string; rtPattern : string; rtGuard : guardOf; rtHandler : handlerName
}.

(** [api := s.engine.Group("/api/v1")] and its sub-groups. *)
Definition group (prefix : string) (l : list routeEntry) : list routeEntry :=
  (λ r, MkRoute (rtMethod r) (prefix +:+ rtPattern r) (rtGuard r) (rtHandler r)) <$> l.

Definition readFiles : guardOf := Permission "files" "read".
Definition writeFiles : guardOf := Permission "files" "write".

Definition setupRoutes : list routeEntry :=
  [MkRoute "GET" "/health" Public HHealth;
   MkRoute "GET" "/ready" Public HReady] ++
  group "/api/v1"
    ([MkRoute "POST" "/files" writeFiles HUpload;
      MkRoute "GET" "/files/*path" readFiles HDownload;
      MkRoute "GET" "/files" readFiles HList;
      MkRoute "DELETE" "/files/*path" writeFiles HDelete;
      MkRoute "PATCH" "/files/*path" writeFiles HRename;
      MkRoute "POST" "/directories" writeFiles HCreateDirectory;
      MkRoute "DELETE" "/directories/*path" writeFiles HDeleteDirectory;
      MkRoute "PATCH" "/directories/*path" writeFiles HRenameDirectory;
      MkRoute "GET" "/metadata/*path" readFiles HGetMetadata;
      MkRoute "GET" "/audit-logs" Admin HListAuditLogs] ++
     group "/uploads"
       [MkRoute "POST" "" writeFiles HCreateUploadSession;
        MkRoute "PUT" "/:id/chunk" writeFiles HUploadChunk;
        MkRoute "GET" "/:id/progress" readFiles HGetUploadProgress;
        MkRoute "POST" "/:id/complete" writeFiles HCompleteUpload;
        MkRoute "DELETE" "/:id" writeFiles HAbortUpload] ++
     group "/api-keys"
       [MkRoute "POST" "" Admin HCreateApiKey;
        MkRoute "GET" "" Admin HListApiKeys;
        MkRoute "GET" "/:id" Admin HGetApiKey;
        MkRoute "PATCH" "/:id" Admin HUpdateApiKey;
        MkRoute "DELETE" "/:id" Admin HDeleteApiKey] ++
     group "/multipart-uploads"
       [MkRoute "POST" "" writeFiles HCreateMultipartUpload;
        MkRoute "PUT" "/:id/parts/:partNumber" writeFiles HUploadPart;
        MkRoute "GET" "/:id" readFiles HGetMultipartUploadStatus;
        MkRoute "POST" "/:id/complete" writeFiles HCompleteMultipartUpload;
        MkRoute "DELETE" "/:id" writeFiles HAbortMultipartUpload] ++
     group "/auth"
       [MkRoute "POST" "/token" AuthOnly HGenerateToken;
        MkRoute "POST" "/refresh" AuthOnly HRefreshToken]) ++
  [MkRoute "GET" "/metrics" AuthOnly HMetrics].

(** gin's router: the registered route that a method and a path select, with the
    parameters of its pattern. *)
Notation router := (list routeEntry → string → string → option (routeEntry * list (string * string))).

(** ** The engine *)

Section routes.
Context {Sg L St C : Type} {T : Type → Type}.
Context `{StorageAdapter Sg} `{DistributedLock L} `{SessionStore sessionValue St}.
Context `{SqlEngine T} `{AEAD} `{JWTLib} `{CacheAdapter C}.
Context (sha256 : bytes → bytes) (uuid : nat → string) (srv : HttpServer).
Context (range : gmap string User → list (string * User)).
Context (find : router) (metricsPage : body).
Notation World := (World Sg L St T).
Notation HttpState := (HttpState Sg L St C T).
Notation HM := (M HttpState).
Implicit Types s : HttpState.

(** [user] is what the authentication left in the context. *)
Definition handlerOf (h : handlerName) (user : option User) (rq : Req) : HM response :=
  match h with
  | HHealth => handleHealth
  | HReady => handleReady
  | HUpload => handleUpload sha256 uuid srv rq
  | HDownload => handleDownload uuid rq
  | HList => handleList srv rq
  | HDelete => handleDelete uuid rq
  | HRename => handleRename uuid rq
  | HCreateDirectory => handleCreateDirectory uuid rq
  | HDeleteDirectory => handleDeleteDirectory uuid rq
  | HRenameDirectory => handleRenameDirectory uuid rq
  | HGetMetadata => handleGetMetadata rq
  | HListAuditLogs => handleListAuditLogs srv rq
  | HCreateUploadSession => handleCreateUploadSession uuid srv rq
  | HUploadChunk => handleUploadChunk srv rq
  | HGetUploadProgress => handleGetUploadProgress rq
  | HCompleteUpload => handleCompleteUpload sha256 uuid rq
  | HAbortUpload => handleAbortUpload rq
  | HCreateApiKey => handleCreateApiKey sha256 uuid rq
  | HListApiKeys => handleListApiKeys srv rq
  | HGetApiKey => handleGetApiKey rq
  | HUpdateApiKey => handleUpdateApiKey uuid rq
  | HDeleteApiKey => handleDeleteApiKey uuid rq
  | HCreateMultipartUpload => handleCreateMultipartUpload uuid srv rq
  | HUploadPart => handleUploadPart sha256 srv rq
  | HGetMultipartUploadStatus => handleGetMultipartUploadStatus rq
  | HCompleteMultipartUpload => handleCompleteMultipartUpload sha256 uuid rq
  | HAbortMultipartUpload => handleAbortMultipartUpload rq
  | HGenerateToken => handleGenerateToken uuid user rq
  | HRefreshToken => handleRefreshToken rq
  | HMetrics => respond 200 metricsPage
  end.

(** What the middleware reads of a request. *)
Definition authRequest (rq : Req) : request :=
  MkRequest (rqIP rq) (GetHeader "Authorization" rq) (GetHeader "X-API-Key" rq).

(** The check of a route, after the authentication. *)
Definition guardCheck (g : guardOf) (user : option User) : M (AuthWorld T) verdict :=
  match g with
  | Public | AuthOnly => mret (Next user)
  | Permission resource action => requirePermission sha256 range resource action user
  | Admin => requireAdmin sha256 range user
  end.

(** The text of a refusal; the code has several for 401 and for 403. *)
Definition refusalText (st : Z) : string :=
  if (st =? 429)%Z then "Too many authentication failures"
  else if (st =? 403)%Z then "Permission denied" else "Authentication required".

Definition guarded (g : guardOf) (rq : Req) (k : option User → HM response) : HM response :=
  match g with
  | Public => k None
  | _ => v ← onAuthSvc (route sha256 range (guardCheck g) (authRequest rq));
         match v with
         | Next user => k user
         | Abort st => sendError st (refusalText st)
         end
  end.

Definition withParams (ps : list (string * string)) (rq : Req) : Req :=
  MkReq (rqMethod rq) ps (rqQuery rq) (rqHeaders rq) (rqForm rq) (rqFiles rq) (rqJSON rq) (rqIP rq).

(** One request, with [inFlight] others being served. *)
Definition ServeHTTP (inFlight : nat) (path : string) (rq : Req) : HM response :=
  requestIDMiddleware uuid rq ⨟
  if (corsMiddleware srv rq).2 then respond 204 (BMessage "")
  else
    match (concurrencyMiddleware srv inFlight Arrive).2 with
    | Some st => sendError st "Server is busy, please try again later"
    | None =>
        match find setupRoutes (rqMethod rq) path with
        | None => respond 404 (BMessage "404 page not found")
        | Some (rt, ps) =>
            guarded (rtGuard rt) rq (λ user, handlerOf (rtHandler rt) user (withParams ps rq))
        end
    end.

(** ** Who reaches a handler *)

(** What a handler needs, by what it does: only administrators manage keys and read
    the audit log, changes of files and sessions need write, the rest read. *)
Definition needs (h : handlerName) : guardOf :=
  match h with
  | HHealth | HReady => Public
  | HGenerateToken | HRefreshToken | HMetrics => AuthOnly
  | HListAuditLogs | HCreateApiKey | HListApiKeys | HGetApiKey | HUpdateApiKey | HDeleteApiKey => Admin
  | HDownload | HList | HGetMetadata | HGetUploadProgress | HGetMultipartUploadStatus =>
      Permission "files" "read"
  | HUpload | HDelete | HRename | HCreateDirectory | HDeleteDirectory | HRenameDirectory
  | HCreateUploadSession | HUploadChunk | HCompleteUpload | HAbortUpload
  | HCreateMultipartUpload | HUploadPart | HCompleteMultipartUpload | HAbortMultipartUpload =>
      Permission "files" "write"
  end.

Lemma table_guards rt : rt ∈ setupRoutes → rtGuard rt = needs (rtHandler rt).
Proof.
  intros Hrt. assert (Forall (λ rt, rtGuard rt = needs (rtHandler rt)) setupRoutes) as Hall.
  { apply (bool_decide_unpack _). vm_compute. exact I. }
  by eapply Forall_forall in Hall.
Qed.

(** Methods and patterns are registered once; gin panics otherwise. *)
Lemma table_distinct : NoDup ((λ rt, (rtMethod rt, rtPattern rt)) <$> setupRoutes).
Proof. apply (bool_decide_unpack _). vm_compute. exact I. Qed.

Definition httpView s : AuthWorld T := MkAuthWorld (sys (hw s)) (db (hw s)) (hauth s).

(** Nothing but the clock and the counters of failed authentications has changed. *)
Definition sameState s s' : Prop :=
  hfm s' = hfm s ∧ store (hw s') = store (hw s) ∧ db (hw s') = db (hw s) ∧ svc (hw s') = svc (hw s) ∧
  sess (hw s') = sess (hw s) ∧ dlock (hw s') = dlock (hw s) ∧ os (sys (hw s')) = os (sys (hw s)) ∧
  haudit s' = haudit s ∧ hcache s' = hcache s ∧ sameKeys (httpView s) (httpView s').

#[export] Instance sameState_preorder : PreOrder sameState.
Proof.
  unfold sameState. split; [by intros s; split_and!|].
  intros s1 s2 s3 (? & ? & ? & ? & ? & ? & ? & ? & ? & ?) (? & ? & ? & ? & ? & ? & ? & ? & ? & ?).
  split_and!; [congruence..|by etrans].
Qed.

(** The request presents the credential of someone who may. *)
Definition permitted (g : guardOf) (rq : Req) s (user : option User) : Prop :=
  let known usr := authentic sha256 (httpView s) (credentialOf (authRequest rq)) usr in
  match g with
  | Public => user = None
  | AuthOnly => (∃ usr, known usr) ∧ ∀ usr, user = Some usr → known usr
  | Permission resource action =>
      ∃ usr, user = Some usr ∧ known usr ∧ roleAllows (usRole usr) resource action = true
  | Admin => ∃ usr, user = Some usr ∧ known usr ∧ usRole usr = "admin"
  end.

Lemma authMiddleware_same rq : steps sameKeys (authMiddleware (T := T) sha256 range rq).
Proof.
  pose proof (IsRateLimited_same (T := T)). pose proof (ValidateApiKey_same (T := T) sha256 range).
  pose proof (GetUserByApiKey_same (T := T) sha256 range). pose proof (RecordAuthFailure_same (T := T)).
  pose proof (ClearAuthFailure_same (T := T)). pose proof (accessClaims_same (T := T)).
  unfold authMiddleware. steps_auto.
Qed.

Lemma guardCheck_same g user : steps sameKeys (guardCheck g user).
Proof.
  pose proof (ValidateApiKey_same (T := T) sha256 range).
  destruct g; simpl; unfold requirePermission, requireAdmin; steps_auto.
Qed.

Lemma route_same g rq : steps sameKeys (route sha256 range (guardCheck g) rq).
Proof.
  pose proof authMiddleware_same. pose proof guardCheck_same. unfold route. steps_auto.
Qed.

Lemma onAuthSvc_state {A} (m : M (AuthWorld T) A) s r s' :
  steps sameKeys m → onAuthSvc m s = (r, s') → sameState s s' ∧ m (httpView s) = (r, httpView s').
Proof.
  intros Hm. unfold onAuthSvc. specialize (Hm (httpView s)). fold (httpView s).
  destruct (m (httpView s)) as [r1 [sy d a1]]. simpl in Hm. intros [= <- <-].
  pose proof Hm as (_ & Hd & [_ Hos] & _). simpl in *. subst d. split; [|done].
  unfold sameState. do 9 (split; [done|]). exact Hm.
Qed.

(** A refusal of the authentication or of the check has one of these statuses. *)
Definition refusal (st : Z) : Prop := st ∈ [401; 403; 429]%Z.

Lemma own_refusal st :
  st ∈ [204; 404; 503]%Z ∨ refusal st → st ∈ [204; 401; 403; 404; 429; 503]%Z.
Proof. unfold refusal. rewrite !elem_of_cons, !elem_of_nil. tauto. Qed.

Lemma authMiddleware_refusal rq w st w' :
  authMiddleware sha256 range rq w = (Ok (Abort st), w') → refusal st.
Proof.
  unfold authMiddleware, mbind, M_bind, mret, M_ret. intros E.
  repeat (case_match; simplify_eq/=; try done); apply (bool_decide_unpack _); vm_compute; exact I.
Qed.

Lemma guardCheck_refusal g user w st w' :
  guardCheck g user w = (Ok (Abort st), w') → refusal st.
Proof.
  unfold guardCheck, requirePermission, requireAdmin, mbind, M_bind, mret, M_ret. intros E.
  repeat (case_match; simplify_eq/=; try done); apply (bool_decide_unpack _); vm_compute; exact I.
Qed.

Lemma route_refusal g rq w st w' :
  route sha256 range (guardCheck g) rq w = (Ok (Abort st), w') → refusal st.
Proof.
  unfold route. intros E. apply bind_ok in E as ([u|st'] & w1 & E1 & E2).
  - by eapply guardCheck_refusal.
  - apply ret_ok in E2 as [[= ->] ->]. by eapply authMiddleware_refusal.
Qed.

Lemma route_permitted g rq s u w' :
  (∀ m, range m ≡ₚ map_to_list m) → authEnabled (hauth s) = true → g ≠ Public →
  route sha256 range (guardCheck g) (authRequest rq) (httpView s) = (Ok (Next u), w') →
  permitted g rq s u.
Proof.
  intros Hr He Hg E. destruct g; [done| |by eapply permission_sound|by eapply admin_sound].
  unfold route in E. apply bind_ok in E as ([u1|st] & w1 & E1 & E2).
  - apply ret_ok in E2 as [[= ->] ->]. by apply authMiddleware_sound in E1 as (_ & _ & Hk & Hu).
  - by apply ret_ok in E2 as [[=] _].
Qed.

Lemma guarded_cases g rq k s resp s' :
  (∀ m, range m ≡ₚ map_to_list m) → authEnabled (hauth s) = true →
  guarded g rq k s = (Ok resp, s') →
  (refusal (rstatus resp) ∧ sameState s s') ∨
  ∃ u s1, sameState s s1 ∧ permitted g rq s u ∧ k u s1 = (Ok resp, s').
Proof.
  intros Hr He E. destruct (decide (g = Public)) as [->|Hg]; [right; by exists None, s|].
  assert ((v ← onAuthSvc (route sha256 range (guardCheck g) (authRequest rq));
          match v with Next user => k user | Abort st => sendError st (refusalText st) end) s = (Ok resp, s')) as E'
    by (by destruct g). clear E.
  apply bind_ok in E' as (v & s1 & E1 & E2). apply onAuthSvc_state in E1 as [Hs E1]; [|apply route_same].
  destruct v as [u|st].
  - right. exists u, s1. split; [done|]. split; [by eapply route_permitted|done].
  - left. apply ret_ok in E2 as [-> ->]. split; [by eapply route_refusal|done].
Qed.

Lemma requestID_same rq s r s' : requestIDMiddleware uuid rq s = (r, s') → sameState s s'.
Proof.
  unfold requestIDMiddleware. case_match; [|by intros [= <- <-]].
  unfold onWorld, GenerateUUID. simpl. intros [= <- <-].
  unfold sameState. do 9 (split; [done|]). split; [exists (authFailures (hauth s)); simpl; by destruct (hauth s)|].
  split; [done|]. split; [done|]. simpl. lia.
Qed.

Lemma permitted_back g rq s s1 user :
  sameKeys (httpView s) (httpView s1) → permitted g rq s1 user → permitted g rq s user.
Proof.
  intros Hk. pose proof (λ k u, authentic_back sha256 _ _ k u Hk) as Hb. unfold permitted.
  destruct g; [done| | |]; naive_solver.
Qed.

End routes.

(** C15: nobody gets past the routes. With authentication on, every request is either
    answered by the engine itself, with 204, 404, 503 or a refusal with 401, 403 or
    429, and then nothing but the clock and the count of failed authentications has
    changed; or it is handed to the handler of a registered route, in a state that
    differs in no more than that, and then it presents the credential of a user whose
    role allows what the handler does: administrators only for the API keys and the
    audit log, the right to write files for everything that changes files, directories
    or uploads, the right to read them for the rest, any valid credential for tokens
    and metrics; only the two health checks are open. *)
Theorem routes_guarded {Sg L St C T} `{StorageAdapter Sg} `{DistributedLock L}
    `{SessionStore sessionValue St} `{SqlEngine T} `{AEAD} `{JWTLib} `{CacheAdapter C}
    (sha256 : bytes → bytes) (uuid : nat → string) (srv : HttpServer)
    (range : gmap string User → list (string * User)) (find : router) (metricsPage : body)
    (inFlight : nat) (path : string) (rq : Req) (resp : response) (s s' : HttpState Sg L St C T) :
  (∀ m, range m ≡ₚ map_to_list m) →
  (∀ method p rt ps, find setupRoutes method p = Some (rt, ps) → rt ∈ setupRoutes) →
  authEnabled (hauth s) = true →
  ServeHTTP sha256 uuid srv range find metricsPage inFlight path rq s = (Ok resp, s') →
  (rstatus resp ∈ [204; 401; 403; 404; 429; 503]%Z ∧ sameState s s') ∨
  ∃ rt ps user s1, find setupRoutes (rqMethod rq) path = Some (rt, ps) ∧ sameState s s1 ∧
    permitted sha256 (needs (rtHandler rt)) rq s user ∧
    handlerOf sha256 uuid srv metricsPage (rtHandler rt) user (withParams ps rq) s1 = (Ok resp, s').
Proof.
  intros Hr Hfind He E. unfold ServeHTTP in E. apply bind_ok in E as (id & s1 & E1 & E).
  apply requestID_same in E1 as Hs1. assert (sameKeys (httpView s) (httpView s1)) as Hk by apply Hs1.
  assert (∀ st b s2, st ∈ [204; 404; 503]%Z → respond st b s1 = (Ok resp, s2) → s2 = s1 ∧
    rstatus resp ∈ [204; 401; 403; 404; 429; 503]%Z) as Hown.
  { intros st b s2 Hst [= <- <-]. split; [done|]. simpl. by apply own_refusal, or_introl. }
  destruct (corsMiddleware srv rq).2.
  { left. apply Hown in E as [-> ?]; [done|by apply (bool_decide_unpack _)]. }
  unfold concurrencyMiddleware in E. destruct (_ <? _)%Z; simpl in E.
  2: { left. apply Hown in E as [-> ?]; [done|by apply (bool_decide_unpack _)]. }
  destruct (find setupRoutes (rqMethod rq) path) as [[rt ps]|] eqn:Ef.
  2: { left. apply Hown in E as [-> ?]; [done|by apply (bool_decide_unpack _)]. }
  apply guarded_cases in E as [[Hst Hs]|(u & s2 & Hs & Hp & E)];
    [| |done|by rewrite (sameKeys_enabled _ _ Hk : authEnabled (hauth s1) = _)].
  - left. split; [|by etrans]. by apply own_refusal, or_intror.
  - right. exists rt, ps, u, s2. split; [done|]. split; [by etrans|]. split; [|done].
    rewrite <-(table_guards rt) by (by eapply Hfind). by eapply permitted_back.
Qed.

(** ** A concrete router *)

(** [:name] takes a segment and [*name] the rest of the path. *)
Fixpoint matchSegs (pattern path : list string) : option (list (string * string)) :=
  match pattern, path with
  | [], [] => Some []
  | String a x :: pattern', y :: path' =>
      if bool_decide (a = Ascii.ascii_of_nat 58) then cons (x, y) <$> matchSegs pattern' path'
      else if bool_decide (a = Ascii.ascii_of_nat 42) then Some [(x, "/" +:+ Join path slash)]
      else if bool_decide (String a x = y) then matchSegs pattern' path' else None
  | "" :: pattern', "" :: path' => matchSegs pattern' path'
  | _, _ => None
  end.

Definition demoRouter : router := λ routes method path,
  head (omap (λ rt, if bool_decide (rtMethod rt = method)
                    then pair rt <$> matchSegs (Split (rtPattern rt) slash) (Split path slash) else None) routes).

Lemma demoRouter_in routes method path rt ps : demoRouter routes method path = Some (rt, ps) → rt ∈ routes.
Proof.
  unfold demoRouter. intros Hh%head_Some_elem_of. apply list_elem_of_omap in Hh as (rt' & Hin & Hm).
  case_bool_decide; [|done]. destruct (matchSegs _ _); [|done]. by injection Hm as <- <-.
Qed.

Definition demoAuthed : HttpState _ _ _ unit list :=
  MkHttpState (hfm demoHttp) (hw demoHttp) (Auth.Init demoSHA true "secret" NewAuthService)
    (haudit demoHttp) None.

Definition demoRequest (method key : string) : Req :=
  MkReq method [] [] [("X-API-Key", key)] [] [("file", demoForm)] None "10.0.0.1".

#[local] Instance noCache : CacheAdapter unit := {| cacheGet _ _ c := (None, c); cacheSet _ _ _ c := c |}.

Definition demoAnswer (method path key : string) :=
  ServeHTTP demoSHA (λ _, "id") demoServer map_to_list demoRouter (BMessage "") 0 path
    (demoRequest method key) demoAuthed.

Definition responseOf {W} (x : res response * W) : response :=
  match x.1 with Ok r => r | Err _ => Resp 0 (BError "") end.

Lemma routes_guarded_witness :
  rstatus (responseOf (demoAnswer "POST" "/api/v1/files" "guess")) = 401%Z ∧
  rstatus (responseOf (demoAnswer "DELETE" "/api/v1/files/a/../b" "secret")) = 400%Z ∧
  ∃ user, permitted demoSHA (needs HDelete) (demoRequest "DELETE" "secret") demoAuthed user.
Proof.
  split; [vm_compute; reflexivity|]. split; [vm_compute; reflexivity|].
  destruct (routes_guarded demoSHA (λ _, "id") demoServer map_to_list demoRouter (BMessage "") 0
    "/api/v1/files/a/../b" (demoRequest "DELETE" "secret")
    (responseOf (demoAnswer "DELETE" "/api/v1/files/a/../b" "secret"))
    demoAuthed (demoAnswer "DELETE" "/api/v1/files/a/../b" "secret").2)
    as [[Hst _]|(rt & ps & user & s1 & Hf & _ & Hp & _)].
  - intros m. reflexivity.
  - intros method p rt ps. apply demoRouter_in.
  - reflexivity.
  - apply outcome. vm_compute. reflexivity.
  - vm_compute in Hst. exfalso. repeat (apply elem_of_cons in Hst as [Hst|Hst]; [discriminate|]).
    by apply elem_of_nil in Hst.
  - exists user. assert (rtHandler rt = HDelete) as <-; [|exact Hp]. vm_compute in Hf. by injection Hf as <- <-.
Defined.
