(* ===== verification/Metrics.v ===== *)
(** * internal/metrics and the middleware that feeds it

    The four collectors and their registration, the recording of a request, the
    middleware of the group "/api/v1" and the metrics page. Prometheus is not part of
    the repository: [Collectors] lists the operations the code uses, [CollectorLaws] what
    its documentation says of them, and [MapCollectors] is a concrete instance.
    Durations are in nanoseconds; the code reports them in seconds. *)

From S2P Require Export Routes.
From stdpp Require Import pretty.

Local Open Scope go_scope.

(** ** Prometheus *)

(** [C]: a vector of counters, [H]: a vector of histograms, both by the values of their
    labels (a plain histogram has none), [G]: a gauge. *)
Class Collectors (C H G : Type) := {
  cNew : C; cInc : list string → C → C; cValue : list string → C → nat;
  hNew : H; hObserve : list string → Z → H → H;
  hCount : list string → H → nat; hSum : list string → H → Z;
  gNew : G; gInc : G → G; gDec : G → G; gValue : G → Z
}.

Class CollectorLaws (C H G : Type) `{Collectors C H G} := {
  counter_new l : cValue l (cNew : C) = 0;
  counter_inc l l' (c : C) : cValue l' (cInc l c) = cValue l' c + (if decide (l = l') then 1 else 0);
  histogram_new l : hCount l (hNew : H) = 0 ∧ hSum l (hNew : H) = 0%Z;
  histogram_observe l l' x (h : H) :
    hCount l' (hObserve l x h) = hCount l' h + (if decide (l = l') then 1 else 0) ∧
    hSum l' (hObserve l x h) = (hSum l' h + (if decide (l = l') then x else 0))%Z;
  gauge_new : gValue (gNew : G) = 0%Z;
  gauge_inc (g : G) : gValue (gInc g) = (gValue g + 1)%Z;
  gauge_dec (g : G) : gValue (gDec g) = (gValue g - 1)%Z
}.

Module MapCollectors.
#[global] Instance collectors : Collectors (gmap (list string) nat) (gmap (list string) (nat * Z)) Z := {|
  cNew := ∅; cInc l c := <[l := S (default 0 (c !! l))]> c; cValue l c := default 0 (c !! l);
  hNew := ∅;
  hObserve l x h := let e := default (0, 0%Z) (h !! l) in <[l := (S e.1, (e.2 + x)%Z)]> h;
  hCount l h := (default (0, 0%Z) (h !! l)).1; hSum l h := (default (0, 0%Z) (h !! l)).2;
  gNew := 0%Z; gInc g := (g + 1)%Z; gDec g := (g - 1)%Z; gValue g := g
|}.

#[global] Instance laws : CollectorLaws (gmap (list string) nat) (gmap (list string) (nat * Z)) Z.
Proof.
  split; simpl; try done.
  - intros l l' c. destruct (decide (l = l')) as [->|Hne].
    + rewrite lookup_insert_eq. simpl. lia.
    + rewrite lookup_insert_ne by done. lia.
  - intros l l' x h. destruct (decide (l = l')) as [->|Hne].
    + rewrite lookup_insert_eq. simpl. lia.
    + rewrite lookup_insert_ne by done. lia.
Qed.
End MapCollectors.

(** ** Metrics *)

Record Metrics (C H G : Type) := MkMetrics {
  httpRequestsTotal : C; httpRequestDuration : H; uploadSizeBytes : H; activeUploads : G
}.
Arguments MkMetrics {C H G}.
Arguments httpRequestsTotal {C H G}.
Arguments httpRequestDuration {C H G}.
Arguments uploadSizeBytes {C H G}.
Arguments activeUploads {C H G}.

(** The names in the default registry. [MustRegister] panics on one that is taken. *)
Definition MustRegister (name : string) : M (gset string) unit := λ reg,
  if bool_decide (name ∈ reg) then (Err (ErrMsg "duplicate metrics collector registration attempted"), reg)
  else (Ok tt, {[name]} ∪ reg).

Section metrics.
Context {Ct Hi G : Type} `{Collectors Ct Hi G}.
Notation Metrics := (Metrics Ct Hi G).
Implicit Types m : Metrics.

Definition NewMetrics : M (gset string) Metrics :=
  MustRegister "fsserver_http_requests_total" ⨟
  MustRegister "fsserver_http_request_duration_seconds" ⨟
  MustRegister "fsserver_upload_size_bytes" ⨟
  MustRegister "fsserver_active_uploads" ⨟
  mret (MkMetrics cNew hNew hNew gNew).

Definition RecordHTTPRequest (method path : string) (status duration : Z) m : Metrics :=
  MkMetrics (cInc [method; path; pretty status] (httpRequestsTotal m))
    (hObserve [method; path] duration (httpRequestDuration m)) (uploadSizeBytes m) (activeUploads m).

Definition RecordUpload (size : Z) m : Metrics :=
  MkMetrics (httpRequestsTotal m) (httpRequestDuration m) (hObserve [] size (uploadSizeBytes m)) (activeUploads m).

Definition IncActiveUploads m : Metrics :=
  MkMetrics (httpRequestsTotal m) (httpRequestDuration m) (uploadSizeBytes m) (gInc (activeUploads m)).

Definition DecActiveUploads m : Metrics :=
  MkMetrics (httpRequestsTotal m) (httpRequestDuration m) (uploadSizeBytes m) (gDec (activeUploads m)).
End metrics.

(** ** The engine with its metrics *)

Section engine.
Context {Sg L St C : Type} {T : Type → Type} {Ct Hi G : Type}.
Context `{StorageAdapter Sg} `{DistributedLock L} `{SessionStore sessionValue St}.
Context `{SqlEngine T} `{AEAD} `{JWTLib} `{CacheAdapter C} `{Collectors Ct Hi G}.
Context (sha256 : bytes → bytes) (uuid : nat → string) (srv : HttpServer).
Context (range : gmap string User → list (string * User)).
Context (find : router) (page : Metrics Ct Hi G → body) (uptime : string).
Notation HttpState := (HttpState Sg L St C T).
Notation HM := (M HttpState).
Notation Metrics := (Metrics Ct Hi G).
Notation MM := (M (HttpState * option Metrics)).
Implicit Types s : HttpState.

Definition onServer {A} (k : HM A) : MM A := λ '(s, m), let '(r, s') := k s in (r, (s', m)).

Definition timeNow : HM Z := onWorld (onOS (λ y, (Ok (now (oracle y (tick y))), skip 1 y))).

(** The call of [next] between two readings of the clock. *)
Definition timed (next : HM response) : HM (response * Z) :=
  start ← timeNow; resp ← next; stop ← timeNow; mret (resp, (stop - start)%Z).

(** A panic passes the recording by. *)
Definition metricsMiddleware (method fullPath : string) (next : HM response) : MM response := λ '(s, m),
  match m with
  | None => onServer next (s, m)
  | Some m =>
      let '(r, s') := timed next s in
      match r with
      | Ok (resp, duration) =>
          (Ok resp, (s', Some (RecordHTTPRequest method fullPath (rstatus resp) duration m)))
      | Err e => (Err e, (s', Some m))
      end
  end.

(** The body of its answer, whose status is 200: [promhttp.Handler], or the two fields. *)
Definition handleMetrics (m : option Metrics) : body :=
  match m with
  | Some m => page m
  | None => BMessage ("uptime=" +:+ uptime +:+ " version=1.0.0")
  end.

(** [api.Use(s.metricsMiddleware())] is on the routes of the group. *)
Definition metered (rt : routeEntry) : bool := HasPrefix (rtPattern rt) "/api/v1/".

(** The guards and the handler of a route, with the page of the moment. *)
Definition routeBody (m : option Metrics) (rt : routeEntry) (ps : list (string * string)) (rq : Req) : HM response :=
  guarded sha256 range (rtGuard rt) rq (λ user,
    handlerOf sha256 uuid srv (handleMetrics m) (rtHandler rt) user (withParams ps rq)).

Definition dispatch (rt : routeEntry) (ps : list (string * string)) (rq : Req) : MM response := λ '(s, m),
  if metered rt then metricsMiddleware (rqMethod rq) (rtPattern rt) (routeBody m rt ps rq) (s, m)
  else onServer (routeBody m rt ps rq) (s, m).

(** The route that takes the request, unless the middleware of the engine answers it. *)
Definition routed (inFlight : nat) (path : string) (rq : Req) : option (routeEntry * list (string * string)) :=
  if (corsMiddleware srv rq).2 then None
  else match (concurrencyMiddleware srv inFlight Arrive).2 with
       | Some _ => None
       | None => find setupRoutes (rqMethod rq) path
       end.

Definition ServeMetered (inFlight : nat) (path : string) (rq : Req) : MM response :=
  onServer (requestIDMiddleware uuid rq) ⨟
  if (corsMiddleware srv rq).2 then onServer (respond 204 (BMessage ""))
  else
    match (concurrencyMiddleware srv inFlight Arrive).2 with
    | Some st => onServer (sendError st "Server is busy, please try again later")
    | None =>
        match find setupRoutes (rqMethod rq) path with
        | None => onServer (respond 404 (BMessage "404 page not found"))
        | Some (rt, ps) => dispatch rt ps rq
        end
    end.

(** Without metrics, and away from the group, it is the engine of Routes.v. *)
Lemma ServeMetered_plain inFlight path rq s m :
  (m = None ∨ ∀ rt ps, find setupRoutes (rqMethod rq) path = Some (rt, ps) → metered rt = false) →
  ServeMetered inFlight path rq (s, m) =
  onServer (ServeHTTP sha256 uuid srv range find (handleMetrics m) inFlight path rq) (s, m).
Proof.
  intros Hm. unfold ServeMetered, ServeHTTP, mbind, M_bind, onServer at 1 5.
  destruct (requestIDMiddleware uuid rq s) as [[id|e] s1]; [|done].
  destruct (corsMiddleware srv rq).2; [done|]. destruct (concurrencyMiddleware srv inFlight Arrive).2; [done|].
  destruct (find setupRoutes (rqMethod rq) path) as [[rt ps]|]; [|done].
  unfold dispatch. destruct (metered rt) eqn:E; [|done]. destruct Hm as [-> |Hm]; [done|].
  by rewrite (Hm rt ps) in E.
Qed.

(** ** What is counted *)

(** The labels that a request is recorded with. *)
Definition recorded (inFlight : nat) (path : string) (rq : Req) (r : res response)
    : option (string * string * Z) :=
  match routed inFlight path rq, r with
  | Some (rt, _), Ok resp => if metered rt then Some (rqMethod rq, rtPattern rt, rstatus resp) else None
  | _, _ => None
  end.

(** One request after the other, with what is recorded of each. *)
Fixpoint serveAll (l : list (nat * string * Req)) (s : HttpState) (m : option Metrics)
    : list (string * string * Z) * option Metrics :=
  match l with
  | [] => ([], m)
  | (inFlight, path, rq) :: l =>
      let '(r, (s, m)) := ServeMetered inFlight path rq (s, m) in
      let '(rs, m) := serveAll l s m in
      (option_list (recorded inFlight path rq r) ++ rs, m)
  end.

Lemma requestID_done rq s : ∃ id s1, requestIDMiddleware uuid rq s = (Ok id, s1).
Proof. unfold requestIDMiddleware. case_match; do 2 eexists; reflexivity. Qed.

Definition recordAs (x : option (string * string * Z)) (d : Z) (m : Metrics) : Metrics :=
  match x with Some (method, p, st) => RecordHTTPRequest method p st d m | None => m end.

Lemma ServeMetered_records inFlight path rq s m r s' m' :
  ServeMetered inFlight path rq (s, Some m) = (r, (s', m')) →
  ∃ d, m' = Some (recordAs (recorded inFlight path rq r) d m).
Proof.
  unfold ServeMetered, recorded, routed, mbind, M_bind, onServer at 1.
  destruct (requestID_done rq s) as (id & s1 & ->).
  destruct (corsMiddleware srv rq).2; [intros [= <- <- <-]; by exists 0%Z|].
  destruct (concurrencyMiddleware srv inFlight Arrive).2; [intros [= <- <- <-]; by exists 0%Z|].
  destruct (find setupRoutes (rqMethod rq) path) as [[rt ps]|]; [|intros [= <- <- <-]; by exists 0%Z].
  unfold dispatch. destruct (metered rt).
  - unfold metricsMiddleware. destruct (timed _ s1) as [[[resp d]|e] s2]; intros [= <- <- <-]; [by exists d|by exists 0%Z].
  - unfold onServer. destruct (routeBody _ rt ps rq s1) as [r2 s2]. intros [= <- <- <-].
    exists 0%Z. by destruct r2.
Qed.

(** How often a request is recorded with these labels. *)
Definition timesRecorded (P : string * string * Z → Prop) `{∀ x, Decision (P x)}
    (rs : list (string * string * Z)) : nat := length (filter P rs).

Context `{!CollectorLaws Ct Hi G}.

Lemma recordAs_counts x d m method p st :
  let n := match x with Some x => timesRecorded (.= (method, p, st)) [x] | None => 0 end in
  let k := match x with Some x => timesRecorded (λ y, y.1 = (method, p)) [x] | None => 0 end in
  cValue [method; p; pretty st] (httpRequestsTotal (recordAs x d m))
  = cValue [method; p; pretty st] (httpRequestsTotal m) + n ∧
  hCount [method; p] (httpRequestDuration (recordAs x d m)) = hCount [method; p] (httpRequestDuration m) + k ∧
  uploadSizeBytes (recordAs x d m) = uploadSizeBytes m ∧ activeUploads (recordAs x d m) = activeUploads m.
Proof.
  intros n k. subst n k. destruct x as [[[method' p'] st']|]; simpl; [|split_and!; try done; lia].
  rewrite counter_inc. destruct (histogram_observe [method'; p'] [method; p] d (httpRequestDuration m)) as [-> _].
  unfold timesRecorded. rewrite !filter_cons, !filter_nil. split_and!; [| |done|done].
  - repeat case_decide; simplify_eq/=; try done; congruence.
  - repeat case_decide; simplify_eq/=; try done; congruence.
Qed.

(** Each API request that is answered is counted once, under its method, its route and its
    status, refused ones too; the requests outside the group, those of unknown paths and
    those that the engine turns away are not. Nothing that is served moves the two
    collectors of uploads. *)
Lemma requests_counted l s m rs m' :
  serveAll l s (Some m) = (rs, m') →
  ∃ m1, m' = Some m1 ∧
    (∀ method p st,
       cValue [method; p; pretty st] (httpRequestsTotal m1)
       = cValue [method; p; pretty st] (httpRequestsTotal m) + timesRecorded (.= (method, p, st)) rs ∧
       hCount [method; p] (httpRequestDuration m1)
       = hCount [method; p] (httpRequestDuration m) + timesRecorded (λ y, y.1 = (method, p)) rs) ∧
    uploadSizeBytes m1 = uploadSizeBytes m ∧ activeUploads m1 = activeUploads m.
Proof.
  revert s m rs. induction l as [|[[inFlight path] rq] l IH]; intros s m rs; simpl.
  - intros [= <- <-]. exists m. split; [done|]. split; [|done]. intros method p st.
    unfold timesRecorded. rewrite !filter_nil. simpl. lia.
  - destruct (ServeMetered inFlight path rq (s, Some m)) as [r [s1 m0]] eqn:E.
    apply ServeMetered_records in E as [d ->].
    destruct (serveAll l s1 _) as [rs' m2] eqn:El. intros [= <- <-].
    destruct (IH _ _ _ El) as (m1 & -> & Hc & Hu & Ha). exists m1. split; [done|].
    set (x := recorded inFlight path rq r) in *.
    pose proof (recordAs_counts x d m) as Hx. split.
    + intros method p st. destruct (Hc method p st) as [-> ->]. destruct (Hx method p st) as (-> & -> & _).
      unfold timesRecorded. rewrite !filter_app, !length_app. destruct x; simpl option_list; [lia|].
      rewrite !filter_nil. simpl. lia.
    + destruct (Hx "" "" 0%Z) as (_ & _ & <- & <-). done.
Qed.
End engine.

(** A request that is refused is counted over HTTP; the gauge of active uploads and the
    histogram of their sizes are registered, but no request moves them: an upload leaves
    both at zero. *)
#[local] Instance noCache : CacheAdapter unit := {| cacheGet _ _ c := (None, c); cacheSet _ _ _ c := c |}.

Definition demoMetrics := MkMetrics (C := gmap (list string) nat) (H := gmap (list string) (nat * Z)) (G := Z) cNew hNew hNew gNew.

Definition demoServed (l : list (nat * string * Req)) :=
  serveAll demoSHA (λ _, "id") demoServer map_to_list demoRouter (λ _, BMessage "") "" l demoAuthed (Some demoMetrics).

Lemma uploads_not_measured :
  let x := demoServed [(0, "/api/v1/files", demoRequest "POST" "secret"); (0, "/api/v1/files", demoRequest "POST" "guess");
                       (0, "/nowhere", demoRequest "GET" "guess")] in
  x.1 = [("POST", "/api/v1/files", 201%Z); ("POST", "/api/v1/files", 401%Z)] ∧
  (gValue ∘ activeUploads <$> x.2) = Some 0%Z ∧ (hCount [] ∘ uploadSizeBytes <$> x.2) = Some 0.
Proof. vm_compute. split_and!; reflexivity. Qed.

(** A second set of collectors cannot be registered: the process panics. *)
Lemma metrics_once :
  let new := NewMetrics (Ct := gmap (list string) nat) (Hi := gmap (list string) (nat * Z)) (G := Z) in
  (new ∅).1 = Ok demoMetrics ∧ ∃ e, (new (new ∅).2).1 = Err e.
Proof. split; [reflexivity|]. eexists. vm_compute. reflexivity. Qed.
