(* ===== verification/ApiKeys.v ===== *)
(** * The life of an API key

    What the requests do to the table of keys and to the credentials that the
    authentication knows, and the way of a key from its creation to its removal:
    handleCreateApiKey, authMiddleware with the lookup in the database,
    handleUpdateApiKey and handleDeleteApiKey together. *)

From S2P Require Export Routes.
From stdpp Require Import pretty.

Local Open Scope go_scope.

(** Unfold the operation at the head of a program. *)
Ltac unfold_op m :=
  lazymatch m with
  | ?f _ => unfold_op f
  | _ => unfold m
  end.

(** ** The table of keys stays as it is *)

Section frame.
Context {Sg L St C : Type} {T : Type → Type}.
Context `{StorageAdapter Sg} `{DistributedLock L} `{SessionStore sessionValue St}.
Context `{SqlEngine T} `{AEAD} `{JWTLib} `{CacheAdapter C}.
Context (sha256 : bytes → bytes) (uuid : nat → string) (srv : HttpServer).
Notation World := (World Sg L St T).
Notation HttpState := (HttpState Sg L St C T).

Definition dbSame (w w' : DB T * Sys) : Prop := api_keys w'.1 = api_keys w.1.
Definition worldSame (w w' : World) : Prop := api_keys (db w') = api_keys (db w).

#[local] Instance dbSame_preorder : PreOrder dbSame.
Proof. unfold dbSame. split; [done|]. intros ???. congruence. Qed.
#[local] Instance worldSame_preorder : PreOrder worldSame.
Proof. unfold worldSame. split; [done|]. intros ???. congruence. Qed.

(** A statement on another table, and a query of this one. *)
Lemma kept_dbCall {Row A} sel upd (op : T Row → res A * T Row) :
  (∀ t d, api_keys (upd t d) = api_keys d) → steps dbSame (dbCall sel upd op).
Proof.
  intros Hu [d s]. unfold dbSame, dbCall, faulty.
  destruct (net _); simpl; try done; destruct (op _); simpl; auto.
Qed.

Lemma kept_onKeys {A} (f : list ApiKeyRow → res A) : steps dbSame (onKeys (select f)).
Proof.
  intros [d s]. unfold dbSame, onKeys, dbCall, faulty.
  destruct (net _); simpl; try done; by destruct d.
Qed.

Lemma kept_selectKey p : steps dbSame (onKeys (Metadata.selectOne p)).
Proof.
  intros [d s]. unfold dbSame, onKeys, dbCall, faulty.
  destruct (net _); simpl; try done; by destruct d.
Qed.

Lemma kept_tree {Row A} `{SqlRow Row, !TreeRow Row, !TableOf T Row} (op : T Row → res A * T Row) :
  (∀ t (d : DB T), api_keys (upd t d) = api_keys d) → steps dbSame (onTree op).
Proof. intros Hu. by apply kept_dbCall. Qed.

Lemma kept_queryRows {A} (f : nat → DB T → res (list A)) : steps dbSame (queryRows f).
Proof. intros [d s]. unfold dbSame, queryRows. by destruct (net _). Qed.
Lemma kept_queryCount (f : DB T → Z) : steps dbSame (queryCount f).
Proof. intros [d s]. unfold dbSame, queryCount. by destruct (net _). Qed.
Lemma kept_dbNow : steps dbSame dbNow.
Proof. by intros [d s]. Qed.

(** A transaction that is rolled back leaves the tables of its beginning. *)
Lemma kept_inTx b c (m : M (DB T * Sys) unit) : steps dbSame m → steps dbSame (inTx b c m).
Proof.
  intros Hm [d s]. unfold inTx, mbind, M_bind, wrapErr, beginTx, gets, onError, modify, dbSame in *.
  cbv beta iota zeta. destruct (net (oracle s (tick s))); try done. cbn [fst snd].
  specialize (Hm (d, skip 1 s)). destruct (m (d, skip 1 s)) as [[[]|e] [d' s']]; [|done].
  simpl in Hm. unfold commitTx. by destruct (net _).
Qed.

Lemma kept_onDB {A} (m : M (DB T * Sys) A) : steps dbSame m → steps worldSame (onDB m).
Proof. intros Hm w. specialize (Hm (db w, sys w)). unfold onDB. by destruct (m _) as [r [d s]]. Qed.
Lemma kept_onStore {A} (m : M (Sg * Sys) A) : steps worldSame (onStore m).
Proof. intros w. unfold onStore. by destruct (m _) as [r [g s]]. Qed.
Lemma kept_onOS {A} (m : M Sys A) : steps worldSame (onOS m).
Proof. intros w. unfold onOS. by destruct (m _) as [r s]. Qed.
Lemma kept_onSession {A} (op : callEnv → St → res A * St) : steps worldSame (onSession op).
Proof. intros w. unfold onSession. by destruct (op _ _). Qed.
Lemma kept_onService f : steps worldSame (onService f).
Proof. by intros w. Qed.
Lemma kept_acquire key ttl n d : steps worldSame (acquire key ttl n d).
Proof. intros w. unfold acquire. by destruct (AcquireLock _ _ _ _ _ _) as [[r l] ?]. Qed.
Lemma kept_release key token : steps worldSame (release key token).
Proof. intros w. unfold release. by destruct (Unlock _ _ _ _). Qed.
Lemma kept_selectOne : steps worldSame Http.selectOne.
Proof. by intros w. Qed.
Lemma kept_forEach {A} (f : A → M World unit) l :
  (∀ a, steps worldSame (f a)) → steps worldSame (forEach f l).
Proof. intros Hf. induction l as [|a l IH]; simpl; steps_auto; auto. Qed.

(** What the authentication knows without the database: the configured key, the users
    and the secret of the tokens. *)
Definition sameCreds (a a' : AuthService) : Prop :=
  users a' = users a ∧ authEnabled a' = authEnabled a ∧ defaultApiKeyHash a' = defaultApiKeyHash a ∧
  apiKeyLookupFn a' = apiKeyLookupFn a ∧ secret <$> jwtService a' = secret <$> jwtService a.

#[export] Instance sameCreds_preorder : PreOrder sameCreds.
Proof.
  unfold sameCreds. split; [done|]. intros ? ? ? (? & ? & ? & ? & ?) (? & ? & ? & ? & ?).
  split_and!; congruence.
Qed.

Definition httpSame (s s' : HttpState) : Prop :=
  worldSame (hw s) (hw s') ∧ sameCreds (hauth s) (hauth s').

#[local] Instance httpSame_preorder : PreOrder httpSame.
Proof.
  split; [by split|]. intros s1 s2 s3 [? ?] [? ?]. split; by etrans.
Qed.

Lemma kept_onWorld {A} (m : M World A) : steps worldSame m → steps httpSame (onWorld m).
Proof. intros Hm s. specialize (Hm (hw s)). unfold onWorld. by destruct (m _). Qed.
Lemma kept_onFM {A} (m : M World A) p : steps worldSame m → steps httpSame (onFM (underLock p m)).
Proof.
  intros Hm s.
  assert (steps worldSame (token ← distLockFile p; deferring m (distUnlockFile p token))) as Hl.
  { pose proof kept_acquire. pose proof kept_release. unfold distLockFile, distUnlockFile. steps_auto. }
  specialize (Hl (hw s)). unfold onFM, underLock, mbind at 1, M_bind at 1, lockFile, modify, inWorld.
  match type of Hl with context [?x (hw s)] => by destruct (x (hw s)) end.
Qed.

Lemma kept_onCache {A} (f : callEnv → C → A * C) a : steps httpSame (onCache f a).
Proof.
  intros s. unfold onCache. destruct (hcache s); [|done]. by destruct (f _ _).
Qed.

Lemma kept_auditLog op path rq ok details : steps httpSame (auditLog uuid op path rq ok details).
Proof.
  unfold auditLog. steps_auto; [apply kept_onWorld, kept_onOS..|by intros s].
Qed.

Lemma kept_GenerateApiKey id : steps httpSame (onAuthSvc (GenerateApiKey sha256 uuid id)).
Proof. by intros s. Qed.

Lemma kept_onJWT {A} (m : M (JWTService * Sys) A) : steps jwtLater m → steps httpSame (onAuthSvc (onJWT m)).
Proof.
  intros Hm s. unfold onAuthSvc, onJWT. cbn [aAuth aSys aDB].
  destruct (jwtService (hauth s)) as [j|] eqn:Ej; [|done]. specialize (Hm (j, sys (hw s))).
  destruct (m _) as [r [j' s']]. split; [done|]. unfold sameCreds. simpl. rewrite Ej.
  destruct Hm as [Hs _]. simpl in *. by rewrite Hs.
Qed.

Lemma kept_failWith {A} msg (m : M World A) : steps worldSame m → steps worldSame (failWith msg m).
Proof. intros Hm w. specialize (Hm w). unfold failWith. by destruct (m w). Qed.

Hint Resolve kept_onKeys kept_selectKey kept_queryRows kept_queryCount kept_dbNow kept_onStore
  kept_onOS kept_onSession kept_onService kept_acquire kept_release kept_selectOne kept_onCache
  kept_auditLog kept_GenerateApiKey generate_later refresh_later : steps.

(** Walk into the operations down to the calls above. *)
Ltac keys_auto :=
  repeat (steps_auto; lazymatch goal with
  | |- steps _ (onDB _) => apply kept_onDB
  | |- steps _ (onWorld _) => apply kept_onWorld
  | |- steps _ (onFM (underLock _ _)) => apply kept_onFM
  | |- steps _ (onAuthSvc (onJWT _)) => apply kept_onJWT
  | |- steps _ (inTx _ _ _) => apply kept_inTx
  | |- steps _ (failWith _ _) => apply kept_failWith
  | |- steps _ (forEach _ _) => apply kept_forEach; intros ?
  | |- steps _ (dbCall _ _ _) => apply kept_dbCall; [done]
  | |- steps _ (onTree _) => apply kept_tree; [done]
  | |- steps _ (modify _) => by intros ?
  | |- steps _ get => apply steps_get, _
  | |- steps _ (onFM ?m) => unfold_op m; cbv zeta
  | |- steps _ ?m => unfold_op m; cbv beta zeta
  end).

Section tree.
Context {Row : Type} `{SqlRow Row, !TreeRow Row, !TableOf T Row}.
Hypothesis upd_keys : ∀ t (d : DB T), api_keys (upd (Row := Row) t d) = api_keys d.

Lemma kept_execById id (f : Row → Row) : steps dbSame (execById id f).
Proof. unfold execById. by apply kept_tree. Qed.
Hint Resolve kept_execById : steps.

Lemma kept_softDeleteAll msg (es : list Row) : steps dbSame (softDeleteAll msg es).
Proof. induction es as [|e es IH]; simpl; steps_auto. Qed.
Lemma kept_moveAll msg o n now (es : list Row) : steps dbSame (moveAll msg o n now es).
Proof. induction es as [|e es IH]; simpl; steps_auto. Qed.
Lemma kept_deleteBatches fuel q b u c path (after : Row → M World unit) :
  (∀ e, steps worldSame (after e)) → steps worldSame (deleteBatches fuel q b u c path after).
Proof.
  intros Ha. induction fuel as [|fuel IH]; simpl; [apply steps_throw, _|].
  apply steps_bind; [apply _|apply kept_onDB, steps_wrapErr; by apply kept_tree|].
  intros [|e es]; [apply steps_ret, _|]. apply steps_bind; [apply _| |intros _].
  - by apply kept_onDB, kept_inTx, kept_softDeleteAll.
  - apply steps_bind; [apply _|by apply kept_forEach|done].
Qed.
End tree.

Lemma kept_files msg (es : list FileMetadata) : steps dbSame (softDeleteAll msg es).
Proof. by apply kept_softDeleteAll. Qed.
Lemma kept_moveFiles msg o n now (es : list FileMetadata) : steps dbSame (moveAll msg o n now es).
Proof. by apply kept_moveAll. Qed.
Lemma kept_moveDirs msg o n now (es : list DirectoryMetadata) : steps dbSame (moveAll msg o n now es).
Proof. by apply kept_moveAll. Qed.
Hint Resolve kept_files kept_moveFiles kept_moveDirs : steps.

Lemma kept_deleteFiles dm path : steps worldSame (deleteFiles dm path).
Proof. unfold deleteFiles, fuelFor. steps_auto. apply kept_deleteBatches; [done|]. intros e. keys_auto. Qed.
Lemma kept_deleteDirectories dm path : steps worldSame (deleteDirectories dm path).
Proof.
  unfold deleteDirectories, fuelFor. steps_auto. apply kept_deleteBatches; [done|]. intros e. keys_auto.
Qed.
Hint Resolve kept_deleteFiles kept_deleteDirectories : steps.

Lemma kept_DMCreateDirectory dm path : steps worldSame (DMCreateDirectory uuid dm path).
Proof. keys_auto. Qed.
Lemma kept_DMDeleteDirectory dm path r : steps worldSame (DMDeleteDirectory dm path r).
Proof. keys_auto. Qed.
Lemma kept_DMRenameDirectory dm path n : steps worldSame (DMRenameDirectory dm path n).
Proof. keys_auto. Qed.
Lemma kept_CreateUploadSession p n z c h : steps worldSame (CreateUploadSession uuid p n z c h).
Proof. keys_auto. Qed.
Lemma kept_UploadChunk id d o : steps worldSame (UploadChunk id d o).
Proof. keys_auto. Qed.
Lemma kept_CompleteUpload id : steps worldSame (CompleteUpload sha256 uuid id).
Proof. keys_auto. Qed.
Hint Resolve kept_DMCreateDirectory kept_DMDeleteDirectory kept_DMRenameDirectory
  kept_CreateUploadSession kept_UploadChunk kept_CompleteUpload : steps.

(** The handlers that manage keys. *)
Definition managesKeys (h : handlerName) : bool :=
  match h with HCreateApiKey | HUpdateApiKey | HDeleteApiKey => true | _ => false end.

Lemma kept_handler page h user rq :
  managesKeys h = false → steps httpSame (handlerOf sha256 uuid srv page h user rq).
Proof. destruct h; simpl; try done; intros _; keys_auto; by case_bool_decide; keys_auto. Qed.

(** ** What the three handlers do to it *)

(** [P] holds of the keys and the credentials after [m] when it did before. *)
Definition keepsKeys (P : T ApiKeyRow → AuthService → Prop) (s s' : HttpState) : Prop :=
  P (api_keys (db (hw s))) (hauth s) → P (api_keys (db (hw s'))) (hauth s').

#[local] Instance keeps_preorder P : PreOrder (keepsKeys P).
Proof. unfold keepsKeys. split; [by intros s ?|intros s1 s2 s3; tauto]. Qed.

Lemma keeps_same {A} P (m : M HttpState A) :
  (∀ t a a', sameCreds a a' → P t a → P t a') → steps httpSame m → steps (keepsKeys P) m.
Proof. intros HP Hm s. destruct (Hm s) as [Hw Ha]. unfold keepsKeys. rewrite Hw. by apply HP. Qed.

(** A statement on the table, lost, applied, or applied without a reply. *)
Lemma keeps_onKeys (P : T ApiKeyRow → AuthService → Prop) (op : T ApiKeyRow → res unit * T ApiKeyRow) msg :
  (∀ t a, P t a → P (op t).2 a) → steps (keepsKeys P) (onWorld (onDB (wrapErr msg (onKeys op)))).
Proof.
  intros Hop s HP. specialize (Hop _ _ HP). unfold onWorld, onDB, wrapErr, onKeys, dbCall, faulty.
  destruct (net _); simpl; try done; destruct (op _); done.
Qed.

(** The row [r] is in the table, and nothing else answers to its hash. *)
Definition stored (r : ApiKeyRow) (t : T ApiKeyRow) : Prop := r ∈ rows t ∧ constraintsOk (rows t).
(** No key has this hash, except perhaps the one with this identifier, which is not active. *)
Definition revoked (id h : string) (t : T ApiKeyRow) : Prop :=
  ∀ r, r ∈ rows t → rKeyHash r = h → rID r = id ∧ rIsActive r = false.

(** The key that GenerateApiKey makes for an identifier. *)
Definition plainKeyOf (id : string) (n : nat) : string :=
  EncodeToString (sha256 (stringBytes (id +:+ uuid n))).

Lemma create_keeps (P : T ApiKeyRow → AuthService → Prop) rq :
  (∀ t a a', sameCreds a a' → P t a → P t a') →
  (∀ r t a id n, rKeyHash r = hashApiKey sha256 (plainKeyOf id n) → P t a → P (INSERT r t).2 a) →
  steps (keepsKeys P) (handleCreateApiKey sha256 uuid rq).
Proof.
  intros HP Hi. unfold handleCreateApiKey. case_match; [|apply steps_ret, _].
  destruct p as [[[name desc] perms] expires]. unfold unless. case_match; [apply steps_ret, _|].
  apply steps_bind; [apply _|by apply keeps_same, kept_onWorld, kept_onOS|]. intros id.
  intros s. unfold onAuthSvc, GenerateApiKey, mbind at 1, M_bind at 1. cbn [aSys].
  match goal with |- keepsKeys P s (?k ?s1).2 => change (keepsKeys P s1 (k s1).2) end.
  fold (plainKeyOf id (tick (sys (hw s)))). apply steps_bind; [apply _|by apply keeps_same, kept_onWorld, kept_onOS|].
  intros now. unfold orElse. apply steps_bind; [apply _| |].
  - apply steps_catch, keeps_onKeys. intros t a. by eapply Hi.
  - intros [[]|e]; [|apply steps_ret, _]. apply steps_bind; [apply _| |intros; apply steps_ret, _].
    by apply keeps_same, kept_auditLog.
Qed.

Lemma KeyGetById_id id w key w' : KeyGetById id w = (Ok (Some key), w') → kID key = id.
Proof.
  unfold KeyGetById. intros E. run_ok E. apply onKeys_ok in Hr. injection Hr as Hr _.
  destruct x as [r|]; [|done]. simpl in *. simplify_eq.
  apply head_Some_elem_of, list_elem_of_filter in Hr as [Hr _]. by bool_prop.
Qed.

Lemma kept_KeyGetById id : steps httpSame (onWorld (onDB (KeyGetById id))).
Proof. keys_auto. Qed.

Lemma withKey_keeps P rq k :
  (∀ t a a', sameCreds a a' → P t a → P t a') →
  (∀ key, kID key = Param "id" rq → steps (keepsKeys P) (k key)) → steps (keepsKeys P) (withKey rq k).
Proof.
  intros HP Hk s. unfold withKey, orElse, mbind at 1, M_bind at 1, catch.
  pose proof (keeps_same P _ HP (kept_KeyGetById (Param "id" rq)) s) as Hs. destruct (onWorld _ s) as [r s1] eqn:E. simpl in Hs. etrans; [exact Hs|].
  destruct r as [[key|]|e]; [|by intros ?..]. apply Hk.
  unfold onWorld, onDB in E. destruct (KeyGetById _ _) as [r' [d s']] eqn:Eg. injection E as -> _.
  by eapply KeyGetById_id.
Qed.

Lemma update_keeps (P : T ApiKeyRow → AuthService → Prop) rq :
  (∀ t a a', sameCreds a a' → P t a → P t a') →
  (∀ p f t a, (∀ r, p r = bool_decide (rID r = Param "id" rq)) → 
     (∀ r, rID (f r) = rID r ∧ rKeyHash (f r) = rKeyHash r) → P t a → P (UPDATE p f t).2 a) →
  steps (keepsKeys P) (handleUpdateApiKey uuid rq).
Proof.
  intros HP Hu. unfold handleUpdateApiKey, unless. case_match; [apply steps_ret, _|].
  case_match; [|apply steps_ret, _]. destruct p as [[name desc] active].
  apply withKey_keeps; [done|]. intros key Hid. unfold orElse. apply steps_bind; [apply _| |].
  - apply steps_catch, keeps_onKeys. intros t a. apply Hu; [|done]. intros r. simpl. by rewrite Hid.
  - intros [[]|e]; [|apply steps_ret, _]. apply steps_bind; [apply _| |intros; apply steps_ret, _].
    by apply keeps_same, kept_auditLog.
Qed.

Lemma delete_keeps (P : T ApiKeyRow → AuthService → Prop) rq :
  (∀ t a a', sameCreds a a' → P t a → P t a') →
  (∀ t a, P t a → P (DELETE (λ r, bool_decide (rID r = Param "id" rq)) t).2 a) →
  steps (keepsKeys P) (handleDeleteApiKey uuid rq).
Proof.
  intros HP Hd. unfold handleDeleteApiKey, unless. case_match; [apply steps_ret, _|].
  apply withKey_keeps; [done|]. intros key Hid. unfold orElse. apply steps_bind; [apply _| |].
  - by apply steps_catch, keeps_onKeys.
  - intros [[]|e]; [|apply steps_ret, _]. apply steps_bind; [apply _| |intros; apply steps_ret, _].
    by apply keeps_same, kept_auditLog.
Qed.

End frame.

(** The statements, for a key that they do not name. *)
Section statements.
Context {T : Type → Type} `{SqlLaws T}.
Implicit Types t : T ApiKeyRow.

Lemma stored_insert r r' t : stored r t → stored r (INSERT r' t).2.
Proof.
  intros [Hr Hc]. destruct (insert_cases r' t) as [(t' & -> & Hp & Hc')|(e & -> & _)]; [|done].
  split; [|done]. simpl. rewrite Hp. by right.
Qed.

Lemma stored_update r p f t : p r = false → stored r t → stored r (UPDATE p f t).2.
Proof.
  intros Hr [Hin Hc]. destruct (update_cases p f t) as [(t' & -> & Hp & Hc')|(e & -> & _)]; [|done].
  split; [|done]. simpl. rewrite Hp, elem_of_updateRows. exists r. by rewrite Hr.
Qed.

Lemma stored_delete r p t : p r = false → stored r t → stored r (DELETE p t).2.
Proof.
  intros Hr [Hin Hc]. destruct (delete_ok p t) as (t' & -> & Hp). split; simpl.
  - rewrite Hp, list_elem_of_filter. done.
  - eapply constraintsOk_perm; [symmetry; exact Hp|]. unfold constraintsOk in *.
    eapply Forall_impl; [exact Hc|]. intros col Hn.
    eapply sublist_NoDup; [exact Hn|]. apply fmap_sublist, sublist_filter.
Qed.

Lemma revoked_insert id h r t : rKeyHash r ≠ h → revoked id h t → revoked id h (INSERT r t).2.
Proof.
  intros Hr Hv. destruct (insert_cases r t) as [(t' & -> & Hp & _)|(e & -> & _)]; [|done].
  intros r'. simpl. rewrite Hp. intros [->|Hin]%elem_of_cons; [done|by apply Hv].
Qed.

Lemma revoked_update id h p f t :
  (∀ r, rID r = id → p r = false) → (∀ r, rKeyHash (f r) = rKeyHash r) →
  revoked id h t → revoked id h (UPDATE p f t).2.
Proof.
  intros Hid Hf Hv. destruct (update_cases p f t) as [(t' & -> & Hp & _)|(e & -> & _)]; [|done].
  intros r'. simpl. rewrite Hp, elem_of_updateRows. intros (r & Hin & ->).
  destruct (p r) eqn:Er; [|by apply Hv]. rewrite Hf. intros Hh. destruct (Hv r Hin Hh) as [Hi _].
  by rewrite Hid in Er.
Qed.

Lemma revoked_delete id h p t : revoked id h t → revoked id h (DELETE p t).2.
Proof.
  intros Hv. destruct (delete_ok p t) as (t' & -> & Hp). intros r. simpl.
  rewrite Hp, list_elem_of_filter. intros [_ Hin]. by apply Hv.
Qed.
End statements.

(** ** A key that is presented *)

Section presented.
Context {T : Type → Type} `{SqlEngine T} `{JWTLib}.
Context (sha256 : bytes → bytes) (range : gmap string User → list (string * User)).
Hypothesis range_perm : ∀ m, range m ≡ₚ map_to_list m.
Notation World := (AuthWorld T).
Implicit Types w : World.

(** The credential is neither the configured key, nor the key of a user, nor a token. *)
Definition onlyKey (k : string) (a : AuthService) : Prop :=
  k ≠ "" ∧ hashApiKey sha256 k ≠ defaultApiKeyHash a ∧
  (∀ id u, users a !! id = Some u → usApiKeyHash u ≠ hashApiKey sha256 k) ∧
  (∀ sec t, secret <$> jwtService a = Some sec → is_ok (ParseWithClaims sec t k) = false).

Lemma onlyKey_creds k a a' : sameCreds a a' → onlyKey k a → onlyKey k a'.
Proof. unfold onlyKey. by intros (-> & _ & -> & _ & ->). Qed.

Lemma sameKeys_creds w w' : sameKeys w w' → sameCreds (aAuth w) (aAuth w').
Proof. by intros ([f ->] & _). Qed.

Definition keyUser (r : ApiKeyRow) : User := MkUser (rID r) "" (rName r) (roleOf (rPermissions r)) true.

(** The next [n] calls reach the database before the key expires. *)
Definition reachable (n : nat) (key : ApiKey) (s : Sys) : Prop :=
  ∀ m, tick s ≤ m < tick s + n →
    net (oracle s m) = NoFault ∧ IsExpired (FormatTimestamp (now (oracle s m))) key = false.

Lemma reachable_later n n' r s s' :
  oracle s' = oracle s → tick s ≤ tick s' → tick s' + n' ≤ tick s + n → reachable n r s → reachable n' r s'.
Proof. intros Ho H1 H2 Hr m Hm. rewrite Ho. apply Hr. lia. Qed.

Lemma lookupKey_stored r w :
  apiKeyLookupFn (aAuth w) = true → stored r (api_keys (aDB w)) → rIsActive r = true →
  reachable 2 (scanApiKey r) (aSys w) →
  lookupKey (rKeyHash r) w = (Ok (Some (scanApiKey r)), MkAuthWorld (skip 2 (aSys w)) (aDB w) (aAuth w)).
Proof.
  intros Hl [Hin Hc] Ha Hr. destruct (Hr (tick (aSys w))) as [_ Hx]; [lia|].
  destruct (Hr (S (tick (aSys w)))) as [Hn _]; [lia|].
  unfold lookupKey, mbind at 1, M_bind at 1, gets. rewrite Hl.
  unfold mbind at 1, M_bind at 1, timeNow, mbind at 1, M_bind at 1, catch, onKeysDB. cbn [aDB aSys aAuth].
  unfold KeyGetByKeyHash, mbind at 1, M_bind at 1, wrapErr, onKeys, dbCall.
  replace (tick (skip 1 (aSys w))) with (S (tick (aSys w))) by (simpl; lia).
  change (oracle (skip 1 (aSys w))) with (oracle (aSys w)). rewrite Hn. cbn [faulty].
  unfold Metadata.selectOne.
  assert (head (filter (λ r', bool_decide (rKeyHash r' = rKeyHash r) && rIsActive r' = true)
            (rows (api_keys (aDB w)))) = Some r) as ->.
  { apply head_filter; [|by rewrite (bool_decide_eq_true_2 _ eq_refl)].
    assert (NoDup (rKeyHash <$> rows (api_keys (aDB w)))) as Hd.
    { unfold constraintsOk in Hc. simpl in Hc. apply Forall_cons in Hc as [_ Hc]. by apply Forall_cons in Hc as [? _]. }
    intros y z Hy Hz Py Pz. bool_prop. apply (NoDup_key rKeyHash _ y z Hd); congruence. }
  change (scanApiKey <$> Some r) with (Some (scanApiKey r)). cbn [res_map_err].
  change (scanApiKey <$> Some r) with (Some (scanApiKey r)). cbv iota. rewrite Hx. cbn [mret M_ret scanApiKey kIsActive]. rewrite Ha.
  assert (skip 1 (skip 1 (aSys w)) = skip 2 (aSys w)) as -> by (unfold skip; simpl; f_equal; lia).
  by destruct (aDB w).
Qed.

Lemma onlyKey_default k a : onlyKey k a → defaultMatches a (hashApiKey sha256 k) = false.
Proof.
  intros (_ & Hd & _). unfold defaultMatches. rewrite (bool_decide_eq_false_2 _ Hd). by destruct (negb _).
Qed.

Lemma onlyKey_user k a : onlyKey k a → findUser range a (hashApiKey sha256 k) = None.
Proof.
  intros (_ & _ & Hu & _). unfold findUser. destruct (filter _ _) as [|[id u] l] eqn:E; [done|].
  assert ((id, u) ∈ filter (λ kv, usEnabled kv.2 && bool_decide (usApiKeyHash kv.2 = hashApiKey sha256 k) = true)
            (range (users a))) as Hin by (rewrite E; left).
  apply list_elem_of_filter in Hin as [Hp Hin]. simpl in Hp. bool_prop.
  rewrite range_perm, elem_of_map_to_list in Hin. by destruct (Hu id u).
Qed.

Lemma onlyKey_claims k w :
  onlyKey k (aAuth w) →
  ∃ w', accessClaims (T := T) k w = (Ok None, w') ∧ tick (aSys w') ≤ tick (aSys w) + 1.
Proof.
  intros (_ & _ & _ & Ht). unfold accessClaims, mbind, M_bind, catch, onJWT.
  destruct (jwtService (aAuth w)) as [j|]; [|eexists; split; [done|simpl; lia]].
  pose proof (validate_state k (j, aSys w)) as Hs. specialize (Ht _ (timeOf (aSys w)) eq_refl).
  assert (∃ e, (ValidateToken k (j, aSys w)).1 = Err e) as [e He].
  { unfold ValidateToken, mbind, M_bind, clock, gets, lift. simpl. unfold timeOf in Ht.
    destruct (ParseWithClaims _ _ _) as [c|e]; [done|]. simpl. eauto. }
  destruct (ValidateToken k (j, aSys w)) as [r [j' s']]. simpl in *. subst r. injection Hs as -> ->.
  eexists. split; [done|]. simpl. lia.
Qed.

Section stored.
Context (k : string) (r : ApiKeyRow) (Hh : rKeyHash r = hashApiKey sha256 k) (Hact : rIsActive r = true).

(** The key is on, and nothing else answers to it. *)
Definition usable w : Prop :=
  authEnabled (aAuth w) = true ∧ apiKeyLookupFn (aAuth w) = true ∧ onlyKey k (aAuth w) ∧
  stored r (api_keys (aDB w)).

Lemma usable_same w w' : sameKeys w w' → usable w → usable w'.
Proof.
  intros Hs (He & Hl & Ho & Hst). pose proof (sameKeys_creds _ _ Hs) as Hc.
  destruct Hs as ([f Ha] & Hd & _). unfold usable. rewrite Hd. rewrite Ha in *.
  split_and!; [done|done|by eapply onlyKey_creds|done].
Qed.

Lemma ValidateApiKey_stored w :
  usable w → reachable 2 (scanApiKey r) (aSys w) →
  ValidateApiKey sha256 range k w = (Ok true, MkAuthWorld (skip 2 (aSys w)) (aDB w) (aAuth w)).
Proof.
  intros (He & Hl & Ho & Hs) Hr. unfold ValidateApiKey, mbind at 1, M_bind at 1, gets. rewrite He. simpl.
  pose proof Ho as (Hk & _). rewrite (bool_decide_eq_false_2 _ Hk), onlyKey_default, onlyKey_user by done.
  unfold mbind, M_bind. rewrite <-Hh, lookupKey_stored by done. done.
Qed.

Lemma GetUserByApiKey_stored w :
  usable w → reachable 3 (scanApiKey r) (aSys w) →
  (GetUserByApiKey sha256 range k w).1 = Ok (Some (keyUser r)).
Proof.
  intros Hu Hr. pose proof Hu as (He & Hl & Ho & Hs).
  unfold GetUserByApiKey, mbind at 1, M_bind at 1, gets at 1. rewrite He. cbn [negb].
  pose proof Ho as (Hk & _). rewrite (bool_decide_eq_false_2 _ Hk). unfold mbind at 1, M_bind at 1.
  destruct (onlyKey_claims k w Ho) as (w1 & E & Ht). pose proof (accessClaims_same k w) as S1.
  rewrite E in *. simpl in S1. destruct (usable_same _ _ S1 Hu) as (_ & Hl1 & Ho1 & Hs1).
  unfold mbind at 1, M_bind at 1, gets. rewrite onlyKey_default, onlyKey_user by done.
  unfold mbind, M_bind. rewrite <-Hh, lookupKey_stored; [done|done|done|done|].
  destruct S1 as (_ & _ & [Hor _] & Hti). eapply (reachable_later 3); [done|done| |done]. lia.
Qed.

(** A client that is not limited passes with the user of the key. *)
Lemma authMiddleware_stored ip w rq :
  usable w → reachable 6 (scanApiKey r) (aSys w) → rqClientIP rq = ip → credentialOf rq = k →
  (∀ t, limitedAt (aAuth w) ip t = false) →
  ∃ w', authMiddleware sha256 range rq w = (Ok (Next (Some (keyUser r))), w') ∧ sameKeys w w'.
Proof.
  intros Hu Hr Hip Hc Hlim. unfold authMiddleware. rewrite Hip, Hc.
  pose proof (IsRateLimited_same ip w) as S1. pose proof (IsRateLimited_tick ip w) as T1.
  pose proof (IsRateLimited_spec ip w) as L1. rewrite Hlim in L1.
  unfold mbind at 1, M_bind at 1. destruct (IsRateLimited ip w) as [r1 w1]. simpl in *. subst r1.
  pose proof (usable_same _ _ S1 Hu) as Hu1. destruct Hu1 as (He1 & Hl1 & (Hk & Ho1) & Hs1).
  unfold mbind at 1, M_bind at 1. rewrite ValidateApiKey_empty, He1. cbn [negb].
  rewrite (bool_decide_eq_false_2 _ Hk). unfold mbind at 1, M_bind at 1.
  destruct S1 as (Hf & Hd & [Hor Hos] & Hti). assert (reachable 5 (scanApiKey r) (aSys w1)) as Hr1
    by (eapply (reachable_later 6); [done|done|lia|done]).
  rewrite ValidateApiKey_stored; [|done|by apply (reachable_later 5 2 (scanApiKey r) (aSys w1)); [..|lia|]]. cbn [negb].
  unfold mbind at 1, M_bind at 1. pose proof (ClearAuthFailure_same ip (MkAuthWorld (skip 2 (aSys w1)) (aDB w1) (aAuth w1))) as S3.
  unfold ClearAuthFailure, onAuth, modify in *. cbn [fst snd aSys aDB aAuth] in *.
  set (w3 := MkAuthWorld _ _ (setFailures _ _)) in *.
  assert (sameKeys w w3) as S.
  { etrans; [|exact S3]. etrans; [exact (conj Hf (conj Hd (conj (conj Hor Hos) Hti)))|].
    split_and!; simpl; [|done..|lia]. exists (authFailures (aAuth w1)). by destruct (aAuth w1). }
  pose proof (GetUserByApiKey_stored w3 (usable_same _ _ S Hu)) as G.
  pose proof (GetUserByApiKey_same sha256 range k w3) as S4.
  unfold mbind, M_bind. destruct (GetUserByApiKey sha256 range k w3) as [r4 w4].
  simpl in *. rewrite G; [|apply (reachable_later 5 3 (scanApiKey r) (aSys w1)); [done|simpl; lia|simpl; lia|done]].
  eexists. split; [done|]. by etrans.
Qed.
End stored.

Lemma revoked_unknown k id w u :
  onlyKey k (aAuth w) → revoked id (hashApiKey sha256 k) (api_keys (aDB w)) → ¬ authentic sha256 w k u.
Proof.
  intros (Hk & Hd & Hu & Ht) Hv. destruct 1 as [j c n Hj _ Hp _| |id' u Hi|r n _ _ Hin Hh Ha].
  - specialize (Ht (secret j) (now (oracle (aSys w) n))). rewrite Hj, Hp in Ht. by specialize (Ht eq_refl).
  - done.
  - by destruct (Hu id' u).
  - by destruct (Hv r Hin Hh) as [_ ?]; congruence.
Qed.

Lemma RecordAuthFailure_ok ip w : (RecordAuthFailure (T := T) ip w).1 = Ok tt.
Proof.
  unfold RecordAuthFailure, purgeFailures, noteFailure, mbind, M_bind, gets, timeNow, onAuth, modify.
  cbv zeta. by destruct (_ <? _)%nat; simpl; case_match.
Qed.

(** Whoever presents a revoked key is refused. *)
Lemma authMiddleware_revoked k id w rq :
  authEnabled (aAuth w) = true → credentialOf rq = k → onlyKey k (aAuth w) →
  revoked id (hashApiKey sha256 k) (api_keys (aDB w)) →
  ∃ st w', authMiddleware sha256 range rq w = (Ok (Abort st), w') ∧ st ∈ [401; 429]%Z ∧ sameKeys w w'.
Proof.
  intros He Hc Ho Hv. unfold authMiddleware. rewrite Hc.
  pose proof (IsRateLimited_same (rqClientIP rq) w) as S1. pose proof (IsRateLimited_spec (rqClientIP rq) w) as L1.
  unfold mbind at 1, M_bind at 1. destruct (IsRateLimited _ w) as [r1 w1]. simpl in *. subst r1.
  destruct (limitedAt _ _ _); [exists 429%Z, w1; split_and!; [done|by right; left|done]|].
  unfold mbind at 1, M_bind at 1. rewrite ValidateApiKey_empty, (sameKeys_enabled _ _ S1), He. cbn [negb].
  pose proof Ho as (Hk & _). rewrite (bool_decide_eq_false_2 _ Hk). unfold mbind at 1, M_bind at 1.
  destruct (ValidateApiKey_runs sha256 range k w1) as (b & V1 & _).
  pose proof (ValidateApiKey_same sha256 range k w1) as S2.
  destruct (ValidateApiKey sha256 range k w1) as [r2 w2] eqn:E2. simpl in V1, S2. subst r2.
  assert (sameKeys w w2) as S by (by etrans).
  destruct b; cbn [negb].
  { exfalso. apply ValidateApiKey_sound in E2 as (_ & u & Hu); [|done|by rewrite (sameKeys_enabled _ _ S1)].
    apply (authentic_back _ w) in Hu; [|done]. by eapply revoked_unknown. }
  destruct (onlyKey_claims k w2) as (w3 & E3 & _); [by eapply onlyKey_creds; [apply sameKeys_creds|]|].
  pose proof (accessClaims_same k w2) as S3. unfold mbind at 1, M_bind at 1. rewrite E3 in *. simpl in S3.
  pose proof (RecordAuthFailure_ok (rqClientIP rq) w3) as R4.
  pose proof (RecordAuthFailure_same (rqClientIP rq) w3) as S4. unfold mbind, M_bind.
  destruct (RecordAuthFailure _ w3) as [r4 w4]. simpl in *. subst r4.
  exists 401%Z, w4. split_and!; [done|by left|]. etrans; [exact S|]. by etrans.
Qed.
End presented.

(** ** The three handlers when they succeed *)

Section handlers.
Context {Sg L St C : Type} {T : Type → Type}.
Context `{StorageAdapter Sg} `{DistributedLock L} `{SessionStore sessionValue St}.
Context `{SqlLaws T} `{AEAD} `{JWTLib} `{CacheAdapter C}.
Context (sha256 : bytes → bytes) (uuid : nat → string).
Notation HttpState := (HttpState Sg L St C T).
Implicit Types s : HttpState.

Lemma orElse_ok {A} (m : M HttpState A) err k s resp s' :
  orElse m err k s = (Ok resp, s') →
  (∃ a s1, m s = (Ok a, s1) ∧ k a s1 = (Ok resp, s')) ∨ (∃ e s1, m s = (Err e, s1) ∧ err s1 = (Ok resp, s')).
Proof.
  unfold orElse. intros E. apply bind_ok in E as (r & s1 & E1%catch_ok & E2). destruct r; eauto.
Qed.

(** A statement on the table that is answered. *)
Lemma onKeys_done msg (op : T ApiKeyRow → res unit * T ApiKeyRow) s u s1 :
  onWorld (onDB (wrapErr msg (onKeys op))) s = (Ok u, s1) →
  op (api_keys (db (hw s))) = (Ok u, api_keys (db (hw s1))) ∧ hauth s1 = hauth s.
Proof.
  unfold onWorld, onDB. destruct (wrapErr _ _ _) as [r [d s']] eqn:E. intros [= -> <-].
  apply wrapErr_ok, onKeys_ok in E. done.
Qed.

Lemma after_audit op path rq ok details st b s resp s' :
  (auditLog uuid op path rq ok details ⨟ respond st b) s = (Ok resp, s') →
  resp = Resp st b ∧ httpSame s s'.
Proof.
  intros E. apply bind_ok in E as ([] & s1 & E1 & E2). apply ret_ok in E2 as [-> ->]. split; [done|].
  pose proof (kept_auditLog uuid op path rq ok details s) as Hs. by rewrite E1 in Hs.
Qed.

Lemma create_stores rq s key plain s' :
  handleCreateApiKey sha256 uuid rq s = (Ok (Resp 201 (BKey key (Some plain))), s') →
  ∃ r, scanApiKey r = key ∧ rKeyHash r = hashApiKey sha256 plain ∧ rIsActive r = true ∧
    stored r (api_keys (db (hw s'))) ∧ sameCreds (hauth s) (hauth s').
Proof.
  unfold handleCreateApiKey. case_match; [|by intros [=]]. destruct p as [[[name desc] perms] expires].
  unfold unless. case_match; [by intros [=]|]. intros E.
  apply bind_ok in E as (id & s1 & E1 & E). injection E1 as <- <-.
  apply bind_ok in E as (k & s2 & E2 & E). injection E2 as <- <-.
  apply bind_ok in E as (now & s3 & E3 & E). injection E3 as <- <-.
  apply orElse_ok in E as [([] & s4 & E4 & E)|(e & s4 & _ & E)]; [|by apply ret_ok in E as [[=] _]].
  apply onKeys_done in E4 as [Hi Ha]. apply after_audit in E as [[= -> ->] [Hw Hc]].
  match type of Hi with INSERT ?r ?t = _ => exists r; destruct (insert_cases r t) as [(t' & Ei & Hp & Hok)|(e & Ei & _)] end;
    rewrite Ei in Hi; [|done].
  injection Hi as ->. split_and!; [|done|done| |].
  - unfold scanApiKey, toNullString. simpl. by destruct (bool_decide_reflect (expires = "")) as [->|].
  - unfold stored. rewrite Hw. split; [|done]. rewrite Hp. by left.
  - by rewrite Ha in Hc.
Qed.

Lemma withKey_ok rq k s resp s' :
  withKey rq k s = (Ok resp, s') → rstatus resp = 200%Z →
  ∃ key s1, kID key = Param "id" rq ∧ httpSame s s1 ∧ k key s1 = (Ok resp, s').
Proof.
  unfold withKey. intros E Hst. apply orElse_ok in E as [(key & s1 & E1 & E)|(e & s1 & _ & E)];
    [|by apply ret_ok in E as [-> _]].
  destruct key as [key|]; [|by apply ret_ok in E as [-> _]]. exists key, s1.
  pose proof (kept_KeyGetById (Param "id" rq) s) as Hs. rewrite E1 in Hs. split_and!; [|done|done].
  unfold onWorld, onDB in E1. destruct (KeyGetById _ _) as [r' [d s2]] eqn:Eg. injection E1 as -> _.
  by eapply KeyGetById_id.
Qed.

Lemma stored_hash r t r' : stored (T := T) r t → r' ∈ rows t → rKeyHash r' = rKeyHash r → r' = r.
Proof.
  intros [Hin Hc] Hr' Hh. unfold constraintsOk in Hc. simpl in Hc.
  apply Forall_cons in Hc as [_ Hc]. apply Forall_cons in Hc as [Hd _]. by apply (NoDup_key rKeyHash _ r' r Hd).
Qed.

Lemma delete_revokes r rq s resp s' :
  stored r (api_keys (db (hw s))) → Param "id" rq = rID r →
  handleDeleteApiKey uuid rq s = (Ok resp, s') → rstatus resp = 200%Z →
  revoked (rID r) (rKeyHash r) (api_keys (db (hw s'))) ∧ sameCreds (hauth s) (hauth s').
Proof.
  intros Hs Hid E Hst. unfold handleDeleteApiKey, unless in E.
  case_match; [by apply ret_ok in E as [-> _]|].
  apply withKey_ok in E as (key & s1 & Hk & [Hw1 Hc1] & E); [|done].
  apply orElse_ok in E as [([] & s2 & E2 & E)|(e & s2 & _ & E)]; [|by apply ret_ok in E as [-> _]].
  apply onKeys_done in E2 as [Hd Ha]. apply after_audit in E as [-> [Hw Hc]]. split.
  - rewrite Hw. rewrite Hw1 in Hd.
    destruct (delete_ok (λ r, bool_decide (rID r = Param "id" rq)) (api_keys (db (hw s)))) as (t' & Ed & Hp).
    rewrite Ed in Hd. injection Hd as ->. intros r'. rewrite Hp, list_elem_of_filter.
    intros [Hn Hin] Hh. pose proof (stored_hash _ _ _ Hs Hin Hh) as ->. rewrite Hid in Hn. by bool_prop.
  - etrans; [exact Hc1|]. by rewrite <-Ha.
Qed.

Lemma update_revokes r j n d rq s resp s' :
  stored r (api_keys (db (hw s))) → Param "id" rq = rID r →
  rqJSON rq = Some j → bindPtr asStr "name" j = Some n → bindPtr asStr "description" j = Some d →
  bindPtr asBool "is_active" j = Some (Some false) →
  handleUpdateApiKey uuid rq s = (Ok resp, s') → rstatus resp = 200%Z →
  revoked (rID r) (rKeyHash r) (api_keys (db (hw s'))) ∧ sameCreds (hauth s) (hauth s').
Proof.
  intros Hs Hid Hj Hn Hd Hact E Hst. unfold handleUpdateApiKey, unless in E.
  case_match; [by apply ret_ok in E as [-> _]|]. rewrite Hj in E. simpl in E. rewrite Hn, Hd, Hact in E. simpl in E.
  apply withKey_ok in E as (key & s1 & Hk & [Hw1 Hc1] & E); [|done].
  apply orElse_ok in E as [([] & s2 & E2 & E)|(e & s2 & _ & E)]; [|by apply ret_ok in E as [-> _]].
  apply onKeys_done in E2 as [Hu Ha]. apply after_audit in E as [-> [Hw Hc]]. split.
  - rewrite Hw. rewrite Hw1 in Hu. cbn [kID kIsActive] in Hu.
    match type of Hu with UPDATE ?p ?f ?t = _ => destruct (update_cases p f t) as [(t' & Eu & Hp & _)|(e & Eu & _)] end;
      rewrite Eu in Hu; [|done].
    injection Hu as ->. intros r'. rewrite Hp, elem_of_updateRows.
    intros (r1 & Hin & ->). rewrite Hk, Hid. destruct (bool_decide_reflect (rID r1 = rID r)) as [Hr1|Hr1]; simpl.
    + done.
    + intros Hh. by rewrite (stored_hash _ _ _ Hs Hin Hh) in Hr1.
  - etrans; [exact Hc1|]. by rewrite <-Ha.
Qed.
End handlers.

(** ** From the creation to the removal *)

Section life.
Context {Sg L St C : Type} {T : Type → Type}.
Context `{StorageAdapter Sg} `{DistributedLock L} `{SessionStore sessionValue St}.
Context `{SqlLaws T} `{AEAD} `{JWTLib} `{CacheAdapter C}.
Context (sha256 : bytes → bytes) (srv : HttpServer).
Context (range : gmap string User → list (string * User)).
Hypothesis range_perm : ∀ m, range m ≡ₚ map_to_list m.
Context (find : router) (metricsPage : body).
Notation HttpState := (HttpState Sg L St C T).
Notation keeping := (keepsKeys (Sg := Sg) (L := L) (St := St) (C := C) (T := T)).
Notation Serve uuid := (ServeHTTP sha256 uuid srv range find metricsPage).
Implicit Types s : HttpState.

(** The engine hands the request to the route [rt]. *)
Definition reaches (inFlight : nat) (path : string) (rq : Req) (rt : routeEntry) (ps : list (string * string)) : Prop :=
  (corsMiddleware srv rq).2 = false ∧ (concurrencyMiddleware srv inFlight Arrive).2 = None ∧
  find setupRoutes (rqMethod rq) path = Some (rt, ps).

Lemma requestID_ok uuid rq s : ∃ id, (requestIDMiddleware uuid rq s).1 = Ok id.
Proof. unfold requestIDMiddleware. case_match; eexists; reflexivity. Qed.

Lemma ServeHTTP_reaches uuid inFlight path rq rt ps s :
  reaches inFlight path rq rt ps →
  ∃ s1, sameState s s1 ∧ (tick (sys (hw s1)) ≤ S (tick (sys (hw s))) ∧ hauth s1 = hauth s) ∧
    Serve uuid inFlight path rq s =
    guarded sha256 range (rtGuard rt) rq
      (λ user, handlerOf sha256 uuid srv metricsPage (rtHandler rt) user (withParams ps rq)) s1.
Proof.
  intros (Hc & Hb & Hf). unfold ServeHTTP, mbind at 1, M_bind at 1.
  destruct (requestID_ok uuid rq s) as [id Hid]. destruct (requestIDMiddleware uuid rq s) as [r s1] eqn:E.
  simpl in Hid. subst r. exists s1. rewrite Hc, Hb, Hf. split; [by eapply requestID_same|]. split; [|done].
  unfold requestIDMiddleware in E. case_match; [|injection E as _ <-; split; [lia|done]].
  unfold onWorld, GenerateUUID, onOS in E. injection E as _ <-. simpl. split; [lia|done].
Qed.

Lemma sameState_http s s' : sameState s s' → httpSame s s'.
Proof.
  intros (_ & _ & Hd & _ & _ & _ & _ & _ & _ & Hk). split; [unfold worldSame; by rewrite Hd|].
  by apply sameKeys_creds in Hk.
Qed.

(** A request keeps what its handler keeps. *)
Lemma serve_keeps uuid P inFlight path rq :
  (∀ t a a', sameCreds a a' → P t a → P t a') →
  (∀ rt ps user, find setupRoutes (rqMethod rq) path = Some (rt, ps) →
     steps (keeping P) (handlerOf sha256 uuid srv metricsPage (rtHandler rt) user (withParams ps rq))) →
  steps (keeping P) (Serve uuid inFlight path rq).
Proof.
  intros HP Hh. assert (∀ s s', sameState s s' → keeping P s s') as Hsame.
  { intros s s' [Hw Hc]%sameState_http. unfold keepsKeys. rewrite Hw. by apply HP. }
  unfold ServeHTTP. apply steps_bind; [apply keeps_preorder| |intros _].
  { intros s. destruct (requestIDMiddleware uuid rq s) as [r s1] eqn:E. by eapply Hsame, requestID_same. }
  assert (∀ st b, steps (keeping P) (respond st b)) as Hr by (intros st b s; by unfold keepsKeys).
  destruct (corsMiddleware srv rq).2; [apply Hr|].
  destruct (concurrencyMiddleware srv inFlight Arrive).2; [apply Hr|].
  destruct (find setupRoutes (rqMethod rq) path) as [[rt ps]|]; [|apply Hr].
  unfold guarded. assert (∀ g, steps (keeping P) (onAuthSvc (route sha256 range (guardCheck sha256 range g) (authRequest rq)))) as Hg.
  { intros g s. destruct (onAuthSvc _ s) as [r s1] eqn:E. apply onAuthSvc_state in E as [Hs _]; [|apply route_same].
    by apply Hsame. }
  destruct (rtGuard rt); [by apply Hh| | |].
  all: apply steps_bind; [apply keeps_preorder|apply Hg|]; intros [user|st]; [by apply Hh|apply Hr].
Qed.

(** A sequence of requests whose handlers are all [ok]. *)
Definition requests (uuid : nat → string) (ok : handlerName → Req → Prop) : HttpState → HttpState → Prop :=
  rtc (λ s s', ∃ inFlight path rq,
    (∀ rt ps, find setupRoutes (rqMethod rq) path = Some (rt, ps) → ok (rtHandler rt) (withParams ps rq)) ∧
    s' = (Serve uuid inFlight path rq s).2).

(** The request does not update the key, or does not change it at all. *)
Definition noUpdate (id : string) (h : handlerName) (rq : Req) : Prop :=
  h = HUpdateApiKey → Param "id" rq ≠ id.
Definition spares (id : string) (h : handlerName) (rq : Req) : Prop :=
  h = HUpdateApiKey ∨ h = HDeleteApiKey → Param "id" rq ≠ id.

(** The removal of a key, or its deactivation. *)
Definition revokes (h : handlerName) (rq : Req) : Prop :=
  h = HDeleteApiKey ∨
  h = HUpdateApiKey ∧ ∃ j n d, rqJSON rq = Some j ∧ bindPtr asStr "name" j = Some n ∧
    bindPtr asStr "description" j = Some d ∧ bindPtr asBool "is_active" j = Some (Some false).

(** The role passes the guard. *)
Definition passes (g : guardOf) (role : string) : bool :=
  match g with
  | Public | AuthOnly => true
  | Permission resource action => roleAllows role resource action
  | Admin => bool_decide (role = "admin")
  end.

(** What does not change: authentication is on, and the key is nothing but a key. *)
Definition settled (k : string) (a : AuthService) : Prop :=
  authEnabled a = true ∧ apiKeyLookupFn a = true ∧ onlyKey sha256 k a.

Lemma settled_creds k a a' : sameCreds a a' → settled k a → settled k a'.
Proof.
  intros Hc (He & Hl & Ho). pose proof Hc as (_ & E1 & _ & E2 & _).
  split_and!; [congruence|congruence|by eapply onlyKey_creds].
Qed.

Lemma with_settled (Q : T ApiKeyRow → Prop) k t a a' :
  sameCreds a a' → Q t ∧ settled k a → Q t ∧ settled k a'.
Proof. intros Hc [? ?]. split; [done|by eapply settled_creds]. Qed.

Lemma requests_keep uuid ok (P : T ApiKeyRow → AuthService → Prop) s s' :
  (∀ t a a', sameCreds a a' → P t a → P t a') →
  (∀ h user rq, ok h rq → steps (keeping P) (handlerOf sha256 uuid srv metricsPage h user rq)) →
  requests uuid ok s s' → keeping P s s'.
Proof.
  intros HP Hh. induction 1 as [s|s1 s2 s3 (fl & path & rq & Hok & ->) _ IH]; [by unfold keepsKeys|].
  eapply keeps_preorder; [|exact IH]. apply (serve_keeps uuid P); [done|].
  intros rt ps user Hf. by apply Hh, Hok.
Qed.

Lemma stored_kept uuid k r s s' :
  requests uuid (spares (rID r)) s s' →
  keeping (λ t a, stored r t ∧ settled k a) s s'.
Proof.
  apply requests_keep; [apply with_settled|].
  intros h user rq Hok. destruct (managesKeys h) eqn:Em.
  - destruct h; try done; simpl.
    + apply create_keeps; [apply with_settled|].
      intros r' t a id n _ [? ?]. split; [by apply stored_insert|done].
    + apply update_keeps; [apply with_settled|].
      intros p f t a Hp _ [? ?]. split; [|done]. apply stored_update; [|done].
      rewrite Hp. apply bool_decide_eq_false. intros Heq. by apply Hok; [left|].
    + apply delete_keeps; [apply with_settled|].
      intros t a [? ?]. split; [|done]. apply stored_delete; [|done].
      apply bool_decide_eq_false. intros Heq. by apply Hok; [right|].
  - apply keeps_same; [apply with_settled|]. by apply kept_handler.
Qed.

Lemma revoked_kept uuid k id s s' :
  (∀ i n, hashApiKey sha256 (plainKeyOf sha256 uuid i n) ≠ hashApiKey sha256 k) →
  requests uuid (noUpdate id) s s' →
  keeping (λ t a, revoked id (hashApiKey sha256 k) t ∧ settled k a) s s'.
Proof.
  intros Hfresh. apply requests_keep; [apply with_settled|].
  intros h user rq Hok. destruct (managesKeys h) eqn:Em.
  - destruct h; try done; simpl.
    + apply create_keeps; [apply with_settled|].
      intros r' t a i n Hr [? ?]. split; [|done]. apply revoked_insert; [|done]. by rewrite Hr.
    + apply update_keeps; [apply with_settled|].
      intros p f t a Hp Hf [? ?]. split; [|done]. apply revoked_update; [|apply Hf|done].
      intros r Hr. rewrite Hp, Hr. apply bool_decide_eq_false. intros Heq. by apply Hok.
    + apply delete_keeps; [apply with_settled|].
      intros t a [? ?]. split; [by apply revoked_delete|done].
  - apply keeps_same; [apply with_settled|]. by apply kept_handler.
Qed.

(** The credential of a request with this header. *)
Lemma credential_header k rq : GetHeader "X-API-Key" rq = k → k ≠ "" → credentialOf (authRequest rq) = k.
Proof. intros Hh Hk. unfold credentialOf, authRequest. simpl. rewrite Hh. by rewrite (bool_decide_eq_false_2 _ Hk). Qed.

Lemma guardCheck_spec g u w :
  g ≠ Public → authEnabled (aAuth w) = true →
  guardCheck sha256 range g (Some u) w = (Ok (if passes g (usRole u) then Next (Some u) else Abort 403), w).
Proof.
  intros Hg He. destruct g; [done|done|by apply requirePermission_spec|].
  simpl. unfold requireAdmin, mbind, M_bind. rewrite ValidateApiKey_empty, He. simpl. by case_bool_decide.
Qed.

Lemma guarded_run g rq k s v w :
  g ≠ Public → route sha256 range (guardCheck sha256 range g) (authRequest rq) (httpView s) = (Ok v, w) →
  ∃ s1, sameState s s1 ∧ httpView s1 = w ∧
    guarded sha256 range g rq k s =
    match v with Next user => k user s1 | Abort st => (Ok (Resp st (BError (refusalText st))), s1) end.
Proof.
  intros Hg E. destruct (onAuthSvc (route sha256 range (guardCheck sha256 range g) (authRequest rq)) s) as [r s1] eqn:E1.
  pose proof E1 as E2. apply onAuthSvc_state in E2 as [Hs E2]; [|apply route_same].
  rewrite E in E2. injection E2 as <- ->. exists s1. split; [done|]. split; [done|].
  unfold guarded. destruct g; [done|..]; unfold mbind, M_bind; rewrite E1; by destruct v.
Qed.

Lemma guarded_stored g k r rq kont s :
  g ≠ Public → rKeyHash r = hashApiKey sha256 k → rIsActive r = true →
  GetHeader "X-API-Key" rq = k → stored r (api_keys (db (hw s))) → settled k (hauth s) →
  (∀ t, limitedAt (hauth s) (rqIP rq) t = false) → reachable 6 (scanApiKey r) (sys (hw s)) →
  ∃ s1, sameState s s1 ∧
    guarded sha256 range g rq kont s =
    if passes g (roleOf (rPermissions r)) then kont (Some (keyUser r)) s1
    else (Ok (Resp 403 (BError "Permission denied")), s1).
Proof.
  intros Hg Hh Ha Hk Hs (He & Hl & Ho) Hlim Hr.
  destruct (authMiddleware_stored sha256 range range_perm k r Hh Ha (rqIP rq) (httpView s) (authRequest rq))
    as (w & E & S); [done|done|done|by apply credential_header; [|apply Ho]|done|].
  destruct (guarded_run g rq kont s (if passes g (roleOf (rPermissions r)) then Next (Some (keyUser r)) else Abort 403) w)
    as (s1 & Hs1 & _ & ->); [done| |exists s1; split; [done|by destruct (passes _ _)]].
  unfold route, mbind, M_bind. rewrite E. apply guardCheck_spec; [done|]. by rewrite (sameKeys_enabled _ _ S).
Qed.

Lemma guarded_revoked g k id rq kont s :
  g ≠ Public → GetHeader "X-API-Key" rq = k → settled k (hauth s) →
  revoked id (hashApiKey sha256 k) (api_keys (db (hw s))) →
  ∃ st s1, sameState s s1 ∧ st ∈ [401; 429]%Z ∧
    guarded sha256 range g rq kont s = (Ok (Resp st (BError (refusalText st))), s1).
Proof.
  intros Hg Hk (He & Hl & Ho) Hv.
  destruct (authMiddleware_revoked sha256 range range_perm k id (httpView s) (authRequest rq))
    as (st & w & E & Hst & _); [done|by apply credential_header; [|apply Ho]|done|done|].
  destruct (guarded_run g rq kont s (Abort st) w) as (s1 & Hs1 & _ & ->); [done| |eauto].
  unfold route, mbind, M_bind. by rewrite E.
Qed.

(** The answer of a handler behind a route: the handler ran. *)
Lemma answered uuid fl path rq rt ps s resp s' :
  authEnabled (hauth s) = true → reaches fl path rq rt ps → ¬ refusal (rstatus resp) →
  Serve uuid fl path rq s = (Ok resp, s') →
  ∃ user s1, sameState s s1 ∧
    handlerOf sha256 uuid srv metricsPage (rtHandler rt) user (withParams ps rq) s1 = (Ok resp, s').
Proof.
  intros He Hre Hn E. destruct (ServeHTTP_reaches uuid fl path rq rt ps s Hre) as (s1 & Hs & _ & E').
  rewrite E' in E. apply guarded_cases in E as [[? _]|(u & s2 & Hs2 & _ & E)]; [done| |done|].
  - exists u, s2. split; [by etrans|done].
  - destruct (sameState_http _ _ Hs) as [_ (_ & -> & _)]. done.
Qed.

Lemma created uuid fl path rq rt ps key plain s s' :
  settled plain (hauth s) → reaches fl path rq rt ps → rtHandler rt = HCreateApiKey →
  Serve uuid fl path rq s = (Ok (Resp 201 (BKey key (Some plain))), s') →
  ∃ r, scanApiKey r = key ∧ rKeyHash r = hashApiKey sha256 plain ∧ rIsActive r = true ∧
    stored r (api_keys (db (hw s'))) ∧ settled plain (hauth s').
Proof.
  intros Hset Hre Hrt E. eapply answered in E as (u & s1 & Hs & Eh); [|apply Hset|exact Hre|].
  2: { simpl. unfold refusal. rewrite !elem_of_cons, elem_of_nil. lia. }
  rewrite Hrt in Eh. apply create_stores in Eh as (r & Hk & Hh & Ha & Hst & Hc). exists r.
  split_and!; [done|done|done|done|]. destruct (sameState_http _ _ Hs) as [_ Hc1].
  eapply settled_creds; [exact Hc|]. by eapply settled_creds.
Qed.

Lemma revoked_at uuid fl path rq rt ps k r resp s s' :
  stored r (api_keys (db (hw s))) → settled k (hauth s) →
  reaches fl path rq rt ps → revokes (rtHandler rt) rq → Param "id" (withParams ps rq) = rID r →
  Serve uuid fl path rq s = (Ok resp, s') → rstatus resp = 200%Z →
  revoked (rID r) (rKeyHash r) (api_keys (db (hw s'))) ∧ settled k (hauth s').
Proof.
  intros Hst Hset Hre Hrev Hid E Hok. eapply answered in E as (u & s1 & Hs & Eh); [|apply Hset|exact Hre|].
  2: { rewrite Hok. unfold refusal. rewrite !elem_of_cons, elem_of_nil. lia. }
  destruct (sameState_http _ _ Hs) as [Hw Hc1]. rewrite <-Hw in Hst.
  assert (revoked (rID r) (rKeyHash r) (api_keys (db (hw s'))) ∧ sameCreds (hauth s1) (hauth s')) as [Hv Hc].
  { destruct Hrev as [Hrt|(Hrt & j & n & d & Hj & Hn & Hd & Hf)]; rewrite Hrt in Eh.
    - by eapply delete_revokes.
    - by eapply update_revokes. }
  split; [done|]. eapply settled_creds; [exact Hc|]. by eapply settled_creds.
Qed.
End life.

(** C16: a key works from its creation on. A key that the server answers with 201 grants
    what its permissions allow, whatever other requests come in between, as long as none
    of them updates or deletes it, it has not expired, the database answers and the
    client is not limited: a request with the key in X-API-Key passes exactly the guards
    that the role of its permissions passes, and the handler sees the user of the key; at
    the others it is answered 403. (The key must not be a token, the configured key or
    the key of a user by chance.) *)
Theorem created_key_works {Sg L St C T} `{StorageAdapter Sg} `{DistributedLock L}
    `{SessionStore sessionValue St} `{SqlLaws T} `{AEAD} `{JWTLib} `{CacheAdapter C}
    (sha256 : bytes → bytes) (uuid : nat → string) (srv : HttpServer)
    (range : gmap string User → list (string * User)) (find : router) (metricsPage : body)
    (fl : nat) (path : string) (rq : Req) (rt : routeEntry) (ps : list (string * string))
    (key : ApiKey) (plain : string) (s0 s1 s2 : HttpState Sg L St C T) :
  (∀ m, range m ≡ₚ map_to_list m) →
  settled sha256 plain (hauth s0) →
  reaches srv find fl path rq rt ps → rtHandler rt = HCreateApiKey →
  ServeHTTP sha256 uuid srv range find metricsPage fl path rq s0
    = (Ok (Resp 201 (BKey key (Some plain))), s1) →
  requests sha256 srv range find metricsPage uuid (spares (kID key)) s1 s2 →
  ∀ fl' path' rq' rt' ps',
    reaches srv find fl' path' rq' rt' ps' → rtGuard rt' ≠ Public →
    GetHeader "X-API-Key" rq' = plain →
    (∀ t, limitedAt (hauth s2) (rqIP rq') t = false) → reachable 7 key (sys (hw s2)) →
    ∃ s3, sameState s2 s3 ∧
      ServeHTTP sha256 uuid srv range find metricsPage fl' path' rq' s2 =
      if passes (rtGuard rt') (roleOf (kPermissions key))
      then handlerOf sha256 uuid srv metricsPage (rtHandler rt')
             (Some (MkUser (kID key) "" (kName key) (roleOf (kPermissions key)) true))
             (withParams ps' rq') s3
      else (Ok (Resp 403 (BError "Permission denied")), s3).
Proof.
  intros Hrange Hset Hre Hrt Hc Hreq fl' path' rq' rt' ps' Hre' Hg Hk Hlim Hr.
  destruct (created sha256 srv range Hrange find metricsPage uuid fl path rq rt ps key plain s0 s1)
    as (r & <- & Hh & Ha & Hst & Hset1); [done..|].
  destruct (stored_kept sha256 srv range find metricsPage uuid plain r s1 s2 Hreq) as [Hst2 Hset2]; [done|].
  destruct (ServeHTTP_reaches sha256 srv range find metricsPage uuid fl' path' rq' rt' ps' s2)
    as (s2' & Hs & [Ht Hau] & ->); [done|].
  pose proof (sameState_http _ _ Hs) as [Hw _]. pose proof Hs as (_&_&_&_&_&_&_&_&_&(_&_&[Hor _]&Hti)).
  destruct (guarded_stored sha256 range Hrange (rtGuard rt') plain r rq'
    (λ user, handlerOf sha256 uuid srv metricsPage (rtHandler rt') user (withParams ps' rq')) s2')
    as (s3 & Hs3 & ->); [done..| | | | |].
  - by rewrite Hw.
  - by rewrite Hau.
  - by rewrite Hau.
  - eapply (reachable_later 7); [done|done| |done]. simpl in *. lia.
  - exists s3. split; [by etrans|done].
Qed.

(** C17: a revoked key is refused. Once the server has answered the removal of a key, or
    its deactivation, with 200, every request with that key at a guarded route is answered
    401 or 429 and changes nothing but the clock and the count of failures, whatever other
    requests come in between, as long as none of them updates that key again and no key
    that is created later has the same hash. *)
Theorem revoked_key_refused {Sg L St C T} `{StorageAdapter Sg} `{DistributedLock L}
    `{SessionStore sessionValue St} `{SqlLaws T} `{AEAD} `{JWTLib} `{CacheAdapter C}
    (sha256 : bytes → bytes) (uuid uuid' : nat → string) (srv : HttpServer)
    (range : gmap string User → list (string * User)) (find : router) (metricsPage : body)
    (fl fl1 : nat) (path path1 : string) (rq rq1 : Req) (rt rt1 : routeEntry)
    (ps ps1 : list (string * string)) (key : ApiKey) (plain : string) (resp : response)
    (s0 s1 s2 s3 s4 : HttpState Sg L St C T) :
  (∀ m, range m ≡ₚ map_to_list m) →
  settled sha256 plain (hauth s0) →
  reaches srv find fl path rq rt ps → rtHandler rt = HCreateApiKey →
  ServeHTTP sha256 uuid srv range find metricsPage fl path rq s0
    = (Ok (Resp 201 (BKey key (Some plain))), s1) →
  requests sha256 srv range find metricsPage uuid (spares (kID key)) s1 s2 →
  reaches srv find fl1 path1 rq1 rt1 ps1 → revokes (rtHandler rt1) rq1 →
  Param "id" (withParams ps1 rq1) = kID key →
  ServeHTTP sha256 uuid srv range find metricsPage fl1 path1 rq1 s2 = (Ok resp, s3) →
  rstatus resp = 200%Z →
  (∀ id n, hashApiKey sha256 (plainKeyOf sha256 uuid' id n) ≠ kKeyHash key) →
  requests sha256 srv range find metricsPage uuid' (noUpdate (kID key)) s3 s4 →
  ∀ fl' path' rq' rt' ps',
    reaches srv find fl' path' rq' rt' ps' → rtGuard rt' ≠ Public →
    GetHeader "X-API-Key" rq' = plain →
    ∃ st s5, sameState s4 s5 ∧ st ∈ [401; 429]%Z ∧
      ServeHTTP sha256 uuid' srv range find metricsPage fl' path' rq' s4 =
      (Ok (Resp st (BError (refusalText st))), s5).
Proof.
  intros Hrange Hset Hre Hrt Hc Hreq Hre1 Hrev Hid E Hst Hfresh Hreq4 fl' path' rq' rt' ps' Hre' Hg Hk.
  destruct (created sha256 srv range Hrange find metricsPage uuid fl path rq rt ps key plain s0 s1)
    as (r & <- & Hh & Ha & Hst1 & Hset1); [done..|].
  destruct (stored_kept sha256 srv range find metricsPage uuid plain r s1 s2 Hreq) as [Hst2 Hset2]; [done|].
  destruct (revoked_at sha256 srv range Hrange find metricsPage uuid fl1 path1 rq1 rt1 ps1 plain r resp s2 s3)
    as [Hv3 Hset3]; [done..|].
  simpl in Hfresh. rewrite Hh in Hfresh, Hv3.
  destruct (revoked_kept sha256 srv range find metricsPage uuid' plain (rID r) s3 s4 Hfresh Hreq4)
    as [Hv4 Hset4]; [done|].
  destruct (ServeHTTP_reaches sha256 srv range find metricsPage uuid' fl' path' rq' rt' ps' s4)
    as (s4' & Hs & [_ Hau] & ->); [done|].
  pose proof (sameState_http _ _ Hs) as [Hw _].
  destruct (guarded_revoked sha256 range Hrange (rtGuard rt') plain (rID r) rq'
    (λ user, handlerOf sha256 uuid' srv metricsPage (rtHandler rt') user (withParams ps' rq')) s4')
    as (st & s5 & Hs5 & Hin & ->); [done|done|by rewrite Hau|by rewrite Hw|].
  exists st, s5. split; [by etrans|done].
Qed.

(** ** A concrete life *)

#[local] Existing Instance noCache.
Definition keyUuid (n : nat) : string := "u" +:+ pretty n.
Definition keyServer : HttpState _ _ _ unit list :=
  MkHttpState (hfm demoHttp) (hw demoHttp)
    (SetApiKeyLookup (Auth.Init demoSHA true "secret" NewAuthService)) (haudit demoHttp) None.
Definition keyRequest (method key : string) (json : option (list (string * jsonValue))) : Req :=
  MkReq method [] [] [("X-API-Key", key)] [] [] json "10.0.0.1".
Notation keyServe uuid := (ServeHTTP demoSHA uuid demoServer map_to_list demoRouter (BMessage "") 0).

(** An administrator makes a key, and deletes it. *)
Definition newKeyRequest : Req :=
  keyRequest "POST" "secret" (Some [("name", JStr "ci"); ("permissions", JStr "user")]).
Definition keyMade := keyServe keyUuid "/api/v1/api-keys" newKeyRequest keyServer.
Definition keyDropped := keyServe keyUuid "/api/v1/api-keys/u2" (keyRequest "DELETE" "secret" None) keyMade.2.
Definition madeKey : ApiKey :=
  MkKey "u2" "3735333237353333" "ci" "" "user" "1970-01-01T00:00:00Z" "" "" true.

Lemma keyMade_answer : keyMade.1 = Ok (Resp 201 (BKey madeKey (Some "75327533"))).
Proof. vm_compute. reflexivity. Qed.

Lemma keyServer_settled : settled demoSHA "75327533" (hauth keyServer).
Proof.
  do 2 (split; [done|]). split; [done|]. split; [vm_compute; discriminate|]. split; [done|].
  assert (decode (A := string * Claims) (ToyJWT.ofBits (sdrop 1 "75327533")) = None) as Hd
    by (vm_compute; reflexivity).
  intros sec t _. change (is_ok (match decode (A := string * Claims) (ToyJWT.ofBits (sdrop 1 "75327533")) with
    | Some (k', c) => if bool_decide (k' = sec) && datesValid t c then Ok c else Err (ErrMsg "token is invalid")
    | None => Err (ErrMsg "token is malformed") end) = false). by rewrite Hd.
Qed.

Definition demoRoute (method path : string) : routeEntry * list (string * string) :=
  default (MkRoute "" "" Public HHealth, []) (demoRouter setupRoutes method path).

Lemma demo_reaches method path key json :
  bool_decide (method = "OPTIONS") = false → bool_decide (is_Some (demoRouter setupRoutes method path)) = true →
  reaches demoServer demoRouter 0 path (keyRequest method key json)
    (demoRoute method path).1 (demoRoute method path).2.
Proof.
  intros Hm Hf. split; [exact Hm|]. split; [done|]. unfold demoRoute. cbn [rqMethod keyRequest].
  destruct (demoRouter setupRoutes method path) as [[rt ps]|]; done.
Qed.

Lemma EncodeToString_len bs : slen (EncodeToString bs) = 2 * length bs.
Proof. induction bs as [|b bs IH]; [done|]. cbn [EncodeToString]. rewrite slen_append, IH. simpl. lia. Qed.

Lemma stringBytes_len s : length (stringBytes s) = slen s.
Proof. unfold stringBytes. rewrite length_fmap. induction s as [|c s IH]; simpl; congruence. Qed.

Lemma later_keys_differ id n :
  hashApiKey demoSHA (plainKeyOf demoSHA (λ _, "later") id n) ≠ kKeyHash madeKey.
Proof.
  intros Heq. apply (f_equal slen) in Heq. unfold hashApiKey, plainKeyOf, demoSHA in Heq.
  rewrite EncodeToString_len, stringBytes_len, EncodeToString_len, stringBytes_len, slen_append in Heq.
  simpl in Heq. lia.
Qed.

(** The key reads files and does not list the keys; after its removal it is refused. *)
Lemma created_key_works_witness :
  (∃ s3, keyServe keyUuid "/api/v1/files" (keyRequest "GET" "75327533" None) keyMade.2 =
     handlerOf demoSHA keyUuid demoServer (BMessage "") HList
       (Some (MkUser "u2" "" "ci" "user" true)) (withParams [] (keyRequest "GET" "75327533" None)) s3) ∧
  ∃ s3, keyServe keyUuid "/api/v1/api-keys" (keyRequest "GET" "75327533" None) keyMade.2 =
     (Ok (Resp 403 (BError "Permission denied")), s3).
Proof.
  pose proof (λ path (Hp : bool_decide (is_Some (demoRouter setupRoutes "GET" path)) = true)
      (Hg : rtGuard (demoRoute "GET" path).1 ≠ Public), created_key_works demoSHA keyUuid demoServer map_to_list demoRouter (BMessage "") 0
      "/api/v1/api-keys" newKeyRequest _ _ madeKey "75327533" keyServer keyMade.2 keyMade.2
      ltac:(intros m; reflexivity) keyServer_settled
      (demo_reaches "POST" "/api/v1/api-keys" "secret" _ eq_refl eq_refl) ltac:(vm_compute; reflexivity)
      (outcome _ _ keyMade_answer) (rtc_refl _ _) 0 path (keyRequest "GET" "75327533" None) _ _
      (demo_reaches "GET" path "75327533" None eq_refl Hp) Hg eq_refl
      ltac:(intros t; vm_compute; reflexivity)
      ltac:(intros m Hm; split; reflexivity)) as Hw.
  split.
  - destruct (Hw "/api/v1/files") as (s3 & _ & E); [vm_compute; reflexivity|vm_compute; discriminate|].
    exists s3. exact E.
  - destruct (Hw "/api/v1/api-keys") as (s3 & _ & E); [vm_compute; reflexivity|vm_compute; discriminate|].
    exists s3. exact E.
Defined.

Lemma revoked_key_refused_witness :
  ∃ st s5, st ∈ [401; 429]%Z ∧
    keyServe (λ _, "later") "/api/v1/files" (keyRequest "GET" "75327533" None) keyDropped.2 =
    (Ok (Resp st (BError (refusalText st))), s5).
Proof.
  destruct (revoked_key_refused demoSHA keyUuid (λ _, "later") demoServer map_to_list demoRouter (BMessage "") 0 0
    "/api/v1/api-keys" "/api/v1/api-keys/u2" newKeyRequest (keyRequest "DELETE" "secret" None) _ _ _ _
    madeKey "75327533" (Resp 200 (BMessage "API key deleted successfully")) keyServer keyMade.2 keyMade.2
    keyDropped.2 keyDropped.2
    ltac:(intros m; reflexivity) keyServer_settled
    (demo_reaches "POST" "/api/v1/api-keys" "secret" _ eq_refl eq_refl) ltac:(vm_compute; reflexivity)
    (outcome _ _ keyMade_answer) (rtc_refl _ _)
    (demo_reaches "DELETE" "/api/v1/api-keys/u2" "secret" None eq_refl eq_refl)
    ltac:(left; vm_compute; reflexivity) ltac:(vm_compute; reflexivity)
    (outcome _ _ ltac:(vm_compute; reflexivity)) eq_refl later_keys_differ (rtc_refl _ _)
    0 "/api/v1/files" (keyRequest "GET" "75327533" None) _ _
    (demo_reaches "GET" "/api/v1/files" "75327533" None eq_refl eq_refl)
    ltac:(vm_compute; discriminate) eq_refl) as (st & s5 & _ & Hst & E).
  exists st, s5. split; [exact Hst|exact E].
Defined.

(** The time of expiry of a request is not checked: one that is not in the format of the
    comparison is accepted, and such a key may never expire. *)
Lemma expiry_unchecked :
  (∃ key plain, (keyServe keyUuid "/api/v1/api-keys"
     (keyRequest "POST" "secret" (Some [("name", JStr "ci"); ("expires_at", JStr "31/12/2020")])) keyServer).1 =
     Ok (Resp 201 (BKey key (Some plain))) ∧ kExpiresAt key = "31/12/2020" ∧
     IsExpired "2026-01-01T00:00:00Z" key = false ∧ IsExpired "2999-12-31T23:59:59Z" key = false).
Proof. eexists _, _. split; [vm_compute; reflexivity|]. vm_compute. done. Qed.
