(* ===== verification/HttpSessions.v ===== *)
(** * Uploads through sessions over HTTP

    The requests of one upload one after the other: POST uploads, PUT chunk for every
    piece, POST complete; and what the download of the path answers afterwards. *)

From S2P Require Export HttpFiles SessionFrame ApiKeys.

Local Open Scope go_scope.

(** The data and the offset that a chunk request carries. *)
Definition chunkSent (rq : Req) : bytes * Z :=
  (match FormFileOf "data" rq with Some f => rdata (ffReader f) | None => [] end,
   (ParseInt (PostForm "offset" rq)).1).

Section sessions.
Context {Sg L St C : Type} {T : Type → Type}.
Context `{StorageLaws Sg} `{DistributedLock L} `{SessionStore sessionValue St}.
Context `{SqlLaws T} `{AEADLaws} `{JWTLib} `{CacheAdapter C}.
Context (sha256 : bytes → bytes) (uuid : nat → string) (srv : HttpServer).
Notation World := (World Sg L St T).
Notation HttpState := (HttpState Sg L St C T).
Notation HM := (M HttpState).
Implicit Types s : HttpState.

(** Several requests with the same handler. *)
Fixpoint each (handler : Req → HM response) (rqs : list Req) : HM (list response) :=
  match rqs with
  | [] => mret []
  | rq :: rqs => r ← handler rq; rs ← each handler rqs; mret (r :: rs)
  end.

(** ** The configuration of the service does not change *)

Definition sameConfig (w w' : World) : Prop :=
  tempDir (svc w') = tempDir (svc w) ∧ cryptoSvc (svc w') = cryptoSvc (svc w).

#[local] Instance sameConfig_preorder : PreOrder sameConfig.
Proof. unfold sameConfig. split; [done|]. intros ? ? ? [] []. split; congruence. Qed.

Lemma config_same {A} (m : M World A) : steps sameSvc m → steps sameConfig m.
Proof. intros Hm w. specialize (Hm w). unfold sameConfig. by rewrite Hm. Qed.

Lemma config_onService f :
  (∀ v, tempDir (f v) = tempDir v ∧ cryptoSvc (f v) = cryptoSvc v) → steps (sameConfig) (onService f).
Proof. intros Hf w. apply Hf. Qed.

Ltac config_auto :=
  repeat (steps_auto; lazymatch goal with
  | |- steps _ (onService _) => by apply config_onService
  | |- steps _ (onDB _) => apply config_same, same_onDB
  | |- steps _ (onStore _) => apply config_same, same_onStore
  | |- steps _ (onOS _) => apply config_same, same_onOS
  | |- steps _ (onSession _) => apply config_same, same_onSession
  | |- steps _ (acquire _ _ _ _) => apply config_same, same_acquire
  | |- steps _ (release _ _) => apply config_same, same_release
  | |- steps _ ?m => unfold_op m; cbv beta zeta
  end).

Lemma config_complete id : steps sameConfig (CompleteUpload sha256 uuid id).
Proof. config_auto. Qed.

(** ** What an answer says *)

(** A success is audited, which leaves the files and sessions as they are. *)
Lemma audited op path rq ok details st b s r s1 :
  (auditLog uuid op path rq ok details ⨟ respond st b) s = (Ok r, s1) →
  r = Resp st b ∧ calm none (hw s) (hw s1).
Proof.
  intros E. apply bind_ok in E as ([] & s2 & E1 & E2). apply ret_ok in E2 as [-> ->]. split; [done|].
  destruct (auditLog_run uuid op path rq ok details s) as (s' & E & Hc). rewrite E in E1. by injection E1 as <-.
Qed.

Lemma onWorld_ok {A} (m : M World A) s a s1 : onWorld m s = (Ok a, s1) → m (hw s) = (Ok a, hw s1).
Proof. unfold onWorld. destruct (m (hw s)) as [r w]. by intros [= -> <-]. Qed.

Lemma withSession_ok rq k s r s1 :
  withSession srv rq k s = (Ok r, s1) → rstatus r = 201%Z →
  ∃ sr, bindSession rq = Some sr ∧ IsValidFilePath (srFilePath sr) = true ∧
    (0 < srTotalSize sr ≤ maxUploadSize srv)%Z ∧ k sr s = (Ok r, s1).
Proof.
  unfold withSession, unless. intros E Hst.
  destruct (bindSession rq) as [sr|]; [|by apply ret_ok in E as [-> _]]. exists sr. split; [done|].
  destruct (IsValidFileName (srFileName sr)); [|by apply ret_ok in E as [-> _]]. simpl in E.
  destruct (IsValidFilePath (srFilePath sr)); [|by apply ret_ok in E as [-> _]]. simpl in E.
  destruct (srTotalSize sr <=? 0)%Z eqn:E1; [by apply ret_ok in E as [-> _]|].
  destruct (maxUploadSize srv <? srTotalSize sr)%Z eqn:E2; [by apply ret_ok in E as [-> _]|].
  bool_prop. split_and!; [done|lia|lia|done].
Qed.

Lemma create_answered rq s r s1 :
  handleCreateUploadSession uuid srv rq s = (Ok r, s1) → rstatus r = 201%Z →
  ∃ sr id w1, bindSession rq = Some sr ∧ IsValidFilePath (srFilePath sr) = true ∧
    (0 < srTotalSize sr ≤ maxUploadSize srv)%Z ∧ r = Resp 201 (BSession id) ∧
    CreateUploadSession uuid (srFilePath sr) (srFileName sr) (srTotalSize sr) (rqIP rq) (srHash sr) (hw s)
      = (Ok id, w1) ∧ calm none w1 (hw s1).
Proof.
  intros E Hst. apply withSession_ok in E as (sr & Hb & Hv & Ht & E); [|done].
  apply orElse_ok in E as [(id & s2 & E1%onWorld_ok & E)|(e & s2 & _ & E)]; [|by apply ret_ok in E as [-> _]].
  apply audited in E as [-> Hc]. exists sr, id, (hw s2). done.
Qed.

Lemma chunk_answered rq s r s1 :
  (0 ≤ maxChunkSize srv < int64_max)%Z →
  handleUploadChunk srv rq s = (Ok r, s1) → rstatus r = 200%Z →
  UploadChunk (Param "id" rq) (chunkSent rq).1 (chunkSent rq).2 (hw s) = (Ok tt, hw s1).
Proof.
  intros Hl E Hst. unfold handleUploadChunk, withChunk, chunkSent, unless in *.
  destruct (FormFileOf "data" rq) as [f|]; [|by apply ret_ok in E as [-> _]].
  destruct (ReadAll _) as [data|e] eqn:Er; [|by apply ret_ok in E as [-> _]].
  destruct (maxChunkSize srv <? blen data)%Z eqn:Eb; [by apply ret_ok in E as [-> _]|]. bool_prop.
  rewrite wrap64_id in Er by (unfold in64, int64_min in *; lia).
  apply ReadAll_limit in Er as [-> _]; [|lia].
  destruct (ParseInt (PostForm "offset" rq)) as [off err].
  destruct (_ || _); [by apply ret_ok in E as [-> _]|].
  apply orElse_ok in E as [([] & s2 & E1%onWorld_ok & E)|(e & s2 & _ & E)]; [|by apply ret_ok in E as [-> _]].
  apply ret_ok in E as [_ ->]. exact E1.
Qed.

Lemma complete_answered rq s r s1 :
  handleCompleteUpload sha256 uuid rq s = (Ok r, s1) → rstatus r = 200%Z →
  ∃ res w1, r = Resp 200 (BCompleted res) ∧
    CompleteUpload sha256 uuid (Param "id" rq) (hw s) = (Ok res, w1) ∧ calm none w1 (hw s1).
Proof.
  intros E Hst. apply orElse_ok in E as [(res & s2 & E1%onWorld_ok & E)|(e & s2 & _ & E)];
    [|by apply ret_ok in E as [-> _]].
  apply audited in E as [-> Hc]. exists res, (hw s2). done.
Qed.

Lemma chunks_answered td cs w0 p hash total id (Hp : safe p) rqs ws s rs s1 :
  (0 ≤ maxChunkSize srv < int64_max)%Z → in64 total →
  Forall (λ rq, Param "id" rq = id) rqs → each (handleUploadChunk srv) rqs s = (Ok rs, s1) →
  Forall (λ r, rstatus r = 200%Z) rs → going td cs w0 p hash total id ws (hw s) →
  going td cs w0 p hash total id (ws ++ (chunkSent <$> rqs)) (hw s1).
Proof.
  intros Hl Ht Hid. revert ws s rs. induction Hid as [|rq rqs Hrq _ IH]; intros ws s rs; simpl.
  - intros E _ Hg. apply ret_ok in E as [_ ->]. by rewrite app_nil_r.
  - intros E Hrs Hg. apply bind_ok in E as (r & s2 & E1 & E). apply bind_ok in E as (rs2 & s3 & E2 & E3).
    apply ret_ok in E3 as [-> ->]. apply Forall_cons in Hrs as [Hr Hrs].
    apply chunk_answered in E1; [|done..]. rewrite Hrq in E1.
    assert (going td cs w0 p hash total id (ws ++ [chunkSent rq]) (hw s2)) as Hg2.
    { rewrite (surjective_pairing (chunkSent rq)). eapply (going_chunk td cs w0 p Hp); [done| |done|exact E1].
      apply ParseInt_in64. }
    pose proof (IH _ _ _ E2 Hrs Hg2) as Hg3. by rewrite <-app_assoc in Hg3.
Qed.
End sessions.

(** The temp files of the sessions and of the downloads are outside the storage, and reads
    of them do not break off. *)
Definition sessionsFit {Sg L St T} `{StorageLaws Sg} `{SqlEngine T} (uuid : nat → string) (w : World Sg L St T) : Prop :=
  (∀ n, intact (tempDir (svc w)) (cryptoSvc (svc w)) (uuid n) w) ∧ tempsOut uuid w ∧ wholeReads w.

(** C3: what is uploaded through a session over HTTP is what is downloaded, with encryption
    on or off. When the creation of a session was answered 201, every chunk request 200 and
    the completion 200, the chunks, each at its offset, make a file of the declared size and
    hash; no other file has changed; and every sequence of downloads of the path is
    answered, each response being the whole file, or exact byte ranges of it with the
    positions they claim, or an error, and leaves the file as it is. *)
Theorem http_session_round_trip {Sg L St C T} `{StorageLaws Sg} `{DistributedLock L}
    `{SessionStore sessionValue St} `{SqlLaws T} `{AEADLaws}
    (sha256 : bytes → bytes) (uuid : nat → string) (srv : HttpServer)
    (rq rqc : Req) (rqs : list Req) (id : string) (rs : list response) (r : response)
    (s s1 s2 s3 : HttpState Sg L St C T) :
  limitsOk srv → (0 ≤ maxChunkSize srv < int64_max)%Z → sessionsFit uuid (hw s) →
  handleCreateUploadSession uuid srv rq s = (Ok (Resp 201 (BSession id)), s1) →
  Forall (λ rq, Param "id" rq = id) (rqc :: rqs) →
  each (handleUploadChunk srv) rqs s1 = (Ok rs, s2) → Forall (λ r, rstatus r = 200%Z) rs →
  handleCompleteUpload sha256 uuid rqc s2 = (Ok r, s3) → rstatus r = 200%Z →
  ∃ sr, bindSession rq = Some sr ∧
    let d := contentOf (srTotalSize sr) (chunkSent <$> rqs) in
    let p := NormalizePath (srFilePath sr) in
    blen d = srTotalSize sr ∧ (srHash sr ≠ "" → srHash sr = EncodeToString (sha256 d)) ∧
    FileManager.others (eq p) (hw s) (hw s3) ∧
    ∀ gets, Forall (λ rq, NormalizePath (Param "path" rq) = p) gets →
      ∃ rs s4, downloadAll uuid gets s3 = (Ok rs, s4) ∧ length rs = length gets ∧
        Forall (exactResponse d) rs ∧ FileManager.others (eq p) (hw s) (hw s4).
Proof.
  intros Hl Hlc (Hint & Hto & Hw) Hc [Hidc Hids]%Forall_cons Hch Hrs Hcom Hr.
  apply create_answered in Hc as (sr & i & w1 & Hb & Hv & Ht & [= <-] & Ec & Hcalm); [|done].
  set (cs := cryptoSvc (svc (hw s))) in *. set (td := tempDir (svc (hw s))) in *.
  set (p := NormalizePath (srFilePath sr)).
  assert (safe p) as Hp by (eexists; by apply valid_path_safeKey).
  assert (in64 (srTotalSize sr)) as H64 by (unfold limitsOk, in64, int64_min in *; lia).
  assert (going td cs (hw s) p (srHash sr) (srTotalSize sr) id [] (hw s1)) as Hg1.
  { eapply going_calm; [done|exact Hcalm|]. eapply (going_start uuid); [done|done|done| |done|exact Ec].
    pose proof (create_id uuid _ _ _ _ _ _ _ _ Ec) as ->. apply Hint. }
  pose proof (chunks_answered srv td cs (hw s) p _ _ id Hp rqs [] s1 rs s2 Hlc H64 Hids Hch Hrs Hg1) as Hg2.
  apply complete_answered in Hcom as (res & w3 & -> & Eu & Hcalm3); [|done]. rewrite Hidc in Eu.
  destruct (going_complete sha256 uuid td cs (hw s) p Hp _ _ id _ (hw s2) res w3 Hg2 Eu)
    as (Hd & Hh & Hout & e & h & m & Hsa & Hon & Hpm & Hsz & _).
  pose proof (config_complete sha256 uuid id (hw s2)) as Hcfg. rewrite Eu in Hcfg. simpl in Hcfg.
  destruct Hg2 as (((_ & _ & Htd & Hcs & _) & _) & _).
  assert (plainOf cs e (contentOf (srTotalSize sr) (chunkSent <$> rqs))) as Hpl.
  { unfold storedAs, plainOf in *. destruct cs as [c|]; [destruct (IsEnabled c)|]; destruct Hsa as [Hsa _]; done. }
  assert (encrypts cs = true ∨ fSize m = blen (contentOf (srTotalSize sr) (chunkSent <$> rqs)) ∧
    e = contentOf (srTotalSize sr) (chunkSent <$> rqs)) as Hsize.
  { unfold storedAs, encrypts in *. destruct cs as [c|]; [destruct (IsEnabled c); [by left|]|];
      right; destruct Hsa as [-> _]; simpl in Hd; by rewrite Hd. }
  assert (encrypts cs = true ∨ fSize m = blen (contentOf (srTotalSize sr) (chunkSent <$> rqs))) as Hsized by tauto.
  assert (encrypts cs = true ∨ (fSize m = blen e ∨ fSize m = 0%Z)) as Hsize' by naive_solver.
  assert (ready uuid (hw s) cs p e m (hw s3)) as Hready.
  { destruct Hcfg as [Ht3 Hc3]. split; [by eapply onPath_calm|]. destruct Hcalm3 as [Hm3 Hs3]. unfold tempsOut.
    rewrite Hs3, Ht3, Hc3, Htd, Hcs.
    split; [done|]. destruct Hm3 as (-> & _). by rewrite Hout. }
  exists sr. split; [done|]. split_and!; [done|done|apply Hready|]. intros gets Hgets.
  destruct (downloadAll_exact sha256 uuid (hw s) cs p e m _ gets s3 Hp Hpm Hsize' Hpl Hready Hgets)
    as (rs4 & s4 & ? & ? & Hx & Hr4). exists rs4, s4. split_and!; [done..| |apply Hr4].
  eapply never_emptied; [|exact Hx]. exact Hsized.
Qed.

(** Two chunks, the second one first, to a server with encryption. *)
Definition demoOpen : Req :=
  MkReq "POST" [] [] [] [] []
    (Some [("file_path", JStr "/f.txt"); ("file_name", JStr "f.txt"); ("total_size", JNum 4);
           ("hash", JStr "61626364")]) "10.0.0.1".
Definition demoPut (d : bytes) (off : string) : Req :=
  MkReq "PUT" [("id", "id")] [] [] [("offset", off)] [("data", MkFormFile "x" 2 (Reader d None))] None "10.0.0.1".
Definition demoDone : Req := MkReq "POST" [("id", "id")] [] [] [] [] None "10.0.0.1".
Notation demoOpened := (handleCreateUploadSession (λ _, "id") demoServer demoOpen demoHttp).
Notation demoPuts := (each (handleUploadChunk demoServer) [demoPut cd "2"; demoPut ab "0"] demoOpened.2).
Notation demoClosed := (handleCompleteUpload demoSHA (λ _, "id") demoDone demoPuts.2).

Lemma demo_sessionsFit : sessionsFit (λ _, "id") (hw demoHttp).
Proof.
  split; [|split].
  - intros n. unfold intact. split_and!; [apply localDisk_rooted|by apply dbOk_by_dec|done|done|..];
      apply demo_outside; vm_compute; reflexivity.
  - intros n. split_and!; [apply demo_outside; vm_compute; reflexivity..|vm_compute; discriminate].
  - intros n k. vm_compute. discriminate.
Qed.

Lemma http_session_round_trip_witness :
  ∃ rs s4, downloadAll (λ _, "id") [demoGet ""; demoGet "bytes=1-2"] demoClosed.2 = (Ok rs, s4) ∧
    length rs = 2 ∧ Forall (exactResponse (ab ++ cd)) rs.
Proof.
  destruct (http_session_round_trip demoSHA (λ _, "id") demoServer demoOpen demoDone
    [demoPut cd "2"; demoPut ab "0"] "id" (match demoPuts.1 with Ok rs => rs | Err _ => [] end)
    (match demoClosed.1 with Ok r => r | Err _ => Resp 0 (BError "") end)
    demoHttp demoOpened.2 demoPuts.2 demoClosed.2) as (sr & Hb & _ & _ & _ & Hget).
  - split; vm_compute; done.
  - split; vm_compute; done.
  - apply demo_sessionsFit.
  - apply outcome. vm_compute. reflexivity.
  - repeat constructor.
  - apply outcome. vm_compute. reflexivity.
  - vm_compute. repeat constructor.
  - apply outcome. vm_compute. reflexivity.
  - vm_compute. reflexivity.
  - vm_compute in Hb. injection Hb as <-.
    destruct (Hget [demoGet ""; demoGet "bytes=1-2"]) as (rs & s4 & E & Hlen & Hx & _).
    { repeat constructor. }
    exists rs, s4. split; [exact E|]. split; [exact Hlen|]. exact Hx.
Defined.
