(* ===== verification/Grpc.v ===== *)
(** * internal/api/grpc: the server and its handlers

    The nine methods of the file service, the interceptors in front of them, and the
    two streams. A client stream is the list of messages it carries and how it ends;
    a server stream is the list of messages that were sent. *)

From S2P Require Export Config Timestamp FileManager FileList Directory Access.

Local Open Scope go_scope.

(** ** Messages of the protocol *)

Record UploadMetadata := MkUploadMetadata {
  umPath : string; umName : string; umTotalSize : Z; umHash : string
}.
Record UploadChunkMsg := MkUploadChunkMsg { ucData : bytes; ucOffset : Z }.

(** The oneof of an UploadRequest, which may be unset. *)
Inductive UploadRequest :=
| RMetadata (m : UploadMetadata)
| RChunk (c : UploadChunkMsg)
| RUnset.

Record UploadResponse := MkUploadResponse {
  urId : string; urPath : string; urName : string; urSize : Z; urHash : string;
  urCreatedAt : option Z
}.
Record DownloadRequest := MkDownloadRequest { drPath : string; drOffset : Z; drChunkSize : Z }.
Record DownloadResponse := MkDownloadResponse { dData : bytes; dOffset : Z; dTotalSize : Z }.
Record ListFilesRequest := MkListFilesRequest {
  lfPath : string; lfRecursive : bool; lfPage : Z; lfPageSize : Z; lfSortBy : string; lfSortOrder : string
}.
Record FileInfo := MkFileInfo {
  fiId : string; fiPath : string; fiName : string; fiSize : Z; fiType : string; fiCreatedAt : option Z
}.
Record ListFilesResponse := MkListFilesResponse {
  lrTotal : Z; lrPage : Z; lrPageSize : Z; lrItems : list FileInfo
}.
Record GetMetadataResponse := MkGetMetadataResponse {
  gmId : string; gmPath : string; gmName : string; gmSize : Z; gmType : string; gmHash : string;
  gmStorageType : string; gmCreatedAt : option Z; gmUpdatedAt : option Z
}.

(** [Success] and [Message] of the other methods. *)
Record Done := MkDone { success : bool; message : string }.

(** ** Errors of a call

    An error made with the status package, or any other Go error, which the library
    reports with the code Unknown and its text. *)

Inductive code := InvalidArgument | NotFound | Internal | Unauthenticated | PermissionDenied.

Inductive grpcError :=
| Status (c : code) (msg : string)
| Plain (e : error).

Inductive rpc (A : Type) :=
| Reply (a : A)
| Fail (e : grpcError).
Arguments Reply {A} a.
Arguments Fail {A} e.

#[export] Instance code_eq_dec : EqDecision code.
Proof. solve_decision. Defined.
#[export] Instance grpcError_eq_dec : EqDecision grpcError.
Proof. solve_decision. Defined.

Definition statusCodeFromErr {A} (r : rpc A) : Z :=
  match r with Reply _ => 200 | Fail _ => 500 end.

Definition invalid {A} (msg : string) : rpc A := Fail (Status InvalidArgument msg).

(** [fmt.Errorf(msg)] and [fmt.Errorf(msg: %w, err)] *)
Definition plain {A} (msg : string) : rpc A := Fail (Plain (ErrMsg msg)).
Definition wrapped {A} (msg : string) (e : error) : rpc A := Fail (Plain (ErrWrap msg e)).

(** The cause is logged. *)
Definition internalError {A} (op : string) (e : error) : rpc A :=
  Fail (Status Internal "internal server error").

(** [None]: an error of [time.Parse]; [Some None]: a nil timestamp. *)
Definition parseTimestamp (s : string) : option (option Z) :=
  if bool_decide (s = "") then Some None else Some <$> ParseTimestamp s.

(** Every caller ignores the error. *)
Definition stamp (s : string) : option Z := default None (parseTimestamp s).

Definition uploadResponse (m : FileMetadata) : UploadResponse :=
  MkUploadResponse (fID m) (fPath m) (fName m) (fSize m) (fHash m) (stamp (fCreatedAt m)).

(** [int32(x)] *)
Definition wrap32 (z : Z) : Z := (z + 2 ^ 31) `mod` 2 ^ 32 - 2 ^ 31.

(** ** Streams *)

(** The messages a client sends, then io.EOF or another error, from then on. *)
Record clientStream := MkClientStream { msgs : list UploadRequest; broken : option error }.

(** [stream.Recv]: [None] is io.EOF. *)
Definition Recv (s : clientStream) : res (option UploadRequest) * clientStream :=
  match msgs s with
  | m :: ms => (Ok (Some m), MkClientStream ms (broken s))
  | [] => (match broken s with Some e => Err e | None => Ok None end, s)
  end.

(** [err == io.EOF] *)
Definition atEOF {A} (r : res (option A)) : bool :=
  match r with Ok None => true | _ => false end.

Definition grpcFastPathMaxSize : Z := 16 * 1024 * 1024.
Definition maxDownloadChunkSize : Z := 32 * 1024 * 1024.

Section grpc.
Context {Sg L St : Type} {T : Type → Type}.
Context `{StorageAdapter Sg} `{DistributedLock L} `{SessionStore sessionValue St}.
Context `{SqlEngine T} `{AEAD}.
Context (sha256 : bytes → bytes) (uuid : nat → string) (config : ServerConfig).
Notation World := (World Sg L St T).
Notation FM := (M (FileManager * World)).

(** A call of a service: go on with its result, or return the error [err] makes. *)
Definition orFail {A B} (m : FM A) (err : error → rpc B) (k : A → FM (rpc B)) : FM (rpc B) :=
  r ← catch m;
  match r with Ok a => k a | Err e => mret (err e) end.

(** [if bad { return err }] *)
Definition unless {A} (bad : bool) (err : rpc A) (k : FM (rpc A)) : FM (rpc A) :=
  if bad then mret err else k.

(** ** Uploads *)

(** [send]: the error of SendAndClose, if it fails. *)
Definition SendAndClose (send : option error) (r : UploadResponse) : rpc UploadResponse :=
  match send with Some e => Fail (Plain e) | None => Reply r end.

Definition uploadFileFastPath (send : option error) (meta : UploadMetadata) (data : bytes)
    : FM (rpc UploadResponse) :=
  unless (negb (bool_decide (umHash meta = ""))
          && negb (bool_decide (EncodeToString (sha256 data) = umHash meta)))
    (invalid "hash mismatch")
    (orFail (FileManager.UploadFile sha256 uuid (umPath meta) data) (wrapped "failed to upload file")
       (λ fileMeta, mret (SendAndClose send (uploadResponse fileMeta)))).

(** An error after the session was created. *)
Definition aborting {A} (sessionID : string) (r : rpc A) : FM (rpc A) :=
  ignore (inWorld (AbortUpload sessionID)) ⨟ mret r.

Definition uploadOrAbort {A} (sessionID : string) (c : UploadChunkMsg) (k : FM (rpc A)) : FM (rpc A) :=
  r ← catch (inWorld (UploadChunk sessionID (ucData c) (ucOffset c)));
  match r with
  | Ok _ => k
  | Err e => aborting sessionID (wrapped "failed to upload chunk" e)
  end.

(** The loop over the rest of the stream, up to its end. *)
Fixpoint uploadRest {A} (sessionID : string) (ms : list UploadRequest) (broken : option error)
    (k : FM (rpc A)) : FM (rpc A) :=
  match ms with
  | [] =>
      match broken with
      | None => k
      | Some e => aborting sessionID (wrapped "failed to receive upload request" e)
      end
  | RChunk c :: ms => uploadOrAbort sessionID c (uploadRest sessionID ms broken k)
  | _ :: _ => aborting sessionID (plain "expected chunk in multi-chunk upload")
  end.

(** After the last chunk. *)
Definition finishUpload (send : option error) (sessionID : string) (meta : UploadMetadata)
    : FM (rpc UploadResponse) :=
  orFail (inWorld (CompleteUpload sha256 uuid sessionID)) (wrapped "failed to complete upload") (λ _,
    orFail (inWorld (GetFileMetadata (umPath meta))) (wrapped "failed to get file metadata after upload")
      (λ fileMeta, mret (SendAndClose send (uploadResponse fileMeta)))).

(** The session, with the first chunk and the message read ahead played back. *)
Definition uploadSession (send : option error) (meta : UploadMetadata) (first : UploadChunkMsg)
    (next : res (option UploadRequest)) (rest : clientStream) : FM (rpc UploadResponse) :=
  orFail (inWorld (CreateUploadSession uuid (umPath meta) (umName meta) (umTotalSize meta) "" (umHash meta)))
    (wrapped "failed to create upload session") (λ sessionID,
      let continue := uploadRest sessionID (msgs rest) (broken rest) (finishUpload send sessionID meta) in
      uploadOrAbort sessionID first
        match next with
        | Ok (Some (RChunk c)) => uploadOrAbort sessionID c continue
        | Ok _ => continue
        | Err e => aborting sessionID (wrapped "failed to receive upload request" e)
        end).

Definition maxUpload : Z := wrap64 (wrap64 (MaxUploadSizeMB config * 1024) * 1024).

(** What is read from the stream before anything is stored. *)
Definition readFirst (stream : clientStream) (k : UploadMetadata → UploadChunkMsg → clientStream → FM (rpc UploadResponse))
    : FM (rpc UploadResponse) :=
  let '(req, stream) := Recv stream in
  match req with
  | Err e => mret (wrapped "failed to receive metadata" e)
  | Ok None => mret (wrapped "failed to receive metadata" (ErrMsg "EOF"))
  | Ok (Some (RMetadata meta)) =>
      unless (negb (IsValidFilePath (umPath meta))) (invalid "invalid file path")
        (unless (negb (IsValidFileName (umName meta))) (invalid "invalid file name")
           (unless (umTotalSize meta <=? 0)%Z (invalid "total_size must be positive")
              (unless ((0 <? maxUpload) && (maxUpload <? umTotalSize meta))%Z
                 (invalid "total_size exceeds maximum allowed size")
                 (let '(req, stream) := Recv stream in
                  match req with
                  | Ok None => mret (plain "no chunk received in upload stream")
                  | Err e => mret (wrapped "failed to receive first chunk" e)
                  | Ok (Some (RChunk firstChunk)) => k meta firstChunk stream
                  | Ok (Some _) => mret (plain "expected chunk after metadata")
                  end))))
  | Ok (Some _) => mret (plain "metadata must be sent first in upload stream")
  end.

Definition UploadFile (stream : clientStream) (send : option error) : FM (rpc UploadResponse) :=
  readFirst stream (λ meta firstChunk stream,
    let '(next, stream) := Recv stream in
    let size := blen (ucData firstChunk) in
    if atEOF next && (ucOffset firstChunk =? 0)%Z && (size =? umTotalSize meta)%Z
       && (size <=? grpcFastPathMaxSize)%Z
    then uploadFileFastPath send meta (ucData firstChunk)
    else uploadSession send meta firstChunk next stream).

(** ** Downloads *)

Definition downloadChunkSize (req : DownloadRequest) : Z :=
  let chunkSize := if (drChunkSize req <=? 0)%Z then (1024 * 1024)%Z else drChunkSize req in
  if (maxDownloadChunkSize <? chunkSize)%Z then maxDownloadChunkSize else chunkSize.

(** [send k]: the error of the [k]-th Send, if it fails. *)
Fixpoint sendLoop (fuel : nat) (send : nat → option error) (k : nat) (meta : FileMetadata)
    (chunkSize offset : Z) : M World (list DownloadResponse * rpc unit) :=
  match fuel with
  | O => throw (ErrMsg "out of fuel")
  | S fuel =>
      if (offset <? fSize meta)%Z then
        r ← catch (DownloadFileDataAt (Some meta) chunkSize offset);
        match r with
        | Err e => mret ([], wrapped "failed to read file chunk" e)
        | Ok data =>
            if (blen data =? 0)%Z then mret ([], Reply tt)
            else
              match send k with
              | Some e => mret ([], wrapped "failed to send download chunk" e)
              | None =>
                  rest ← sendLoop fuel send (S k) meta chunkSize (wrap64 (offset + blen data));
                  mret (MkDownloadResponse data offset (fSize meta) :: rest.1, rest.2)
              end
        end
      else mret ([], Reply tt)
  end.

Definition DownloadFile (req : DownloadRequest) (send : nat → option error)
    : FM (list DownloadResponse * rpc unit) :=
  if negb (IsValidFilePath (drPath req)) then mret ([], invalid "invalid file path")
  else
    r ← catch (inWorld (GetFileMetadata (drPath req)));
    match r with
    | Err e => mret ([], wrapped "failed to get file metadata" e)
    | Ok meta =>
        let offset := if (0 <? drOffset req)%Z then drOffset req else 0%Z in
        inWorld (sendLoop (Z.to_nat (fSize meta - offset) + 2) send 0 meta
                   (downloadChunkSize req) offset)
    end.

(** ** Listings and metadata *)

Definition listPageSize (req : ListFilesRequest) : Z :=
  if ((0 <? MaxPageSize config) && (MaxPageSize config <? lfPageSize req))%Z
  then MaxPageSize config else lfPageSize req.

Definition fileInfo (item : FileListItem) : FileInfo :=
  MkFileInfo (liID item) (liPath item) (liName item) (liSize item) (liType item) (stamp (liCreatedAt item)).

Definition ListFiles (req : ListFilesRequest) : FM (rpc ListFilesResponse) :=
  orFail (inWorld (onDB (ListFilesWithTotal (lfPath req) (lfRecursive req) (lfPage req) (listPageSize req)
                           (lfSortBy req) (lfSortOrder req))))
    (wrapped "failed to list files") (λ result,
      mret (Reply (MkListFilesResponse (wrap32 (FileList.Total result)) (wrap32 (Page result))
                     (wrap32 (PageSize result)) (fileInfo <$> Items result)))).

Definition GetMetadata (path : string) : FM (rpc GetMetadataResponse) :=
  unless (negb (IsValidFilePath path)) (invalid "invalid path")
    (f ← catch (inWorld (GetFileMetadata path));
     match f with
     | Ok m => mret (Reply (MkGetMetadataResponse (fID m) (fPath m) (fName m) (fSize m) "file" (fHash m)
                              (fStorageType m) (stamp (fCreatedAt m)) (stamp (fUpdatedAt m))))
     | Err _ =>
         orFail (inWorld (GetDirectoryMetadata path)) (λ _, Fail (Status NotFound ("path not found: " +:+ path)))
           (λ d, mret (Reply (MkGetMetadataResponse (dID d) (dPath d) (dName d) 0 "directory" "" ""
                                (stamp (dCreatedAt d)) (stamp (dUpdatedAt d)))))
     end).

(** ** The other methods *)

(** [if req.Path == "" { ... }; if !IsValidFilePath(req.Path) { ... }] *)
Definition withPath {A} (path bad : string) (k : FM (rpc A)) : FM (rpc A) :=
  unless (bool_decide (path = "")) (invalid "path is required")
    (unless (negb (IsValidFilePath path)) (invalid bad) k).

Definition withNewName {A} (path newName bad : string) (k : FM (rpc A)) : FM (rpc A) :=
  unless (bool_decide (path = "")) (invalid "path is required")
    (unless (bool_decide (newName = "")) (invalid "new_name is required")
       (unless (negb (IsValidFilePath path)) (invalid bad)
          (unless (negb (IsValidFileName newName)) (invalid "invalid new name") k))).

(** The call of the service, and the answer. *)
Definition perform (op : string) (m : FM unit) (msg : string) : FM (rpc Done) :=
  orFail m (internalError op) (λ _, mret (Reply (MkDone true msg))).

Definition DeleteFile (path : string) : FM (rpc Done) :=
  withPath path "invalid file path"
    (perform "DeleteFile" (FileManager.DeleteFile path) "File deleted successfully").

Definition RenameFile (path newName : string) : FM (rpc Done) :=
  withNewName path newName "invalid file path"
    (perform "RenameFile" (FileManager.RenameFile path newName) "File renamed successfully").

Definition CreateDirectory (path : string) : FM (rpc Done) :=
  withPath path "invalid directory path"
    (perform "CreateDirectory" (inWorld (DMCreateDirectory uuid NewDirectoryManagerWithDistLock path))
       "Directory created successfully").

Definition DeleteDirectory (path : string) (recursive : bool) : FM (rpc Done) :=
  withPath path "invalid directory path"
    (perform "DeleteDirectory" (inWorld (DMDeleteDirectory NewDirectoryManagerWithDistLock path recursive))
       "Directory deleted successfully").

Definition RenameDirectory (path newName : string) : FM (rpc Done) :=
  withNewName path newName "invalid directory path"
    (perform "RenameDirectory" (inWorld (DMRenameDirectory NewDirectoryManagerWithDistLock path newName))
       "Directory renamed successfully").

(** ** The service *)

Inductive call :=
| CUpload (stream : clientStream) (send : option error)
| CDownload (req : DownloadRequest) (send : nat → option error)
| CList (req : ListFilesRequest)
| CDelete (path : string)
| CRename (path newName : string)
| CCreateDirectory (path : string)
| CDeleteDirectory (path : string) (recursive : bool)
| CRenameDirectory (path newName : string)
| CGetMetadata (path : string).

Definition fullMethod (c : call) : string :=
  "/fsserver.FileService/" +:+
  match c with
  | CUpload _ _ => "UploadFile"
  | CDownload _ _ => "DownloadFile"
  | CList _ => "ListFiles"
  | CDelete _ => "DeleteFile"
  | CRename _ _ => "RenameFile"
  | CCreateDirectory _ => "CreateDirectory"
  | CDeleteDirectory _ _ => "DeleteDirectory"
  | CRenameDirectory _ _ => "RenameDirectory"
  | CGetMetadata _ => "GetMetadata"
  end.

Inductive reply :=
| AUpload (r : UploadResponse)
| ADownload
| AList (r : ListFilesResponse)
| ADone (r : Done)
| AMetadata (r : GetMetadataResponse).

Definition rpcMap {A B} (f : A → B) (r : rpc A) : rpc B :=
  match r with Reply a => Reply (f a) | Fail e => Fail e end.

(** The messages sent on the server stream, and the status of the call. *)
Definition answer {A} (f : A → reply) (m : FM (rpc A)) : FM (list DownloadResponse * rpc reply) :=
  r ← m; mret ([], rpcMap f r).

Definition handle (c : call) : FM (list DownloadResponse * rpc reply) :=
  match c with
  | CUpload stream send => answer AUpload (UploadFile stream send)
  | CDownload req send => r ← DownloadFile req send; mret (r.1, rpcMap (λ _, ADownload) r.2)
  | CList req => answer AList (ListFiles req)
  | CDelete path => answer ADone (DeleteFile path)
  | CRename path newName => answer ADone (RenameFile path newName)
  | CCreateDirectory path => answer ADone (CreateDirectory path)
  | CDeleteDirectory path recursive => answer ADone (DeleteDirectory path recursive)
  | CRenameDirectory path newName => answer ADone (RenameDirectory path newName)
  | CGetMetadata path => answer AMetadata (GetMetadata path)
  end.

(** ** The interceptors *)

Context `{JWTLib} (range : gmap string User → list (string * User)).

(** The metrics are the calls recorded, with the status of each. *)
Record GrpcState := MkGrpcState {
  gfm : FileManager; gw : World; gauth : option AuthService;
  gmetrics : option (list (string * Z))
}.
Notation GM := (M GrpcState).

Definition onFM {A} (m : FM A) : GM A := λ s,
  let '(r, (fm, w)) := m (gfm s, gw s) in (r, MkGrpcState fm w (gauth s) (gmetrics s)).

(** The authentication service, when there is one, shares the clock and the database. *)
Definition onAuthSvc {A} (dflt : A) (m : M (AuthWorld T) A) : GM A := λ s,
  match gauth s with
  | None => (Ok dflt, s)
  | Some a =>
      let w := gw s in
      let '(r, a) := m (MkAuthWorld (sys w) (db w) a) in
      (r, MkGrpcState (gfm s) (MkWorld (aSys a) (store w) (aDB a) (dlock w) (sess w) (svc w))
            (Some (aAuth a)) (gmetrics s))
  end.

Definition statusOf (e : error) : string := match e with ErrMsg msg => msg | _ => "" end.

(** unaryAuthInterceptor and streamAuthInterceptor *)
Definition authenticated {A} (method : string) (md : option callMD) (none : A)
    (handler : GM (A * rpc reply)) : GM (A * rpc reply) :=
  u ← catch (onAuthSvc None (authenticate sha256 range md));
  match u with
  | Err e => mret (none, Fail (Status Unauthenticated (statusOf e)))
  | Ok u =>
      ok ← catch (onAuthSvc tt (authorize sha256 range method u));
      match ok with
      | Err e => mret (none, Fail (Status PermissionDenied (statusOf e)))
      | Ok _ => handler
      end
  end.

(** unaryMetricsInterceptor and streamMetricsInterceptor *)
Definition measured {A} (method : string) (handler : GM (A * rpc reply)) : GM (A * rpc reply) :=
  r ← handler;
  modify (λ s, MkGrpcState (gfm s) (gw s) (gauth s)
    ((λ l, l ++ [(method, statusCodeFromErr r.2)]) <$> gmetrics s)) ⨟
  mret r.

Definition serve (md : option callMD) (c : call) : GM (list DownloadResponse * rpc reply) :=
  authenticated (fullMethod c) md [] (measured (fullMethod c) (onFM (handle c))).

End grpc.
Arguments GrpcState : clear implicits.

(** ** Helpers *)

(** The directory of a path, up to its last slash. *)
Fixpoint cutLast (fuel : nat) (s : string) : string :=
  match fuel with
  | O => ""
  | S i => if bool_decide (String.get i s = Some slash) then stake i s else cutLast i s
  end.

Definition computeNewPath (oldPath newName : string) : string :=
  let dir := cutLast (slen oldPath) oldPath in
  if bool_decide (dir = "") then newName else dir +:+ "/" +:+ newName.
