(* ===== verification/GrpcFiles.v ===== *)
(** * The gRPC service

    What the handlers of Grpc.v promise: which requests are refused and that a refusal
    has no effect, that an upload and a download carry the bytes of the file, and what
    becomes of the upload session when a stream breaks off. *)

From S2P Require Export SessionFrame Grpc.

Local Open Scope go_scope.

(** ** Refused requests *)

Section refusals.
Context {Sg L St : Type} {T : Type → Type}.
Context `{StorageAdapter Sg} `{DistributedLock L} `{SessionStore sessionValue St}.
Context `{SqlEngine T} `{AEAD}.
Context (sha256 : bytes → bytes) (uuid : nat → string) (config : ServerConfig).
Notation World := (World Sg L St T).
Notation FM := (M (FileManager * World)).
Implicit Types s : FileManager * World.

Lemma orFail_run {A B} (m : FM A) (err : error → rpc B) k s :
  orFail m err k s = match m s with (Ok a, s') => k a s' | (Err e, s') => (Ok (err e), s') end.
Proof. unfold orFail, mbind, M_bind, catch. by destruct (m s) as [[a|e] s']. Qed.

(** The arguments that a method does not accept. *)
Definition badUpload (m : UploadMetadata) : bool :=
  negb (IsValidFilePath (umPath m)) || negb (IsValidFileName (umName m)) || (umTotalSize m <=? 0)%Z
  || ((0 <? maxUpload config)%Z && (maxUpload config <? umTotalSize m)%Z).

(** A single chunk that is the whole file. *)
Definition wholeFile (m : UploadMetadata) (c : UploadChunkMsg) : bool :=
  (ucOffset c =? 0)%Z && (blen (ucData c) =? umTotalSize m)%Z
  && (blen (ucData c) <=? grpcFastPathMaxSize)%Z.

Definition badHash (m : UploadMetadata) (d : bytes) : bool :=
  negb (bool_decide (umHash m = "")) && negb (bool_decide (EncodeToString (sha256 d) = umHash m)).

Definition badPath (path : string) : bool := bool_decide (path = "") || negb (IsValidFilePath path).
Definition badNewName (n : string) : bool := bool_decide (n = "") || negb (IsValidFileName n).

Definition refused (c : call) : bool :=
  match c with
  | CUpload stream _ =>
      match msgs stream, broken stream with
      | [RMetadata m; RChunk ch], None => badUpload m || wholeFile m ch && badHash m (ucData ch)
      | RMetadata m :: _, _ => badUpload m
      | _, _ => false
      end
  | CDownload req _ => negb (IsValidFilePath (drPath req))
  | CList _ => false
  | CGetMetadata path => negb (IsValidFilePath path)
  | CDelete path | CCreateDirectory path | CDeleteDirectory path _ => badPath path
  | CRename path n | CRenameDirectory path n => badPath path || badNewName n
  end.

(** An error whose text says nothing of the inside of the server: it is fixed, or it
    repeats the path [echo] that the client sent. *)
Definition discreet {A} (echo : option string) (r : rpc A) : Prop :=
  match r with
  | Reply _ => True
  | Fail (Status Internal msg) => msg = "internal server error"
  | Fail (Status NotFound msg) => ∃ path, echo = Some path ∧ msg = "path not found: " +:+ path
  | Fail _ => False
  end.

(** Only GetMetadata repeats its argument. *)
Definition echoed (c : call) : option string :=
  match c with CGetMetadata path => Some path | _ => None end.

(** What a handler that accepts its arguments may answer. *)
Definition accepted {A} (r : rpc A) : Prop :=
  match r with Fail (Plain _) => True | _ => discreet None r end.

Definition accepts {A} (m : FM (rpc A)) : Prop :=
  ∀ s r s', m s = (Ok r, s') → accepted r.

Lemma accepts_ret {A} (r : rpc A) : accepted r → accepts (mret r).
Proof. by intros Hr s r' s' [= <- _]. Qed.

Lemma accepts_orFail {A B} (m : FM A) (err : error → rpc B) k :
  (∀ e, accepted (err e)) → (∀ a, accepts (k a)) → accepts (orFail m err k).
Proof.
  intros He Hk s r s'. rewrite orFail_run. destruct (m s) as [[a|e] s1]; [apply Hk|].
  by intros [= <- _].
Qed.

Lemma accepts_bind {A B} (m : FM A) (f : A → FM (rpc B)) :
  (∀ a, accepts (f a)) → accepts (m ≫= f).
Proof.
  intros Hf s r s'. unfold mbind, M_bind. destruct (m s) as [[a|e] s1]; [apply Hf|done].
Qed.

Lemma accepts_aborting {A} id (r : rpc A) : accepted r → accepts (aborting (T := T) (Sg := Sg) (L := L) id r).
Proof. intros Hr. apply accepts_bind. intros _. by apply accepts_ret. Qed.

Lemma accepts_uploadOrAbort {A} id c (k : FM (rpc A)) : accepts k → accepts (uploadOrAbort id c k).
Proof. intros Hk. apply accepts_bind. intros []; [done|by apply accepts_aborting]. Qed.

Lemma accepts_uploadRest {A} id ms br (k : FM (rpc A)) : accepts k → accepts (uploadRest id ms br k).
Proof.
  intros Hk. induction ms as [|m ms IH]; simpl; [destruct br; [by apply accepts_aborting|done]|].
  destruct m; [by apply accepts_aborting|by apply accepts_uploadOrAbort|by apply accepts_aborting].
Qed.

Lemma accepts_send (send : option error) m :
  accepts (mret (SendAndClose send (uploadResponse m)) : FM (rpc UploadResponse)).
Proof. apply accepts_ret. by destruct send. Qed.

Lemma accepts_uploadSession send m first next rest :
  accepts (uploadSession sha256 uuid send m first next rest).
Proof.
  apply accepts_orFail; [done|]. intros id. cbv zeta. apply accepts_uploadOrAbort.
  assert (accepts (uploadRest id (msgs rest) (broken rest)
    (finishUpload (Sg := Sg) (L := L) (T := T) sha256 uuid send id m))) as Hrest.
  { apply accepts_uploadRest, accepts_orFail; [done|]. intros _. apply accepts_orFail; [done|].
    intros x. apply accepts_send. }
  destruct next as [[[]|]|]; auto using accepts_uploadOrAbort. by apply accepts_aborting.
Qed.

(** Refused, or accepted: the outcome of a handler. *)
Definition decides {A} (bad : bool) (m : FM (rpc A)) : Prop :=
  if bad then ∃ msg, ∀ s, m s = (Ok (invalid msg), s) else accepts m.

Lemma decides_unless {A} bad rest msg (k : FM (rpc A)) :
  decides rest k → decides (bad || rest) (unless bad (invalid msg) k).
Proof. intros Hk. unfold unless. destruct bad; [by exists msg|done]. Qed.

Lemma decides_weaken {A} bad (m : FM (rpc A)) : (bad = true → False) → accepts m → decides bad m.
Proof. intros Hb Hm. by destruct bad; [destruct Hb|]. Qed.

Lemma decides_upload stream send :
  decides (refused (CUpload stream send)) (UploadFile sha256 uuid config stream send).
Proof.
  destruct stream as [ms br]. unfold UploadFile, readFirst. cbn [refused msgs broken].
  assert (∀ e : grpcError, accepted (Fail e : rpc UploadResponse) →
    accepts (mret (Fail e) : FM (rpc UploadResponse))) as Hr by (intros; by apply accepts_ret).
  destruct ms as [|[m|c|] ms]; [unfold Recv; simpl; destruct br; by apply Hr|..];
    [|apply Hr, I..]. unfold Recv at 1. cbn [msgs broken].
  assert (∀ rest k, decides rest k → decides (badUpload m || rest)
    (unless (negb (IsValidFilePath (umPath m))) (invalid "invalid file path")
       (unless (negb (IsValidFileName (umName m))) (invalid "invalid file name")
          (unless (umTotalSize m <=? 0)%Z (invalid "total_size must be positive")
             (unless ((0 <? maxUpload config) && (maxUpload config <? umTotalSize m))%Z
                (invalid "total_size exceeds maximum allowed size") k))) : FM (rpc UploadResponse))) as Hb.
  { intros rest k Hk. unfold badUpload. rewrite <-!orb_assoc. by repeat apply decides_unless. }
  destruct ms as [|[m2|c|] ms]; try (rewrite <-(orb_false_r (badUpload m)); apply Hb).
  - unfold Recv; simpl. destruct br; by apply Hr.
  - apply Hr, I.
  - unfold Recv at 1. cbn [msgs broken].
    destruct ms as [|m3 ms]; unfold Recv; cbn [msgs broken atEOF andb];
      [destruct br as [e|]; cbn [atEOF andb]|]; rewrite ?andb_false_l.
    + rewrite <-(orb_false_r (badUpload m)). apply Hb, accepts_uploadSession.
    + apply Hb. fold (wholeFile m c). destruct (wholeFile m c); [|apply accepts_uploadSession].
      rewrite andb_true_l, <-(orb_false_r (badHash _ _)). apply decides_unless, accepts_orFail; [done|].
      intros x. apply accepts_send.
    + replace (badUpload m) with (badUpload m || false) by apply orb_false_r.
      apply Hb, accepts_uploadSession.
  - apply Hr, I.
Qed.

(** The methods whose errors are all discreet. *)
Definition keepsSecrets {A} (echo : option string) (m : FM (rpc A)) : Prop :=
  ∀ s r s', m s = (Ok r, s') → discreet echo r.

Lemma secrets_perform op (m : FM unit) msg echo : keepsSecrets echo (perform op m msg).
Proof.
  intros s r s'. unfold perform. rewrite orFail_run. by destruct (m s) as [[]]; intros [= <- _].
Qed.

Lemma secrets_metadata path :
  IsValidFilePath path = true → keepsSecrets (Some path) (GetMetadata (Sg := Sg) (L := L) (St := St) (T := T) path).
Proof.
  intros Hv s r s'. unfold GetMetadata, unless. rewrite Hv. cbn [negb].
  unfold mbind, M_bind, catch. destruct (inWorld _ s) as [[m|e] s1]; [by intros [= <- _]|].
  rewrite orFail_run. destruct (inWorld _ s1) as [[]]; intros [= <- _]; [done|]. by exists path.
Qed.

(** ... for good arguments; bad ones are refused. *)
Definition unary {A} (echo : option string) (bad : bool) (m : FM (rpc A)) : Prop :=
  if bad then ∃ msg, ∀ s, m s = (Ok (invalid msg), s) else keepsSecrets echo m.

Lemma unary_unless {A} echo bad rest msg (k : FM (rpc A)) :
  unary echo rest k → unary echo (bad || rest) (unless bad (invalid msg) k).
Proof. intros Hk. unfold unless. destruct bad; [by exists msg|done]. Qed.

Lemma unary_path {A} echo path bad (k : FM (rpc A)) : keepsSecrets echo k → unary echo (badPath path) (withPath path bad k).
Proof.
  intros Hk. unfold withPath, badPath. apply unary_unless.
  unfold unless. destruct (IsValidFilePath path); [done|by eexists].
Qed.

Lemma unary_newName {A} echo path n bad (k : FM (rpc A)) :
  keepsSecrets echo k → unary echo (badPath path || badNewName n) (withNewName path n bad k).
Proof.
  intros Hk. unfold withNewName, badPath, badNewName.
  replace (bool_decide (path = "") || negb (IsValidFilePath path) || (bool_decide (n = "") || negb (IsValidFileName n)))
    with (bool_decide (path = "") || (bool_decide (n = "") || (negb (IsValidFilePath path)
      || (negb (IsValidFileName n) || false))))
    by (destruct (bool_decide (path = "")), (bool_decide (n = "")), (IsValidFilePath path), (IsValidFileName n); done).
  by repeat apply unary_unless.
Qed.

(** The methods that are not streams, ListFiles apart. *)
Definition plainUnary (c : call) : bool :=
  match c with CUpload _ _ | CDownload _ _ | CList _ => false | _ => true end.

Lemma accepted_map {A} (f : A → reply) r : accepted r → accepted (rpcMap f r).
Proof. by destruct r. Qed.

Lemma discreet_map {A} echo (f : A → reply) r : discreet echo r → discreet echo (rpcMap f r).
Proof. by destruct r. Qed.

(** The outcomes of a call. *)
Definition outcomeOf (c : call) s (ms : list DownloadResponse) (r : rpc reply) s' : Prop :=
  if refused c then s' = s ∧ ms = [] ∧ ∃ msg, r = invalid msg
  else if plainUnary c then discreet (echoed c) r else accepted r.

Lemma answer_decides {A} (f : A → reply) c (m : FM (rpc A)) s ms r s' :
  decides (refused c) m → plainUnary c = false → answer f m s = (Ok (ms, r), s') → outcomeOf c s ms r s'.
Proof.
  intros Hd Hp. unfold answer, outcomeOf, decides, mbind, M_bind in *. rewrite Hp.
  destruct (refused c).
  - destruct Hd as [msg Hm]. rewrite Hm. intros [= <- <- <-]. eauto.
  - destruct (m s) as [[a|e] s1] eqn:E; [|done]. intros [= <- <- <-].
    by eapply accepted_map, Hd.
Qed.

Lemma answer_unary {A} (f : A → reply) c (m : FM (rpc A)) s ms r s' :
  unary (echoed c) (refused c) m → plainUnary c = true → answer f m s = (Ok (ms, r), s') → outcomeOf c s ms r s'.
Proof.
  intros Hd Hp. unfold answer, outcomeOf, unary, mbind, M_bind in *. rewrite Hp.
  destruct (refused c).
  - destruct Hd as [msg Hm]. rewrite Hm. intros [= <- <- <-]. eauto.
  - destruct (m s) as [[a|e] s1] eqn:E; [|done]. intros [= <- <- <-].
    by eapply discreet_map, Hd.
Qed.

Lemma sendLoop_accepted fuel send k m n off (w : World) ms r w' :
  sendLoop fuel send k m n off w = (Ok (ms, r), w') → accepted r.
Proof.
  revert k off w ms r w'. induction fuel as [|fuel IH]; intros k off w ms r w'; [done|]. cbn [sendLoop].
  destruct (off <? fSize m)%Z; [|by intros [= <- <- _]].
  unfold mbind at 1, M_bind at 1, catch. destruct (DownloadFileDataAt _ _ _ w) as [[d|e] w1];
    [|by intros [= <- <- _]].
  destruct (_ =? 0)%Z; [by intros [= <- <- _]|]. destruct (send k); [by intros [= <- <- _]|].
  unfold mbind, M_bind. destruct (sendLoop _ _ _ _ _ _ w1) as [[[ms1 r1]|e] w2] eqn:E; [|done].
  intros [= _ <- _]. simpl. by eapply IH.
Qed.

Lemma handle_outcome c s ms r s' :
  handle sha256 uuid config c s = (Ok (ms, r), s') → outcomeOf c s ms r s'.
Proof.
  destruct c; cbn [handle].
  - apply answer_decides; [apply decides_upload|done].
  - unfold mbind, M_bind, DownloadFile, outcomeOf. cbn [refused plainUnary].
    destruct (IsValidFilePath (drPath req)); cbn [negb]; [|intros [= <- <- <-]; eauto].
    unfold mbind, M_bind, catch. destruct (inWorld (GetFileMetadata _) s) as [[m|e] s1].
    2: { by intros [= _ <- _]. }
    unfold inWorld. destruct s1 as [fm w]. destruct (sendLoop _ _ _ _ _ _ w) as [[[ms1 r1]|e] w2] eqn:E; [|done].
    intros [= _ <- _]. by eapply accepted_map, sendLoop_accepted.
  - apply answer_decides; [|done]. apply accepts_orFail; [done|]. intros l. by apply accepts_ret.
  - apply answer_unary; [apply unary_path, secrets_perform|done].
  - apply answer_unary; [apply unary_newName, secrets_perform|done].
  - apply answer_unary; [apply unary_path, secrets_perform|done].
  - apply answer_unary; [apply unary_path, secrets_perform|done].
  - apply answer_unary; [apply unary_newName, secrets_perform|done].
  - apply answer_unary; [|done]. cbn [refused echoed]. destruct (IsValidFilePath path) eqn:Ev.
    + by apply secrets_metadata.
    + unfold GetMetadata, unless. rewrite Ev. simpl. eauto.
Qed.

End refusals.

(** ** Behind the interceptors *)

Section guarded.
Context {Sg L St : Type} {T : Type → Type}.
Context `{StorageAdapter Sg} `{DistributedLock L} `{SessionStore sessionValue St}.
Context `{SqlEngine T} `{AEAD} `{JWTLib}.
Context (sha256 : bytes → bytes) (uuid : nat → string) (config : ServerConfig).
Context (range : gmap string User → list (string * User)).
Context (range_perm : ∀ m, range m ≡ₚ map_to_list m).
Notation World := (World Sg L St T).
Notation GrpcState := (GrpcState Sg L St T).
Implicit Types s : GrpcState.

Lemma authByHeader_same hs : steps sameKeys (authByHeader (T := T) sha256 range hs).
Proof.
  pose proof (ValidateApiKey_same (T := T) sha256 range). pose proof (GetUserByApiKey_same (T := T) sha256 range).
  pose proof (accessClaims_same (T := T)).
  induction hs as [|h hs IH]; simpl; unfold withUser; steps_auto.
Qed.

Lemma authenticate_same md : steps sameKeys (authenticate (T := T) sha256 range md).
Proof.
  pose proof (ValidateApiKey_same (T := T) sha256 range). pose proof (GetUserByApiKey_same (T := T) sha256 range).
  pose proof authByHeader_same. unfold authenticate, withUser. steps_auto.
Qed.

Lemma authorize_same method u : steps sameKeys (authorize (T := T) sha256 range method u).
Proof. pose proof (ValidateApiKey_same (T := T) sha256 range). unfold authorize. steps_auto. Qed.

(** No file, directory or session has changed. *)
Definition sameFiles s s' : Prop :=
  gfm s' = gfm s ∧ store (gw s') = store (gw s) ∧ db (gw s') = db (gw s) ∧ svc (gw s') = svc (gw s) ∧
  sess (gw s') = sess (gw s) ∧ dlock (gw s') = dlock (gw s) ∧ os (sys (gw s')) = os (sys (gw s)).

#[local] Instance sameFiles_preorder : PreOrder sameFiles.
Proof.
  unfold sameFiles. split; [by intros s|].
  intros s1 s2 s3 (? & ? & ? & ? & ? & ? & ?) (? & ? & ? & ? & ? & ? & ?). split_and!; congruence.
Qed.

(** What the authentication service sees of a state. *)
Definition authView s (a : AuthService) : AuthWorld T := MkAuthWorld (sys (gw s)) (db (gw s)) a.

Lemma onAuthSvc_same {A} (dflt : A) (m : M (AuthWorld T) A) s a r s' :
  gauth s = Some a → steps sameKeys m → onAuthSvc dflt m s = (r, s') →
  sameFiles s s' ∧ ∃ a', gauth s' = Some a' ∧ m (authView s a) = (r, authView s' a') ∧
    sameKeys (authView s a) (authView s' a').
Proof.
  intros Ha Hm. unfold onAuthSvc. rewrite Ha. specialize (Hm (authView s a)).
  fold (authView s a). destruct (m (authView s a)) as [r1 [sy d a1]]. simpl in Hm.
  intros [= <- <-]. pose proof Hm as (_ & Hd & [_ Hos] & _). simpl in *. subst d.
  split; [by repeat split|]. exists a1. by split_and!.
Qed.

Lemma method_permission c : ∃ action, permissionOf (fullMethod c) = Some ("files", action).
Proof. destruct c; eexists; vm_compute; reflexivity. Qed.

(** Someone who may make the call. *)
Definition entitled (md : option callMD) (c : call) s (a : AuthService) : Prop :=
  ∃ usr k resource action, permissionOf (fullMethod c) = Some (resource, action) ∧ presented md k ∧
    authentic sha256 (authView s a) k usr ∧ roleAllows (usRole usr) resource action = true.

Lemma serve_cases md c s a ms r s' :
  gauth s = Some a → authEnabled a = true →
  serve sha256 uuid config range md c s = (Ok (ms, r), s') →
  (sameFiles s s' ∧ ms = [] ∧ ∃ msg, r = Fail (Status Unauthenticated msg) ∨ r = Fail (Status PermissionDenied msg)) ∨
  (entitled md c s a ∧ ∃ s1 st, sameFiles s s1 ∧
     handle sha256 uuid config c (gfm s1, gw s1) = (Ok (ms, r), st) ∧ (gfm s', gw s') = st).
Proof.
  intros Ha He. unfold serve, authenticated, mbind at 1, M_bind at 1, catch at 1.
  destruct (onAuthSvc None _ s) as [ru s1] eqn:E1.
  apply (onAuthSvc_same None _ s a) in E1 as (Hf1 & a1 & Ha1 & E1 & S1); [|done|apply authenticate_same].
  destruct ru as [u|e]; [|intros [= <- <- <-]; left; eauto 10].
  apply authenticate_sound in E1 as [_ Hu]; [|done].
  unfold mbind at 1, M_bind at 1, catch at 1. destruct (onAuthSvc tt _ s1) as [ro s2] eqn:E2.
  apply (onAuthSvc_same tt _ s1 a1) in E2 as (Hf2 & a2 & Ha2 & E2 & S2); [|done|apply authorize_same].
  assert (sameFiles s s2) as Hf by (by etrans).
  destruct ro as [[]|e]; [|intros [= <- <- <-]; left; eauto 10]. intros Hr. right.
  destruct (method_permission c) as [action Hp].
  assert (authEnabled (aAuth (authView s1 a1)) = true) as He1
    by (rewrite (sameKeys_enabled _ _ S1); done).
  split.
  - destruct u as [usr|].
    + destruct (Hu usr eq_refl) as (k & Hk & Hau). exists usr, k, "files", action.
      rewrite (authorize_spec _ _ _ "files" action) in E2; [|done|done|by eapply authentic_enabled].
      split_and!; [done..|]. by destruct (roleAllows _ _ _).
    + unfold authorize, mbind, M_bind in E2. rewrite ValidateApiKey_empty, He1, Hp in E2. done.
  - exists s2. unfold measured, mbind, M_bind, onFM in Hr.
    destruct (handle _ _ _ c (gfm s2, gw s2)) as [[[ms1 r1]|e] [fm w]]; [|done].
    simpl in Hr. injection Hr as <- <- <-. by eexists.
Qed.

End guarded.

(** ** Downloads *)

(** Messages that follow one another from an offset, none empty and none larger than
    the chunk size. *)
Fixpoint consecutive (chunkSize total off : Z) (ms : list DownloadResponse) : Prop :=
  match ms with
  | [] => True
  | x :: ms =>
      dOffset x = off ∧ dTotalSize x = total ∧ (0 < blen (dData x) ≤ chunkSize)%Z ∧
      consecutive chunkSize total (off + blen (dData x)) ms
  end.

Definition payload (ms : list DownloadResponse) : bytes := concat (dData <$> ms).

(** What a client of the file [d] is sent. *)
Definition exactStream (d : bytes) (chunkSize total off : Z) (ms : list DownloadResponse) (r : rpc unit) : Prop :=
  consecutive chunkSize total off ms ∧
  payload ms `prefix_of` drop (Z.to_nat off) d ∧
  (r = Reply tt → total = blen d → payload ms = drop (Z.to_nat off) d).

Section downloads.
Context {Sg L St : Type} {T : Type → Type}.
Context `{StorageLaws Sg} `{DistributedLock L} `{SqlLaws T}.
Notation World := (World Sg L St T).
Context (w0 : World) (p : string) (ob : option bytes) (m : FileMetadata).
Context (Hp : safe p) (Hpm : fPath m = p).

(** The object and the metadata are there. *)
Definition servable (w : World) : Prop := onPath w0 p (eq ob) (eq (Some m)) w.

Lemma servable_dataAt n off :
  in64 n → in64 off →
  triple servable (DownloadFileDataAt (Some m) n off)
    (λ x w, ((0 < n)%Z ∧ (0 ≤ off)%Z ∧ ∃ d, ob = Some d ∧ x = readAt d (Z.to_nat off) (Z.to_nat n)) ∧ servable w)
    servable.
Proof.
  intros Hn Ho. simpl. rewrite Hpm, (safe_normal p Hp). apply triple_wrapErr.
  eapply triple_conseq; [apply (path_read w0 p Hp (eq ob) (eq (Some m)) (ReadAt p n off)
    (λ x y, (0 < n)%Z ∧ (0 ≤ off)%Z ∧ ∃ d, y = Some d ∧ x = readAt d (Z.to_nat off) (Z.to_nat n)))|done| |done].
  - intros x Hx. pose proof (read_at_spec p n off x Hx Hp Hn Ho) as Hr.
    destruct (ReadAt p n off x) as [r x']. destruct Hr as [Hf Hr]. split; [done|]. intros a ->. by apply Hr.
  - intros x w Hw. pose proof Hw as (_ & _ & [-> Hx] & _). split; [exact Hx|].
    eapply onPath_weaken; [| |exact Hw]; naive_solver.
Qed.

Lemma readAt_next (d x : bytes) off n :
  (0 ≤ off)%Z → x = readAt d (Z.to_nat off) n → x ≠ [] →
  drop (Z.to_nat off) d = x ++ drop (Z.to_nat (off + blen x)) d.
Proof.
  intros Ho Hx Hne. unfold readAt in Hx. unfold blen.
  replace (Z.to_nat (off + Z.of_nat (length x))) with (Z.to_nat off + length x)%nat by lia.
  rewrite <-drop_drop, <-(take_drop (length x) (drop (Z.to_nat off) d)) at 1. f_equal.
  subst x. set (l := drop _ d). rewrite length_take.
  destruct (decide (n ≤ length l)%nat); [by rewrite Nat.min_l by lia|].
  rewrite Nat.min_r by lia. by rewrite !take_ge by lia.
Qed.

Context (send : nat → option error) (n : Z) (Hn : (0 < n ≤ maxDownloadChunkSize)%Z).
Context (Hsize : (fSize m ≤ int64_max)%Z).

(** Every iteration sends at least one byte, so the loop ends. *)
Lemma sendLoop_spec fuel k off w :
  in64 off → (1 ≤ fuel)%nat → ((0 ≤ off)%Z → (Z.to_nat (fSize m - off) + 2 ≤ fuel)%nat) →
  servable w →
  ∃ ms r w', sendLoop fuel send k m n off w = (Ok (ms, r), w') ∧ servable w' ∧
    ∀ d, ob = Some d → (blen d ≤ int64_max)%Z → (0 ≤ off)%Z → exactStream d n (fSize m) off ms r.
Proof.
  revert k off w. induction fuel as [|fuel IH]; intros k off w Ho Hf1 Hf2 Hw; [lia|].
  assert (∀ r w', (∀ d, ob = Some d → r = Reply tt → fSize m = blen d → drop (Z.to_nat off) d = []) →
    servable w' →
    ∃ ms r0 w1, (Ok ([], r), w') = (Ok (ms, r0), w1) ∧ servable w1 ∧
      ∀ d, ob = Some d → (blen d ≤ int64_max)%Z → (0 ≤ off)%Z → exactStream d n (fSize m) off ms r0) as Hstop.
  { intros r w' Hr Hw'. exists [], r, w'. split_and!; [done..|]. intros d Hd Hmax Hoff.
    split_and!; [done|apply prefix_nil|]. intros Hr0 Hb. symmetry. by apply Hr. }
  cbn [sendLoop]. destruct (off <? fSize m)%Z eqn:Eoff; bool_prop.
  2: { apply Hstop; [|done]. intros d _ _ Hb. apply drop_ge. unfold blen in Hb. lia. }
  unfold mbind at 1, M_bind at 1, catch.
  pose proof (servable_dataAt n off ltac:(unfold in64, int64_min, int64_max, maxDownloadChunkSize in *; lia) Ho w Hw) as Hd.
  destruct (DownloadFileDataAt _ n off w) as [[x|e] w1]; [|by apply Hstop].
  destruct Hd as [(_ & Hpos & d & Hd & Hx) Hw1].
  destruct (blen x =? 0)%Z eqn:Ex; bool_prop.
  { apply Hstop; [|done]. intros d' Hd' _ _. assert (d' = d) as -> by congruence. rewrite Hx in Ex. unfold readAt, blen in Ex.
    destruct (drop (Z.to_nat off) d); [done|]. rewrite length_take in Ex. simpl in Ex. lia. }
  destruct (send k); [by apply Hstop|].
  assert (0 < blen x ≤ n)%Z as Hlen.
  { split; [unfold blen in *; lia|]. rewrite Hx. unfold readAt, blen. rewrite length_take. lia. }
  assert (off + blen x < 2 ^ 63 + 2 ^ 62)%Z as Hsum.
  { unfold in64, int64_max, maxDownloadChunkSize in *. lia. }
  destruct (IH (S k) (wrap64 (off + blen x)) w1) as (ms & r & w2 & Hr & Hw2 & Hms);
    [apply wrap64_in64| | |done|].
  { specialize (Hf2 Hpos). lia. }
  { intros Hn2. specialize (Hf2 Hpos).
    destruct (wrap64_cases (off + blen x)) as [He|[[? He]|[? He]]]; unfold int64_min, int64_max, in64 in *; lia. }
  unfold mbind, M_bind. rewrite Hr. eexists _, r, w2. split; [done|]. split; [done|].
  intros d' Hd' Hmax _. assert (d' = d) as -> by congruence. cbn [fst snd].
  assert (x ≠ []) as Hne by (intros E; rewrite E in Hlen; by destruct Hlen).
  pose proof (readAt_next d x off _ Hpos Hx Hne) as Hnext.
  assert (off + blen x ≤ blen d)%Z as Hin.
  { apply (f_equal length) in Hnext. rewrite length_app, !length_drop in Hnext. unfold blen in *. lia. }
  rewrite wrap64_id in Hms by (unfold in64, int64_min in *; lia).
  destruct (Hms d Hd Hmax ltac:(lia)) as (Hc & Hpre & Hall). split_and!.
  - cbn [consecutive dOffset dTotalSize dData]. split_and!; [done|done|lia|lia|done].
  - unfold payload in *. rewrite Hnext. simpl. by apply prefix_app.
  - intros Hr0 Hb. unfold payload in *. rewrite Hnext. simpl. f_equal. by apply Hall.
Qed.
End downloads.

Section download_call.
Context {Sg L St : Type} {T : Type → Type}.
Context `{StorageLaws Sg} `{DistributedLock L} `{SqlLaws T}.
Notation World := (World Sg L St T).
Implicit Types w : World.

(** The fields of the message: an int64 and an int32. *)
Definition typedRequest (req : DownloadRequest) : Prop :=
  in64 (drOffset req) ∧ (- 2 ^ 31 ≤ drChunkSize req < 2 ^ 31)%Z.

Definition startOf (req : DownloadRequest) : Z := if (0 <? drOffset req)%Z then drOffset req else 0%Z.

Lemma downloadChunkSize_range req : (0 < downloadChunkSize req ≤ maxDownloadChunkSize)%Z.
Proof.
  unfold downloadChunkSize, maxDownloadChunkSize.
  repeat (match goal with |- context [(?a <=? ?b)%Z] => destruct (Z.leb_spec a b)
    | |- context [(?a <? ?b)%Z] => destruct (Z.ltb_spec a b) end); lia.
Qed.

(** A download returns, and sends the bytes of the object. *)
Lemma grpc_DownloadFile_spec req send fm w0 w p ob vv :
  typedRequest req → NormalizePath (drPath req) = p → onPath w0 p (eq ob) (eq vv) w →
  (∀ m, vv = Some m → fPath m = p ∧ (fSize m ≤ int64_max)%Z) →
  ∃ ms r fm' w', DownloadFile req send (fm, w) = (Ok (ms, r), (fm', w')) ∧ onPath w0 p (eq ob) (eq vv) w' ∧
    (r = Reply tt → is_Some vv) ∧
    ∀ d, ob = Some d → (blen d ≤ int64_max)%Z →
      exactStream d (downloadChunkSize req) (default 0%Z (fSize <$> vv)) (startOf req) ms
        (match vv with Some _ => r | None => invalid "" end).
Proof.
  intros [Ho Hc] Hp Hon Hv. unfold DownloadFile.
  assert (∀ r' w', r' ≠ Reply tt → onPath w0 p (eq ob) (eq vv) w' →
    ∃ ms r fm1 w1, (Ok ([], r'), (fm, w')) = (Ok (ms, r), (fm1, w1)) ∧ onPath w0 p (eq ob) (eq vv) w1 ∧
    (r = Reply tt → is_Some vv) ∧
    ∀ d, ob = Some d → (blen d ≤ int64_max)%Z →
      exactStream d (downloadChunkSize req) (default 0%Z (fSize <$> vv)) (startOf req) ms
        (match vv with Some _ => r | None => invalid "" end)) as Hfail.
  { intros r' w' Hr Hw'. exists [], r', fm, w'. split_and!; [done..|]. intros d _ _.
    split_and!; [done|apply prefix_nil|]. by destruct vv. }
  destruct (IsValidFilePath (drPath req)) eqn:Ev; cbn [negb]; [|by apply Hfail].
  assert (safe p) as Hs by (subst p; eexists; by apply valid_path_safeKey).
  unfold mbind, M_bind, catch, inWorld at 1.
  pose proof (path_meta w0 p Hs (eq ob) (eq vv) w Hon) as Hm.
  assert (GetFileMetadata (drPath req) w = GetFileMetadata p w) as ->.
  { unfold GetFileMetadata. by rewrite Hp, (safe_normal p Hs). }
  destruct (GetFileMetadata p w) as [[m|e] w1]; [|by apply Hfail].
  pose proof Hm as (_ & _ & _ & [Hvv Hm1]).
  assert (vv = Some m) as -> by congruence. destruct (Hv m eq_refl) as [Hpm Hsz].
  assert (servable w0 p ob m w1) as Hsv by (eapply onPath_weaken; [| |exact Hm]; naive_solver).
  fold (startOf req). unfold inWorld.
  assert (in64 (startOf req) ∧ (0 ≤ startOf req)%Z) as [Hi H0'].
  { unfold startOf, in64, int64_min, int64_max in *. destruct (Z.ltb_spec 0 (drOffset req)); lia. }
  destruct (sendLoop_spec w0 p ob m Hs Hpm send _ (downloadChunkSize_range req) Hsz
    (Z.to_nat (fSize m - startOf req) + 2) 0 (startOf req) w1) as (ms & r & w2 & -> & Hw2 & Hms);
    [done|lia|lia|done|].
  exists ms, r, fm, w2. split_and!; [done|done|by intros _; eexists|]. intros d Hd Hmax. by apply Hms.
Qed.

End download_call.

(** ** The session of an upload *)

Section session.
Context {Sg L St : Type} {T : Type → Type}.
Context `{StorageAdapter Sg} `{DistributedLock L} `{SessionStore sessionValue St}.
Context `{SqlEngine T} `{AEAD}.
Context (sha256 : bytes → bytes) (uuid : nat → string) (config : ServerConfig).
Notation World := (World Sg L St T).
Notation FM := (M (FileManager * World)).
Context (m0 : gmap string UploadSession) (mp : gmap string MultipartUploadSession).

(** The one error after which the session stays: the stream ended too early. *)
Definition incomplete : rpc UploadResponse :=
  wrapped "failed to complete upload" (ErrMsg "upload incomplete").

(** The table of sessions is as it was, or the upload is incomplete. *)
Definition ends (k : FM (rpc UploadResponse)) (pre : FileTransferService → Prop) (id : string) : Prop :=
  ∀ fm w r fm' w', pre (svc w) → k (fm, w) = (Ok r, (fm', w')) →
  closed m0 mp (svc w') ∨ (r = incomplete ∧ opened m0 mp id (svc w')).

Lemma opened_lookup id v : opened m0 mp id v → ∃ s, uploadSessions v !! id = Some s.
Proof. intros (_ & [s Hs] & _). exists s. by rewrite Hs, lookup_insert_eq. Qed.

Section one_session.
Context (id : string) (Hfresh : m0 !! id = None).
Notation ends k := (ends k (opened m0 mp id) id).

Lemma ends_aborting r : ends (aborting id r).
Proof.
  intros fm w r' fm' w' Ho. destruct (opened_lookup id _ Ho) as [s Hs].
  pose proof (AbortUpload_ends id (opened m0 mp id) (closed m0 mp) (opened_end m0 mp id Hfresh) s w Hs Ho) as Ha.
  unfold aborting, mbind, M_bind, ignore, inWorld. destruct (AbortUpload id w) as [x w1].
  intros [= <- <- <-]. by left.
Qed.

Lemma ends_chunk c k : ends k → ends (uploadOrAbort id c k).
Proof.
  intros Hk fm w r fm' w' Ho. destruct (opened_lookup id _ Ho) as [s Hs].
  pose proof (chunk_keeps_session id (opened m0 mp id) (opened_set m0 mp id) (ucData c) (ucOffset c) s w Hs Ho) as Hc.
  unfold uploadOrAbort, mbind, M_bind, catch, inWorld at 1.
  destruct (UploadChunk id (ucData c) (ucOffset c) w) as [[x|e] w1]; simpl in Hc.
  - by apply Hk.
  - intros Hr. eapply (ends_aborting _ fm w1); [exact Hc|exact Hr].
Qed.

Lemma ends_rest ms br k : ends k → ends (uploadRest id ms br k).
Proof.
  intros Hk. induction ms as [|m ms IH]; simpl; [destruct br; [apply ends_aborting|done]|].
  destruct m; [apply ends_aborting|by apply ends_chunk|apply ends_aborting].
Qed.

Lemma same_GetFileMetadata path : steps sameSvc (GetFileMetadata (Sg := Sg) (L := L) (St := St) (T := T) path).
Proof. unfold GetFileMetadata. steps_auto. apply same_onDB. Qed.

Lemma ends_finish send m : ends (finishUpload sha256 uuid send id m).
Proof.
  intros fm w r fm' w' Ho. destruct (opened_lookup id _ Ho) as [s Hs].
  unfold finishUpload. rewrite orFail_run. unfold inWorld at 1.
  pose proof (CompleteUpload_ends sha256 uuid id (opened m0 mp id) (closed m0 mp) (opened_set m0 mp id)
    (opened_end m0 mp id Hfresh) s w Hs Ho) as Hc.
  destruct (CompleteUpload sha256 uuid id w) as [[x|e] w1].
  - destruct Hc as [Hc|[? _]]; [|done]. rewrite orFail_run. unfold inWorld.
    pose proof (same_GetFileMetadata (umPath m) w1) as Hg. intros Hr. left.
    destruct (GetFileMetadata (umPath m) w1) as [[y|e] w2]; simpl in Hg; injection Hr as <- <- <-; by rewrite Hg.
  - intros [= <- <- <-]. destruct Hc as [Hc|[[= ->] ->]]; [by left|by right].
Qed.
End one_session.

Lemma ends_session send m first next rest fm w r fm' w' :
  closed m0 mp (svc w) → m0 !! uuid (tick (sys w)) = None →
  uploadSession sha256 uuid send m first next rest (fm, w) = (Ok r, (fm', w')) →
  closed m0 mp (svc w') ∨ (r = incomplete ∧ opened m0 mp (uuid (tick (sys w))) (svc w')).
Proof.
  intros Hc Hf. unfold uploadSession. rewrite orFail_run. unfold inWorld at 1.
  pose proof (create_opens uuid m0 mp (umPath m) (umName m) (umTotalSize m) "" (umHash m) w Hc Hf) as Hcr.
  destruct (CreateUploadSession _ _ _ _ _ _ w) as [[id|e] w1]; [|intros [= <- <- <-]; by left].
  destruct Hcr as [-> Ho]. set (id := uuid (tick (sys w))) in *. cbv zeta.
  pose proof (ends_rest id Hf (msgs rest) (broken rest) _ (ends_finish id Hf send m)) as Hrest.
  intros Hr. eapply ends_chunk in Hr; [exact Hr|exact Hf| |exact Ho].
  destruct next as [[[]|]|]; auto using ends_chunk, ends_aborting.
Qed.

Lemma same_uploadBody path d : steps sameSvc (uploadBody (Sg := Sg) (L := L) (St := St) (T := T) sha256 uuid path d).
Proof.
  pose proof @same_onDB. pose proof @same_onStore. pose proof @same_onOS.
  unfold uploadBody, existingMeta, FExists, overwrite, writeNew, nowString, GenerateUUID. steps_auto.
Qed.

Lemma same_underLock {A} path (m : M World A) fm w :
  steps sameSvc m → svc (underLock path m (fm, w)).2.2 = svc w.
Proof.
  intros Hm. unfold underLock, mbind at 1, M_bind at 1. simpl.
  assert (steps sameSvc (token ← distLockFile path; deferring m (distUnlockFile path token))) as Hs.
  { pose proof @same_acquire. pose proof @same_release. unfold distLockFile, distUnlockFile. steps_auto. }
  specialize (Hs w). revert Hs. generalize (token ← distLockFile (Sg := Sg) (L := L) (St := St) (T := T) path;
    deferring m (distUnlockFile path token)). intros k. by destruct (k w).
Qed.

Lemma ends_upload stream send fm w r fm' w' :
  closed m0 mp (svc w) → m0 !! uuid (tick (sys w)) = None →
  UploadFile sha256 uuid config stream send (fm, w) = (Ok r, (fm', w')) →
  closed m0 mp (svc w') ∨ (r = incomplete ∧ opened m0 mp (uuid (tick (sys w))) (svc w')).
Proof.
  intros Hc Hf. unfold UploadFile, readFirst, unless.
  destruct (Recv stream) as [[[[m|c|]|]|e] s1]; try by intros [= <- <- <-]; left.
  repeat (match goal with |- context [if ?b then mret _ else _] => destruct b end; [by intros [= <- <- <-]; left|]).
  destruct (Recv s1) as [[[[m2|c|]|]|e] s2]; try by intros [= <- <- <-]; left.
  destruct (Recv s2) as [next s3]. destruct (_ && _); [|by apply ends_session].
  unfold uploadFileFastPath, unless. destruct (_ && _); [by intros [= <- <- <-]; left|].
  rewrite orFail_run. unfold FileManager.UploadFile.
  pose proof (same_underLock (NormalizePath (umPath m)) _ fm w (same_uploadBody (NormalizePath (umPath m)) (ucData c))) as Hs.
  destruct (underLock _ _ (fm, w)) as [[x|e] [fm1 w1]]; simpl in Hs; intros [= <- <- <-]; left; by rewrite Hs.
Qed.

End session.

(** ** What an upload stores *)

(** The chunks of a stream, in its order. *)
Definition chunksIn (ms : list UploadRequest) : list (bytes * Z) :=
  omap (λ m, match m with RChunk c => Some (ucData c, ucOffset c) | _ => None end) ms.

(** The fields of the messages are int64. *)
Definition typedMessage (m : UploadRequest) : Prop :=
  match m with RMetadata m => in64 (umTotalSize m) | RChunk c => in64 (ucOffset c) | RUnset => True end.

Lemma writeAt_whole (d x : bytes) : length d = length x → writeAt d 0 x = x.
Proof.
  intros Hl. unfold writeAt. destruct x as [|b x]; [by destruct d|]. simpl take.
  rewrite drop_ge by (simpl in *; lia). by rewrite app_nil_r.
Qed.

(** Encryption is off. *)
Definition plaintext (cs : option CryptoService) : Prop :=
  match cs with Some c => IsEnabled c = false | None => True end.

Section stored.
Context {Sg L St : Type} {T : Type → Type}.
Context `{StorageLaws Sg} `{DistributedLock L} `{SessionStore sessionValue St}.
Context `{SqlLaws T} `{AEADLaws}.
Context (sha256 : bytes → bytes) (uuid : nat → string) (config : ServerConfig).
Notation World := (World Sg L St T).
Notation FM := (M (FileManager * World)).
Context (td : string) (cs : option CryptoService) (Hcs : plaintext cs).
Context (w0 : World) (meta : UploadMetadata) (Hp : safe (NormalizePath (umPath meta))).
Notation p := (NormalizePath (umPath meta)).

(** The file is [d], and nothing else has changed. *)
Definition uploadedAs (d : bytes) (r : UploadResponse) (w : World) : Prop :=
  blen d = umTotalSize meta ∧ (umHash meta ≠ "" → umHash meta = EncodeToString (sha256 d)) ∧
  ∃ m, r = uploadResponse m ∧ fPath m = p ∧ fSize m = blen d ∧
    onPath w0 p (eq (Some d)) (eq (Some m)) w.

Lemma fast_stored send d fm w r fm' w' :
  sound w → w0 = w → blen d = umTotalSize meta →
  uploadFileFastPath sha256 uuid send meta d (fm, w) = (Ok (Reply r), (fm', w')) → uploadedAs d r w'.
Proof.
  intros Hs <- Hd. unfold uploadFileFastPath, unless. destruct (_ && _) eqn:Eh; [done|].
  rewrite orFail_run. pose proof (UploadFile_spec sha256 uuid (umPath meta) d fm w0 Hp Hs) as Hu.
  destruct (FileManager.UploadFile _ _ _ _ (fm, w0)) as [[m|e] [fm1 w1]]; [|done].
  destruct Hu as (Hon & Hpm & Hsz & _). destruct send; [done|]. intros [= <- <- <-].
  split; [done|]. split; [|exists m; split_and!; try done].
  intros Hne. destruct (decide (EncodeToString (sha256 d) = umHash meta)) as [He|He]; [done|].
  rewrite !bool_decide_eq_false_2 in Eh by done. done.
Qed.

(** ** The session path *)

Section going.
Context (id : string).
Notation going := (SessionFrame.going td cs w0 p (umHash meta) (umTotalSize meta) id).

Lemma chunk_reply {A} ws c (k : FM (rpc A)) fm w a s' :
  in64 (umTotalSize meta) → in64 (ucOffset c) → going ws w →
  uploadOrAbort id c k (fm, w) = (Ok (Reply a), s') →
  ∃ w1, going (ws ++ [(ucData c, ucOffset c)]) w1 ∧ k (fm, w1) = (Ok (Reply a), s').
Proof.
  intros Ht Ho Hg Hr. unfold uploadOrAbort, mbind, M_bind, catch, inWorld at 1 in Hr.
  destruct (UploadChunk id _ _ w) as [[[]|e] w1] eqn:E; [exists w1; split; [by eapply (going_chunk td cs w0 p Hp)|done]|].
  unfold aborting, mbind, M_bind, ignore, inWorld in Hr. by destruct (AbortUpload id w1) as [x w2].
Qed.

Lemma rest_reply {A} ms br (k : FM (rpc A)) ws fm w a s' :
  in64 (umTotalSize meta) → Forall typedMessage ms → going ws w →
  uploadRest id ms br k (fm, w) = (Ok (Reply a), s') →
  ∃ w1, going (ws ++ chunksIn ms) w1 ∧ k (fm, w1) = (Ok (Reply a), s').
Proof.
  intros Ht. revert ws w. induction ms as [|m ms IH]; intros ws w Hty Hg; simpl.
  - rewrite app_nil_r. destruct br; [|by exists w].
    unfold aborting, mbind, M_bind, ignore, inWorld. by destruct (AbortUpload id w).
  - apply Forall_cons in Hty as [Hm Hty].
    destruct m as [m|c|]; try (unfold aborting, mbind, M_bind, ignore, inWorld; by destruct (AbortUpload id w)).
    intros (w1 & Hg1 & Hr)%(chunk_reply ws c _ fm w a s'); [|done..].
    destruct (IH _ w1 Hty Hg1 Hr) as (w2 & Hg2 & Hk). exists w2. split; [|done]. by rewrite <-app_assoc in Hg2.
Qed.

Lemma finish_reply send ws fm w r fm' w' :
  going ws w → finishUpload sha256 uuid send id meta (fm, w) = (Ok (Reply r), (fm', w')) →
  uploadedAs (contentOf (umTotalSize meta) ws) r w'.
Proof.
  intros Hg. unfold finishUpload. rewrite orFail_run. unfold inWorld at 1.
  destruct (CompleteUpload sha256 uuid id w) as [[res|e] w1] eqn:Ec; [|done].
  destruct (going_complete sha256 uuid td cs w0 p Hp _ _ id ws w res w1 Hg Ec)
    as (Hd & Hh & _ & e & h & m & Hsa & Hon & Hpm & Hsz & _).
  assert (e = contentOf (umTotalSize meta) ws) as ->.
  { unfold storedAs, plaintext in *. destruct cs; [rewrite Hcs in Hsa|]; by destruct Hsa. }
  rewrite orFail_run. unfold inWorld.
  pose proof (path_meta w0 p Hp _ _ w1 Hon) as Hm.
  assert (GetFileMetadata (umPath meta) w1 = GetFileMetadata p w1) as ->.
  { unfold GetFileMetadata. by rewrite (safe_normal p Hp). }
  destruct (GetFileMetadata p w1) as [[m'|e'] w2]; [|done].
  destruct send; [done|]. intros [= <- <- <-]. pose proof Hm as (_ & _ & _ & [Hm1 Hm2]).
  assert (m' = m) as -> by congruence.
  split; [done|]. split; [done|]. exists m. split_and!; [done|done|congruence|].
  eapply onPath_weaken; [| |exact Hm]; naive_solver.
Qed.
End going.

(** What the server needs to be able to store: the temp files of every session are
    outside the storage, and reads of them do not break off. *)
Definition fit (w : World) : Prop :=
  (∀ n, intact td cs (uuid n) w) ∧ wholeReads w.

Lemma session_stored send first next rest fm w r fm' w' :
  in64 (umTotalSize meta) → in64 (ucOffset first) → Forall typedMessage (msgs rest) →
  (∀ c, next = Ok (Some (RChunk c)) → in64 (ucOffset c)) →
  fit w → w0 = w →
  uploadSession sha256 uuid send meta first next rest (fm, w) = (Ok (Reply r), (fm', w')) →
  uploadedAs (contentOf (umTotalSize meta) ((ucData first, ucOffset first) ::
    chunksIn (match next with Ok (Some m) => [m] | _ => [] end ++ msgs rest))) r w'.
Proof.
  intros Ht Hf Hty Hn [Hi Hw] <-. unfold uploadSession. rewrite orFail_run. unfold inWorld at 1.
  destruct (CreateUploadSession _ _ _ _ _ _ w0) as [[id|e] w1] eqn:Ec; [|done].
  assert (going td cs w0 p (umHash meta) (umTotalSize meta) id [] w1) as Hg.
  { eapply (going_start uuid); [done|done|done| |done|exact Ec].
    pose proof (create_id uuid _ _ _ _ _ _ _ _ Ec) as ->. apply Hi. }
  cbv zeta. intros Hr. apply (chunk_reply id []) in Hr as (w2 & Hg2 & Hr); [|done..].
  assert (∀ ws w3, going td cs w0 p (umHash meta) (umTotalSize meta) id ws w3 → uploadRest id (msgs rest) (broken rest)
    (finishUpload sha256 uuid send id meta) (fm, w3) = (Ok (Reply r), (fm', w')) →
    uploadedAs (contentOf (umTotalSize meta) (ws ++ chunksIn (msgs rest))) r w') as Hrest.
  { intros ws w3 Hg3 (w4 & Hg4 & Hk)%(rest_reply id _ _ _ ws); [|done..]. by eapply finish_reply. }
  destruct next as [[m|]|e].
  - destruct m as [m|c|].
    + exact (Hrest _ w2 Hg2 Hr).
    + apply (chunk_reply id) with (ws := [] ++ [(ucData first, ucOffset first)]) in Hr
        as (w3 & Hg3 & Hr); [|done|by apply Hn|done..]. apply (Hrest _ w3 Hg3 Hr).
    + exact (Hrest _ w2 Hg2 Hr).
  - exact (Hrest _ w2 Hg2 Hr).
  - unfold aborting, mbind, M_bind, ignore, inWorld in Hr. by destruct (AbortUpload id w2).
Qed.

(** Either path of an upload. *)
Lemma upload_stored stream send rest fm w r fm' w' :
  Forall typedMessage (msgs stream) → msgs stream = RMetadata meta :: rest → fit w → sound w → w0 = w →
  UploadFile sha256 uuid config stream send (fm, w) = (Ok (Reply r), (fm', w')) →
  uploadedAs (contentOf (umTotalSize meta) (chunksIn rest)) r w'.
Proof.
  destruct stream as [ms br]. cbn [msgs]. intros Hty -> Hfit Hs Hw0.
  apply Forall_cons in Hty as [Ht Hty]. unfold UploadFile, readFirst, unless, Recv at 1. cbn [msgs broken].
  repeat (match goal with |- context [if ?b then mret _ else _] => destruct b end; [done|]).
  destruct rest as [|[m2|first|] rest]; unfold Recv at 1; cbn [msgs broken]; [by destruct br|done| |done].
  apply Forall_cons in Hty as [Hfo Hty]. cbn [typedMessage] in *.
  destruct rest as [|next rest]; unfold Recv; cbn [msgs broken].
  - destruct (_ && _) eqn:Eb.
    + bool_prop. destruct br; [done|]. intros Hr.
      assert (contentOf (umTotalSize meta) (chunksIn [RChunk first]) = ucData first) as ->.
      { unfold contentOf, chunksIn. simpl. replace (Z.to_nat (ucOffset first)) with 0%nat by lia.
        apply writeAt_whole. rewrite length_replicate. unfold blen in *. lia. }
      by eapply fast_stored.
    + intros Hr. eapply session_stored in Hr; [by destruct br|..]; try done. by destruct br.
  - rewrite andb_false_l. apply Forall_cons in Hty as [Hno Hty]. intros Hr.
    eapply session_stored in Hr; [exact Hr|..]; try done. by intros c [= ->].
Qed.

End stored.

(** ** Properties *)

(** C4: what is uploaded over gRPC is what is downloaded, as long as encryption is
    off. An upload that was answered, on the fast path or through a session, has
    stored the chunks of its stream, each at its offset: a file of the declared size,
    with the declared hash when there was one, under the path, and no other file has
    changed. A download of the path then ends for every offset and chunk size and
    whatever the stream to the client does, and its messages are consecutive pieces
    of that file from the offset on; they are all of it unless the call fails. *)
Theorem grpc_round_trip {Sg L St T} `{StorageLaws Sg} `{DistributedLock L}
    `{SessionStore sessionValue St} `{SqlLaws T} `{AEADLaws}
    (sha256 : bytes → bytes) (uuid : nat → string) (config : ServerConfig)
    (td : string) (cs : option CryptoService) (stream : clientStream) (send : option error)
    (r : UploadResponse) (fm fm' : FileManager) (w w' : World Sg L St T) :
  plaintext cs → Forall typedMessage (msgs stream) → fit uuid td cs w → sound w →
  UploadFile sha256 uuid config stream send (fm, w) = (Ok (Reply r), (fm', w')) →
  ∃ meta rest, msgs stream = RMetadata meta :: rest ∧
    let p := NormalizePath (umPath meta) in
    let d := contentOf (umTotalSize meta) (chunksIn rest) in
    blen d = umTotalSize meta ∧ (umHash meta ≠ "" → umHash meta = EncodeToString (sha256 d)) ∧
    urPath r = p ∧ urSize r = blen d ∧ FileManager.others (eq p) w w' ∧
    ∀ req sends, typedRequest req → NormalizePath (drPath req) = p →
      ∃ ms r2 s2, DownloadFile req sends (fm', w') = (Ok (ms, r2), s2) ∧
        exactStream d (downloadChunkSize req) (blen d) (startOf req) ms r2.
Proof.
  intros Hcs Hty Hfit Hs Hu. destruct (msgs stream) as [|m0 rest] eqn:Em.
  { exfalso. revert Hu. unfold UploadFile, readFirst, Recv. rewrite Em. by destruct (broken stream). }
  destruct m0 as [meta|c|]; [|by exfalso; revert Hu; unfold UploadFile, readFirst, Recv; rewrite Em..].
  exists meta, rest. split; [done|]. cbv zeta.
  assert (safe (NormalizePath (umPath meta))) as Hp.
  { revert Hu. unfold UploadFile, readFirst, Recv at 1, unless. rewrite Em.
    destruct (IsValidFilePath (umPath meta)) eqn:Ev; [|done]. intros _. eexists. by apply valid_path_safeKey. }
  rewrite <-Em in Hty.
  destruct (upload_stored sha256 uuid config td cs Hcs w meta Hp stream send rest fm w r fm' w'
    Hty Em Hfit Hs eq_refl Hu) as (Hd & Hh & m & -> & Hpm & Hsz & Hon).
  assert (in64 (umTotalSize meta)) as Ht by (rewrite Em in Hty; by apply Forall_cons in Hty as [? _]).
  split_and!; [done..|apply Hon|]. intros req sends Hreq Hpath.
  destruct (grpc_DownloadFile_spec req sends fm' w w' _ _ _ Hreq Hpath Hon) as (ms & r2 & fm2 & w2 & Hr & _ & _ & Hx).
  { intros m' [= <-]. split; [done|]. rewrite Hsz, Hd. apply Ht. }
  exists ms, r2, (fm2, w2). split; [done|]. simpl in Hx. rewrite <-Hsz. apply Hx; [done|].
  rewrite Hd. apply Ht.
Qed.

(** C18: the gRPC server refuses bad requests without effect and does not talk about
    its inside. With authentication on, a call is answered Unauthenticated or
    PermissionDenied, with no file, directory or session changed, unless it presents a
    credential that is valid and whose role allows the method. A call with bad
    arguments is answered InvalidArgument, again with nothing changed, and no other
    call is. The errors of the other unary methods, ListFiles apart, are Internal with a
    fixed text, and for GetMetadata also NotFound with a text that repeats the path it was
    sent; the two streaming methods and ListFiles may also return a wrapped error of the
    service. *)
Theorem grpc_refusals {Sg L St T} `{StorageAdapter Sg} `{DistributedLock L}
    `{SessionStore sessionValue St} `{SqlEngine T} `{AEAD} `{JWTLib}
    (sha256 : bytes → bytes) (uuid : nat → string) (config : ServerConfig)
    (range : gmap string User → list (string * User))
    (md : option callMD) (c : call) (a : AuthService) (ms : list DownloadResponse) (r : rpc reply)
    (s s' : GrpcState Sg L St T) :
  (∀ m, range m ≡ₚ map_to_list m) → gauth s = Some a → authEnabled a = true →
  serve sha256 uuid config range md c s = (Ok (ms, r), s') →
  (sameFiles s s' ∧ ms = [] ∧
     ∃ msg, r = Fail (Status Unauthenticated msg) ∨ r = Fail (Status PermissionDenied msg)) ∨
  (entitled sha256 md c s a ∧
     if refused sha256 config c then sameFiles s s' ∧ ms = [] ∧ ∃ msg, r = Fail (Status InvalidArgument msg)
     else if plainUnary c then discreet (echoed c) r else accepted r).
Proof.
  intros Hr Ha He Hs.
  destruct (serve_cases sha256 uuid config range Hr md c s a ms r s' Ha He Hs)
    as [Hd|(Hent & s1 & st & Hf & Hh & Hst)]; [by left|]. right. split; [done|].
  pose proof (handle_outcome sha256 uuid config c _ ms r st Hh) as Ho. unfold outcomeOf in Ho.
  destruct (refused sha256 config c); [|done]. destruct Ho as (-> & -> & msg & ->).
  injection Hst as Hfm Hw. split; [|by split; [|eexists]].
  unfold sameFiles in *. by rewrite Hfm, Hw.
Qed.

(** C10: an upload over gRPC does not leave its session behind. Whatever the stream
    carries and however it ends, after the call the tables of sessions and the count
    of slots are what they were before, with one exception: a stream that ends before
    the declared size is answered with an error and its session stays open. *)
Theorem grpc_session_ends {Sg L St T} `{StorageAdapter Sg} `{DistributedLock L}
    `{SessionStore sessionValue St} `{SqlEngine T} `{AEAD}
    (sha256 : bytes → bytes) (uuid : nat → string) (config : ServerConfig)
    (stream : clientStream) (send : option error) (r : rpc UploadResponse)
    (fm fm' : FileManager) (w w' : World Sg L St T) :
  balanced w → uploadSessions (svc w) !! uuid (tick (sys w)) = None →
  UploadFile sha256 uuid config stream send (fm, w) = (Ok r, (fm', w')) →
  multipartSessions (svc w') = multipartSessions (svc w) ∧
  (uploadSessions (svc w') = uploadSessions (svc w) ∧ sessionCount (svc w') = sessionCount (svc w) ∨
   r = incomplete ∧ (∃ s, uploadSessions (svc w') = <[uuid (tick (sys w)) := s]> (uploadSessions (svc w))) ∧
   sessionCount (svc w') = (sessionCount (svc w) + 1)%Z).
Proof.
  intros Hb Hf Hu.
  assert (closed (uploadSessions (svc w)) (multipartSessions (svc w)) (svc w)) as Hc by done.
  destruct (ends_upload sha256 uuid config _ _ stream send fm w r fm' w' Hc Hf Hu)
    as [(Hb' & Hu' & Hm')|(-> & Hb' & [s Hu'] & Hm')]; (split; [done|]); [left|right];
    destruct Hb as (Hn & _), Hb' as (Hn' & _); rewrite Hn, Hn'; unfold sessions; rewrite Hu', Hm'.
  - done.
  - rewrite map_size_insert_None by done. split_and!; [done|by exists s|lia].
Qed.

(** ** Examples *)

Definition demoServerConfig : ServerConfig := MkServer 8080 8443 9090 true 8 1 1 100 "" [].

Definition demoMeta (total : Z) (hash : string) : UploadRequest :=
  RMetadata (MkUploadMetadata "/dir/f.txt" "f.txt" total hash).
Definition demoChunkMsg (d : bytes) (off : Z) : UploadRequest := RChunk (MkUploadChunkMsg d off).

(** Two chunks, and a single one. *)
Definition demoStream : clientStream :=
  MkClientStream [demoMeta 4 "61626364"; demoChunkMsg cd 2; demoChunkMsg ab 0] None.
Definition demoSmall : clientStream :=
  MkClientStream [demoMeta 4 "61626364"; demoChunkMsg (ab ++ cd) 0] None.

Notation grpcUpload stream w :=
  (UploadFile (T := list) demoSHA (λ _, "id") demoServerConfig stream None (NewFileManager, w)).
Notation grpcDownload n off s :=
  (DownloadFile (T := list) (MkDownloadRequest "dir/f.txt" off n) (λ _, None) s).

Lemma grpc_round_trip_witness :
  ∃ ms r2 s2, grpcDownload 3 1 (grpcUpload demoStream demo).2 = (Ok (ms, r2), s2) ∧
    exactStream (ab ++ cd) 3 4 1 ms r2.
Proof.
  destruct (grpc_round_trip demoSHA (λ _, "id") demoServerConfig "/tmp/up" None demoStream None
    match (grpcUpload demoStream demo).1 with Ok (Reply r) => r | _ => MkUploadResponse "" "" "" 0 "" None end
    NewFileManager (grpcUpload demoStream demo).2.1 demo (grpcUpload demoStream demo).2.2)
    as (meta & rest & Hm & _ & _ & _ & _ & _ & Hd).
  - exact I.
  - repeat constructor; vm_compute; done.
  - split; [|intros n k; vm_compute; done]. intros n. unfold intact.
    split_and!; [apply localDisk_rooted|by apply dbOk_by_dec|done|done|..];
      apply demo_outside; vm_compute; reflexivity.
  - split; [apply localDisk_rooted|by apply dbOk_by_dec].
  - vm_compute. reflexivity.
  - injection Hm as <- <-. destruct (Hd (MkDownloadRequest "dir/f.txt" 1 3) (λ _, None)) as (ms & r2 & s2 & Hr & Hx).
    + repeat split; vm_compute; done.
    + vm_compute. reflexivity.
    + exists ms, r2, s2. split; [|exact Hx]. rewrite <-Hr. by rewrite (surjective_pairing (grpcUpload demoStream demo).2) at 1.
Defined.

(** The messages of that download. *)
Lemma grpc_download_run :
  (grpcDownload 2 1 (grpcUpload demoStream demo).2).1 =
  Ok ([MkDownloadResponse [Byte.x62; Byte.x63] 1 4; MkDownloadResponse [Byte.x64] 3 4], Reply tt).
Proof. vm_compute. reflexivity. Qed.

(** A server whose configured key is "secret". *)
Definition demoGrpc : GrpcState _ _ _ list :=
  MkGrpcState NewFileManager demoFile (Some (Auth.Init demoSHA true "secret" NewAuthService)) (Some []).

Notation demoServe key c :=
  (serve (T := list) demoSHA (λ _, "id") demoServerConfig map_to_list (Some (MkMD [key] [])) c demoGrpc).

Lemma grpc_refusals_witness :
  ∃ msg s', demoServe "secret" (CDelete "../b") = (Ok ([], Fail (Status InvalidArgument msg)), s') ∧
    sameFiles demoGrpc s'.
Proof.
  destruct (grpc_refusals demoSHA (λ _, "id") demoServerConfig map_to_list (Some (MkMD ["secret"] []))
    (CDelete "../b") (Auth.Init demoSHA true "secret" NewAuthService) []
    (Fail (Status InvalidArgument "invalid file path")) demoGrpc (demoServe "secret" (CDelete "../b")).2)
    as [(_ & _ & msg & [[=]|[=]])|(_ & Hr)].
  - intros m. reflexivity.
  - reflexivity.
  - reflexivity.
  - apply outcome. vm_compute. reflexivity.
  - exists "invalid file path", (demoServe "secret" (CDelete "../b")).2.
    split; [apply outcome; vm_compute; reflexivity|]. exact (proj1 Hr).
Defined.

(** A wrong key, a deletion that fails, and the record of the calls. *)
Lemma grpc_serve_run :
  (demoServe "wrong" (CDelete "a/b")).1 = Ok ([], Fail (Status Unauthenticated "invalid API key")) ∧
  (demoServe "secret" (CDelete "a/c")).1 = Ok ([], Fail (Status Internal "internal server error")) ∧
  gmetrics (demoServe "secret" (CDelete "a/c")).2 = Some [("/fsserver.FileService/DeleteFile", 500%Z)] ∧
  (demoServe "secret" (CGetMetadata "a/c")).1 = Ok ([], Fail (Status NotFound "path not found: a/c")) ∧
  (demoServe "secret" (CGetMetadata "a/b")).1 =
    Ok ([], Reply (AMetadata (MkGetMetadataResponse "1" "a/b" "b" 4 "file" "61626364" "local" None None))).
Proof. vm_compute. split_and!; reflexivity. Qed.

Lemma grpc_session_ends_witness :
  let broken := MkClientStream (msgs demoStream) (Some (ErrMsg "connection reset")) in
  uploadSessions (svc (grpcUpload broken demo).2.2) = uploadSessions (svc demo) ∧
  sessionCount (svc (grpcUpload broken demo).2.2) = sessionCount (svc demo).
Proof.
  intros broken.
  destruct (grpc_session_ends demoSHA (λ _, "id") demoServerConfig broken None
    (wrapped "failed to receive upload request" (ErrMsg "connection reset")) NewFileManager
    (grpcUpload broken demo).2.1 demo (grpcUpload broken demo).2.2) as [_ [Hs|[[=] _]]].
  - split; [reflexivity|]. split; [discriminate|]. vm_compute. split; [discriminate|reflexivity].
  - vm_compute. reflexivity.
  - vm_compute. reflexivity.
  - exact Hs.
Defined.

(** The exception: nobody is told the identifier of the session that stays open. *)
Lemma grpc_incomplete_leaks :
  let short := MkClientStream [demoMeta 4 ""; demoChunkMsg ab 0] None in
  let r := grpcUpload short demo in
  r.1 = Ok incomplete ∧ sessionCount (svc r.2.2) = 1%Z ∧
  fileAt (os (sys r.2.2)) "/tmp/up/id.tmp" = Some (ab ++ [Byte.x00; Byte.x00]).
Proof. vm_compute. split_and!; reflexivity. Qed.

(** A message that is not a chunk aborts the upload, except in the place that is read
    ahead, where it is ignored. *)
Lemma grpc_read_ahead_ignored :
  let at2 := MkClientStream [demoMeta 4 ""; demoChunkMsg ab 0; RUnset; demoChunkMsg cd 2] None in
  let at3 := MkClientStream [demoMeta 4 ""; demoChunkMsg ab 0; demoChunkMsg cd 2; RUnset] None in
  (∃ r, (grpcUpload at2 demo).1 = Ok (Reply r)) ∧
  (grpcUpload at3 demo).1 = Ok (plain "expected chunk in multi-chunk upload").
Proof. vm_compute. split; [by eexists|reflexivity]. Qed.

(** ** Encryption *)

Definition demoEncrypted : demoWorld :=
  demoWith (λ _, NoFault)
    (SetCryptoService (Crypto.Init "passphrase" NewCryptoService).2 (NewFileTransferService "/tmp/up")).

(** The server never uses its crypto service. With encryption on, a file that comes in
    a single chunk is stored in the clear; one that goes through a session is
    encrypted, and a download over gRPC sends the ciphertext. *)
Lemma grpc_encryption_bypassed :
  let small := grpcUpload demoSmall demoEncrypted in
  let large := grpcUpload demoStream demoEncrypted in
  object (store small.2.2) (os (sys small.2.2)) "dir/f.txt" = Some (ab ++ cd) ∧
  (∃ r, large.1 = Ok (Reply r)) ∧
  ∃ ms, (grpcDownload 100 0 large.2).1 = Ok (ms, Reply tt) ∧ ab ++ cd ≠ payload ms.
Proof. vm_compute. split; [reflexivity|]. split; eexists; [reflexivity|]. by split. Qed.

(** The total of a listing is cut to 32 bits. *)
Lemma grpc_total_wraps : wrap32 (2 ^ 31) = (- 2 ^ 31)%Z.
Proof. reflexivity. Qed.
