(* ===== verification/Etcd.v ===== *)
(** * internal/etcd and internal/discovery

    The key-value manager and the registry of service instances. The etcd server and
    its client are not part of the repository: they are an interface here.
    [EtcdServer] lists the requests the code makes, [EtcdLaws] what the etcd
    documentation says of them, and [MapEtcd] is a concrete server that satisfies the
    laws. *)

From S2P Require Export Sessions OS.

Local Open Scope go_scope.

(** ** The server *)

(** Times are in nanoseconds, the time to live of a lease in seconds. *)
Class EtcdServer (E : Type) := {
  eGet : Z → string → E → option string;
  (** a get with WithPrefix *)
  eList : Z → string → E → list (string * string);
  (** a put, with a lease or without: refused when there is no such lease *)
  ePut : Z → string → string → option Z → E → res unit * E;
  eDelete : Z → string → E → E;
  eGrant : Z → Z → E → Z * E;
  (** one renewal of a lease *)
  eRenew : Z → Z → E → E
}.

(** [leaseEnd e l]: when the lease [l] ends unless it is renewed; [leaseOf e k]: the
    lease that the key [k] was put with, if any. *)
Class EtcdLaws (E : Type) `{EtcdServer E} := {
  leaseEnd : E → Z → option Z;
  leaseOf : E → string → option Z;
  leaseTTL : E → Z → Z;
  get_later e k v t t' : (t ≤ t')%Z → eGet t' k e = Some v → eGet t k e = Some v;
  list_spec e p t k v : (k, v) ∈ eList t p e ↔ HasPrefix k p = true ∧ eGet t k e = Some v;
  list_nodup e p t : NoDup (eList t p e).*1;
  put_refused e now k v l e' x : ePut now k v l e = (Err x, e') → e' = e;
  put_kept e now k v e' t : ePut now k v None e = (Ok tt, e') → (now ≤ t)%Z → eGet t k e' = Some v;
  put_leased e now k v l d e' t :
    ePut now k v (Some l) e = (Ok tt, e') → leaseEnd e l = Some d → (now ≤ t < d)%Z →
    eGet t k e' = Some v;
  put_lease e now k v l e' : ePut now k v l e = (Ok tt, e') → leaseOf e' k = l;
  put_only e now k v l e' t v' :
    ePut now k v l e = (Ok tt, e') → eGet t k e' = Some v' → v' = v;
  put_frame e now k v l k' t :
    k ≠ k' → eGet t k' (ePut now k v l e).2 = eGet t k' e ∧ leaseOf (ePut now k v l e).2 k' = leaseOf e k';
  put_leases e now k v l : leaseEnd (ePut now k v l e).2 = leaseEnd e ∧ leaseTTL (ePut now k v l e).2 = leaseTTL e;
  delete_gone e now k t : eGet t k (eDelete now k e) = None;
  delete_frame e now k k' t :
    k ≠ k' → eGet t k' (eDelete now k e) = eGet t k' e ∧ leaseOf (eDelete now k e) k' = leaseOf e k';
  delete_leases e now k : leaseTTL (eDelete now k e) = leaseTTL e;
  grant_ends e now ttl l e' :
    eGrant now ttl e = (l, e') →
    (ttl ≤ leaseTTL e' l)%Z ∧ ∃ d, leaseEnd e' l = Some d ∧ (now + ttl * Second ≤ d)%Z;
  grant_keeps e now ttl k t :
    eGet t k (eGrant now ttl e).2 = eGet t k e ∧ leaseOf (eGrant now ttl e).2 k = leaseOf e k;
  grant_fresh e now ttl k l :
    leaseOf e k = Some l → leaseTTL (eGrant now ttl e).2 l = leaseTTL e l;
  renew_extends e now l k v t :
    leaseOf e k = Some l → eGet now k e = Some v → (now ≤ t < now + leaseTTL e l * Second)%Z →
    eGet t k (eRenew now l e) = Some v;
  renew_only e now l k v t : (now ≤ t)%Z → eGet t k (eRenew now l e) = Some v → eGet now k e = Some v;
  renew_keeps e now l k v t :
    (now ≤ t)%Z → eGet t k e = Some v → eGet t k (eRenew now l e) = Some v;
  renew_leases e now l l' k :
    leaseTTL (eRenew now l e) l' = leaseTTL e l' ∧ leaseOf (eRenew now l e) k = leaseOf e k
}.

(** ** A concrete server *)

Module MapEtcd.

Record state := MkState {
  kvs : gmap string (string * option Z); leases : gmap Z (Z * Z)
}.

Definition lives (t : Z) (e : state) (x : string * option Z) : option string :=
  match x.2 with
  | None => Some x.1
  | Some l => match leases e !! l with
              | Some (_, d) => if (t <? d)%Z then Some x.1 else None
              | None => None
              end
  end.

Definition get (t : Z) (k : string) (e : state) : option string := kvs e !! k ≫= lives t e.

(** A renewal of a lease that has ended comes too late. *)
#[global] Instance server : EtcdServer state := {|
  eGet := get;
  eList t p e := omap (λ kv, (λ v, (kv.1, v)) <$> (if HasPrefix kv.1 p then lives t e kv.2 else None))
                   (map_to_list (kvs e));
  ePut now k v l e :=
    match l with
    | None => (Ok tt, MkState (<[k := (v, None)]> (kvs e)) (leases e))
    | Some l => match leases e !! l with
                | Some _ => (Ok tt, MkState (<[k := (v, Some l)]> (kvs e)) (leases e))
                | None => (Err (ErrMsg "requested lease not found"), e)
                end
    end;
  eDelete now k e := MkState (delete k (kvs e)) (leases e);
  eGrant now ttl e :=
    let l := fresh ((map_to_list (leases e)).*1 ++ omap (λ kv, kv.2.2) (map_to_list (kvs e))) in
    (l, MkState (kvs e) (<[l := (ttl, (now + ttl * Second)%Z)]> (leases e)));
  eRenew now l e :=
    match leases e !! l with
    | Some (ttl, d) => if (now <? d)%Z
                       then MkState (kvs e) (<[l := (ttl, Z.max d (now + ttl * Second))]> (leases e))
                       else e
    | None => e
    end
|}.

Lemma lives_later t t' e x v : (t ≤ t')%Z → lives t' e x = Some v → lives t e x = Some v.
Proof.
  intros Ht. unfold lives. destruct (x.2) as [l|]; [|done]. destruct (leases e !! l) as [[ttl d]|]; [|done].
  destruct (Z.ltb_spec t' d); [|done]. by rewrite (proj2 (Z.ltb_lt t d)) by lia.
Qed.

Lemma lives_value t e x v : lives t e x = Some v → v = x.1.
Proof. unfold lives. repeat case_match; naive_solver. Qed.

Lemma list_elem t p e k v :
  (k, v) ∈ eList t p e ↔ HasPrefix k p = true ∧ get t k e = Some v.
Proof.
  simpl. rewrite list_elem_of_omap. unfold get. split.
  - intros ([k' x] & Hin & Hv). apply elem_of_map_to_list in Hin. simpl in Hv.
    destruct (HasPrefix k' p) eqn:Ep; [|done]. destruct (lives t e x) as [v'|] eqn:El; [|done].
    injection Hv as <- <-. rewrite Hin. done.
  - intros [Hp Hg]. destruct (kvs e !! k) as [x|] eqn:Ek; [|done]. simpl in Hg.
    exists (k, x). split; [by apply elem_of_map_to_list|]. simpl. by rewrite Hp, Hg.
Qed.

Lemma omap_keys {A} (f : string * A → option string) l :
  NoDup (l.*1) → NoDup ((omap (λ kv, (λ v, (kv.1, v)) <$> f kv) l).*1).
Proof.
  induction l as [|[k x] l IH]; [done|]. simpl. intros [Hk Hl]%NoDup_cons.
  specialize (IH Hl). destruct (f (k, x)); simpl; [|done]. apply NoDup_cons. split; [|done].
  intros Hin. apply Hk. apply list_elem_of_fmap in Hin as ([k' v'] & -> & Hin).
  apply list_elem_of_omap in Hin as ([k'' x'] & Hin & Hf). simpl in Hf.
  destruct (f (k'', x')); [|done]. injection Hf as <- <-. apply list_elem_of_fmap. by exists (k'', x').
Qed.

Lemma fresh_lease e k x :
  let l := fresh ((map_to_list (leases e)).*1 ++ omap (λ kv, kv.2.2) (map_to_list (kvs e))) in
  kvs e !! k = Some x → x.2 ≠ Some l.
Proof.
  intros l Hk Hx. assert (l ∉ (map_to_list (leases e)).*1 ++ omap (λ kv, kv.2.2) (map_to_list (kvs e))) as Hl
    by apply infinite_is_fresh.
  apply Hl, elem_of_app. right. apply list_elem_of_omap. exists (k, x). split; [|done].
  by apply elem_of_map_to_list.
Qed.

Lemma lives_insert t e k l y x :
  x.2 ≠ Some l → lives t (MkState k (<[l := y]> (leases e))) x = lives t e x.
Proof.
  intros Hx. unfold lives. destruct (x.2) as [l'|]; [|done]. simpl.
  rewrite lookup_insert_ne by congruence. done.
Qed.

#[global] Instance laws : EtcdLaws state.
Proof.
  refine {| leaseEnd e l := snd <$> leases e !! l;
            leaseOf e k := kvs e !! k ≫= snd;
            leaseTTL e l := default 0%Z (fst <$> leases e !! l) |}.
  - intros e k v t t' Ht. simpl. unfold get. destruct (kvs e !! k); [|done]. by apply lives_later.
  - intros. apply list_elem.
  - intros. apply omap_keys, NoDup_fst_map_to_list.
  - intros e now k v [l|] e' x; simpl; [destruct (leases e !! l)|]; intros [=]; done.
  - intros e now k v e' t. simpl. intros [= <-] _. unfold get. simpl. by rewrite lookup_insert_eq.
  - intros e now k v l d e' t. simpl. destruct (leases e !! l) as [[ttl d']|] eqn:El; [|done].
    intros [= <-] [= ->] Ht. unfold get. simpl. rewrite lookup_insert_eq. simpl. unfold lives. simpl.
    rewrite El. case_match; bool_prop; [done|lia].
  - intros e now k v [l|] e'; simpl; [destruct (leases e !! l); [|done]|]; intros [= <-]; simpl;
      by rewrite lookup_insert_eq.
  - intros e now k v [l|] e' t v'; simpl; [destruct (leases e !! l); [|done]|]; intros [= <-]; unfold get; simpl;
      rewrite lookup_insert_eq; simpl; intros Hv; by apply lives_value in Hv.
  - intros e now k v [l|] k' t Hne; simpl; [destruct (leases e !! l); [|done]|]; unfold get; simpl;
      by rewrite lookup_insert_ne.
  - intros e now k v [l|]; simpl; [by destruct (leases e !! l)|done].
  - intros. simpl. unfold get. simpl. by rewrite lookup_delete_eq.
  - intros. simpl. unfold get. simpl. by rewrite lookup_delete_ne.
  - done.
  - intros e now ttl l e'. simpl. intros [= <- <-]. cbn [leases]. rewrite lookup_insert_eq. simpl.
    split; [lia|]. exists (now + ttl * Second)%Z. split; [done|lia].
  - intros e now ttl k t. simpl. unfold get. simpl. split; [|done].
    destruct (kvs e !! k) as [x|] eqn:Ek; [|done]. simpl.
    apply lives_insert. by eapply fresh_lease.
  - intros e now ttl k l. simpl. destruct (kvs e !! k) as [x|] eqn:Ek; [|done]. simpl. intros Hl.
    pose proof (fresh_lease e k x Ek). by rewrite lookup_insert_ne by congruence.
  - intros e now l k v t Hl. simpl. unfold get in *. simpl.
    destruct (kvs e !! k) as [x|] eqn:Ek; [|done]. simpl in Hl. destruct x as [v0 ol]. simpl in *. subst ol.
    unfold lives. simpl. destruct (leases e !! l) as [[ttl d]|] eqn:El; [|done]. simpl.
    destruct (now <? d)%Z; [|done]. intros [= ->] Ht. simpl. rewrite Ek. simpl. rewrite lookup_insert_eq.
    case_match; bool_prop; [done|lia].
  - intros e now l k v t Ht. simpl. unfold get. destruct (leases e !! l) as [[ttl d]|] eqn:El; simpl.
    2: { destruct (kvs e !! k); [|done]. simpl. by apply lives_later. }
    destruct (now <? d)%Z eqn:Ed; simpl; (destruct (kvs e !! k) as [x|]; [|done]); simpl; [|by apply lives_later].
    destruct (decide (x.2 = Some l)) as [Hx|Hx].
    + unfold lives. rewrite Hx. simpl. rewrite lookup_insert_eq, El, Ed. by case_match.
    + rewrite lives_insert by done. by apply lives_later.
  - intros e now l k v t Ht. simpl. unfold get. destruct (leases e !! l) as [[ttl d]|] eqn:El; simpl; [|done].
    destruct (now <? d)%Z eqn:Ed; simpl; [|done]. destruct (kvs e !! k) as [x|]; [|done]. simpl.
    destruct (decide (x.2 = Some l)) as [Hx|Hx]; [|by rewrite lives_insert].
    unfold lives. rewrite Hx. simpl. rewrite lookup_insert_eq, El. simpl.
    destruct (Z.ltb_spec t d); [|done]. intros Hv. by rewrite (proj2 (Z.ltb_lt t _)) by lia.
  - intros e now l l' k. simpl. destruct (leases e !! l) as [[ttl d]|] eqn:El; simpl; [|done].
    destruct (now <? d)%Z; [|done]. split; [|done]. simpl.
    destruct (decide (l' = l)) as [->|Hne]; [by rewrite lookup_insert_eq, El|by rewrite lookup_insert_ne].
Defined.

End MapEtcd.

(** ** The client *)

Section etcd.
Context {E : Type} `{EtcdServer E}.
Notation EM := (M (E * Sys)).

(** A request to the server, which may be lost, or whose reply may be. *)
Definition request {A} (op : Z → E → res A * E) : EM A :=
  extCall (λ env, faulty (net env) (op (Locks.now env))).

Lemma triple_request {A} P (op : Z → E → res A * E) Q X :
  (∀ e s, P (e, s) → ∃ r e', op (timeOf s) e = (r, e') ∧ X (e, skip 1 s) ∧ X (e', skip 1 s) ∧
     ∀ a, r = Ok a → Q a (e', skip 1 s)) →
  triple P (request op) Q X.
Proof.
  intros Hop [e s] HP. destruct (Hop e s HP) as (r & e' & Hr & Hx & Hx' & Hq).
  unfold request, extCall, faulty. fold (timeOf s).
  destruct (net _); rewrite ?Hr; simpl; try done. destruct r; auto.
Qed.

Definition reading {A} (f : Z → E → A) : EM A := request (λ t e, (Ok (f t e), e)).

(** ** EtcdManager *)

Record EtcdManager := MkEtcdManager { emPrefix : string }.

Definition Put (m : EtcdManager) (key value : string) : EM unit :=
  let fullKey := emPrefix m +:+ key in
  wrapErr "failed to put key" (request (λ t, ePut t fullKey value None)).

Definition Get (m : EtcdManager) (key : string) : EM string :=
  let fullKey := emPrefix m +:+ key in
  v ← wrapErr "failed to get key" (reading (λ t, eGet t fullKey));
  match v with
  | None => throw (ErrMsg "key not found")
  | Some v => mret v
  end.

Definition Delete (m : EtcdManager) (key : string) : EM unit :=
  let fullKey := emPrefix m +:+ key in
  wrapErr "failed to delete key" (request (λ t e, (Ok tt, eDelete t fullKey e))).

Definition shorten (m : EtcdManager) (kv : string * string) : string * string :=
  (sdrop (slen (emPrefix m)) kv.1, kv.2).

Definition List (m : EtcdManager) (prefix : string) : EM (gmap string string) :=
  let fullPrefix := emPrefix m +:+ prefix in
  kvs ← wrapErr "failed to list prefix" (reading (λ t, eList t fullPrefix));
  mret (foldl (λ result kv, <[kv.1 := kv.2]> result) ∅ (shorten m <$> kvs)).

(** Put under a new lease and start to renew it: the renewals are made by the client
    library in the background. *)
Definition leased (msg key value : string) (ttl : Z) : EM Z :=
  l ← wrapErr "failed to create lease"
        (request (λ t e, let '(l, e) := eGrant t ttl e in (Ok l, e)));
  wrapErr msg (request (λ t, ePut t key value (Some l))) ⨟
  wrapErr "failed to start keepalive" (request (λ t e, (Ok tt, e))) ⨟
  mret l.

Definition KeepAlive (m : EtcdManager) (key value : string) (ttl : Z) : EM Z :=
  leased "failed to put key with lease" (emPrefix m +:+ key) value ttl.

(** A manager with the prefix [p] is a map from keys to values, kept under [p] among
    the keys of the server. *)
Definition view (m : EtcdManager) (t : Z) (e : E) (k : string) : option string :=
  eGet t (emPrefix m +:+ k) e.

Lemma view_key m (k k' : string) : k ≠ k' → emPrefix m +:+ k ≠ emPrefix m +:+ k'.
Proof. intros Hne Hk. by apply append_inj_l in Hk. Qed.

Lemma HasPrefix_under (x k p : string) : HasPrefix (x +:+ k) (x +:+ p) = HasPrefix k p.
Proof. apply eq_true_iff_eq. rewrite !HasPrefix_spec. setoid_rewrite append_assoc.
  split; intros [t Ht]; exists t; [by eapply append_inj_l|by rewrite Ht].
Qed.

Section laws.
Context `{!EtcdLaws E}.

Lemma elem_of_shorten m t p e k v :
  (k, v) ∈ (shorten m <$> eList t (emPrefix m +:+ p) e) ↔ HasPrefix k p = true ∧ view m t e k = Some v.
Proof.
  rewrite list_elem_of_fmap. unfold view, shorten. split.
  - intros ([k' v'] & [= -> ->] & [Hp Hg]%list_spec). simpl in *.
    apply HasPrefix_spec in Hp as [u ->]. rewrite append_assoc in Hg |- *.
    rewrite sdrop_append. by rewrite HasPrefix_append.
  - intros [Hp Hg]. exists (emPrefix m +:+ k, v). simpl. rewrite sdrop_append. split; [done|].
    apply list_spec. by rewrite HasPrefix_under.
Qed.

Lemma foldl_insert (l : list (string * string)) (r : gmap string string) k v :
  NoDup l.*1 → (foldl (λ r kv, <[kv.1 := kv.2]> r) r l) !! k = Some v ↔
    (k, v) ∈ l ∨ (k ∉ l.*1 ∧ r !! k = Some v).
Proof.
  revert r. induction l as [|[k' v'] l IH]; intros r; simpl; [set_solver|].
  intros [Hk Hl]%NoDup_cons. rewrite IH by done. rewrite !elem_of_cons.
  destruct (decide (k = k')) as [->|Hne].
  - rewrite lookup_insert_eq. split.
    + intros [Hin|[_ [= ->]]]; [left; by right|left; by left].
    + intros [[[= ->]|Hin]|[Hn _]]; [by right|by left|]. destruct Hn. by left.
  - rewrite lookup_insert_ne by done. set_solver.
Qed.

Lemma shorten_keys m t p e : NoDup (shorten m <$> eList t (emPrefix m +:+ p) e).*1.
Proof.
  assert (∀ l : list (string * string), (∀ kv, kv ∈ l → HasPrefix kv.1 (emPrefix m) = true) →
    NoDup l.*1 → NoDup (shorten m <$> l).*1) as Hl.
  { induction l as [|[k v] l IH]; [done|]. simpl. intros Hp [Hk Hn]%NoDup_cons. apply NoDup_cons.
    split; [|apply IH; [|done]; intros kv Hkv; apply Hp; by right].
    intros Hin. apply Hk. rewrite <-list_fmap_compose in Hin.
    apply list_elem_of_fmap in Hin as ([k' v'] & Heq & Hin). simpl in Heq.
    pose proof (Hp (k, v) ltac:(by left)) as [u Hu]%HasPrefix_spec.
    pose proof (Hp (k', v') ltac:(by right)) as [u' Hu']%HasPrefix_spec. simpl in *. subst k k'.
    rewrite !sdrop_append in Heq. subst u'. apply list_elem_of_fmap. by exists (emPrefix m +:+ u, v'). }
  apply Hl; [|apply list_nodup]. intros [k v] [Hp _]%list_spec. simpl.
  apply HasPrefix_spec in Hp as [u ->]. rewrite append_assoc. apply HasPrefix_append.
Qed.

(** The values at every later time, after a change at [k]. *)
Definition changed (m : EtcdManager) (k : string) (v : option string) (e : E) (s : Sys) (e' : E) : Prop :=
  ∀ k' t, (timeOf s ≤ t)%Z → view m t e' k' = if decide (k' = k) then v else view m t e k'.

Definition unchangedBut (m : EtcdManager) (k : string) (e e' : E) : Prop :=
  ∀ k' t, k' ≠ k → view m t e' k' = view m t e k'.

(** An etcd manager implements a map under its prefix. A successful Put sets the
    value of its key and of no other, for every later read; a successful Delete
    removes its key and no other; one that fails changes no other key; Get returns the
    value of the key, with an error only for a key without one or a failed request;
    and List returns exactly the keys that begin with the prefix asked for, with the
    prefix of the manager cut off. Reads change nothing. *)
Lemma manager_view m k v p e s :
  let from w := w = (e, s) in
  triple from (Put m k v) (λ _ w, changed m k (Some v) e s w.1) (λ w, unchangedBut m k e w.1) ∧
  triple from (Delete m k) (λ _ w, changed m k None e s w.1) (λ w, unchangedBut m k e w.1) ∧
  triple from (Get m k) (λ r w, w.1 = e ∧ view m (timeOf s) e k = Some r) (λ w, w.1 = e) ∧
  triple from (List m p)
    (λ r w, w.1 = e ∧ ∀ k', r !! k' = if HasPrefix k' p then view m (timeOf s) e k' else None)
    (λ w, w.1 = e).
Proof.
  split; [|split; [|split]].
  - apply triple_wrapErr, triple_request. intros ? ? [= -> ->].
    destruct (ePut (timeOf s) (emPrefix m +:+ k) v None e) as [r e'] eqn:Hput.
    assert (unchangedBut m k e e') as Hu.
    { intros k' t Hne. unfold view. symmetry. replace e' with (ePut (timeOf s) (emPrefix m +:+ k) v None e).2
        by (by rewrite Hput). symmetry. apply put_frame. by apply view_key. }
    exists r, e'. split; [done|]. split; [done|]. split; [done|]. intros [] ->.
    intros k' t Ht. simpl. case_decide as Hk; [subst k'; by eapply put_kept|by apply Hu].
  - apply triple_wrapErr, triple_request. intros ? ? [= -> ->].
    assert (unchangedBut m k e (eDelete (timeOf s) (emPrefix m +:+ k) e)) as Hu.
    { intros k' t Hne. apply delete_frame. by apply view_key. }
    eexists _, _. split; [done|]. split; [done|]. split; [done|]. intros [] _.
    intros k' t Ht. simpl. case_decide as Hk; [subst k'; apply delete_gone|by apply Hu].
  - eapply triple_bind with (Q := λ r w, w.1 = e ∧ r = view m (timeOf s) e k).
    + apply triple_wrapErr, triple_request. intros ? ? [= -> ->].
      eexists _, _. split; [done|]. do 2 (split; [done|]). by intros a [= <-].
    + intros [r|] w [Hw Hr]; simpl; done.
  - eapply triple_bind with (Q := λ r w, w.1 = e ∧ r = eList (timeOf s) (emPrefix m +:+ p) e).
    + apply triple_wrapErr, triple_request. intros ? ? [= -> ->].
      eexists _, _. split; [done|]. do 2 (split; [done|]). by intros a [= <-].
    + intros r w [Hw ->]. simpl. split; [done|]. intros k'. apply option_eq. intros v'.
      rewrite foldl_insert by apply shorten_keys. rewrite elem_of_shorten, lookup_empty.
      destruct (HasPrefix k' p); naive_solver.
Qed.

End laws.
End etcd.

(** A clock that counts, and a network that loses nothing. *)
Definition calmSys : Sys := MkSys (λ n, CallEnv (Z.of_nat n) [] NoFault) 0 ∅.

Lemma manager_view_demo :
  let m := MkEtcdManager "/fs" in let e := MapEtcd.MkState ∅ ∅ in
  (Put m "/a" "1" (e, calmSys)).1 = Ok tt ∧
  changed m "/a" (Some "1") e calmSys (Put m "/a" "1" (e, calmSys)).2.1.
Proof.
  split; [reflexivity|].
  destruct (manager_view (MkEtcdManager "/fs") "/a" "1" "/" (MapEtcd.MkState ∅ ∅) calmSys) as [Hput _].
  exact (Hput _ eq_refl).
Defined.
