(* ===== verification/Discovery.v ===== *)
(** * internal/discovery

    The registry of service instances: registration under a lease, its removal, the
    list of the live instances and the watch. An abstract registry says what a client
    of Discover may rely on, and the code on any etcd server refines it. *)

From S2P Require Export Etcd.

Local Open Scope go_scope.

Record ServiceInstance := MkInstance {
  siID : string; siName : string; siAddress : string; siPort : Z; siMetadata : gmap string string
}.

Record ServiceDiscovery := MkServiceDiscovery { sdPrefix : string; sdInterval : Z }.

Definition NewServiceDiscovery (prefix : string) (intervalSeconds : Z) : ServiceDiscovery :=
  MkServiceDiscovery (prefix +:+ "/services/") (wrap64 (intervalSeconds * Second)).

(** [int64(d.interval.Seconds()) * 3]; [Seconds] is a float64, exact for whole seconds. *)
Definition registrationTTL (d : ServiceDiscovery) : Z :=
  wrap64 (Z.quot (sdInterval d) Second * 3).

Definition serviceKey (d : ServiceDiscovery) (name id : string) : string :=
  sdPrefix d +:+ name +:+ "/" +:+ id.

Definition keyOf (d : ServiceDiscovery) (i : ServiceInstance) : string :=
  serviceKey d (siName i) (siID i).

Section discovery.
Context {E : Type} `{EtcdServer E} `{Codec ServiceInstance}.
Notation EM := (M (E * Sys)).

Definition Register (d : ServiceDiscovery) (instance : ServiceInstance) : EM Z :=
  data ← wrapErr "failed to marshal service instance" (lift (marshal instance));
  leased "failed to register service" (keyOf d instance) data
    (registrationTTL d).

Definition Deregister (d : ServiceDiscovery) (instance : ServiceInstance) : EM unit :=
  let key := keyOf d instance in
  wrapErr "failed to deregister service" (request (λ t e, (Ok tt, eDelete t key e))).

(** Values that do not decode are skipped. *)
Definition Discover (d : ServiceDiscovery) (serviceName : string) : EM (list ServiceInstance) :=
  let prefix := sdPrefix d +:+ serviceName +:+ "/" in
  kvs ← wrapErr "failed to discover service" (reading (λ t, eList t prefix));
  mret (omap (λ kv, match unmarshal kv.2 with Ok i => Some i | Err _ => None end) kvs).

(** ** Watch *)

(** What the watch channel delivers; a closed channel delivers the zero response for
    ever, which carries no error. *)
Inductive watchEvent := WEvent | WError | WClosed.

Definition watchCapacity : nat := 10.

(** One round of the goroutine; [queue]: what the client has not taken yet. A full
    channel drops the new list. *)
Definition watchStep (d : ServiceDiscovery) (serviceName : string)
    (queue : list (list ServiceInstance)) (ev : watchEvent) : EM (list (list ServiceInstance)) :=
  match ev with
  | WError => mret queue
  | _ =>
      r ← catch (Discover d serviceName);
      match r with
      | Err _ => mret queue
      | Ok instances =>
          mret (if (length queue <? watchCapacity)%nat then queue ++ [instances] else queue)
      end
  end.

Fixpoint watchLoop (d : ServiceDiscovery) (serviceName : string)
    (queue : list (list ServiceInstance)) (evs : list watchEvent) : EM (list (list ServiceInstance)) :=
  match evs with
  | [] => mret queue
  | ev :: evs => queue ← watchStep d serviceName queue ev; watchLoop d serviceName queue evs
  end.

End discovery.

(** ** The abstract registry *)

(** What a client may rely on: [possible] lists what may be found under a key,
    [promised] what will be found there, and until when. *)
Record entry := MkEntry { eInst : ServiceInstance; eLease : Z; eUntil : Z }.

Record registry := MkRegistry {
  possible : gmap string (list ServiceInstance); promised : gmap string entry
}.

Definition allowed (R : registry) (k : string) : list ServiceInstance := default [] (possible R !! k).

Inductive action := ARegister (i : ServiceInstance) | ADeregister (i : ServiceInstance) | ARenew (l : Z).

Definition lifetime (d : ServiceDiscovery) : Z := registrationTTL d * Second.

Definition renewed (d : ServiceDiscovery) (t l : Z) (x : entry) : entry :=
  if bool_decide (eLease x = l) && (t <? eUntil x)%Z
  then MkEntry (eInst x) (eLease x) (Z.max (eUntil x) (t + lifetime d)) else x.

(** [specStep d t a r R R']: the action [a], begun at the time [t], with the outcome
    [r]: for a registration the lease. An action that fails promises nothing, since it
    may have been carried out. *)
Inductive specStep (d : ServiceDiscovery) (t : Z) : action → res Z → registry → registry → Prop :=
  | SRegister i l u R : (t + lifetime d ≤ u)%Z →
      specStep d t (ARegister i) (Ok l) R
        (MkRegistry (<[keyOf d i := [i]]> (possible R)) (<[keyOf d i := MkEntry i l u]> (promised R)))
  | SRegisterFailed i x R :
      specStep d t (ARegister i) (Err x) R
        (MkRegistry (<[keyOf d i := i :: allowed R (keyOf d i)]> (possible R))
           (delete (keyOf d i) (promised R)))
  | SDeregister i n R :
      specStep d t (ADeregister i) (Ok n) R
        (MkRegistry (<[keyOf d i := []]> (possible R)) (delete (keyOf d i) (promised R)))
  | SDeregisterFailed i x R :
      specStep d t (ADeregister i) (Err x) R
        (MkRegistry (possible R) (delete (keyOf d i) (promised R)))
  | SRenew l n R :
      specStep d t (ARenew l) (Ok n) R (MkRegistry (possible R) (renewed d t l <$> promised R))
  | SRenewFailed l x R : specStep d t (ARenew l) (Err x) R R.

Inductive specRun (d : ServiceDiscovery) : list (Z * action * res Z) → registry → registry → Prop :=
  | specRun_nil R : specRun d [] R R
  | specRun_cons t a r tr R R1 R2 :
      specStep d t a r R R1 → specRun d tr R1 R2 → specRun d ((t, a, r) :: tr) R R2.

Section refinement.
Context {E : Type} `{EtcdServer E} `{Codec ServiceInstance}.
Notation EM := (M (E * Sys)).

(** An action as the code performs it; the renewals are those of the client library. *)
Definition act (d : ServiceDiscovery) (a : action) : EM Z :=
  match a with
  | ARegister i => Register d i
  | ADeregister i => Deregister d i ⨟ mret 0%Z
  | ARenew l => request (λ t e, (Ok 0%Z, eRenew t l e))
  end.

(** Actions one after the other, each with its time and its outcome. *)
Fixpoint trace (d : ServiceDiscovery) (l : list action) (w : E * Sys) : list (Z * action * res Z) * (E * Sys) :=
  match l with
  | [] => ([], w)
  | a :: l => let '(r, w1) := act d a w in
              let '(tr, w2) := trace d l w1 in ((timeOf w.2, a, r) :: tr, w2)
  end.

(** An instance that its encoding gives back. *)
Definition encodes (i : ServiceInstance) : Prop := ∀ v, marshal i = Ok v → unmarshal v = Ok i.

Definition sendable (a : action) : Prop := match a with ARegister i => encodes i | _ => True end.

Context `{!EtcdLaws E}.

(** The server keeps what the registry promises and nothing that it does not allow. *)
Definition represents (d : ServiceDiscovery) (t : Z) (e : E) (R : registry) : Prop :=
  (∀ k v t', (t ≤ t')%Z → HasPrefix k (sdPrefix d) = true → eGet t' k e = Some v →
     ∃ i, unmarshal v = Ok i ∧ i ∈ allowed R k) ∧
  (∀ k x, promised R !! k = Some x → ∃ v, unmarshal v = Ok (eInst x) ∧
     leaseOf e k = Some (eLease x) ∧ (registrationTTL d ≤ leaseTTL e (eLease x))%Z ∧
     ∀ t', (t ≤ t' < eUntil x)%Z → eGet t' k e = Some v).

Lemma represents_later d t t' e R : (t ≤ t')%Z → represents d t e R → represents d t' e R.
Proof.
  intros Ht [Hp Hq]. split.
  - intros k v u Hu. apply Hp. lia.
  - intros k x Hx. destruct (Hq k x Hx) as (v & ? & ? & ? & Hv). exists v. repeat split; try done.
    intros u Hu. apply Hv. lia.
Qed.

(** A registration that failed, seen from a server where it did nothing. *)
Lemma represents_forget d t e R k P :
  (∀ k', allowed R k' ⊆ allowed (MkRegistry P ∅) k') →
  represents d t e R → represents d t e (MkRegistry P (delete k (promised R))).
Proof.
  intros HP [Hp Hq]. split.
  - intros k' v t' Ht Hk Hv. destruct (Hp k' v t' Ht Hk Hv) as (i & ? & Hi). exists i. split; [done|].
    by apply HP.
  - intros k' x. simpl. intros [_ Hx]%lookup_delete_Some. by apply Hq.
Qed.

Lemma allowed_insert k js P Q k' :
  allowed (MkRegistry (<[k := js]> P) Q) k' = if decide (k = k') then js else allowed (MkRegistry P ∅) k'.
Proof. unfold allowed. simpl. case_decide; subst; by rewrite ?lookup_insert_eq, ?lookup_insert_ne. Qed.

Lemma allowed_more R k i k' : allowed R k' ⊆ allowed (MkRegistry (<[k := i :: allowed R k]> (possible R)) ∅) k'.
Proof. rewrite allowed_insert. case_decide; subst; [by apply list_subseteq_cons|done]. Qed.

Lemma represents_grant d t e R n ttl : represents d t e R → represents d t (eGrant n ttl e).2 R.
Proof.
  intros [Hp Hq]. split.
  - intros k v t'. rewrite (proj1 (grant_keeps e n ttl k t')). apply Hp.
  - intros k x Hx. destruct (Hq k x Hx) as (v & ? & Hl & ? & Hv). exists v.
    rewrite (proj2 (grant_keeps e n ttl k t)), (grant_fresh e n ttl k (eLease x) Hl). repeat split; try done.
    intros t' Ht. rewrite (proj1 (grant_keeps e n ttl k t')). by apply Hv.
Qed.

(** The other keys after a change at [k]. *)
Definition frame (k : string) (e e' : E) : Prop :=
  (∀ k' t, k ≠ k' → eGet t k' e' = eGet t k' e ∧ leaseOf e' k' = leaseOf e k') ∧ leaseTTL e' = leaseTTL e.

Lemma represents_frame d t e e' R k js P' :
  frame k e e' → represents d t e R →
  (∀ v t', (t ≤ t')%Z → eGet t' k e' = Some v → ∃ i, unmarshal v = Ok i ∧ i ∈ js) →
  (∀ x, P' = Some x → ∃ v, unmarshal v = Ok (eInst x) ∧ leaseOf e' k = Some (eLease x) ∧
     (registrationTTL d ≤ leaseTTL e' (eLease x))%Z ∧ ∀ t', (t ≤ t' < eUntil x)%Z → eGet t' k e' = Some v) →
  represents d t e' (MkRegistry (<[k := js]> (possible R)) (partial_alter (λ _, P') k (promised R))).
Proof.
  intros [Hf Ht] [Hp Hq] Hk HP. split.
  - intros k' v t' Ht' Hpre. rewrite allowed_insert. case_decide as Hd; subst; [by apply Hk|].
    rewrite (proj1 (Hf k' t' Hd)). by apply Hp.
  - intros k' x. simpl. destruct (decide (k = k')) as [<-|Hd].
    + rewrite lookup_partial_alter_eq. apply HP.
    + rewrite lookup_partial_alter_ne by done. intros Hx. destruct (Hq k' x Hx) as (v & ? & Hl & ? & Hv).
      exists v. rewrite Ht, (proj2 (Hf k' t Hd)). repeat split; try done.
      intros t' Ht'. rewrite (proj1 (Hf k' t' Hd)). by apply Hv.
Qed.

Lemma represents_put d t e R n i v l :
  represents d t e R → encodes i → marshal i = Ok v →
  represents d t (ePut n (keyOf d i) v l e).2
    (MkRegistry (<[keyOf d i := i :: allowed R (keyOf d i)]> (possible R)) (delete (keyOf d i) (promised R))).
Proof.
  intros HR Hi Hv. destruct (ePut n (keyOf d i) v l e) as [[[]|x] e'] eqn:Hput.
  - apply (represents_frame d t e e' R (keyOf d i) _ None); [|done| |done].
    + split; [|destruct (put_leases e n (keyOf d i) v l) as [_ <-]; by rewrite Hput].
      intros k' t' Hk. replace e' with (ePut n (keyOf d i) v l e).2 by (by rewrite Hput). by apply put_frame.
    + intros v' t' _ Hg. exists i. rewrite (put_only _ _ _ _ _ _ _ _ Hput Hg). split; [auto|by left].
  - simpl. rewrite (put_refused _ _ _ _ _ _ _ Hput). apply represents_forget; [apply allowed_more|done].
Qed.

Lemma represents_put_ok d t e R n i v l dl u e' :
  represents d t e R → encodes i → marshal i = Ok v → (n ≤ t)%Z →
  ePut n (keyOf d i) v (Some l) e = (Ok tt, e') →
  leaseEnd e l = Some dl → (u ≤ dl)%Z → (registrationTTL d ≤ leaseTTL e l)%Z →
  represents d t e'
    (MkRegistry (<[keyOf d i := [i]]> (possible R)) (<[keyOf d i := MkEntry i l u]> (promised R))).
Proof.
  intros HR Hi Hv Hn Hput Hl Hu Httl.
  destruct (put_leases e n (keyOf d i) v (Some l)) as [_ Hleases]. rewrite Hput in Hleases. simpl in Hleases.
  apply (represents_frame d t e e' R (keyOf d i) [i] (Some (MkEntry i l u))); [|done| |].
  - split; [|done].
    intros k' t' Hk. replace e' with (ePut n (keyOf d i) v (Some l) e).2 by (by rewrite Hput). by apply put_frame.
  - intros v' t' _ Hg. exists i. rewrite (put_only _ _ _ _ _ _ _ _ Hput Hg). split; [auto|by left].
  - intros x [= <-]. exists v. simpl. split; [auto|]. split; [by eapply put_lease|]. split; [by rewrite Hleases|].
    intros t' Ht. eapply put_leased; [done..|lia].
Qed.

Lemma represents_delete d t e R n k :
  represents d t e R →
  represents d t (eDelete n k e) (MkRegistry (<[k := []]> (possible R)) (delete k (promised R))).
Proof.
  intros HR. apply (represents_frame d t e _ R k [] None); [|done| |done].
  - split; [|apply delete_leases]. intros k' t' Hk. by apply delete_frame.
  - intros v t' _. by rewrite delete_gone.
Qed.

Lemma represents_weaken d t e P P' Q :
  (∀ k, allowed (MkRegistry P ∅) k ⊆ allowed (MkRegistry P' ∅) k) →
  represents d t e (MkRegistry P Q) → represents d t e (MkRegistry P' Q).
Proof.
  intros HP [Hp Hq]. split; [|done]. intros k v t' Ht Hk Hv.
  destruct (Hp k v t' Ht Hk Hv) as (i & ? & Hi). exists i. split; [done|]. by apply HP.
Qed.

Lemma represents_renew d t e R l :
  represents d t e R →
  represents d t (eRenew t l e) R ∧
  represents d t (eRenew t l e) (MkRegistry (possible R) (renewed d t l <$> promised R)).
Proof.
  intros [Hp Hq].
  assert (∀ k v t', (t ≤ t')%Z → HasPrefix k (sdPrefix d) = true → eGet t' k (eRenew t l e) = Some v →
     ∃ i, unmarshal v = Ok i ∧ i ∈ allowed R k) as Hp'.
  { intros k v t' Ht Hk Hg. apply (Hp k v t); [lia|done|]. by eapply renew_only. }
  assert (∀ k x, leaseOf e k = Some (eLease x) → (registrationTTL d ≤ leaseTTL e (eLease x))%Z →
    leaseOf (eRenew t l e) k = Some (eLease x) ∧
    (registrationTTL d ≤ leaseTTL (eRenew t l e) (eLease x))%Z) as Hlease.
  { intros k x Hl Httl. destruct (renew_leases e t l (eLease x) k) as [-> ->]. done. }
  split; (split; [done|]).
  - intros k x Hx. destruct (Hq k x Hx) as (v & Hu & Hl & Httl & Hv). exists v.
    destruct (Hlease k x Hl Httl). repeat split; try done.
    intros t' Ht. eapply renew_keeps; [lia|auto].
  - intros k x. simpl. rewrite lookup_fmap_Some. intros (x0 & <- & Hx).
    destruct (Hq k x0 Hx) as (v & Hu & Hl & Httl & Hv). exists v. unfold renewed.
    destruct (Hlease k x0 Hl Httl).
    destruct (bool_decide (eLease x0 = l) && (t <? eUntil x0)%Z) eqn:Hc; simpl; repeat split; try done.
    + bool_prop. intros t' Ht. destruct (decide (t' < eUntil x0)%Z).
      * eapply renew_keeps; [lia|auto with lia].
      * subst l. eapply renew_extends; [done|apply Hv; lia|]. unfold lifetime, Second, Millisecond in *. nia.
    + intros t' Ht. eapply renew_keeps; [lia|auto].
Qed.

Definition laterSys (s s' : Sys) : Prop := oracle s' = oracle s ∧ tick s ≤ tick s'.

Lemma laterSys_skip s s' n : laterSys s s' → laterSys s (skip n s').
Proof. intros [Ho Ht]. split; simpl; [done|lia]. Qed.

Lemma laterSys_clock s s' : laterSys s s' → monotoneClock s → monotoneClock s' ∧ (timeOf s ≤ timeOf s')%Z.
Proof. intros [Ho Ht] Hm. unfold monotoneClock, timeOf. rewrite Ho. auto. Qed.

Lemma represents_skip d s s' n e R :
  laterSys s s' → monotoneClock s → represents d (timeOf s') e R → represents d (timeOf (skip n s')) e R.
Proof. intros Hs Hm. apply represents_later, timeOf_skip. by eapply laterSys_clock. Qed.

(** A registration that may have failed on the way. *)
Definition dubious (d : ServiceDiscovery) (i : ServiceInstance) (R : registry) (s : Sys) (w : E * Sys) : Prop :=
  laterSys s w.2 ∧ represents d (timeOf w.2) w.1
    (MkRegistry (<[keyOf d i := i :: allowed R (keyOf d i)]> (possible R)) (delete (keyOf d i) (promised R))).

Definition announced (d : ServiceDiscovery) (i : ServiceInstance) (R : registry) (s : Sys) (l : Z)
    (w : E * Sys) : Prop :=
  laterSys s w.2 ∧ ∃ u, (timeOf s + lifetime d ≤ u)%Z ∧ represents d (timeOf w.2) w.1
    (MkRegistry (<[keyOf d i := [i]]> (possible R)) (<[keyOf d i := MkEntry i l u]> (promised R))).

Lemma dubious_before d i R s e' s' :
  laterSys s s' → represents d (timeOf s') e' R → dubious d i R s (e', s').
Proof. intros Hs HR. split; [done|]. apply represents_forget; [apply allowed_more|done]. Qed.

Lemma announced_dubious d i R s l w : announced d i R s l w → dubious d i R s w.
Proof.
  intros (Hs & u & _ & HR). split; [done|].
  apply (represents_forget _ _ _ _ (keyOf d i) (<[keyOf d i := i :: allowed R (keyOf d i)]> (possible R))) in HR.
  - simpl in HR. by rewrite delete_insert_eq in HR.
  - intros k. rewrite !allowed_insert. case_decide; [|done]. intros j Hj. set_solver.
Qed.

Lemma leased_refines d i v msg R e s :
  monotoneClock s → encodes i → marshal i = Ok v → represents d (timeOf s) e R →
  triple (λ w, w = (e, s)) (leased msg (keyOf d i) v (registrationTTL d))
    (announced d i R s) (dubious d i R s).
Proof.
  intros Hm Hi Hv HR. unfold leased.
  eapply triple_bind with (Q := λ l w, laterSys s w.2 ∧ represents d (timeOf w.2) w.1 R ∧
    (registrationTTL d ≤ leaseTTL w.1 l)%Z ∧
    ∃ dl, leaseEnd w.1 l = Some dl ∧ (timeOf s + lifetime d ≤ dl)%Z).
  { apply triple_wrapErr, triple_request. intros ? ? [= -> ->].
    destruct (eGrant (timeOf s) (registrationTTL d) e) as [l e1] eqn:Hg. exists (Ok l), e1. split; [done|].
    assert (represents d (timeOf (skip 1 s)) e1 R) as HR1.
    { apply (represents_skip d s s 1); [done..|]. replace e1 with (eGrant (timeOf s) (registrationTTL d) e).2
        by (by rewrite Hg). by apply represents_grant. }
    assert (laterSys s (skip 1 s)) as Hs by (by apply laterSys_skip).
    split; [apply dubious_before; [done|by apply (represents_skip d s s 1)]|].
    split; [by apply dubious_before|]. intros ? [= <-]. simpl.
    destruct (grant_ends _ _ _ _ _ Hg) as [? (dl & ? & ?)]. eauto 6. }
  intros l. eapply triple_bind with (Q := λ _, announced d i R s l).
  { apply triple_wrapErr, triple_request. simpl. intros e1 s1 (Hs & HR1 & Httl & dl & Hdl & Hu).
    destruct (ePut (timeOf s1) (keyOf d i) v (Some l) e1) as [r e2] eqn:Hput. exists r, e2. split; [done|].
    pose proof (laterSys_skip _ _ 1 Hs) as Hs'. pose proof (represents_skip d s s1 1 e1 R Hs Hm HR1) as HR2.
    split; [by apply dubious_before|]. split.
    - split; [done|]. simpl. replace e2 with (ePut (timeOf s1) (keyOf d i) v (Some l) e1).2 by (by rewrite Hput).
      by apply represents_put.
    - intros [] ->. split; [done|]. exists (timeOf s + lifetime d)%Z. split; [lia|]. simpl.
      eapply (represents_put_ok _ _ _ _ (timeOf s1)); try done. apply timeOf_skip. by eapply laterSys_clock. }
  intros _. eapply triple_bind with (Q := λ _, announced d i R s l).
  { apply triple_wrapErr, triple_request. intros e1 s1 (Hs & u & Hu & HR1).
    eexists _, e1. split; [done|].
    assert (announced d i R s l (e1, skip 1 s1)) as Ha.
    { split; [by apply laterSys_skip|]. exists u. split; [done|]. by apply (represents_skip d s s1 1). }
    split; [by eapply announced_dubious|]. split; [by eapply announced_dubious|done]. }
  intros _. apply triple_ret.
Qed.

Lemma Register_refines d i R e s :
  monotoneClock s → encodes i → represents d (timeOf s) e R →
  triple (λ w, w = (e, s)) (Register d i) (announced d i R s) (dubious d i R s).
Proof.
  intros Hm Hi HR w ->. unfold Register. destruct (marshal i) as [v|x] eqn:Hv.
  - exact (leased_refines d i v _ R e s Hm Hi Hv HR (e, s) eq_refl).
  - by apply dubious_before.
Qed.

(** One action of the code is one step of the registry. *)
Lemma act_refines d a R e s :
  monotoneClock s → sendable a → represents d (timeOf s) e R →
  let '(r, (e', s')) := act d a (e, s) in
  laterSys s s' ∧ ∃ R', specStep d (timeOf s) a r R R' ∧ represents d (timeOf s') e' R'.
Proof.
  intros Hm Ha HR. assert (laterSys s (skip 1 s)) as Hs by (by apply laterSys_skip).
  assert (∀ e' R', represents d (timeOf s) e' R' → represents d (timeOf (skip 1 s)) e' R') as Hskip.
  { intros e' R'. by apply (represents_skip d s s 1). }
  destruct a as [i|i|l]; simpl in Ha; unfold act.
  - pose proof (Register_refines d i R e s Hm Ha HR (e, s) eq_refl) as Hr.
    destruct (Register d i (e, s)) as [[l|x] [e' s']]; simpl in Hr.
    + destruct Hr as (Hs' & u & Hu & HR'). split; [done|]. eexists. split; [by constructor|done].
    + destruct Hr as (Hs' & HR'). split; [done|]. eexists. split; [by constructor|done].
  - unfold Deregister, request, extCall, faulty, wrapErr, mbind, M_bind. fold (timeOf s).
    destruct (net _); simpl; (split; [done|]); (eexists; split; [by constructor|]);
      apply Hskip; try by apply represents_delete.
    all: try (apply represents_forget; [by intros []|done]).
    eapply represents_weaken; [|by apply represents_delete].
    intros k. rewrite allowed_insert. case_decide; [apply list_subseteq_nil|by destruct R].
  - unfold request, extCall, faulty. fold (timeOf s). destruct (represents_renew d (timeOf s) e R l HR).
    destruct (net _); simpl; (split; [done|]); (eexists; split; [by constructor|]); by apply Hskip.
Qed.

Lemma trace_refines d l R e s tr e' s' :
  monotoneClock s → Forall sendable l → represents d (timeOf s) e R → trace d l (e, s) = (tr, (e', s')) →
  ∃ R', specRun d tr R R' ∧ represents d (timeOf s') e' R'.
Proof.
  revert R e s tr. induction l as [|a l IH]; intros R e s tr Hm Hl HR; simpl.
  { intros [= <- <- <-]. exists R. split; [constructor|done]. }
  apply Forall_cons in Hl as [Ha Hl]. pose proof (act_refines d a R e s Hm Ha HR) as Hr.
  destruct (act d a (e, s)) as [r [e1 s1]]. destruct Hr as (Hs & R1 & Hstep & HR1).
  destruct (trace d l (e1, s1)) as [tr1 [e2 s2]] eqn:Htr. intros [= <- <- <-].
  edestruct (IH R1 e1 s1 tr1) as (R2 & Hrun & HR2); [by eapply laterSys_clock|done..|].
  exists R2. split; [by econstructor|done].
Qed.

Definition servicePrefix (d : ServiceDiscovery) (name : string) : string := sdPrefix d +:+ name +:+ "/".

(** What Discover may return: everything that is promised for now, and nothing that is
    not allowed. *)
Definition listing (d : ServiceDiscovery) (name : string) (t : Z) (R : registry) (js : list ServiceInstance) : Prop :=
  (∀ k x, promised R !! k = Some x → HasPrefix k (servicePrefix d name) = true → (t < eUntil x)%Z →
     eInst x ∈ js) ∧
  (∀ i, i ∈ js → ∃ k, HasPrefix k (servicePrefix d name) = true ∧ i ∈ allowed R k).

Lemma Discover_listing d name R e s :
  represents d (timeOf s) e R →
  triple (λ w, w = (e, s)) (Discover d name) (λ js w, w.1 = e ∧ listing d name (timeOf s) R js) (λ w, w.1 = e).
Proof.
  intros [Hp Hq]. unfold Discover.
  eapply triple_bind with (Q := λ kvs w, w.1 = e ∧ kvs = eList (timeOf s) (servicePrefix d name) e).
  { apply triple_wrapErr, triple_request. intros ? ? [= -> ->]. eexists _, e. split; [done|].
    do 2 (split; [done|]). by intros kvs [= <-]. }
  intros kvs w [Hw ->]. simpl. split; [done|]. split.
  - intros k x Hx Hk Hu. destruct (Hq k x Hx) as (v & Hv & _ & _ & Hg). apply list_elem_of_omap.
    exists (k, v). simpl. rewrite Hv. split; [|done]. apply list_spec. split; [done|]. apply Hg. lia.
  - intros i ([k v] & [Hk Hg]%list_spec & Hi)%list_elem_of_omap. simpl in Hi.
    exists k. split; [done|]. destruct (Hp k v (timeOf s)) as (j & Hj & Hin); [lia| |done|].
    + apply HasPrefix_spec in Hk as [u ->]. unfold servicePrefix. rewrite append_assoc. apply HasPrefix_append.
    + rewrite Hj in Hi. by injection Hi as <-.
Qed.

Lemma represents_none d t e :
  (∀ k t, HasPrefix k (sdPrefix d) = true → eGet t k e = None) → represents d t e (MkRegistry ∅ ∅).
Proof. intros He. split; [|done]. intros k v t' _ Hk. by rewrite He. Qed.

(** An instance is allowed under its own key only. *)
Lemma allowed_own d tr R R' :
  specRun d tr R R' → (∀ k i, i ∈ allowed R k → keyOf d i = k) → ∀ k i, i ∈ allowed R' k → keyOf d i = k.
Proof.
  induction 1 as [|t a r tr R R1 R2 Hstep Hrun IH]; [done|]. intros HR. apply IH.
  destruct Hstep; intros k j; try rewrite allowed_insert; try case_decide; subst; try by apply HR.
  - by intros ->%list_elem_of_singleton.
  - intros [->|Hj]%elem_of_cons; [done|by apply HR].
  - by intros ?%elem_of_nil.
Qed.

Lemma plain_prefix (n m u v : string) :
  sIn slash n = false → sIn slash m = false → n +:+ "/" +:+ u = m +:+ "/" +:+ v → n = m.
Proof.
  revert m. induction n as [|c n IH]; intros [|c' m]; simpl; rewrite ?append_cons; try done.
  - intros _ Hm Heq. injection Heq as <- _. by simpl in Hm.
  - intros Hn _ Heq. injection Heq as -> _. by simpl in Hn.
  - intros Hn Hm Heq. injection Heq as -> Heq. bool_prop. f_equal. by eapply IH.
Qed.

Lemma listed_name d name i :
  sIn slash name = false → sIn slash (siName i) = false →
  HasPrefix (keyOf d i) (servicePrefix d name) = true → siName i = name.
Proof.
  intros Hn Hi [u Hu]%HasPrefix_spec. unfold keyOf, serviceKey, servicePrefix in Hu.
  rewrite !append_assoc in Hu. apply append_inj_l in Hu. by eapply plain_prefix.
Qed.

(** C29: the discovery service refines the abstract registry. Whatever sequence of
    registrations, removals and lease renewals the processes perform on a server with
    no service key in it, with requests and replies lost at any point, the sequence is
    one of the registry, with the same outcomes; and Discover, when it succeeds then,
    returns every instance the registry promises at that time and only instances the
    registry allows under the prefix of the service. Every instance it returns then has
    the name asked for, unless a name contains a slash. A failed registration or
    removal promises nothing and excludes nothing. *)
Theorem registry_refines d l e s tr e' s' name :
  monotoneClock s → Forall sendable l →
  (∀ k t, HasPrefix k (sdPrefix d) = true → eGet t k e = None) →
  trace d l (e, s) = (tr, (e', s')) →
  ∃ R, specRun d tr (MkRegistry ∅ ∅) R ∧
    match Discover d name (e', s') with
    | (Ok js, (e'', _)) => e'' = e' ∧ listing d name (timeOf s') R js ∧
        ∀ i, i ∈ js → sIn slash name = false → sIn slash (siName i) = false → siName i = name
    | (Err _, (e'', _)) => e'' = e'
    end.
Proof.
  intros Hm Hl He Htr.
  destruct (trace_refines d l (MkRegistry ∅ ∅) e s tr e' s' Hm Hl (represents_none d _ e He) Htr)
    as (R & Hrun & HR).
  exists R. split; [done|]. pose proof (Discover_listing d name R e' s' HR (e', s') eq_refl) as Hd.
  destruct (Discover d name (e', s')) as [[js|x] [e'' s'']]; [|done]. destruct Hd as [He2 Hd].
  split; [done|]. split; [done|]. intros i Hi Hn Hin. destruct Hd as [_ Hd].
  destruct (Hd i Hi) as (k & Hk & Ha). apply (listed_name d name i Hn Hin).
  by rewrite (allowed_own d tr _ R Hrun ltac:(by intros ? ? ?%elem_of_nil) k i Ha).
Qed.

(** ** How long an instance stays listed *)

(** The action does not concern the key. *)
Definition elsewhere (d : ServiceDiscovery) (k : string) (x : Z * action * res Z) : Prop :=
  match x.1.2 with ARegister i | ADeregister i => keyOf d i ≠ k | ARenew _ => True end.

(** The end of the lease [l], after the renewals that came in time. *)
Definition extended (d : ServiceDiscovery) (l u : Z) (tr : list (Z * action * res Z)) : Z :=
  foldl (λ u x, match x with
                | (t, ARenew l', Ok _) =>
                    if bool_decide (l' = l) && (t <? u)%Z then Z.max u (t + lifetime d) else u
                | _ => u
                end) u tr.

Lemma extended_mono d l u u' tr : (u ≤ u')%Z → (extended d l u tr ≤ extended d l u' tr)%Z.
Proof.
  revert u u'. induction tr as [|[[t a] r] tr IH]; intros u u' Hu; simpl; [done|]. apply IH.
  destruct a as [| |l'], r; try done. destruct (bool_decide (l' = l)); simpl; [|done].
  destruct (Z.ltb_spec t u), (Z.ltb_spec t u'); lia.
Qed.

(** A promise survives what happens to other keys, and is prolonged by renewals. *)
Lemma promise_survives d tr R R' k i l u :
  specRun d tr R R' → Forall (elsewhere d k) tr → promised R !! k = Some (MkEntry i l u) →
  ∃ u', promised R' !! k = Some (MkEntry i l u') ∧ (extended d l u tr ≤ u')%Z.
Proof.
  intros Hrun. revert u. induction Hrun as [|t a r tr R R1 R2 Hstep Hrun IH]; intros u Htr Hk; simpl.
  { exists u. split; [done|lia]. }
  apply Forall_cons in Htr as [Hx Htr].
  destruct Hstep; simpl in Hx; try (apply IH; [done|]; simpl; rewrite ?lookup_insert_ne, ?lookup_delete_ne; done).
  destruct (IH (eUntil (renewed d t l0 (MkEntry i l u)))) as (u' & Hu' & Hle); [done| |].
  { simpl. rewrite lookup_fmap, Hk. simpl. unfold renewed. simpl. by case_match. }
  exists u'. split; [done|]. etrans; [|exact Hle]. apply extended_mono. unfold renewed. simpl.
  rewrite (bool_decide_ext (l0 = l) (l = l0)) by done. by case_match.
Qed.

Lemma specRun_app d tr1 tr2 R R2 :
  specRun d (tr1 ++ tr2) R R2 → ∃ R1, specRun d tr1 R R1 ∧ specRun d tr2 R1 R2.
Proof.
  revert R. induction tr1 as [|x tr1 IH]; intros R Hrun; simpl in *.
  { exists R. split; [constructor|done]. }
  inversion Hrun as [|t a r tr R0 R1 R2' Hstep Hrest]; subst.
  destruct (IH R1 Hrest) as (R3 & H1 & H2). exists R3. split; [by econstructor|done].
Qed.

Lemma keyOf_prefix d i : HasPrefix (keyOf d i) (servicePrefix d (siName i)) = true.
Proof.
  unfold keyOf, serviceKey, servicePrefix. apply HasPrefix_spec. exists (siID i). by rewrite !append_assoc.
Qed.

(** C30: a registered instance is found. After a registration that succeeded, and
    whatever else the processes register, remove or renew, faults included, as long as
    nobody registers or removes the same key, a Discover of the name of the instance
    that gets an answer lists the instance at least until the lease, as prolonged by the
    renewals that came in time, ends: three intervals after the registration if none
    came. *)
Theorem registered_listed d l e s tr1 t i lease tr2 e' s' :
  monotoneClock s → Forall sendable l →
  (∀ k t, HasPrefix k (sdPrefix d) = true → eGet t k e = None) →
  trace d l (e, s) = (tr1 ++ (t, ARegister i, Ok lease) :: tr2, (e', s')) →
  Forall (elsewhere d (keyOf d i)) tr2 →
  (timeOf s' < extended d lease (t + lifetime d) tr2)%Z →
  net (oracle s' (tick s')) = NoFault →
  ∃ js, (Discover d (siName i) (e', s')).1 = Ok js ∧ i ∈ js.
Proof.
  intros Hm Hl He Htr Helse Ht Hnet.
  destruct (trace_refines d l (MkRegistry ∅ ∅) e s _ e' s' Hm Hl (represents_none d _ e He) Htr)
    as (R & Hrun & HR).
  apply specRun_app in Hrun as (R1 & _ & Hrun).
  inversion Hrun as [|? ? ? ? ? R2 ? Hstep Hrun2]; subst. inversion Hstep as [? ? u ? Hu| | | | |]; subst.
  destruct (promise_survives d tr2 _ R (keyOf d i) i lease u Hrun2 Helse) as (u' & Hk & Hle);
    [simpl; by rewrite lookup_insert_eq|].
  pose proof (extended_mono d lease _ _ tr2 Hu).
  pose proof (Discover_listing d (siName i) R e' s' HR (e', s') eq_refl) as Hd.
  assert (∃ js, (Discover d (siName i) (e', s')).1 = Ok js) as [js Hjs].
  { unfold Discover, reading, request, extCall, faulty, wrapErr, mbind, M_bind. rewrite Hnet. by eexists. }
  exists js. split; [done|]. destruct (Discover d (siName i) (e', s')) as [r w]. simpl in Hjs. subst r.
  destruct Hd as [_ [Hd _]]. apply (Hd _ _ Hk); [apply keyOf_prefix|simpl; lia].
Qed.

End refinement.

(** ** The watch *)

Section watch.
Context {E : Type} `{EtcdServer E} `{Codec ServiceInstance}.

(** The channel never holds more than its capacity; once it is full, what the client
    reads next is older than the change that was signalled. *)
Lemma watch_bounded d name queue ev :
  hoare (λ _ : E * Sys, length queue ≤ watchCapacity) (watchStep d name queue ev)
    (λ queue' _, length queue' ≤ watchCapacity ∧ (length queue = watchCapacity → queue' = queue)).
Proof.
  intros w queue' w' Hq Hw. unfold watchStep in Hw. destruct ev.
  2: { by apply ret_ok in Hw as [-> ->]. }
  all: apply bind_ok in Hw as ([js|x] & w1 & _ & Hw); apply ret_ok in Hw as [-> ->]; [|done].
  all: destruct (Nat.ltb_spec (length queue) watchCapacity); [|done]; rewrite length_app; simpl; lia.
Qed.

(** After the server has closed the watch, every round of the loop makes a request and
    none ends the loop. *)
Lemma watch_closed_spins d name n queue (w : E * Sys) :
  tick (watchLoop d name queue (replicate n WClosed) w).2.2 = tick w.2 + n.
Proof.
  revert queue w. induction n as [|n IH]; intros queue [e s]; [simpl; lia|].
  cbn [replicate watchLoop]. unfold mbind at 1, M_bind at 1. destruct (watchStep d name queue WClosed (e, s)) as [r w1] eqn:Hw.
  assert (tick w1.2 = tick s + 1 ∧ ∃ q, r = Ok q) as [Ht [q ->]].
  { revert Hw. unfold watchStep, Discover, reading, request, extCall, faulty, wrapErr, catch, mbind, M_bind.
    destruct (net _); intros [= <- <-]; eauto. }
  rewrite IH, Ht. simpl. lia.
Qed.

End watch.

(** ** A concrete registry *)

Definition demoInstance : ServiceInstance := MkInstance "h-8080" "fsserver" "h" 8080 {["grpc_port" := "9090"]}.
Definition otherInstance : ServiceInstance := MkInstance "x" "fsserver/eu" "x" 8080 ∅.

(** An encoding that knows these instances only. *)
#[local] Instance demoCodec : Codec ServiceInstance := {|
  marshal i := if bool_decide (siID i = "h-8080") then Ok "demo" else Ok "other";
  unmarshal v := if bool_decide (v = "demo") then Ok demoInstance
                 else if bool_decide (v = "other") then Ok otherInstance else Err (ErrMsg "invalid character")
|}.

Definition demoDiscovery : ServiceDiscovery := NewServiceDiscovery "/fs" 10.

Definition demoActions : list action := [ARegister demoInstance; ARegister otherInstance; ARenew 0].

Lemma demo_sendable : Forall sendable demoActions.
Proof. repeat constructor; intros v [= <-]; reflexivity. Qed.

Lemma calmSys_clock : monotoneClock calmSys.
Proof. intros n m Hnm. simpl. lia. Qed.

Definition demoRun := trace demoDiscovery demoActions (MapEtcd.MkState ∅ ∅, calmSys).

(** A service whose name continues another's after a slash is listed with it. *)
Lemma discover_overlap :
  (Discover demoDiscovery "fsserver" demoRun.2).1 = Ok [otherInstance; demoInstance] ∧
  siName otherInstance ≠ "fsserver".
Proof. split; [vm_compute; reflexivity|done]. Qed.

(** Two instances whose names and identifiers meet at a slash share a key. *)
Lemma keys_clash :
  keyOf demoDiscovery (MkInstance "eu/x" "fsserver" "h" 1 ∅) =
  keyOf demoDiscovery (MkInstance "x" "fsserver/eu" "h" 2 ∅).
Proof. reflexivity. Qed.

Lemma demo_none k t :
  HasPrefix k (sdPrefix demoDiscovery) = true → eGet t k (MapEtcd.MkState ∅ ∅) = None.
Proof. intros _. simpl. unfold MapEtcd.get. simpl. by rewrite lookup_empty. Qed.

Lemma registry_refines_witness :
  ∃ R js, specRun demoDiscovery demoRun.1 (MkRegistry ∅ ∅) R ∧
    (Discover demoDiscovery "fsserver" demoRun.2).1 = Ok js ∧ length js = 2 ∧
    listing demoDiscovery "fsserver" (timeOf demoRun.2.2) R js.
Proof.
  destruct (registry_refines demoDiscovery demoActions (MapEtcd.MkState ∅ ∅) calmSys
    demoRun.1 demoRun.2.1 demoRun.2.2 "fsserver"
    calmSys_clock demo_sendable demo_none eq_refl) as (R & Hrun & HR).
  exists R, [otherInstance; demoInstance]. split; [exact Hrun|]. split; [vm_compute; reflexivity|].
  split; [reflexivity|].
  assert ((Discover demoDiscovery "fsserver" (demoRun.2.1, demoRun.2.2)).1 = Ok [otherInstance; demoInstance])
    as Hd by (vm_compute; reflexivity).
  destruct (Discover demoDiscovery "fsserver" (demoRun.2.1, demoRun.2.2)) as [r [e' s']].
  simpl in Hd. rewrite Hd in HR. exact (proj1 (proj2 HR)).
Defined.

Lemma registered_listed_witness :
  ∃ js, (Discover demoDiscovery (siName demoInstance) (demoRun.2.1, demoRun.2.2)).1 = Ok js ∧ demoInstance ∈ js.
Proof.
  refine (registered_listed demoDiscovery demoActions (MapEtcd.MkState ∅ ∅) calmSys
    [] 0 demoInstance (match demoRun.1 with (_, Ok l) :: _ => l | _ => 0%Z end) (drop 1 demoRun.1)
    demoRun.2.1 demoRun.2.2 calmSys_clock demo_sendable demo_none _ _ _ _).
  - vm_compute. reflexivity.
  - vm_compute. repeat constructor; discriminate.
  - vm_compute. reflexivity.
  - vm_compute. reflexivity.
Defined.
