(* ===== verification/Connection.v ===== *)
(** * internal/database/database.go: the connection to the database

    Connect, Close, Execute and Query of [Database]. Handles of database/sql are kept
    in a table of pools; the drivers are not part of the repository and are an
    interface, [SqlDriver]. Errors that [lastError] formats are kept as errors. The
    calls are taken one at a time: each holds the mutex while it changes the record. *)

From S2P Require Export Config Dialect OS.
From stdpp Require Import pretty.

Local Open Scope go_scope.

(** ** database/sql *)

(** The values a driver returns. *)
Inductive value :=
  | VBytes (b : bytes) | VString (s : string) | VInt64 (n : Z) | VFloat64 (bits : Z)
  | VBool (b : bool) | VTime (ns : Z) | VNil.

Record pool := MkPool {
  pDriver : string; pDSN : string; pMaxOpen : Z; pMaxIdle : Z; pLifetime : Z; pIdleTime : Z;
  pOpen : bool
}.

(** What Query returns: the columns, the outcome of each Scan, and [rows.Err()]. *)
Record resultSet := MkResultSet {
  rsColumns : res (list string); rsRows : list (res (list value)); rsErr : option error
}.

Class SqlDriver (D : Type) := {
  (** [sql.Open] checks the driver's name and the form of the data source only *)
  drvOpen : string → string → res unit;
  drvPing : pool → D → res unit * D;
  drvExec : pool → string → list value → D → res unit * D;
  drvQuery : pool → string → list value → D → res resultSet * D
}.

(** ** The record *)

Record Database := MkDatabaseRec {
  dDB : option nat; dConfig : option DatabaseConfig; dDialect : Dialect; dQueryDB : option DB;
  dLastError : option error
}.

Definition NewDatabase : Database := MkDatabaseRec None None DialectSQLite None None.

Record ConnState (D : Type) := MkConn {
  cDatabase : Database; cPools : gmap nat pool; cBackend : D; cSys : Sys
}.
Arguments MkConn {D}.
Arguments cDatabase {D}.
Arguments cPools {D}.
Arguments cBackend {D}.
Arguments cSys {D}.

Section connection.
Context {D : Type} `{SqlDriver D}.
Notation CM := (M (ConnState D)).

Definition setDatabase (f : Database → Database) (w : ConnState D) : ConnState D :=
  MkConn (f (cDatabase w)) (cPools w) (cBackend w) (cSys w).

Definition setPools (f : gmap nat pool → gmap nat pool) (w : ConnState D) : ConnState D :=
  MkConn (cDatabase w) (f (cPools w)) (cBackend w) (cSys w).

Definition connOS {A} (m : M Sys A) : CM A := λ w,
  let '(r, s) := m (cSys w) in (r, MkConn (cDatabase w) (cPools w) (cBackend w) s).

(** A call of the driver through an open pool. *)
Definition onPool {A} (h : nat) (op : pool → D → res A * D) : CM A := λ w,
  match cPools w !! h with
  | Some p =>
      if pOpen p then
        let '(r, b) := faulty (net (oracle (cSys w) (tick (cSys w)))) (op p) (cBackend w) in
        (r, MkConn (cDatabase w) (cPools w) b (skip 1 (cSys w)))
      else (Err (ErrMsg "sql: database is closed"), w)
  | None => (Err (ErrMsg "sql: database is closed"), w)
  end.

Definition sqlOpen (driver dsn : string) : CM nat := λ w,
  match drvOpen driver dsn with
  | Err e => (Err e, w)
  | Ok _ => let h := fresh (map_to_list (cPools w)).*1 in
            (Ok h, setPools <[h := MkPool driver dsn 0 2 0 0 true]> w)
  end.

(** Close ends the pool even where a connection fails to close; a second one does
    nothing and succeeds. *)
Definition sqlClose (h : nat) : CM unit := λ w,
  match cPools w !! h with
  | Some p =>
      if pOpen p then
        let r := match net (oracle (cSys w) (tick (cSys w))) with
                 | NoFault => Ok tt
                 | Lost e | ReplyLost e => Err e
                 | ShortRead _ => Err errIO
                 end in
        (r, MkConn (cDatabase w)
              (<[h := MkPool (pDriver p) (pDSN p) (pMaxOpen p) (pMaxIdle p) (pLifetime p) (pIdleTime p) false]> (cPools w))
              (cBackend w) (skip 1 (cSys w)))
      else (Ok tt, w)
  | None => (Ok tt, w)
  end.

(** The four setters of the limits of a pool. *)
Definition setLimits (h : nat) (maxOpen maxIdle lifetime idle : Z) : CM unit :=
  modify (setPools (alter (λ p, MkPool (pDriver p) (pDSN p) maxOpen maxIdle lifetime idle (pOpen p)) h)).

(** ** Connect *)

Definition setLastError (e : option error) (d : Database) : Database :=
  MkDatabaseRec (dDB d) (dConfig d) (dDialect d) (dQueryDB d) e.

Definition sqliteDSN (cfg : DatabaseConfig) : string :=
  DPath cfg +:+ "?_pragma=busy_timeout(5000)" +:+ "&_pragma=journal_mode(WAL)"
    +:+ "&_pragma=synchronous(NORMAL)".

Definition postgresDSN (cfg : DatabaseConfig) : string :=
  let sslmode := if bool_decide (SSLMode cfg = "") then "disable" else SSLMode cfg in
  let dsn := "host=" +:+ Host cfg +:+ " port=" +:+ pretty (Port cfg) +:+ " user=" +:+ DUser cfg +:+
             " password=" +:+ DPassword cfg +:+ " dbname=" +:+ DName cfg +:+ " sslmode=" +:+ sslmode in
  if bool_decide (SearchPath cfg = "") then dsn else dsn +:+ " search_path=" +:+ SearchPath cfg.

Definition connectSQLite (cfg : DatabaseConfig) : CM nat :=
  wrapErr "failed to create database directory" (connOS (osCall (osMkdirAll (Dir (DPath cfg))))) ⨟
  wrapErr "failed to open sqlite database" (sqlOpen "sqlite" (sqliteDSN cfg)).

Definition connectPostgreSQL (cfg : DatabaseConfig) : CM nat :=
  wrapErr "failed to open postgresql database" (sqlOpen "postgres" (postgresDSN cfg)).

(** [if err != nil { d.lastError = err; return err }] *)
Definition recording {A} (m : CM A) : CM A := λ w,
  match m w with
  | (Ok a, w') => (Ok a, w')
  | (Err e, w') => (Err e, setDatabase (setLastError (Some e)) w')
  end.

Definition maxOpenConns (cfg : DatabaseConfig) : Z :=
  if (DPoolSize cfg <? 1)%Z then 25 else DPoolSize cfg.

Definition maxIdleConns (cfg : DatabaseConfig) : Z :=
  if (10 <? maxOpenConns cfg)%Z then 10 else maxOpenConns cfg.

Definition Minute : Z := 60 * Second.

Definition Connect (cfg : DatabaseConfig) : CM unit :=
  modify (setDatabase (λ d, MkDatabaseRec (dDB d) (Some cfg) (DialectFromString (dType cfg)) (dQueryDB d)
                              (dLastError d))) ⨟
  h ← recording (match DialectFromString (dType cfg) with
                 | DialectPostgreSQL => connectPostgreSQL cfg
                 | DialectSQLite => connectSQLite cfg
                 end);
  setLimits h (maxOpenConns cfg) (maxIdleConns cfg) (30 * Minute) (5 * Minute) ⨟
  recording (wrapErr "failed to ping database"
    (onError (onPool h drvPing) (sqlClose h))) ⨟
  modify (setDatabase (λ d, MkDatabaseRec (Some h) (dConfig d) (dDialect d) (Some (NewDB (dDialect d))) None)).

(** ** Close, Execute, Query *)

(** The wrapper's Close already closes the pool, and its error is discarded: what the
    second close of the pool reports is all that Close can report. *)
Definition Close : CM unit :=
  db ← gets (λ w, dDB (cDatabase w));
  match db with
  | None => mret tt
  | Some h =>
      q ← gets (λ w, dQueryDB (cDatabase w));
      match q with
      | Some _ =>
          ignore (sqlClose h) ⨟
          modify (setDatabase (λ d, MkDatabaseRec (dDB d) (dConfig d) (dDialect d) None (dLastError d)))
      | None => mret tt
      end ⨟
      r ← catch (sqlClose h);
      modify (setDatabase (λ d, MkDatabaseRec None (dConfig d) (dDialect d) (dQueryDB d) (dLastError d))) ⨟
      recording (wrapErr "failed to close database" (lift r))
  end.

Definition handle : CM nat :=
  db ← gets (λ w, dDB (cDatabase w));
  match db with
  | None => recording (throw (ErrMsg "not connected to database"))
  | Some h => mret h
  end.

Definition Execute (query : string) (args : list value) : CM unit :=
  h ← handle;
  dl ← gets (λ w, dDialect (cDatabase w));
  recording (wrapErr "execute error" (onPool h (λ p, drvExec p (Translate dl query) args))).

(** [[]byte] becomes a string. *)
Definition cell (v : value) : value :=
  match v with VBytes b => VString (String.string_of_list_byte b) | _ => v end.

Definition row (columns : list string) (values : list value) : gmap string value :=
  foldl (λ m cv, <[cv.1 := cell cv.2]> m) ∅ (zip columns values).

Fixpoint scanRows (columns : list string) (rs : list (res (list value)))
    (results : list (gmap string value)) : CM (list (gmap string value)) :=
  match rs with
  | [] => mret results
  | r :: rs =>
      values ← recording (wrapErr "scan error" (lift r));
      scanRows columns rs (results ++ [row columns values])
  end.

Definition Query (query : string) (args : list value) : CM (list (gmap string value)) :=
  h ← handle;
  dl ← gets (λ w, dDialect (cDatabase w));
  rs ← recording (wrapErr "query error" (onPool h (λ p, drvQuery p (Translate dl query) args)));
  columns ← recording (wrapErr "columns error" (lift (rsColumns rs)));
  results ← scanRows columns (rsRows rs) [];
  recording (wrapErr "rows error" (lift (match rsErr rs with Some e => Err e | None => Ok tt end))) ⨟
  mret results.

Definition getLastError : CM (option error) := gets (λ w, dLastError (cDatabase w)).
Definition GetDB : CM (option nat) := gets (λ w, dDB (cDatabase w)).
Definition GetDialect : CM Dialect := gets (λ w, dDialect (cDatabase w)).
Definition GetQueryDB : CM (option DB) := gets (λ w, dQueryDB (cDatabase w)).

(** ** Which pools are open *)

Definition driverOf (d : Dialect) : string :=
  match d with DialectPostgreSQL => "postgres" | DialectSQLite => "sqlite" end.

Definition dsnOf (cfg : DatabaseConfig) : string :=
  match DialectFromString (dType cfg) with
  | DialectPostgreSQL => postgresDSN cfg
  | DialectSQLite => sqliteDSN cfg
  end.

(** A pool as Connect leaves it for a configuration. *)
Definition poolFor (cfg : DatabaseConfig) (p : pool) : Prop :=
  pOpen p = true ∧ pDriver p = driverOf (DialectFromString (dType cfg)) ∧ pDSN p = dsnOf cfg ∧
  (1 ≤ pMaxOpen p)%Z ∧ (pMaxIdle p = pMaxOpen p `min` 10)%Z.

(** The connection of a record: its pool, its configuration and the wrapper. *)
Definition connected (w : ConnState D) (h : nat) : Prop :=
  let d := cDatabase w in
  dDB d = Some h ∧ ∃ p cfg q, cPools w !! h = Some p ∧ poolFor cfg p ∧ dConfig d = Some cfg ∧
    dDialect d = DialectFromString (dType cfg) ∧ dQueryDB d = Some q ∧ dialect q = dDialect d.

Definition unconnected (w : ConnState D) : Prop :=
  dDB (cDatabase w) = None ∧ dQueryDB (cDatabase w) = None.

(** The open pools are those of the set. *)
Definition openPools (w : ConnState D) (S : gset nat) : Prop :=
  ∀ h, (∃ p, cPools w !! h = Some p ∧ pOpen p = true) ↔ h ∈ S.

Definition owned (w : ConnState D) : Prop :=
  (unconnected w ∧ openPools w ∅) ∨ ∃ h, connected w h ∧ openPools w {[h]}.

Lemma limits_of cfg : (1 ≤ maxOpenConns cfg)%Z ∧ (maxIdleConns cfg = maxOpenConns cfg `min` 10)%Z.
Proof.
  unfold maxIdleConns. assert (1 ≤ maxOpenConns cfg)%Z.
  { unfold maxOpenConns. destruct (Z.ltb_spec (DPoolSize cfg) 1); lia. }
  split; [done|]. destruct (Z.ltb_spec 10 (maxOpenConns cfg)); lia.
Qed.

Lemma triple_recording {A} P (m : CM A) Q E :
  triple P m Q (λ w, E (setDatabase (setLastError None) w)) →
  (∀ w e, E (setDatabase (setLastError None) w) → E (setDatabase (setLastError e) w)) →
  triple P (recording m) Q E.
Proof.
  intros Hm HE w HP. specialize (Hm w HP). unfold recording. destruct (m w) as [[a|e] w']; auto.
Qed.

(** A new pool, not yet the record's. *)
Definition opening (cfg : DatabaseConfig) (w0 : ConnState D) (ok : pool → Prop) (h : nat) (w : ConnState D) : Prop :=
  cPools w0 !! h = None ∧ (∃ p, cPools w = <[h := p]> (cPools w0) ∧ pOpen p = true ∧
    pDriver p = driverOf (DialectFromString (dType cfg)) ∧ pDSN p = dsnOf cfg ∧ ok p) ∧
  cDatabase w = cDatabase w0.

(** Nothing but the configuration, the last error, the files and the clock. *)
Definition untouched (w0 w : ConnState D) : Prop :=
  (∀ h, (∃ p, cPools w !! h = Some p ∧ pOpen p = true) ↔ ∃ p, cPools w0 !! h = Some p ∧ pOpen p = true) ∧
  (∀ h p, cPools w0 !! h = Some p → cPools w !! h = Some p) ∧
  dDB (cDatabase w) = dDB (cDatabase w0) ∧ dQueryDB (cDatabase w) = dQueryDB (cDatabase w0).

Lemma untouched_error w0 w e e' :
  untouched w0 (setDatabase (setLastError e) w) → untouched w0 (setDatabase (setLastError e') w).
Proof. done. Qed.

Lemma sqlOpen_new cfg w0 :
  triple (λ w, cPools w = cPools w0 ∧ cDatabase w = cDatabase w0)
    (sqlOpen (driverOf (DialectFromString (dType cfg))) (dsnOf cfg))
    (opening cfg w0 (λ _, True)) (λ w, cPools w = cPools w0 ∧ cDatabase w = cDatabase w0).
Proof.
  intros w [Hp Hd]. unfold sqlOpen. destruct (drvOpen _ _); [|done].
  split; [|split; [|done]].
  - apply not_elem_of_dom_1. rewrite <-Hp. intros Hin.
    apply (infinite_is_fresh (map_to_list (cPools w)).*1). apply elem_of_dom in Hin as [p Hin].
    apply list_elem_of_fmap. eexists (_, p). split; [done|]. by apply elem_of_map_to_list.
  - simpl. rewrite Hp. by eexists.
Qed.

Lemma connect_opens cfg w0 :
  triple (λ w, cPools w = cPools w0 ∧ cDatabase w = cDatabase w0)
    (match DialectFromString (dType cfg) with
     | DialectPostgreSQL => connectPostgreSQL cfg
     | DialectSQLite => connectSQLite cfg
     end) (opening cfg w0 (λ _, True)) (λ w, cPools w = cPools w0 ∧ cDatabase w = cDatabase w0).
Proof.
  pose proof (sqlOpen_new cfg w0) as Ho. unfold dsnOf in Ho. destruct (DialectFromString (dType cfg)).
  - unfold connectSQLite. eapply triple_bind with (Q := λ _ w, cPools w = cPools w0 ∧ cDatabase w = cDatabase w0);
      [|intros _; by apply triple_wrapErr].
    apply triple_wrapErr. intros w Hw. unfold connOS. by destruct (osCall _ _) as [[] ?].
  - by apply triple_wrapErr.
Qed.

Definition isOpen (w : ConnState D) (h : nat) : Prop := ∃ p, cPools w !! h = Some p ∧ pOpen p = true.

Lemma opening_closed cfg w0 ok h w :
  opening cfg w0 ok h w → untouched w0 (sqlClose h w).2.
Proof.
  intros (Hn & (p & Hp & Ho & _) & Hd). unfold sqlClose. rewrite Hp, lookup_insert_eq, Ho. simpl.
  split; [|split; [|simpl; by rewrite Hd]].
  - intros h'. simpl. destruct (decide (h' = h)) as [->|Hne].
    + rewrite lookup_insert_eq, Hn. naive_solver.
    + by rewrite !lookup_insert_ne.
  - intros h' p' Hp'. simpl. assert (h' ≠ h) by congruence. by rewrite !lookup_insert_ne.
Qed.

(** Connect opens one pool and keeps it, or ends with the pools it found. *)
Lemma Connect_spec cfg w0 :
  triple (λ w, w = w0) (Connect cfg)
    (λ _ w, ∃ h, cPools w0 !! h = None ∧ connected w h ∧ dLastError (cDatabase w) = None ∧
       ∀ h', isOpen w h' ↔ h' = h ∨ isOpen w0 h')
    (untouched w0).
Proof.
  set (w1 := setDatabase (λ d, MkDatabaseRec (dDB d) (Some cfg) (DialectFromString (dType cfg)) (dQueryDB d)
    (dLastError d)) w0).
  set (limited := λ p, (1 ≤ pMaxOpen p)%Z ∧ (pMaxIdle p = pMaxOpen p `min` 10)%Z).
  unfold Connect. eapply triple_bind with (Q := λ _ w, w = w1); [by intros w ->|intros _].
  eapply triple_bind with (Q := opening cfg w1 (λ _, True)).
  { apply triple_recording; [|done]. eapply triple_conseq; [apply connect_opens|by intros w ->|done|].
    intros w [Hp Hd]. unfold untouched. simpl. by rewrite Hp, Hd. }
  intros h. eapply triple_bind with (Q := λ _, opening cfg w1 limited h).
  { intros w (Hn & (p & Hp & Ho & Hdr & Hds & _) & Hd). split; [done|]. split; [|done]. simpl. rewrite Hp.
    eexists. split; [by rewrite alter_insert_eq|]. simpl. split; [done|]. split; [done|]. split; [done|].
    apply limits_of. }
  intros _. eapply triple_bind with (Q := λ _, opening cfg w1 limited h).
  { apply triple_recording; [|done]. apply triple_wrapErr. intros w Hw. unfold onError.
    assert (opening cfg w1 limited h (onPool h drvPing w).2) as Hw2.
    { destruct Hw as (Hn & (p & Hp & Ho & Hx) & Hd). unfold onPool. rewrite Hp, lookup_insert_eq, Ho.
      destruct (faulty _ _ _). split; [done|]. split; [by exists p|done]. }
    destruct (onPool h drvPing w) as [[a|e] w2]; [done|]. simpl in Hw2.
    pose proof (opening_closed _ _ _ _ _ Hw2) as Hc. destruct (sqlClose h w2) as [r w3]. simpl in Hc |- *.
    exact Hc. }
  intros _ w (Hn & (p & Hp & Ho & Hdr & Hds & Hl) & Hd). simpl. exists h. split; [done|]. split; [|split; [done|]].
  - split; [done|]. exists p, cfg, (NewDB (DialectFromString (dType cfg))). simpl.
    rewrite Hp, lookup_insert_eq, Hd. unfold poolFor. simpl. naive_solver.
  - intros h'. unfold isOpen. simpl. rewrite Hp. destruct (decide (h' = h)) as [->|Hne].
    + rewrite lookup_insert_eq. naive_solver.
    + rewrite lookup_insert_ne by done. simpl. naive_solver.
Qed.

(** ** Sequences of calls *)

(** The same connection; only the last error, the backend and the clock may differ. *)
Definition sameConn (w w' : ConnState D) : Prop :=
  cPools w' = cPools w ∧ setLastError None (cDatabase w') = setLastError None (cDatabase w).

#[local] Instance sameConn_preorder : PreOrder sameConn.
Proof. split; [done|]. intros ? ? ? [? ?] [? ?]. split; congruence. Qed.

Lemma recording_same {A} (m : CM A) : steps sameConn m → steps sameConn (recording m).
Proof.
  intros Hm w. specialize (Hm w). unfold recording. destruct (m w) as [[a|e] w']; [done|].
  destruct Hm as [Hp Hd]. by split.
Qed.

Lemma onPool_same {A} h (op : pool → D → res A * D) : steps sameConn (onPool h op).
Proof.
  intros w. unfold onPool. destruct (cPools w !! h) as [p|]; [|done]. destruct (pOpen p); [|done].
  by destruct (faulty _ _ _).
Qed.

Lemma handle_same : steps sameConn handle.
Proof.
  intros w. unfold handle, mbind, M_bind, gets, recording, throw. by destruct (dDB (cDatabase w)).
Qed.

Ltac conn_steps :=
  repeat lazymatch goal with
  | |- steps _ (recording _) => apply recording_same
  | |- steps _ (onPool _ _) => apply onPool_same
  | |- steps _ handle => apply handle_same
  | |- steps _ (mbind _ _) => apply steps_bind; [apply _| |intros ?]
  | |- steps _ (wrapErr _ _) => apply steps_wrapErr
  | |- _ => first [apply steps_lift, _ | apply steps_gets, _ | apply steps_ret, _]
  end.

Lemma Execute_same query args : steps sameConn (Execute query args).
Proof. unfold Execute. conn_steps. Qed.

Lemma scanRows_same columns rs results : steps sameConn (scanRows columns rs results).
Proof. revert results. induction rs as [|r rs IH]; intros results; cbn [scanRows]; conn_steps. apply IH. Qed.

Lemma Query_same query args : steps sameConn (Query query args).
Proof. unfold Query. conn_steps. apply scanRows_same. Qed.

Lemma owned_same w w' : sameConn w w' → owned w → owned w'.
Proof.
  destruct w as [[] ? ? ?], w' as [[] ? ? ?]. intros [Hp Hd]. simpl in *.
  unfold setLastError in Hd. simpl in Hd. injection Hd as -> -> -> ->. by subst.
Qed.

(** Close leaves no pool of the record open, and never reports an error. *)
Lemma Close_spec w :
  owned w →
  unconnected (Close w).2 ∧ openPools (Close w).2 ∅ ∧ cBackend (Close w).2 = cBackend w ∧ (Close w).1 = Ok tt.
Proof.
  intros [[[Hn Hq] Ho]|(h & [Hh (p & cfg & q & Hp & [Hop _] & _ & _ & Hq & _)] & Ho)];
    unfold Close, mbind, M_bind, gets; simpl.
  - by rewrite Hn.
  - rewrite Hh, Hq. unfold ignore, catch, sqlClose, recording, wrapErr, lift, modify, setDatabase.
    rewrite Hp, Hop. cbn -[lookup insert]. rewrite lookup_insert_eq. cbn -[lookup insert].
    split; [done|]. split; [|done]. intros h'. split; [|set_solver]. cbn -[lookup insert].
    intros (p' & Hp' & Ho'). destruct (decide (h' = h)) as [->|Hne].
    + rewrite lookup_insert_eq in Hp'. by injection Hp' as <-.
    + rewrite lookup_insert_ne in Hp' by done. assert (h' ∈ ({[h]} : gset nat)) by (apply Ho; eauto). set_solver.
Qed.

Lemma Connect_owned cfg w : unconnected w → openPools w ∅ → owned (Connect cfg w).2.
Proof.
  intros [Hn Hq] Ho. pose proof (Connect_spec cfg w w eq_refl) as Hc.
  destruct (Connect cfg w) as [[[]|e] w']; simpl.
  - destruct Hc as (h & Hfree & Hcon & _ & Hopen). right. exists h. split; [done|]. intros h'.
    rewrite (Hopen h'), elem_of_singleton. unfold isOpen. rewrite (Ho h'). set_solver.
  - destruct Hc as (Hopen & _ & Hdb & Hqd). left. split; [split; congruence|]. intros h'. rewrite Hopen. apply Ho.
Qed.

Inductive dbOp := OConnect (cfg : DatabaseConfig) | OClose | OExecute (q : string) (args : list value)
  | OQuery (q : string) (args : list value).

Definition perform (o : dbOp) (w : ConnState D) : ConnState D :=
  match o with
  | OConnect cfg => (Connect cfg w).2
  | OClose => (Close w).2
  | OExecute q args => (Execute q args w).2
  | OQuery q args => (Query q args w).2
  end.

Definition performs (w : ConnState D) (l : list dbOp) : ConnState D := foldl (λ w o, perform o w) w l.

(** Connect is called only on a record that is not connected, as the program does. *)
Fixpoint disciplined (w : ConnState D) (l : list dbOp) : Prop :=
  match l with
  | [] => True
  | o :: l => match o with OConnect _ => dDB (cDatabase w) = None | _ => True end ∧ disciplined (perform o w) l
  end.

Lemma performs_owned l w : owned w → disciplined w l → owned (performs w l).
Proof.
  revert w. induction l as [|o l IH]; intros w Hw; simpl; [done|]. intros [Ho Hl]. apply IH; [|done].
  destruct o; simpl.
  - destruct Hw as [[Hu Hp]|(h & [Hh _] & _)]; [by apply Connect_owned|congruence].
  - left. by destruct (Close_spec w Hw) as (? & ? & _).
  - eapply owned_same; [apply Execute_same|done].
  - eapply owned_same; [apply Query_same|done].
Qed.

Lemma unconnected_refuses w query args :
  unconnected w →
  (Execute query args w).1 = Err (ErrMsg "not connected to database") ∧
  cBackend (Execute query args w).2 = cBackend w ∧
  (Query query args w).1 = Err (ErrMsg "not connected to database") ∧
  cBackend (Query query args w).2 = cBackend w.
Proof.
  intros [Hn _]. unfold Execute, Query, handle, mbind, M_bind, gets. by rewrite Hn.
Qed.

(** C35: the record owns its connection pool. After any sequence of Connect, Close,
    Execute and Query with any of their requests failing, in which Connect is called
    only on a record that is not connected, as the program does, the open pools are
    exactly the one of the record, if it is connected: a Connect that fails leaves none
    behind. A connected record's pool has the driver and data source of its
    configuration, at least one connection and at most ten idle ones, and its wrapper
    has its dialect. Close then succeeds, whatever fails, and leaves no pool open, and
    after it Execute and Query are refused without a request to the database. *)
Theorem connection_owned l b s query args :
  let w0 := MkConn NewDatabase ∅ b s in
  disciplined w0 l →
  let w := performs w0 l in
  owned w ∧ (Close w).1 = Ok tt ∧ openPools (Close w).2 ∅ ∧
  (Execute query args (Close w).2).1 = Err (ErrMsg "not connected to database") ∧
  (Query query args (Close w).2).1 = Err (ErrMsg "not connected to database") ∧
  cBackend (Execute query args (Close w).2).2 = cBackend w ∧
  cBackend (Query query args (Close w).2).2 = cBackend w.
Proof.
  intros w0 Hl w. assert (owned w) as Hw.
  { apply performs_owned; [|done]. left. split; [done|]. intros h. simpl. set_solver. }
  split; [done|]. destruct (Close_spec w Hw) as (Hu & Ho & Hb & Hr). split; [done|]. split; [done|].
  destruct (unconnected_refuses _ query args Hu) as (? & ? & ? & ?). rewrite <-Hb. done.
Qed.

(** Connect on a connected record leaves its earlier pool open, and nothing refers to it. *)
Lemma reconnect_leaks cfg w h :
  connected w h → (Connect cfg w).1 = Ok tt → ∃ h', h' ≠ h ∧ isOpen (Connect cfg w).2 h ∧ connected (Connect cfg w).2 h'.
Proof.
  intros (Hd & p & cfg' & q & Hp & (Ho & _) & _) Hok. pose proof (Connect_spec cfg w w eq_refl) as Hc.
  destruct (Connect cfg w) as [r w']. simpl in Hok. subst r. destruct Hc as (h' & Hf & Hcon & _ & Hopen).
  exists h'. split; [congruence|]. split; [|done]. apply Hopen. right. by exists p.
Qed.

(** A row of a result whose columns have different names. *)
Lemma row_lookup columns values i c v :
  NoDup columns → columns !! i = Some c → values !! i = Some v → row columns values !! c = Some (cell v).
Proof.
  unfold row. intros Hc Hi Hv.
  assert (∀ (l : list (string * value)) (m : gmap string value), NoDup l.*1 → (c, v) ∈ l ∨ (c ∉ l.*1 ∧ m !! c = Some (cell v)) →
    foldl (λ m cv, <[cv.1 := cell cv.2]> m) m l !! c = Some (cell v)) as Hfold.
  { induction l as [|[c' v'] l IH]; intros m Hn Hin; simpl; [set_solver|]. apply NoDup_cons in Hn as [Hn Hl].
    simpl in Hn. apply IH; [done|]. destruct Hin as [[[= <- <-]|Hin]%elem_of_cons|[Hni Hm]].
    - right. by rewrite lookup_insert_eq.
    - by left.
    - apply not_elem_of_cons in Hni as [Hne Hni]. right. simpl in *. by rewrite lookup_insert_ne. }
  apply Hfold; [|left].
  - eapply sublist_NoDup; [apply Hc|]. clear. revert values.
    induction columns as [|c l IH]; intros [|v vs]; simpl; [done..|apply sublist_nil_l|]. by constructor.
  - apply list_elem_of_lookup. exists i. apply lookup_zip_with_Some. eauto.
Qed.

End connection.

(** ** A concrete driver *)

Definition demoConfig (ty password : string) (poolSize : Z) : DatabaseConfig :=
  MkDatabase ty "/data/fs.db" "db" 5432 "fs" "app" password "" "" poolSize 0.

(** A driver that counts the statements it is sent and answers each query with a row. *)
#[local] Instance demoDriver : SqlDriver nat := {|
  drvOpen _ _ := Ok tt;
  drvPing _ n := (Ok tt, n);
  drvExec _ _ _ n := (Ok tt, S n);
  drvQuery _ _ _ n := (Ok (MkResultSet (Ok ["id"]) [Ok [VBytes [Byte.x61]]] None), S n)
|}.

Definition demoStart : ConnState nat :=
  MkConn NewDatabase ∅ 0 (MkSys (λ n, CallEnv 0 [] (if decide (n = 0) then Lost errIO else NoFault)) 0
    {["/" := DirN]}).

(** The first Connect cannot make the directory, the second succeeds. *)
Definition demoOps : list dbOp :=
  [OConnect (demoConfig "sqlite" "" 4); OConnect (demoConfig "sqlite" "" 4);
   OQuery "SELECT id FROM files" []; OExecute "DELETE FROM files" []].

Lemma connection_owned_witness :
  let w := performs demoStart demoOps in
  dDB (cDatabase w) = Some 0 ∧ cBackend w = 2 ∧ owned w ∧ openPools (Close w).2 ∅.
Proof.
  split; [vm_compute; reflexivity|]. split; [vm_compute; reflexivity|].
  destruct (connection_owned demoOps 0 (cSys demoStart) "" []) as (Ho & _ & Hc & _).
  - split; [reflexivity|]. split; [vm_compute; reflexivity|]. done.
  - split; [exact Ho|exact Hc].
Defined.

(** The values of the data source are not quoted: a password with a space in it adds
    a parameter. *)
Lemma dsn_injection :
  postgresDSN (demoConfig "pg" "x dbname=other" 4) =
  "host=db port=5432 user=app password=x dbname=other dbname=fs sslmode=disable".
Proof. vm_compute. reflexivity. Qed.

(** A second Connect that fails keeps the earlier pool but changes the dialect, so that
    statements to SQLite are then translated for PostgreSQL. *)
Lemma failed_reconnect_dialect :
  let s := MkSys (λ n, CallEnv 0 [] (if decide (n = 2) then Lost errIO else NoFault)) 0 {["/" := DirN]} in
  let w := performs (MkConn NewDatabase ∅ 0 s)
             [OConnect (demoConfig "sqlite" "" 4); OConnect (demoConfig "pg" "" 4)] in
  dDB (cDatabase w) = Some 0 ∧ (pDriver <$> cPools w !! 0) = Some "sqlite" ∧
  dDialect (cDatabase w) = DialectPostgreSQL.
Proof. vm_compute. done. Qed.
