(* ===== verification/Servers.v ===== *)
(** * The servers: listening, serving and shutting down

    ListenAndServe(TLS) and Shutdown of internal/api/http, Start and Stop of
    internal/api/grpc, the goroutines of cmd/fsserver that run them and the end of main.
    net/http and grpc are libraries: how a listener fares and how long the requests in
    flight take are arguments. Times are in nanoseconds. The constructors that dial a
    server (Redis, etcd, MinIO) are here too. *)

From S2P Require Export AuditWriter Etcd Storage.

Local Open Scope go_scope.

(** ** Listening *)

(** A listener ends with an error, or never ([None]). *)
Notation listener := (option error) (only parsing).

Definition errServerClosed : error := ErrMsg "http: Server closed".

Definition ListenAndServe (http : listener) : listener := http.

(** The result of the HTTP listener; the goroutine of the HTTPS listener only logs. *)
Definition ListenAndServeTLS (https : option listener) (http : listener) : listener * list error :=
  (ListenAndServe http,
   match https with
   | Some (Some e) => if bool_decide (e = errServerClosed) then [] else [e]
   | _ => []
   end).

(** The goroutine of main: whether it cancels the context of the process. *)
Definition runHttp (tls : bool) (https : option listener) (http : listener) : bool :=
  bool_decide (is_Some (if tls then (ListenAndServeTLS https http).1 else ListenAndServe http)).

(** [net.Listen], then [Serve]. *)
Definition grpcStart (bound : res unit) (serve : listener) : listener :=
  match bound with
  | Err e => Some (ErrWrap "failed to listen" e)
  | Ok _ => ErrWrap "gRPC server error" <$> serve
  end.

Definition runGrpc (bound : res unit) (serve : listener) : bool :=
  bool_decide (is_Some (grpcStart bound serve)).

(** With TLS on, an HTTPS listener that fails (a port in use, a certificate that cannot be
    read) does not stop the process: it goes on with HTTP alone. *)
Lemma https_failure_logged e :
  e ≠ errServerClosed → runHttp true (Some (Some e)) None = false ∧ (ListenAndServeTLS (Some (Some e)) None).2 = [e].
Proof. intros He. split; [reflexivity|]. simpl. by rewrite bool_decide_eq_false_2. Qed.

(** ** Shutting down *)

(** Waiting from [t] on for something that takes [need], or for ever, or for the deadline. *)
Definition waitUntil (deadline : Z) (need : option Z) (t : Z) : bool * Z :=
  match need with
  | Some n => if (n =? 0)%Z || (t + n <=? deadline)%Z then (true, (t + n)%Z) else (false, Z.max t deadline)
  | None => (false, Z.max t deadline)
  end.

(** [http.Server.Shutdown]: the requests in flight are waited for. *)
Definition drainHttp (deadline : Z) (need : option Z) (t : Z) : res unit * Z :=
  let '(ok, t') := waitUntil deadline need t in ((if ok : bool then Ok tt else Err errDeadline), t').

Section shutdown.
Context {T : Type → Type} `{SqlEngine T}.
Implicit Types s : AuditState T.

(** HTTPS, HTTP, and the audit writer, with the one deadline. The errors of the first and
    the last are logged. *)
Definition Shutdown (deadline : Z) (https : option (option Z)) (http : option Z) (exit : Z) (pick : bool)
    : M (Z * AuditState T) unit := λ '(t, s),
  let t := match https with Some need => (drainHttp deadline need t).2 | None => t end in
  let '(r, t) := drainHttp deadline http t in
  (r, (Close deadline exit pick (t, s)).2).

(** The graceful stop in a goroutine, with ten seconds; [true] when it was forced. *)
Definition grpcStop (need : option Z) (t : Z) : bool * Z :=
  let '(ok, t') := waitUntil (t + 10 * Second) need t in (negb ok, t').

(** The end of main, up to the deferred calls. *)
Definition shutdownServers (https : option (option Z)) (http : option Z) (exit : Z) (pick : bool)
    (grpc : option (option Z)) : M (Z * AuditState T) unit := λ '(t, s),
  let '(_, (t, s)) := Shutdown (t + 10 * Second) https http exit pick (t, s) in
  (Ok tt, (match grpc with Some need => (grpcStop need t).2 | None => t end, s)).

(** ** What the shutdown promises *)

Lemma waitUntil_bounded deadline need t :
  (∀ n, need = Some n → (0 ≤ n)%Z) → let t' := (waitUntil deadline need t).2 in (t ≤ t' ≤ Z.max t deadline)%Z.
Proof.
  intros Hn. unfold waitUntil. destruct need as [n|]; simpl; [|lia]. specialize (Hn n eq_refl).
  destruct (Z.eqb_spec n 0), (Z.leb_spec (t + n) deadline); simpl; lia.
Qed.

Lemma drainHttp_time deadline need t : (drainHttp deadline need t).2 = (waitUntil deadline need t).2.
Proof. unfold drainHttp. by destruct (waitUntil deadline need t). Qed.

End shutdown.

Lemma waitUntil_in_time deadline n t :
  (t + n ≤ deadline)%Z → waitUntil deadline (Some n) t = (true, (t + n)%Z).
Proof. intros Ht. simpl. by rewrite (proj2 (Z.leb_le _ _) Ht), orb_true_r. Qed.

(** The servers are down within twenty seconds, however long their clients take, apart
    from the writing of the last audit entries (whose duration is the database's); and when the requests in flight and
    the goroutine of the audit log end within ten, every accepted entry is written, or
    at least tried, before the gRPC server is stopped. *)
Lemma shutdown_ends {T} `{SqlEngine T} n d https http exit pick grpc t (s : AuditState T) :
  rtc step (initial n d) s → loopAt (writer s) ≠ Exited → (0 ≤ exit)%Z →
  (∀ k, https = Some (Some k) ∨ http = Some k ∨ grpc = Some (Some k) → (0 ≤ k)%Z) →
  let '(r, (t', s')) := shutdownServers https http exit pick grpc (t, s) in
  r = Ok tt ∧ (t ≤ t' ≤ t + 20 * Second)%Z ∧ rtc step s s' ∧
  (∀ a b, https = Some (Some a) ∨ https = None ∧ a = 0%Z → http = Some b → (a + b + exit < 10 * Second)%Z →
     accepted s' = accepted s ∧ attempted s' = accepted s).
Proof.
  intros Hr Hl He Hn. destruct (reachable_invariants _ _ _ Hr) as (_ & Hb & _).
  unfold shutdownServers, Shutdown. remember (t + 10 * Second)%Z as D eqn:HD.
  set (t1 := match https with Some need => (drainHttp D need t).2 | None => t end).
  destruct (drainHttp D http t1) as [r t2] eqn:E2. pose proof (drainHttp_time D http t1) as Ht2.
  rewrite E2 in Ht2. simpl in Ht2. pose proof (Close_steps D exit pick t2 s Hb) as Hs.
  pose proof (Close_bounded D exit pick t2 s He) as Ht3. destruct (Close D exit pick (t2, s)) as [r3 [t3 s']] eqn:E3.
  cbn [fst snd] in *. assert (0 < Second)%Z by done.
  assert (t ≤ t1 ≤ D)%Z as Hb1.
  { subst t1. destruct https as [need|]; [|lia]. rewrite drainHttp_time.
    pose proof (waitUntil_bounded D need t) as Hw. cbv zeta in Hw. destruct Hw; [naive_solver|simpl in *; lia]. }
  assert (t1 ≤ t2 ≤ D)%Z as Hb2.
  { pose proof (waitUntil_bounded D http t1) as Hw. cbv zeta in Hw. rewrite Ht2. destruct Hw; [naive_solver|simpl in *; lia]. }
  split; [done|]. split; [|split; [done|]].
  - destruct grpc as [need|]; [|lia]. unfold grpcStop.
    pose proof (waitUntil_bounded (t3 + 10 * Second) need t3) as Hw. cbv zeta in Hw.
    destruct (waitUntil _ need t3) as [ok t4]. simpl in *. destruct Hw; [naive_solver|simpl in *; lia].
  - intros a b Ha Hhttp Hab. assert (0 ≤ b)%Z by naive_solver.
    assert (t1 = t + a)%Z as Ht1.
    { subst t1. destruct Ha as [-> |[-> ->]]; [|lia]. rewrite drainHttp_time, waitUntil_in_time; [done|lia]. }
    rewrite Hhttp, waitUntil_in_time in Ht2 by lia. simpl in Ht2.
    rewrite Close_in_time in E3 by (done || lia).
    injection E3 as _ _ <-. split; [apply closeDone_accepted|by eapply closeDone_attempts].
Qed.

(** A client that is still being served at the deadline costs the audit log its last
    entries, with a database that works: the deadline has passed when Close is called, and
    what the goroutine then collects is never written. *)
Lemma slow_client_drops_audit :
  let s := Submit (anEntry "1") (initial 10 quietDB) in
  let s' := (shutdownServers None None 1 false None (0%Z, s)).2.2 in
  accepted s' = [anEntry "1"] ∧ attempted s' = [] ∧
  ∀ s1, rtc noFlush s' s1 → attempted s1 = [].
Proof.
  intros s s'. split; [reflexivity|]. split; [reflexivity|]. intros s1 Hs.
  by apply cancelled_silent in Hs as [-> _].
Qed.

(** ** Clients of other servers *)

(** The options of the Redis client; times in nanoseconds. *)
Record RedisOptions := MkRedisOptions {
  Addr : string; Password : string; RDB : Z; PoolSize : Z; MinIdleConns : Z;
  DialTimeout : Z; ReadTimeout : Z; WriteTimeout : Z; PoolTimeout : Z
}.

Definition redisOptions (addr password : string) (db poolSize : Z) : RedisOptions :=
  MkRedisOptions addr password db poolSize (Z.quot poolSize 2) (5 * Second) (3 * Second) (3 * Second) (4 * Second).

(** The manager holds the client, from which the lock and the session store are made. *)
Record RedisManager := MkRedisManager { rmClient : RedisOptions }.

(** One PING decides. *)
Definition NewRedisManager {R} (f : fault) (addr password : string) (db poolSize : Z) (r : R) : res RedisManager :=
  res_map_err (ErrWrap "failed to connect to Redis")
    match (callRedis f (λ r, (tt, r)) r).1 with
    | Ok _ => Ok (MkRedisManager (redisOptions addr password db poolSize))
    | Err e => Err e
    end.

(** [clientv3.New] does not wait for a connection. *)
Definition NewEtcdManager (dial : list string → res unit) (endpoints : list string) (prefix : string) : res EtcdManager :=
  match dial endpoints with
  | Err e => Err (ErrWrap "failed to connect to etcd" e)
  | Ok _ => Ok (MkEtcdManager prefix)
  end.

Definition GetPrefix (m : EtcdManager) : string := emPrefix m.

(** The buckets of an object store. *)
Record MinIOConfig := MkMinIOConfig {
  mcEndpoint : string; mcAccessKey : string; mcSecretKey : string; mcBucket : string; mcUseSSL : bool
}.

Class BucketAPI (K : Type) := {
  kNew : MinIOConfig → res unit;
  kExists : string → K → bool;
  kMake : string → K → res unit * K
}.

Class BucketLaws (K : Type) `{BucketAPI K} := {
  make_exists b k k' : kMake b k = (Ok tt, k') → kExists b k' = true;
  make_keeps b b' k : kExists b' k = true → kExists b' (kMake b k).2 = true;
  make_others b b' k : b ≠ b' → kExists b' (kMake b k).2 = kExists b' k
}.

Module SetBuckets.
#[global] Instance api : BucketAPI (gset string) := {|
  kNew _ := Ok tt; kExists b k := bool_decide (b ∈ k);
  kMake b k := if bool_decide (b ∈ k) then (Err (ErrMinio "BucketAlreadyOwnedByYou"), k) else (Ok tt, {[b]} ∪ k)
|}.

#[global] Instance laws : BucketLaws (gset string).
Proof. split; simpl; intros; repeat case_bool_decide; simplify_eq/=; set_solver. Qed.
End SetBuckets.

Section buckets.
Context {K : Type} `{BucketAPI K}.

Definition onBuckets {A} (op : K → res A * K) : M (K * Sys) A :=
  extCall (λ env, faulty (net env) op).

(** The name of the bucket that the storage then works on. *)
Definition NewMinIOStorage (cfg : MinIOConfig) : M (K * Sys) string :=
  wrapErr "failed to create minio client" (lift (kNew cfg)) ⨟
  found ← wrapErr "failed to check bucket existence" (onBuckets (λ k, (Ok (kExists (mcBucket cfg) k), k)));
  (if (found : bool) then mret tt else wrapErr "failed to create bucket" (onBuckets (kMake (mcBucket cfg)))) ⨟
  mret (mcBucket cfg).

(** On success the bucket is there; whatever fails, no bucket is lost and no other one
    appears. *)
Lemma minio_bucket `{!BucketLaws K} cfg k y r k' y' :
  NewMinIOStorage cfg (k, y) = (r, (k', y')) →
  (∀ b, r = Ok b → b = mcBucket cfg ∧ kExists b k' = true) ∧
  (∀ b, kExists b k = true → kExists b k' = true) ∧
  (∀ b, b ≠ mcBucket cfg → kExists b k' = kExists b k).
Proof.
  pose proof (make_keeps (mcBucket cfg)) as Hkeep. pose proof (make_others (mcBucket cfg)) as Hother.
  unfold NewMinIOStorage, mbind, M_bind, wrapErr, lift, onBuckets, extCall, faulty.
  destruct (kNew cfg) as [[]|e]; simpl; [|by intros [= <- <- <-]].
  destruct (net _); simpl; try by intros [= <- <- <-].
  destruct (kExists (mcBucket cfg) k) eqn:Ek; simpl; [intros [= <- <- <-]; naive_solver|].
  pose proof (make_exists (mcBucket cfg) k) as Hmake. assert (Hk' := λ b', Hkeep b' k). assert (Ho' := λ b', Hother b' k).
  destruct (kMake (mcBucket cfg) k) as [[[]|e] k1]; destruct (net _); simpl in *; intros [= <- <- <-]; naive_solver.
Qed.
End buckets.
