(* ===== verification/Process.v ===== *)
(** * cmd/fsserver/main.go: the life of the process

    The start of the server, its shutdown and the order of both, as a trace of what is
    tried, started and stopped. What the steps do is the business of their components;
    here a step that can fail is a name with its arguments, and [fails] says which do.
    The schema of the first migration and the clean-up of old temp directories are
    here too. *)

From S2P Require Export Config Discovery.
From stdpp Require Import pretty.

Local Open Scope go_scope.

(** ** Resources and events *)

(** What main starts and stops. *)
Inductive resource :=
| RLogger | RDatabase | RRedis | REtcd | RDiscovery | RConsistency | RMemoryCache | RRedisCache
| RSessionCleanup | RCleanup | RContext | RHttp | RGrpc.

#[export] Instance resource_eq_dec : EqDecision resource.
Proof. solve_decision. Defined.

(** The steps that end the process when they fail. *)
Inductive attempt :=
| TConfig | TLogger (file level : string) | TConnect (cfg : DatabaseConfig) | TMigrate
| TMinIO (cfg : MinIOStorageConfig) | TRootDir (dir : string) | TRedis (cfg : RedisConfig)
| TEtcd (endpoints : list string) (prefix : string)
| TDiscovery (endpoints : list string) (prefix : string) (interval : Z)
| TRegister (i : ServiceInstance) | TQuorum (replicas readQuorum writeQuorum : Z)
| TKeyFile (file : string) | TCrypto (key : string) | TTempDir (dir : string).

Inductive event := Try (t : attempt) | Start (r : resource) | Stop (r : resource) | Exit.

Record process := MkProcess { trace_ : list event; deferred : list resource }.

Section process.
Context (fails : attempt → option error) (keyFile : string → string) (hostname : string).
Notation P := (M process).

Definition emit (e : event) : P unit := modify (λ p, MkProcess (trace_ p ++ [e]) (deferred p)).

(** [if err := t; err != nil { logger.Error; os.Exit(1) }]: the deferred calls do not run. *)
Definition attempts (t : attempt) : P unit :=
  emit (Try t) ⨟
  match fails t with
  | None => mret tt
  | Some e => emit Exit ⨟ throw e
  end.

(** A resource that is stopped by a deferred call. *)
Definition acquire (r : resource) : P unit :=
  emit (Start r) ⨟ modify (λ p, MkProcess (trace_ p) (r :: deferred p)).

Definition when (b : bool) (m : P unit) : P unit := if b then m else mret tt.

(** The instance that is registered. *)
Definition instanceOf (cfg : Config) : ServiceInstance :=
  MkInstance (hostname +:+ "-" +:+ pretty (HTTPPort (Server cfg))) "fsserver" hostname
    (HTTPPort (Server cfg)) {["grpc_port" := pretty (GRPCPort (Server cfg))]}.

Definition startStorage (cfg : StorageConfig) : P unit :=
  if bool_decide (sType cfg = "minio") then attempts (TMinIO (SMinIO cfg))
  else attempts (TRootDir (RootDir (SLocal cfg))).

Definition startRedis (cfg : RedisConfig) : P unit :=
  when (rEnabled cfg) (attempts (TRedis cfg) ⨟ acquire RRedis).

Definition startEtcd (cfg : EtcdConfig) : P unit :=
  when (eEnabled cfg) (attempts (TEtcd (Endpoints cfg) (Prefix cfg)) ⨟ acquire REtcd).

Definition startDiscovery (cfg : Config) : P unit :=
  when (yEnabled (Config.Discovery cfg))
    (attempts (TDiscovery (Endpoints (Etcd cfg)) (Prefix (Etcd cfg)) (Interval (Config.Discovery cfg))) ⨟
     acquire RDiscovery ⨟
     attempts (TRegister (instanceOf cfg))).

Definition consistent (cfg : ConsistencyConfig) : bool :=
  negb (bool_decide (CLevel cfg = "none")) && negb (bool_decide (CLevel cfg = "")).

Definition startQuorums (cfg : ConsistencyConfig) : P unit :=
  when (consistent cfg)
    (attempts (TQuorum (ReplicaCount cfg) (ReadQuorum cfg) (WriteQuorum cfg)) ⨟ acquire RConsistency).

(** The key file takes precedence over the passphrase. *)
Definition startCrypto (cfg : CryptoConfig) : P unit :=
  when (xEnabled cfg)
    (when (negb (bool_decide (XKeyFile cfg = ""))) (attempts (TKeyFile (XKeyFile cfg))) ⨟
     attempts (TCrypto (if bool_decide (XKeyFile cfg = "") then Passphrase cfg else keyFile (XKeyFile cfg)))).

(** The goroutine of an in-memory cache, or the client of one in Redis. Neither its Stop
    nor its Close is ever called. *)
Definition cacheKind (cfg : Config) : resource :=
  if bool_decide (cType (CacheC cfg) = "redis") && rEnabled (Redis cfg) then RRedisCache else RMemoryCache.

Definition startCache (cfg : Config) : P unit :=
  when (cEnabled (CacheC cfg)) (emit (Start (cacheKind cfg))).

(** The temp directory, the background services and the servers. *)
Definition startServices (cfg : Config) : P unit :=
  when (negb (bool_decide (TempDir (Storage cfg) = ""))) (attempts (TTempDir (TempDir (Storage cfg)))) ⨟
  acquire RSessionCleanup ⨟
  acquire RCleanup ⨟
  emit (Start RContext) ⨟
  emit (Start RHttp) ⨟
  when (GRPCEnabled (Server cfg)) (emit (Start RGrpc)).

(** Up to the point where the servers run. *)
Definition startup (cfg : Config) : P unit :=
  attempts TConfig ⨟
  attempts (TLogger (LFile (Logging cfg)) (Level (Logging cfg))) ⨟ acquire RLogger ⨟
  attempts (TConnect (Database cfg)) ⨟ acquire RDatabase ⨟
  attempts TMigrate ⨟
  startStorage (Storage cfg) ⨟
  startRedis (Redis cfg) ⨟
  startEtcd (Etcd cfg) ⨟
  startDiscovery cfg ⨟
  startQuorums (ConsistencyC cfg) ⨟
  startCrypto (CryptoC cfg) ⨟
  startCache cfg ⨟
  startServices cfg.

(** After the signal, or after a server has failed and cancelled the context: the HTTP
    server, the gRPC server, then the deferred calls, the last one first. The deferred
    cancel does nothing more. *)
Definition shutdown (cfg : Config) : P unit :=
  emit (Stop RContext) ⨟
  emit (Stop RHttp) ⨟
  when (GRPCEnabled (Server cfg)) (emit (Stop RGrpc)) ⨟
  modify (λ p, MkProcess (trace_ p ++ (Stop <$> deferred p)) []).

Definition main (cfg : Config) : P unit := startup cfg ⨟ shutdown cfg.

(** ** What a complete run starts *)

Definition opt (b : bool) (r : resource) : list resource := if b then [r] else [].

(** The parts that the end of main leaves running. *)
Definition neverStopped (r : resource) : bool :=
  match r with RMemoryCache | RRedisCache => true | _ => false end.

(** What is started before the servers, in order. *)
Definition started (redis etcd discovery consistency cache : bool) (kind : resource) : list resource :=
  [RLogger; RDatabase] ++ opt redis RRedis ++ opt etcd REtcd ++ opt discovery RDiscovery ++
  opt consistency RConsistency ++ opt cache kind ++ [RSessionCleanup; RCleanup].

(** The resources with a deferred stop. *)
Definition stopped (l : list resource) : list resource := filter (λ r, neverStopped r = false) l.

Definition lifeOf (redis etcd discovery consistency cache : bool) (kind : resource) (grpc : bool) : list event :=
  let l := started redis etcd discovery consistency cache kind in
  (Start <$> l) ++ [Start RContext; Start RHttp] ++ (Start <$> opt grpc RGrpc) ++
  [Stop RContext; Stop RHttp] ++ (Stop <$> opt grpc RGrpc) ++ (Stop <$> reverse (stopped l)).

Definition startedBy (cfg : Config) : list resource :=
  started (rEnabled (Redis cfg)) (eEnabled (Etcd cfg)) (yEnabled (Config.Discovery cfg))
    (consistent (ConsistencyC cfg)) (cEnabled (CacheC cfg)) (cacheKind cfg).

Definition expected (cfg : Config) : list event :=
  lifeOf (rEnabled (Redis cfg)) (eEnabled (Etcd cfg)) (yEnabled (Config.Discovery cfg))
    (consistent (ConsistencyC cfg)) (cEnabled (CacheC cfg)) (cacheKind cfg) (GRPCEnabled (Server cfg)).

(** The starts and stops of a trace. *)
Definition isLife (e : event) : bool := match e with Start _ | Stop _ => true | _ => false end.
Definition life (l : list event) : list event := filter (λ e, isLife e = true) l.

Lemma life_app l l' : life (l ++ l') = life l ++ life l'.
Proof. apply filter_app. Qed.

(** The state in the middle of the start. *)
Definition reached (L : list event) (D : list resource) (p : process) : Prop :=
  life (trace_ p) = L ∧ deferred p = D.

(** The process has ended before anything was stopped. *)
Definition aborted (p : process) : Prop :=
  ∃ l, trace_ p = l ++ [Exit] ∧ ∀ r, Stop r ∉ l.

Definition onlyStarts (L : list event) : Prop := ∀ r, Stop r ∉ L.

Lemma elem_of_life r l : Stop r ∈ life l ↔ Stop r ∈ l.
Proof. unfold life. rewrite list_elem_of_filter. naive_solver. Qed.

Lemma attempts_runs L D t :
  onlyStarts L → triple (reached L D) (attempts t) (λ _, reached L D) aborted.
Proof.
  intros HL p [Hl Hd]. unfold attempts, emit, mbind, M_bind, modify. simpl.
  destruct (fails t); simpl.
  - exists (trace_ p ++ [Try t]). split; [done|]. intros r Hr. apply elem_of_app in Hr as [Hr|Hr].
    + apply elem_of_life in Hr. rewrite Hl in Hr. by destruct (HL r).
    + by apply list_elem_of_singleton in Hr.
  - split; [|done]. simpl. rewrite life_app, Hl. simpl. by rewrite app_nil_r.
Qed.

Lemma acquire_runs L D r :
  triple (reached L D) (acquire r) (λ _, reached (L ++ [Start r]) (r :: D)) aborted.
Proof.
  intros p [Hl Hd]. unfold acquire, emit, mbind, M_bind, modify. simpl. split; simpl; [|by rewrite Hd].
  by rewrite life_app, Hl.
Qed.

Lemma emit_runs L D e :
  isLife e = true → triple (reached L D) (emit e) (λ _, reached (L ++ [e]) D) aborted.
Proof.
  intros He p [Hl Hd]. split; [|done]. simpl. rewrite life_app, Hl. f_equal.
  unfold life. by rewrite filter_cons_True.
Qed.

Lemma onlyStarts_app L l : onlyStarts L → onlyStarts (L ++ (Start <$> l)).
Proof.
  intros HL r [Hr|Hr]%elem_of_app; [by destruct (HL r)|].
  apply list_elem_of_fmap in Hr as (r' & [=] & _).
Qed.

Lemma then_runs L D L' D' (m k : P unit) Q :
  triple (reached L D) m (λ _, reached L' D') aborted → triple (reached L' D') k Q aborted →
  triple (reached L D) (m ⨟ k) Q aborted.
Proof. intros Hm Hk. by eapply triple_bind. Qed.

Lemma maybe_runs (b : bool) L D m :
  triple (reached L D) m (λ _, reached L D) aborted → triple (reached L D) (when b m) (λ _, reached L D) aborted.
Proof. intros Hm. destruct b; [done|by intros p Hp]. Qed.

Lemma opt_runs (b : bool) L D m r :
  triple (reached L D) m (λ _, reached (L ++ [Start r]) (r :: D)) aborted →
  triple (reached L D) (when b m) (λ _, reached (L ++ (Start <$> opt b r)) (opt b r ++ D)) aborted.
Proof. intros Hm. destruct b; [done|]. intros p [Hl Hd]. split; [by rewrite app_nil_r|done]. Qed.

Lemma cache_runs cfg L D :
  triple (reached L D) (startCache cfg)
    (λ _, reached (L ++ (Start <$> opt (cEnabled (CacheC cfg)) (cacheKind cfg))) D) aborted.
Proof.
  unfold startCache. destruct (cEnabled (CacheC cfg)); [by apply emit_runs|].
  intros p [Hl Hd]. split; [by rewrite app_nil_r|done].
Qed.

Lemma cacheKind_kept cfg : cacheKind cfg = RMemoryCache ∨ cacheKind cfg = RRedisCache.
Proof. unfold cacheKind. destruct (_ && _); auto. Qed.

Lemma try_acquire_runs L D t r :
  onlyStarts L → triple (reached L D) (attempts t ⨟ acquire r) (λ _, reached (L ++ [Start r]) (r :: D)) aborted.
Proof. intros HL. eapply then_runs; [by apply attempts_runs|]. apply acquire_runs. Qed.

Lemma discovery_runs cfg L D :
  onlyStarts L →
  triple (reached L D) (startDiscovery cfg)
    (λ _, reached (L ++ (Start <$> opt (yEnabled (Config.Discovery cfg)) RDiscovery))
            (opt (yEnabled (Config.Discovery cfg)) RDiscovery ++ D)) aborted.
Proof.
  intros HL. apply opt_runs. eapply then_runs; [by apply attempts_runs|].
  eapply then_runs; [apply acquire_runs|]. apply attempts_runs.
  by apply (onlyStarts_app L [RDiscovery]).
Qed.

Lemma crypto_runs cfg L D :
  onlyStarts L → triple (reached L D) (startCrypto cfg) (λ _, reached L D) aborted.
Proof.
  intros HL. apply maybe_runs. eapply then_runs; [by apply maybe_runs, attempts_runs|].
  by apply attempts_runs.
Qed.

Lemma storage_runs cfg L D :
  onlyStarts L → triple (reached L D) (startStorage cfg) (λ _, reached L D) aborted.
Proof. intros HL. unfold startStorage. case_bool_decide; by apply attempts_runs. Qed.

Lemma startup_runs cfg :
  let l := startedBy cfg in
  triple (reached [] []) (startup cfg)
    (λ _, reached ((Start <$> l) ++ [Start RContext; Start RHttp] ++
                   (Start <$> opt (GRPCEnabled (Server cfg)) RGrpc)) (reverse (stopped l))) aborted.
Proof.
  assert (onlyStarts []) as H0 by (intros r; apply not_elem_of_nil).
  pose proof (onlyStarts_app _ [RLogger] H0) as H1. pose proof (onlyStarts_app _ [RDatabase] H1) as H2.
  pose proof (onlyStarts_app _ (opt (rEnabled (Redis cfg)) RRedis) H2) as H3.
  pose proof (onlyStarts_app _ (opt (eEnabled (Etcd cfg)) REtcd) H3) as H4.
  pose proof (onlyStarts_app _ (opt (yEnabled (Config.Discovery cfg)) RDiscovery) H4) as H5.
  pose proof (onlyStarts_app _ (opt (consistent (ConsistencyC cfg)) RConsistency) H5) as H6.
  unfold startup, startServices. simpl in *.
  eapply then_runs; [by apply attempts_runs|].
  eapply then_runs; [by apply attempts_runs|]. eapply then_runs; [apply acquire_runs|].
  eapply then_runs; [by apply attempts_runs|]. eapply then_runs; [apply acquire_runs|].
  eapply then_runs; [by apply attempts_runs|]. eapply then_runs; [by apply storage_runs|].
  eapply then_runs; [by apply opt_runs, try_acquire_runs|].
  eapply then_runs; [by apply opt_runs, try_acquire_runs|].
  eapply then_runs; [by apply discovery_runs|].
  eapply then_runs; [by apply opt_runs, try_acquire_runs|].
  eapply then_runs; [by apply crypto_runs|].
  eapply then_runs; [apply cache_runs|].
  pose proof (onlyStarts_app _ (opt (cEnabled (CacheC cfg)) (cacheKind cfg)) H6) as H7.
  eapply then_runs; [by apply maybe_runs, attempts_runs|].
  eapply then_runs; [apply acquire_runs|]. eapply then_runs; [apply acquire_runs|].
  eapply then_runs; [by apply emit_runs|]. eapply then_runs; [by apply emit_runs|].
  intros p [Hl Hd]. unfold startedBy, started. destruct (cacheKind_kept cfg) as [Hk|Hk]; rewrite Hk in *; clear Hk H1 H2 H3 H4 H5 H6 H7;
    revert Hl Hd; generalize (rEnabled (Redis cfg)), (eEnabled (Etcd cfg)), (yEnabled (Config.Discovery cfg)),
      (consistent (ConsistencyC cfg)), (cEnabled (CacheC cfg));
    intros b1 b2 b3 b4 b5 Hl Hd;
    destruct (GRPCEnabled (Server cfg)); simpl; (split; [simpl; rewrite ?life_app, Hl|simpl; rewrite Hd]);
    by destruct b1, b2, b3, b4, b5.
Qed.

Lemma shutdown_runs cfg L D p :
  reached L D p →
  ∃ p', shutdown cfg p = (Ok tt, p') ∧ deferred p' = [] ∧
    life (trace_ p') = L ++ [Stop RContext; Stop RHttp] ++ (Stop <$> opt (GRPCEnabled (Server cfg)) RGrpc) ++
                       (Stop <$> D).
Proof.
  intros [Hl Hd]. unfold shutdown, emit, when, mbind, M_bind, modify. simpl.
  assert (∀ l : list resource, life (Stop <$> l) = Stop <$> l) as Hstop.
  { intros l. induction l as [|r l IH]; [done|]. unfold life in *. rewrite fmap_cons, filter_cons_True by done.
    f_equal. exact IH. }
  destruct (GRPCEnabled (Server cfg)); simpl; eexists; (split; [done|]); (split; [done|]); simpl;
    by rewrite Hd, !life_app, Hl, Hstop, <-!(assoc_L (++)).
Qed.

End process.

(** ** The order *)

(** What a component calls while it runs; everything but the caches writes to the log. *)
Definition uses (a b : resource) : bool :=
  match a, b with
  | (RLogger | RMemoryCache | RRedisCache), _ => false
  | _, RLogger => true
  | (RHttp | RGrpc | RSessionCleanup), (RDatabase | RRedis) => true
  | RHttp, (RMemoryCache | RRedisCache) => true
  | RCleanup, RDatabase => true
  | _, _ => false
  end.

Definition isStart (r : resource) (e : event) : bool :=
  match e with Start r' => bool_decide (r' = r) | _ => false end.
Definition isStop (r : resource) (e : event) : bool :=
  match e with Stop r' => bool_decide (r' = r) | _ => false end.

(** The first event with [p] comes before one with [q]. *)
Fixpoint precedes (p q : event → bool) (l : list event) : bool :=
  match l with
  | [] => false
  | e :: l => if p e then existsb q l else precedes p q l
  end.

Definition resources : list resource :=
  [RLogger; RDatabase; RRedis; REtcd; RDiscovery; RConsistency; RMemoryCache; RRedisCache;
   RSessionCleanup; RCleanup; RContext; RHttp; RGrpc].

(** [a], which uses [b], starts after it and stops before it does, if it does. *)
Definition orderedPair (l : list event) (a b : resource) : bool :=
  implb (uses a b && existsb (isStart a) l && existsb (isStart b) l)
    (precedes (isStart b) (isStart a) l && implb (existsb (isStop b) l) (precedes (isStop a) (isStop b) l)).

(** Started at most once; and stopped as often, afterwards, or never. *)
Definition balancedFor (l : list event) (r : resource) : bool :=
  let n := length (List.filter (isStart r) l) in
  let m := length (List.filter (isStop r) l) in
  (n <=? 1)%nat &&
  if neverStopped r then (m =? 0)%nat
  else (n =? m)%nat && implb (existsb (isStart r) l) (precedes (isStart r) (isStop r) l).

Definition orderly (l : list event) : bool :=
  forallb (λ a, balancedFor l a && forallb (orderedPair l a) resources) resources.

Lemma lifeOf_orderly b1 b2 b3 b4 b5 kind b6 :
  neverStopped kind = true → orderly (lifeOf b1 b2 b3 b4 b5 kind b6) = true.
Proof.
  intros Hk. destruct kind; try discriminate Hk; destruct b1, b2, b3, b4, b5, b6; vm_compute; reflexivity.
Qed.

Lemma orderly_spec l :
  orderly l = true →
  (∀ a, balancedFor l a = true) ∧ ∀ a b, orderedPair l a b = true.
Proof.
  unfold orderly. rewrite forallb_forall. intros Hall.
  assert (∀ r : resource, In r resources) as Hin by (intros []; simpl; tauto).
  split; intros a; specialize (Hall a (Hin a)); apply andb_true_iff in Hall as [Ha Hb]; [done|].
  intros b. by apply (proj1 (forallb_forall _ _) Hb).
Qed.


(** Without a failure the run is complete. *)
Definition completes (m : M process unit) : Prop := ∀ p, ∃ p', m p = (Ok tt, p').

Lemma completes_bind (m k : M process unit) : completes m → completes k → completes (m ⨟ k).
Proof. intros Hm Hk p. unfold mbind, M_bind. destruct (Hm p) as [p' ->]. apply Hk. Qed.

Lemma main_completes fails keyFile hostname cfg :
  (∀ t, fails t = None) → completes (main fails keyFile hostname cfg).
Proof.
  intros Hf. assert (∀ t, completes (attempts fails t)) as Ha.
  { intros t p. unfold attempts, emit, mbind, M_bind, modify. rewrite Hf. by eexists. }
  assert (∀ e, completes (emit e)) as He by (intros e p; by eexists).
  assert (∀ r, completes (acquire r)) as Hq by (intros r p; by eexists).
  assert (∀ b m, completes m → completes (when b m)) as Hw.
  { intros [] m Hm; [done|]. intros p. by eexists. }
  assert (∀ f, completes (modify f)) as Hm by (intros f p; by eexists).
  unfold main, startup, startServices, shutdown, startStorage, startRedis, startEtcd, startDiscovery, startQuorums, startCrypto, startCache.
  repeat lazymatch goal with
  | |- completes (mbind _ _) => apply completes_bind
  | |- completes (when _ _) => apply Hw
  | |- completes (if bool_decide ?Q then _ else _) => destruct (bool_decide Q)
  | |- _ => auto
  end.
Qed.

(** C38: the server starts and stops its parts in order, the cache apart. A run of main
    either ends with os.Exit because a step failed, and then nothing has been stopped;
    or, and always when no step fails, every part that was started, and no other, is
    stopped exactly once and after its start, with nothing left deferred, whatever the
    configuration switches on; but a cache, in memory or in Redis, is never stopped. A
    part is started after the parts it calls and stopped before those of them that are
    stopped: the servers are drained, and the HTTP server's pending audit entries
    written, before the clean-up services stop, the connections to etcd and Redis close,
    and the database closes after all of them. *)
Theorem process_ordered (fails : attempt → option error) (keyFile : string → string)
    (hostname : string) (cfg : Config) :
  let '(r, p) := main fails keyFile hostname cfg (MkProcess [] []) in
  ((∀ t, fails t = None) → r = Ok tt) ∧
  match r with
  | Err _ => aborted p
  | Ok _ =>
      let l := life (trace_ p) in
      deferred p = [] ∧ l = expected cfg ∧
      (∀ a, balancedFor l a = true) ∧ ∀ a b, orderedPair l a b = true
  end.
Proof.
  pose proof (startup_runs fails keyFile hostname cfg (MkProcess [] []) (conj eq_refl eq_refl)) as Hs.
  pose proof (λ Hf, main_completes fails keyFile hostname cfg Hf (MkProcess [] [])) as Hc. revert Hc.
  unfold main, mbind, M_bind. destruct (startup fails keyFile hostname cfg _) as [[[]|e] p].
  2: { intros Hc. split; [|done]. intros Hf. destruct (Hc Hf) as [? [=]]. }
  destruct (shutdown_runs cfg _ _ p Hs) as (p' & -> & Hd & Hl). intros _. split; [done|]. split; [done|].
  assert (life (trace_ p') = expected cfg) as He.
  { rewrite Hl. unfold expected, lifeOf. by rewrite <-!(assoc_L (++)). }
  split; [done|]. rewrite He. apply orderly_spec, lifeOf_orderly.
  by destruct (cacheKind_kept cfg) as [-> | ->].
Qed.

(** ** Temp directories of earlier runs *)

Definition orphanPrefix : string := "fsserver-uploads-".

(** [entries]: what os.ReadDir returned. Errors are only logged. *)
Fixpoint removeOrphans (tempDir : string) (entries : list string) : M Sys unit :=
  match entries with
  | [] => mret tt
  | name :: entries =>
      (if HasPrefix name orphanPrefix then ignore (osCall (osRemoveAll (PathJoin [tempDir; name]))) else mret tt) ⨟
      removeOrphans tempDir entries
  end.

(** Nothing else in the file system is touched. *)
Lemma orphans_only tempDir entries s q :
  (∀ name, name ∈ entries → HasPrefix name orphanPrefix = true →
     q ≠ PathJoin [tempDir; name] ∧ below (PathJoin [tempDir; name]) q = false) →
  os (removeOrphans tempDir entries s).2 !! q = os s !! q.
Proof.
  revert s. induction entries as [|name entries IH]; intros s Hq; [done|]. cbn [removeOrphans].
  unfold mbind, M_bind. destruct (HasPrefix name orphanPrefix) eqn:Hp; simpl.
  2: { apply IH. intros n Hn. apply Hq. by right. }
  unfold ignore. pose proof (osCall_os (osRemoveAll (PathJoin [tempDir; name])) s) as Hos.
  destruct (osCall _ s) as [r s1]. simpl in *. rewrite IH by (intros n Hn; apply Hq; by right).
  destruct Hos as [->| ->]; [done|]. simpl. destruct (Hq name) as [Hne Hb]; [by left|done|].
  destruct (os s !! q) as [n|] eqn:E.
  - apply map_lookup_filter_Some. done.
  - apply map_lookup_filter_None. by left.
Qed.

(** ** The first migration *)

Inductive columnType := VARCHAR (n : Z) | BIGINT | TIMESTAMP | BOOLEAN | TEXT.
Inductive constraint := PRIMARY_KEY | UNIQUE | NOT_NULL | DEFAULT (v : string).

#[export] Instance constraint_eq_dec : EqDecision constraint.
Proof. solve_decision. Defined.

Record column := MkColumn { colName : string; colType : columnType; colConstraints : list constraint }.

(** Every statement has IF NOT EXISTS. *)
Inductive statement :=
| CreateTable (name : string) (columns : list column)
| CreateIndex (name table column : string).

Definition idColumn : column := MkColumn "id" (VARCHAR 36) [PRIMARY_KEY].
Definition stampColumn (name : string) : column :=
  MkColumn name TIMESTAMP [NOT_NULL; DEFAULT "CURRENT_TIMESTAMP"].
Definition flagColumn (name v : string) : column := MkColumn name BOOLEAN [NOT_NULL; DEFAULT v].
Definition counter (name : string) : column := MkColumn name BIGINT [NOT_NULL; DEFAULT "0"].

Definition initialSchema : list statement :=
  [CreateTable "files"
     [idColumn; MkColumn "path" (VARCHAR 1024) [UNIQUE; NOT_NULL]; MkColumn "name" (VARCHAR 255) [NOT_NULL];
      counter "size"; MkColumn "hash" (VARCHAR 64) [];
      MkColumn "storage_type" (VARCHAR 32) [NOT_NULL; DEFAULT "'local'"];
      MkColumn "storage_location" (VARCHAR 512) []; stampColumn "created_at"; stampColumn "updated_at";
      flagColumn "is_deleted" "FALSE"];
   CreateIndex "idx_files_path" "files" "path";
   CreateIndex "idx_files_name" "files" "name";
   CreateIndex "idx_files_is_deleted" "files" "is_deleted";
   CreateTable "directories"
     [idColumn; MkColumn "path" (VARCHAR 1024) [UNIQUE; NOT_NULL]; MkColumn "name" (VARCHAR 255) [NOT_NULL];
      stampColumn "created_at"; stampColumn "updated_at"; flagColumn "is_deleted" "FALSE"];
   CreateIndex "idx_dirs_path" "directories" "path";
   CreateIndex "idx_dirs_is_deleted" "directories" "is_deleted";
   CreateTable "transfer_tasks"
     [idColumn; MkColumn "type" (VARCHAR 16) [NOT_NULL]; MkColumn "file_id" (VARCHAR 36) [];
      MkColumn "client_id" (VARCHAR 128) []; counter "offset"; counter "total_size";
      MkColumn "status" (VARCHAR 16) [NOT_NULL; DEFAULT "'pending'"];
      stampColumn "created_at"; stampColumn "updated_at"];
   CreateIndex "idx_tasks_file_id" "transfer_tasks" "file_id";
   CreateIndex "idx_tasks_client_id" "transfer_tasks" "client_id";
   CreateIndex "idx_tasks_status" "transfer_tasks" "status";
   CreateTable "audit_log"
     [idColumn; stampColumn "timestamp"; MkColumn "operation" (VARCHAR 32) [NOT_NULL];
      MkColumn "resource_path" (VARCHAR 1024) [NOT_NULL]; MkColumn "user_identifier" (VARCHAR 128) [];
      MkColumn "client_ip" (VARCHAR 64) []; MkColumn "user_agent" (VARCHAR 256) [];
      flagColumn "success" "TRUE"; MkColumn "details" TEXT []];
   CreateIndex "idx_audit_timestamp" "audit_log" "timestamp";
   CreateIndex "idx_audit_operation" "audit_log" "operation";
   CreateIndex "idx_audit_resource" "audit_log" "resource_path";
   CreateTable "api_keys"
     [idColumn; MkColumn "key_hash" (VARCHAR 256) [NOT_NULL; UNIQUE]; MkColumn "name" (VARCHAR 128) [NOT_NULL];
      MkColumn "description" (VARCHAR 512) []; MkColumn "permissions" TEXT []; stampColumn "created_at";
      MkColumn "expires_at" TIMESTAMP []; MkColumn "last_used_at" TIMESTAMP []; flagColumn "is_active" "TRUE"];
   CreateIndex "idx_api_keys_hash" "api_keys" "key_hash";
   CreateIndex "idx_api_keys_active" "api_keys" "is_active"].

(** The body of Up: the statements in order, up to the first that fails. *)
Fixpoint migrationUp {W} (exec : statement → M W unit) (l : list statement) : M W unit :=
  match l with
  | [] => mret tt
  | stmt :: l => wrapErr "failed to execute migration statement" (exec stmt) ⨟ migrationUp exec l
  end.

(** A catalogue: the columns of each table, and the names of the indexes. An index of
    a table or column that does not exist is refused. *)
Definition catalogue : Type := list (string * list column) * list string.

Definition columnsOf (name : string) (c : catalogue) : option (list column) :=
  snd <$> head (filter (λ t, t.1 = name) c.1).

Definition execDDL (stmt : statement) : M catalogue unit := λ c,
  match stmt with
  | CreateTable name columns =>
      (Ok tt, (match columnsOf name c with Some _ => c.1 | None => (name, columns) :: c.1 end, c.2))
  | CreateIndex name table col =>
      if bool_decide (name ∈ c.2) then (Ok tt, c)
      else match columnsOf table c with
           | Some columns =>
               if bool_decide (col ∈ colName <$> columns) then (Ok tt, (c.1, name :: c.2))
               else (Err (ErrMsg "no such column"), c)
           | None => (Err (ErrMsg "no such table"), c)
           end
  end.

(** The columns that identify a row: PRIMARY KEY or UNIQUE. *)
Definition keysOf (columns : list column) : list string :=
  colName <$> filter (λ c, PRIMARY_KEY ∈ colConstraints c ∨ UNIQUE ∈ colConstraints c) columns.

(** The migration succeeds on an empty database, a second run of its statements changes
    nothing, and the tables then have the constraints that the model of the metadata
    services assumes. *)
Lemma migration_schema :
  let r := migrationUp execDDL initialSchema ([], []) in
  r.1 = Ok tt ∧ migrationUp execDDL initialSchema r.2 = (Ok tt, r.2) ∧
  (keysOf <$> columnsOf "files" r.2) = Some ["id"; "path"] ∧
  (keysOf <$> columnsOf "directories" r.2) = Some ["id"; "path"] ∧
  (keysOf <$> columnsOf "transfer_tasks" r.2) = Some ["id"] ∧
  (keysOf <$> columnsOf "audit_log" r.2) = Some ["id"] ∧
  (keysOf <$> columnsOf "api_keys" r.2) = Some ["id"; "key_hash"].
Proof. cbv zeta. do 6 (split; [vm_compute; reflexivity|]). vm_compute. reflexivity. Qed.

(** The instance that a server registers has a name without a slash, so that Discover
    of that name finds it and no service with a longer name. *)
Lemma instance_named hostname cfg :
  siName (instanceOf hostname cfg) = "fsserver" ∧ sIn slash (siName (instanceOf hostname cfg)) = false.
Proof. done. Qed.
